(* ===== verification/_CoqProject ===== *)
-Q . S2P
Prelude.v
Str.v
Path.v
Unit.v
Cfti.v
Events.v
Broadcaster.v
Foreign.v
Config.v
Env.v
Samples.v
Descriptions.v
Interface.v
Trigger.v
Logger.v
Jig.v
Test.v
Scenario.v
ScenarioProps.v
ScenarioTheorems.v
Manager.v
ManagerProps.v
ManagerSafety.v
ManagerFrames.v
Reload.v
ManagerTheorems.v
Session.v
System.v
Earned.v
SystemStart.v
Cleanup.v
Library.v
LibraryProps.v
LibraryLoads.v
LibraryIdle.v
LibraryTheorems.v
LibraryCurrent.v
LibraryFiles.v
Quiesce.v
QuiesceProps.v
Loader.v
Terminal.v
Main.v
Live.v
Quiet.v
Program.v
UnitTests.v
Stale.v
