(* ===== verification/Prelude.v ===== *)
(** * Exclave: a verification library for the factory-test orchestrator

    Exclave ([src/src/*.rs]) watches directories of unit files, loads the units
    they describe, and runs scenarios of tests on a jig while interfaces show
    the operator what happens.  This library models the program and proves what
    makes it correct; definitions keep the names of the source, and PROJECT.json
    maps each of them to its lines.

    ** The program and its parts

    One main thread reads events from a bus and gives each to the loader, the
    library and the debounce timer, in this order ([main.rs]).  What they
    broadcast goes back over the bus to every subscriber.  Other threads only
    broadcast, or send control messages that one thread turns into broadcasts:
    the file watcher, the timer, the keyboard, the readers of the children's
    outputs and the signal handler.
      - A change of a file becomes an [Added], [Updated] or [Removed] event
        (Loader), which the loader turns into a request to load, update or
        unload the unit; the library (Library) reads the unit's description
        (Descriptions) and marks it.
      - When no event came for a second the timer (Quiesce) requests a rescan:
        the library unloads and loads what is marked through the manager
        (Manager) and selects and activates it.
      - The manager keeps the loaded, selected and active units, serves the
        requests of interfaces (Interface) and triggers (Trigger), gives log
        entries to loggers (Logger), asks jigs whether they fit (Jig), and
        advances the current scenario (Scenario), which starts and stops tests
        (Test) by messages to the manager.
      - The terminal (Terminal) is a subscriber that prints the events.

    ** The files

    - Prelude: results, record update, the monad of runs that may panic or use
      up their fuel, and [runs_to], the Hoare-style judgement the proofs about
      stateful code are written in.  Str, Path: the parts of [str] and
      [std::path] the program uses.
    - Unit ([unit.rs]): names and their parsing, the error types.  Cfti: the
      escaping of the text protocol ([interface.rs], [logger.rs],
      [trigger.rs]).
    - Events ([unitbroadcaster.rs], the messages of [unitmanager.rs]);
      Broadcaster (the bus: senders, and receivers that may be gone).
    - Foreign: what the program takes from libraries, as classes of operations
      with their laws.  Config ([config.rs]).  Env: clocks, children and the
      iteration order of hash maps, asked of the world; and the outputs.
      Samples: concrete instances of these classes, used by the witnesses.
    - Descriptions (the six [from_path]s of [units/*.rs]); Interface, Trigger,
      Logger, Jig, Test (one per file of [units/]).
    - Scenario, ScenarioProps, ScenarioTheorems ([units/scenario.rs]): the state
      machine of a run, its invariant and steps, and its theorems.
    - Manager, ManagerProps, ManagerSafety, ManagerFrames, ManagerTheorems
      ([unitmanager.rs]): the operations; what each leaves alone; that each
      request and load runs to its end; the relations every operation keeps,
      as classes ([Frame] and its subclasses); the theorems.
    - Reload: which description each unit is loaded with, and how the loads and
      unloads of the manager change that.
    - Session: a run of the manager seen as a run of the scenario machine, and
      the answer to a request to start a test.
    - System: the closed loop of the manager, the messages on their way to it
      and the threads of tests and support commands.  SystemStart: the
      operator's request that begins it.  Earned: the way of each result from
      the command of a test into the code that is announced.  Cleanup: the
      requests to stop what a scenario started.
    - Library, LibraryProps, LibraryIdle, LibraryTheorems ([unitlibrary.rs]):
      the same for the library and its rescan.  LibraryLoads, LibraryCurrent:
      what a rescan does to each unit, and that it brings all up to date.
      LibraryFiles: the same over any history of messages, with files that
      change in between.
    - Quiesce, QuiesceProps ([quiesce/]): the timer and its worker as a machine
      of atomic steps.
    - Loader ([unitwatcher.rs], [unitloader.rs]), Terminal ([terminal.rs]),
      Main and Program ([main.rs]): the loop, and the start of the program up
      to the first rescan.  Quiet: the loop when only the timer's thread and the
      clock move.  Live: the loop together with the threads of the commands,
      which simulates System.
    - Stale: a result that arrives after the scenario it belongs to is gone.
    - UnitTests ([test.rs]): the unit tests of the repository, run on the model.

    ** How the code is modelled

    A [&mut self] method is a computation of the monad [M S]: a state to a
    result and a state, a panic with its message, or [OutOfFuel].  Every
    [unwrap], [expect], index, checked addition and [unimplemented!] of the
    source that can fail is a panic of the model; the [RefCell]s that the manager borrows
    across calls carry their borrows ([m_cs_borrow], [m_cj_borrow]).  Scenarios
    live in a heap, since [current_scenario] and [scenarios] share them.
    Sends, broadcasts, started and stopped children and written texts are
    appended to [io_out].  Maps and sets are [gmap] and [gset]; a loop over a
    hash map asks the world for the order.  [u32] and [u64] counters are [Z]
    with the overflow the code has: a panic for [failures], wrapping for the
    timer ids.  Instants and durations are numbers of nanoseconds.

    Threads appear as interleaved steps where the order matters: the threads of
    a test (Test.thread_steps), the timer and its worker (Quiesce.step), the
    manager with the threads of all commands (System.sys_step), the main
    loop with all that broadcasts into it (Main.main_step), and both together
    (Live.live_step).  In System a message may overtake another on its way to
    the manager, and the units may send anything at any time, except requests to
    advance the scenario or start tests, and new scenarios; to its manager a
    request to rescan is as any other event.  In Live the library rescans, but
    only when there is nothing to do: no unit changes while a scenario runs.  A
    step of the main loop handles one message whole, the restart of the timer
    included; the broadcasts of the loader and the library, which the code makes
    while it handles the message, are collected and go out one by one before the
    next message, between those of the other threads.  The steps of the timer's
    worker between the two requests and the notification of one restart are in
    Quiesce.step only; the properties of the timer are proved there.  The worker's
    heap is a list from which any earliest event may be popped.  The start of the
    program ([Program.start_up]) is one computation in which any broadcasts of the
    signal handler, the watcher and the keyboard come between those of the main
    thread.

    What a file holds may differ each time a message is processed: the class
    [Files] is an argument of each step, so a run carries one instance per
    message.  The answers of the world that may differ from one question to the
    next (clocks, orders of iteration, whether a path exists, how a child
    starts) are a stream that [Env] hands out.  [canonicalize] is a fixed
    function.

    ** Fuel and bounds

    - [select] and [deselect] call each other at most four deep (a jig, its
      scenario, the old scenario, a test); the theorems ask for [4 <= depth]
      and show that no run then is [OutOfFuel].  They ask that the
      [DefaultScenario] of a jig is of kind scenario.
    - [find_next_state] tries each test once and five more states
      ([next_fuel]); [all_dependencies_succeeded] follows a chain of parents
      that goes back through the sequence ([deps_fuel]).  The theorems show
      that both are enough for every scenario that loading gives.
    - [program_lines] bounds what a jig's test program prints before a read
      fails; without such a failure the code itself does not end
      ([jig_test_program_hangs]).
    - [few]: fewer timers than a [u64] can count, so that ids do not repeat.
      [small]: fewer units than a [u32] can count, less 501, so that the finish
      code of a scenario does not overflow.

    ** What the theorems show

    - Scenarios that have a test to run and whose time does not limit their
      tests: advancing never panics and ends; tests start once, in dependency
      order, and after what they require; code 200 means that every test passed,
      if the scenario has no time limit and does not stop at zero failures; the
      other codes count the failures; the failure limit stops the run; loading
      gives such a scenario.
    - Tests: whatever the threads do, one result at most is reported, and the
      scenario is advanced exactly once.
    - The closed loop: in a session, where nobody chooses a scenario or a jig
      and none is started while none runs, the manager advances the scenario as
      its machine does; a request to start a test is answered; an operator's
      request to start the current scenario, whose tests are loaded, fit the
      loaded jigs and are inactive, begins the loop, and from there one thing is
      under way that will advance the scenario until it has finished, and then
      none; the result that is announced is that of the commands.  This holds of
      the whole program, from the moment the request is handled, by a
      simulation.  Once the scenario has finished, it and its tests are inactive
      or about to be.
    - Manager: operations never panic; at most one jig and one scenario are
      selected; active jigs, scenarios and tests are selected, selected ones
      loaded.
    - Library: no message that meets its condition makes it panic; its books are
      consistent; a rescan leaves nothing marked, forgets what is gone, and loads
      each unit that was marked with the description read from its file; so after
      any such messages and a rescan each unit is as its file was last asked for,
      but for the updates of tests, which the code does not act on ([heard]).
    - Timer: at most one rescan is pending, it is requested once and not
      before the delay, and it is requested when the worker runs; in a quiet
      moment it comes exactly when the last timer is due, within the delay, and
      with bounded steps, unless the notification of the worker was lost.
    - Bus, watcher and loader: every subscriber gets every event in order up to
      the first shutdown; each change of a file becomes one request.
    - Main loop: it handles every message that meets its condition, a shutdown
      ends it, and rescans do not cause rescans; its conditions include that the
      debug log, when there is one, takes every line ([log_ok]).
    - Program: it starts exactly when the watcher, the signal handler, the
      directories and the debug log are there; the start announces every unit
      file of the configuration directories to all subscribers, and the first
      rescan that an idle loop finds grants what was last asked for each of them;
      when nothing more comes, this rescan is requested by itself, when the timer
      is due.
    - Protocols: escaping and un-escaping, one line per message, the fields of
      a log line, lists of names, and what each line of a scenario's file means.
    - Terminal: it follows the events and replaces its screen, or panics because
      its output failed, and for no other reason.
    - The model agrees with the unit tests: they pass on it, and those that look
      for a logged line fail when the thread that logs it is slow.
    - Errors: the remaining theorems show what the code does where it does not
      do what it means to; each says in which state.

    The conditions of the safety theorems are those under which the errors do
    not occur: interfaces whose format is text, requests from loaded
    interfaces, scenarios with a test to run and without a time limit, jigs
    whose test program ends and whose default scenario is one, and the end of a
    scenario announced when it is inactive ([message_ok], [op_ok]).

    ** Not modelled

    - The parsing of the command line in [main.rs] (its result is
      [Program.Args]), a call of a library.  That the signal handler is set and
      the file watcher made, or not, are answers of the class [Program.Disk]; what
      their threads broadcast are steps.
    - The threads of an activation of a test that are still running when the test
      is activated again, which share the cell of its result
      ([units/test.rs:342]): [Test.spawned] has the threads of one activation.
    - Texts are bytes; [to_lowercase] maps the ASCII letters only, so names with
      other capital letters in requests are outside the model.
    - Printing with [eprintln!] is left out.
    - [src/build.rs], the build script. *)

From Stdlib Require Export Ascii.
From stdpp Require Export strings pretty numbers gmap base tactics list.

(** stdpp blocks the reduction of [append]; the string proofs need it. *)
#[global] Arguments String.append !s1 s2 /.

(** ** Results: Rust's [Result<T, E>] *)

Inductive result (E A : Type) : Type :=
  | Ok (a : A)
  | Err (e : E).
Arguments Ok {E A} a.
Arguments Err {E A} e.

#[export] Instance result_ret E : MRet (result E) := fun A a => Ok a.
#[export] Instance result_bind E : MBind (result E) :=
  fun A B k r => match r with Ok a => k a | Err e => Err e end.
#[export] Instance result_fmap E : FMap (result E) :=
  fun A B f r => match r with Ok a => Ok (f a) | Err e => Err e end.

(** [map_err] is what [?] does with [From] on the error type. *)
Definition map_err {E F A} (f : E -> F) (r : result E A) : result F A :=
  match r with Ok a => Ok a | Err e => Err (f e) end.

Definition is_ok {E A} (r : result E A) : bool :=
  match r with Ok _ => true | Err _ => false end.

(** A loop that pushes one converted item per iteration and leaves at the
    first error with [?]. *)
Fixpoint result_mapM {E A B} (f : A -> result E B) (l : list A) : result E (list B) :=
  match l with
  | [] => Ok []
  | x :: l => y ← f x; ys ← result_mapM f l; Ok (y :: ys)
  end.

Lemma result_mapM_app {E A B} (f : A -> result E B) l1 l2 :
  result_mapM f (l1 ++ l2) =
    (ys1 ← result_mapM f l1; ys2 ← result_mapM f l2; Ok (ys1 ++ ys2)).
Proof.
  induction l1 as [|x l1 IH]; simpl.
  - by destruct (result_mapM f l2).
  - destruct (f x); simpl; [|done]. rewrite IH.
    destruct (result_mapM f l1); simpl; [|done].
    by destruct (result_mapM f l2).
Qed.

Lemma result_mapM_Ok {E A B} (f : A -> result E B) l ys :
  result_mapM f l = Ok ys <-> Forall2 (fun x y => f x = Ok y) l ys.
Proof.
  revert ys. induction l as [|x l IH]; intros ys; simpl.
  - split; [intros [= <-]; constructor | inversion 1; done].
  - split.
    + destruct (f x) eqn:Hx; simpl; [|done].
      destruct (result_mapM f l) eqn:Hl; simpl; [|done].
      intros [= <-]. constructor; [done|]. by apply IH.
    + inversion 1 as [|? y ? ys' Hx Hl]; subst. rewrite Hx. simpl.
      by rewrite (proj2 (IH _) Hl).
Qed.

(** ** Record update

    [r <| f := v |>] and [r <| f ::= g |>] for a record with an [Eta] instance,
    which spells the record out as its constructor applied to its fields.  The
    setter abstracts the field in that term. *)

Class Eta (R : Type) := mkEta { eta_expand : R -> R }.
Class Setter {R E : Type} (proj : R -> E) := mkSetter { set_with : (E -> E) -> R -> R }.
Arguments set_with {R E} proj {_} f r /.

Ltac derive_setter :=
  lazymatch goal with
  | |- @Setter ?R ?E ?proj =>
    let inst := constr:(_ : Eta R) in
    refine (mkSetter R E proj (fun (f : E -> E) (r : R) => ltac:(
      let whole := eval hnf in (eta_expand (Eta := inst) r) in
      let abstracted := eval pattern (proj r) in whole in
      lazymatch abstracted with
      | ?g _ => let body := eval cbv beta in (g (f (proj r))) in exact body
      end)))
  end.
#[export] Hint Extern 1 (@Setter _ _ _) => derive_setter : typeclass_instances.

Declare Scope record_scope.
Open Scope record_scope.
Notation "r <| p := v |>" := (set_with p (fun _ => v) r)
  (at level 12, left associativity, p at level 9, v at level 99) : record_scope.
Notation "r <| p ::= f |>" := (set_with p f r)
  (at level 12, left associativity, p at level 9, f at level 99) : record_scope.

(** ** Running code: state, panics and fuel

    A computation on a state [S] ends normally, or panics (an [unwrap] on
    [None], an index out of range, a [RefCell] borrowed twice, an arithmetic
    overflow, [panic!]), or exhausts the fuel of a recursion that is not
    structural. *)

Inductive outcome (A : Type) : Type :=
  | Done (a : A)
  | Panic (msg : string)
  | OutOfFuel.
Arguments Done {A} a.
Arguments Panic {A} msg.
Arguments OutOfFuel {A}.

#[export] Instance outcome_ret : MRet outcome := fun A a => Done a.
#[export] Instance outcome_bind : MBind outcome :=
  fun A B k m => match m with Done a => k a | Panic s => Panic s | OutOfFuel => OutOfFuel end.

Definition is_done {A} (m : outcome A) : bool :=
  match m with Done _ => true | _ => false end.

(** State-passing computations. *)
Definition M (S A : Type) : Type := S -> outcome (A * S).

#[export] Instance M_ret S : MRet (M S) := fun A a s => Done (a, s).
#[export] Instance M_bind S : MBind (M S) :=
  fun A B k m s => match m s with
                   | Done (a, s') => k a s'
                   | Panic msg => Panic msg
                   | OutOfFuel => OutOfFuel
                   end.

Section M_ops.
Context {S : Type}.

Definition get : M S S := fun s => Done (s, s).
Definition gets {A} (f : S -> A) : M S A := fun s => Done (f s, s).
Definition modify (f : S -> S) : M S unit := fun s => Done (tt, f s).
Definition panic {A} (msg : string) : M S A := fun _ => Panic msg.
Definition out_of_fuel {A} : M S A := fun _ => OutOfFuel.

(** A computation without effects, and [Option::unwrap] or [expect]. *)
Definition liftO {A} (m : outcome A) : M S A :=
  fun s => match m with Done a => Done (a, s) | Panic msg => Panic msg | OutOfFuel => OutOfFuel end.
Definition unwrap {A} (msg : string) (o : option A) : M S A :=
  match o with Some a => mret a | None => panic msg end.

Definition when (b : bool) (m : M S unit) : M S unit := if b then m else mret tt.

(** A [for] loop. *)
Fixpoint forM {A} (l : list A) (f : A -> M S unit) : M S unit :=
  match l with
  | [] => mret tt
  | x :: l => f x ;; forM l f
  end.
End M_ops.

(** Run a computation on a part of the state. *)
Definition zoom {S T A} (getT : S -> T) (putT : T -> S -> S) (m : M T A) : M S A :=
  fun s => match m (getT s) with
           | Done (a, t) => Done (a, putT t s)
           | Panic msg => Panic msg
           | OutOfFuel => OutOfFuel
           end.

(** ** Inversion of runs *)

Lemma bind_Done {S A B} (m : M S A) (k : A -> M S B) s b s' :
  (m ≫= k) s = Done (b, s') <-> exists a s1, m s = Done (a, s1) /\ k a s1 = Done (b, s').
Proof.
  unfold mbind, M_bind. destruct (m s) as [[a s1]| |]; split.
  - intros H. by exists a, s1.
  - by intros (a' & s1' & [= <- <-] & H).
  - done.
  - by intros (a & s1 & ? & ?).
  - done.
  - by intros (a & s1 & ? & ?).
Qed.

(** Running the first part of a bind. *)
Lemma bind_step {S A B} (m : M S A) (k : A -> M S B) s a s1 :
  m s = Done (a, s1) -> (m ≫= k) s = k a s1.
Proof. intros Hm. unfold mbind, M_bind. by rewrite Hm. Qed.

Lemma gets_step {S A B} (f : S -> A) (k : A -> M S B) s : (gets f ≫= k) s = k (f s) s.
Proof. done. Qed.

Lemma bind_panics {S A B} (m : M S A) (k : A -> M S B) s msg :
  m s = Panic msg -> (m ≫= k) s = Panic msg.
Proof. intros Hm. unfold mbind, M_bind. by rewrite Hm. Qed.

(** From the state [w] the computation ends normally, by a step of the relation
    [R], with a result and in a state of [Q]. *)
Definition runs_to {S A} (R : relation S) (w : S) (m : M S A) (Q : A -> S -> Prop) : Prop :=
  exists a w', m w = Done (a, w') /\ R w w' /\ Q a w'.

Section runs_to.
Context {S : Type} (R : relation S).

Lemma rt_conseq {A} w (m : M S A) (R' : relation S) (Q Q' : A -> S -> Prop) :
  runs_to R' w m Q' -> (forall w', R' w w' -> R w w') -> (forall a w', R w w' -> Q' a w' -> Q a w') ->
  runs_to R w m Q.
Proof. intros (a & w' & Hrun & HR & HQ) Hsub Himp. exists a, w'. auto. Qed.

Lemma rt_ret `{!Reflexive R} {A} w (a : A) (Q : A -> S -> Prop) : Q a w -> runs_to R w (mret a) Q.
Proof. intros HQ. by exists a, w. Qed.

Lemma rt_gets `{!Reflexive R} {A} w (f : S -> A) (Q : A -> S -> Prop) :
  Q (f w) w -> runs_to R w (gets f) Q.
Proof. intros HQ. by exists (f w), w. Qed.

Lemma rt_modify w (f : S -> S) (Q : unit -> S -> Prop) :
  R w (f w) -> Q tt (f w) -> runs_to R w (modify f) Q.
Proof. intros HR HQ. by exists tt, (f w). Qed.

Lemma rt_bind `{!Transitive R} {A B} w (m : M S A) (k : A -> M S B) Q' Q :
  runs_to R w m Q' -> (forall a w', R w w' -> Q' a w' -> runs_to R w' (k a) Q) ->
  runs_to R w (m ≫= k) Q.
Proof.
  intros (a & w1 & Hrun & HR & HQ) Hk. destruct (Hk a w1 HR HQ) as (b & w2 & Hrun2 & HR2 & HQ2).
  exists b, w2. split_and!; [|by transitivity w1|done]. apply bind_Done. by exists a, w1.
Qed.

Lemma rt_gets_bind {A B} w (f : S -> A) (k : A -> M S B) Q :
  runs_to R w (k (f w)) Q -> runs_to R w (gets f ≫= k) Q.
Proof. done. Qed.

Lemma rt_assoc {A B C} w (m : M S A) (f : A -> M S B) (g : B -> M S C) Q :
  runs_to R w ((m ≫= f) ≫= g) Q -> runs_to R w (m ≫= fun a => f a ≫= g) Q.
Proof.
  intros (c & w' & Hrun & Hrest). exists c, w'. split; [|done]. revert Hrun.
  unfold mbind, M_bind. by destruct (m w) as [[a w1]| |].
Qed.

Lemma rt_when `{!Reflexive R} w b (m : M S unit) :
  (b = true -> runs_to R w m (fun _ _ => True)) -> runs_to R w (when b m) (fun _ _ => True).
Proof. destruct b; simpl; intros Hm; [auto|by apply rt_ret]. Qed.

Lemma rt_forM `{!PreOrder R} {A} w (l : list A) (f : A -> M S unit) :
  (forall x w', x ∈ l -> R w w' -> runs_to R w' (f x) (fun _ _ => True)) ->
  runs_to R w (forM l f) (fun _ _ => True).
Proof.
  revert w. induction l as [|x l IH]; intros w Hf; simpl; [by apply rt_ret|].
  eapply rt_bind; [by apply Hf; [left|]|]. intros ? w1 HR _. apply IH.
  intros y w' Hy HR'. apply Hf; [by right|by transitivity w1].
Qed.
End runs_to.

(** Steps of a proof that a computation runs: [rt_bind Q] splits a bind with
    [Q] for the first part; [rt_ret], [rt_gets], [rt_when], [rt_forM] end it. *)
Ltac rt_classes :=
  try lazymatch goal with
    | |- Transitive _ => typeclasses eauto
    | |- Reflexive _ => typeclasses eauto
    | |- PreOrder _ => typeclasses eauto
    end.
Tactic Notation "rt_bind" uconstr(Q) := eapply (rt_bind _ _ _ _ Q); rt_classes.
Tactic Notation "rt_ret" := apply rt_ret; rt_classes.
Tactic Notation "rt_gets" := apply rt_gets; rt_classes.
Tactic Notation "rt_when" := apply rt_when; rt_classes.
Tactic Notation "rt_forM" := apply rt_forM; rt_classes.

(** ** Frames *)

(** Every run of a computation is a step of the relation. *)
Definition frames {S A} (R : relation S) (m : M S A) : Prop :=
  forall s a s', m s = Done (a, s') -> R s s'.

Section frames.
Context {S : Type} (R : relation S) `{!PreOrder R}.

Lemma frames_ret {A} (a : A) : frames R (mret a).
Proof. intros s ? ? [= _ <-]. done. Qed.
Lemma frames_bind {A B} (m : M S A) (k : A -> M S B) :
  frames R m -> (forall a, frames R (k a)) -> frames R (m ≫= k).
Proof. intros Hm Hk s b s' (a & s1 & Hrun1 & Hrun2)%bind_Done. etransitivity; [by eapply Hm|by eapply Hk]. Qed.
Lemma frames_gets {A} (f : S -> A) : frames R (gets f).
Proof. intros s ? ? [= _ <-]. done. Qed.
Lemma frames_modify (f : S -> S) : (forall s, R s (f s)) -> frames R (modify f).
Proof. intros Hf s ? ? [= _ <-]. apply Hf. Qed.
Lemma frames_panic {A} msg : frames R (panic (A:=A) msg).
Proof. by intros s a s'. Qed.
Lemma frames_out_of_fuel {A} : frames R (out_of_fuel (A:=A)).
Proof. by intros s a s'. Qed.
Lemma frames_unwrap {A} msg (o : option A) : frames R (unwrap msg o).
Proof. destruct o; [apply frames_ret|apply frames_panic]. Qed.
Lemma frames_liftO {A} (m : outcome A) : frames R (liftO m).
Proof. destruct m as [a| |]; [apply frames_ret|by intros s b s'..]. Qed.
Lemma frames_when b (m : M S unit) : frames R m -> frames R (when b m).
Proof. destruct b; [done|intros _; apply frames_ret]. Qed.
Lemma frames_forM_in {A} (l : list A) (f : A -> M S unit) :
  (forall x, x ∈ l -> frames R (f x)) -> frames R (forM l f).
Proof.
  induction l as [|x l IH]; simpl; intros Hf; [apply frames_ret|].
  apply frames_bind; [apply Hf; by left|intros ?]. apply IH. intros y Hy. apply Hf. by right.
Qed.
Lemma frames_forM {A} (l : list A) (f : A -> M S unit) : (forall x, frames R (f x)) -> frames R (forM l f).
Proof. intros Hf. by apply frames_forM_in. Qed.
End frames.

Create HintDb frames.
#[export] Hint Resolve frames_ret frames_gets frames_panic frames_out_of_fuel frames_unwrap frames_liftO : frames.

(** Walk through the binds and cases of a computation; [leaf] closes the rest. *)
Ltac walk leaf :=
  repeat first
    [ solve [auto with frames nocore typeclass_instances]
    | leaf
    | apply frames_when; [typeclasses eauto|]
    | apply frames_forM; [typeclasses eauto|intros ?]
    | apply frames_bind; [typeclasses eauto| |intros ?]
    | case_match ].

(** Every result of a computation is good. *)
Definition yields {S A} (P : A -> Prop) (m : M S A) : Prop := forall s a s', m s = Done (a, s') -> P a.

Lemma yields_ret {S A} (P : A -> Prop) a : P a -> yields (S:=S) P (mret a).
Proof. by intros Ha s ? ? [= <- _]. Qed.
Lemma yields_bind {S A B} (P : A -> Prop) (m : M S B) k :
  (forall b, yields P (k b)) -> yields P (m ≫= k).
Proof. intros Hk s a s' (b & s1 & _ & Hrun)%bind_Done. by eapply Hk. Qed.

Ltac walk_yields := repeat first [apply yields_ret; done | case_match | apply yields_bind; intros ?].
