(* ===== verification/Str.v ===== *)
(** * Strings: the parts of Rust's [str] and [String] the program uses

    A Rust string is a sequence of bytes in UTF-8, modelled as a Rocq
    [string] whose characters are the bytes.  Every operation here works on
    bytes and agrees with the library's operation on the decoded characters,
    because all the patterns are ASCII or complete UTF-8 sequences and UTF-8
    is self-synchronising.  The one restriction is [to_lowercase], which maps
    the ASCII letters only: the program uses it on verbs, on the names of
    formats, and on the names of units in the requests of interfaces. *)

From S2P Require Import Prelude.

(** ** Characters used by the wire formats *)

Definition c_bs : ascii := "092"%char.
Definition c_tab : ascii := "009"%char.
Definition c_lf : ascii := "010"%char.
Definition c_cr : ascii := "013"%char.
Definition c_sp : ascii := " "%char.
Definition c_dot : ascii := "."%char.
Definition c_slash : ascii := "/"%char.
Definition c_comma : ascii := ","%char.
Definition c_quote : ascii := "034"%char.

Definition str1 (c : ascii) : string := String c EmptyString.

(** ** Membership of a character *)

Fixpoint has_char (c : ascii) (s : string) : bool :=
  match s with
  | EmptyString => false
  | String d s => Ascii.eqb d c || has_char c s
  end.

Lemma has_char_app c s t : has_char c (s +:+ t) = has_char c s || has_char c t.
Proof. induction s as [|d s IH]; simpl; [done|]. by rewrite IH, orb_assoc. Qed.

Lemma string_app_assoc (s t u : string) : (s +:+ t) +:+ u = s +:+ (t +:+ u).
Proof. induction s as [|c s IH]; simpl; [done|]. by rewrite IH. Qed.

Lemma string_app_empty_r (s : string) : s +:+ "" = s.
Proof. induction s as [|c s IH]; simpl; [done|]. by rewrite IH. Qed.

Lemma string_app_cons c (s t : string) : String c s +:+ t = String c (s +:+ t).
Proof. done. Qed.

(** ** [str::replace] *)

(** Replaces the non-overlapping occurrences of [pat], left to right.
    [skip] counts the bytes of the current occurrence still to be dropped. *)
Fixpoint replace_from (skip : nat) (pat to s : string) : string :=
  match s with
  | EmptyString => EmptyString
  | String c s' =>
    match skip with
    | S k => replace_from k pat to s'
    | 0 => if String.prefix pat s
           then to +:+ replace_from (Nat.pred (String.length pat)) pat to s'
           else String c (replace_from 0 pat to s')
    end
  end.

Definition replace (pat to s : string) : string := replace_from 0 pat to s.

(** With a one-character pattern a replacement is a character-wise map. *)
Fixpoint flat_map_char (f : ascii -> string) (s : string) : string :=
  match s with
  | EmptyString => EmptyString
  | String c s => f c +:+ flat_map_char f s
  end.

Lemma flat_map_char_app f s t :
  flat_map_char f (s +:+ t) = flat_map_char f s +:+ flat_map_char f t.
Proof. induction s as [|c s IH]; simpl; [done|]. by rewrite IH, string_app_assoc. Qed.

Lemma flat_map_char_comp f g s :
  flat_map_char g (flat_map_char f s) = flat_map_char (fun c => flat_map_char g (f c)) s.
Proof. induction s as [|c s IH]; simpl; [done|]. by rewrite flat_map_char_app, IH. Qed.

Lemma flat_map_char_ext f g s :
  (forall c, f c = g c) -> flat_map_char f s = flat_map_char g s.
Proof. intros Hfg. induction s as [|c s IH]; simpl; [done|]. by rewrite Hfg, IH. Qed.

Lemma prefix_empty s : String.prefix "" s = true.
Proof. by destruct s. Qed.

Lemma prefix_str1 p c s : String.prefix (str1 p) (String c s) = Ascii.eqb c p.
Proof.
  simpl. destruct (ascii_dec p c) as [->|Hne].
  - rewrite prefix_empty. symmetry. apply Ascii.eqb_refl.
  - symmetry. apply Ascii.eqb_neq. congruence.
Qed.

Lemma replace_char p to s :
  replace (str1 p) to s =
    flat_map_char (fun c => if Ascii.eqb c p then to else str1 c) s.
Proof.
  unfold replace. induction s as [|c s IH]; [done|].
  cbn [replace_from flat_map_char]. rewrite prefix_str1.
  destruct (Ascii.eqb c p); simpl; by rewrite IH.
Qed.

(** ** ASCII lower case *)

Definition lower_char (c : ascii) : ascii :=
  let n := nat_of_ascii c in
  if (65 <=? n) && (n <=? 90) then ascii_of_nat (n + 32) else c.

Fixpoint to_lowercase (s : string) : string :=
  match s with
  | EmptyString => EmptyString
  | String c s => String (lower_char c) (to_lowercase s)
  end.

Definition char_range (lo hi : nat) (c : ascii) : bool :=
  (lo <=? nat_of_ascii c) && (nat_of_ascii c <=? hi).

Lemma lower_char_idem c : lower_char (lower_char c) = lower_char c.
Proof. by destruct c as [[] [] [] [] [] [] [] []]; vm_compute. Qed.

Lemma to_lowercase_idem s : to_lowercase (to_lowercase s) = to_lowercase s.
Proof. induction s as [|c s IH]; simpl; [done|]. by rewrite lower_char_idem, IH. Qed.

(** ** White space *)

(** The number of bytes of the Unicode [White_Space] character [s] starts
    with, and 0 if it starts with none.  The characters are U+0009 to U+000D,
    U+0020, U+0085, U+00A0, U+1680, U+2000 to U+200A, U+2028, U+2029, U+202F,
    U+205F and U+3000. *)
Definition is_ws1 (c : ascii) : bool := char_range 9 13 c || Ascii.eqb c c_sp.

Definition is_ws2 (c1 c2 : ascii) : bool :=
  char_range 194 194 c1 && (char_range 133 133 c2 || char_range 160 160 c2).

Definition is_ws3 (c1 c2 c3 : ascii) : bool :=
  (char_range 225 225 c1 && char_range 154 154 c2 && char_range 128 128 c3)
  || (char_range 226 226 c1 && char_range 128 128 c2 &&
      (char_range 128 138 c3 || char_range 168 169 c3 || char_range 175 175 c3))
  || (char_range 226 226 c1 && char_range 129 129 c2 && char_range 159 159 c3)
  || (char_range 227 227 c1 && char_range 128 128 c2 && char_range 128 128 c3).

Definition ws_len (s : string) : nat :=
  match s with
  | EmptyString => 0
  | String c1 s1 =>
    if is_ws1 c1 then 1 else
    match s1 with
    | EmptyString => 0
    | String c2 s2 =>
      if is_ws2 c1 c2 then 2 else
      match s2 with
      | EmptyString => 0
      | String c3 _ => if is_ws3 c1 c2 c3 then 3 else 0
      end
    end
  end.

(** Prepend a finished word, which [split_whitespace] does not yield when it
    is empty. *)
Definition push_word (w : string) (ws : list string) : list string :=
  match w with EmptyString => ws | _ => w :: ws end.

(** The loop of [split_whitespace]: the word read so far and the words after
    it.  The word is built from its end, so the result for the rest of the
    string is a pair of the rest of the current word and the later words. *)
Fixpoint split_ws_from (skip : nat) (s : string) : string * list string :=
  match s with
  | EmptyString => ("", [])
  | String c s' =>
    match skip with
    | S k => split_ws_from k s'
    | 0 =>
      match ws_len s with
      | 0 => let '(w, ws) := split_ws_from 0 s' in (String c w, ws)
      | S k => let '(w, ws) := split_ws_from k s' in ("", push_word w ws)
      end
    end
  end.

Definition split_whitespace (s : string) : list string :=
  let '(w, ws) := split_ws_from 0 s in push_word w ws.

(** [s] contains no white space at any position. *)
Fixpoint ws_free (s : string) : bool :=
  match s with
  | EmptyString => true
  | String _ s' => (ws_len s =? 0) && ws_free s'
  end.

(** ** Splitting at a character, and joining *)

Fixpoint split_char (sep : ascii) (s : string) : list string :=
  match s with
  | EmptyString => [""]
  | String c s' =>
    if Ascii.eqb c sep then "" :: split_char sep s'
    else match split_char sep s' with
         | [] => [str1 c]
         | w :: ws => String c w :: ws
         end
  end.

Fixpoint join (sep : string) (l : list string) : string :=
  match l with
  | [] => ""
  | [x] => x
  | x :: l => x +:+ sep +:+ join sep l
  end.

(** ** Lemmas on splitting *)

Lemma split_char_free sep w : has_char sep w = false -> split_char sep w = [w].
Proof.
  induction w as [|c w IH]; simpl; [done|].
  destruct (Ascii.eqb c sep); simpl; [done|]. intros Hw. by rewrite IH.
Qed.

Lemma split_char_cons sep w r :
  has_char sep w = false -> split_char sep (w +:+ String sep r) = w :: split_char sep r.
Proof.
  induction w as [|c w IH]; simpl; intros Hw.
  - by rewrite Ascii.eqb_refl.
  - destruct (Ascii.eqb c sep); simpl in *; [done|]. by rewrite IH.
Qed.

(** Splitting at the separator a list was joined with gives the list back. *)
Lemma split_char_join sep w ws :
  Forall (fun x => has_char sep x = false) (w :: ws) ->
  split_char sep (join (str1 sep) (w :: ws)) = w :: ws.
Proof.
  revert w. induction ws as [|v ws IH]; intros w Hall; apply Forall_cons_1 in Hall as [Hw Hall].
  - by apply split_char_free.
  - change (join (str1 sep) (w :: v :: ws))
      with (w +:+ String sep (join (str1 sep) (v :: ws))).
    rewrite split_char_cons by done. by rewrite IH.
Qed.

Lemma char_range_ascii lo hi c :
  nat_of_ascii c < 128 -> 128 <= lo -> char_range lo hi c = false.
Proof. intros Hc Hlo. unfold char_range. apply andb_false_iff. left. apply Nat.leb_gt. lia. Qed.

(** An ASCII byte never completes a multi-byte character, so appending one
    does not change what the string before it starts with. *)
Lemma ws_len_app_ascii s sep t :
  s <> "" -> nat_of_ascii sep < 128 -> ws_len (s +:+ String sep t) = ws_len s.
Proof.
  intros Hs Hsep. destruct s as [|c1 [|c2 [|c3 s]]]; [done| | |done]; simpl;
    destruct (is_ws1 c1); try done.
  - unfold is_ws2. rewrite !(char_range_ascii _ _ sep) by lia.
    rewrite andb_false_r. destruct t as [|c3 t]; [done|].
    unfold is_ws3. rewrite !(char_range_ascii _ _ sep) by lia. by rewrite !andb_false_r.
  - destruct (is_ws2 c1 c2); [done|].
    unfold is_ws3. rewrite !(char_range_ascii _ _ sep) by lia. by rewrite !andb_false_r.
Qed.

Lemma ws_free_app_ascii s sep t :
  nat_of_ascii sep < 128 ->
  ws_free (s +:+ String sep t) = ws_free s && ws_free (String sep t).
Proof.
  intros Hsep. induction s as [|c s IH]; [done|].
  change (ws_free (String c s +:+ String sep t))
    with ((ws_len (String c s +:+ String sep t) =? 0) && ws_free (s +:+ String sep t)).
  rewrite ws_len_app_ascii by done. rewrite IH. cbn [ws_free]. by rewrite andb_assoc.
Qed.

Lemma split_ws_from_word w r :
  ws_free w = true -> split_ws_from 0 (w +:+ String c_sp r) = (w, split_whitespace r).
Proof.
  induction w as [|c w IH]; intros Hw.
  - simpl. unfold split_whitespace. by destruct (split_ws_from 0 r).
  - change (ws_free (String c w)) with ((ws_len (String c w) =? 0) && ws_free w) in Hw.
    apply andb_true_iff in Hw as [Hc Hw]. apply Nat.eqb_eq in Hc.
    rewrite string_app_cons. cbn [split_ws_from]. rewrite <-string_app_cons.
    rewrite ws_len_app_ascii, Hc by (done || (vm_compute; lia)). by rewrite IH.
Qed.

Lemma split_ws_from_last w : ws_free w = true -> split_ws_from 0 w = (w, []).
Proof.
  induction w as [|c w IH]; intros Hw; [done|].
  change (ws_free (String c w)) with ((ws_len (String c w) =? 0) && ws_free w) in Hw.
  apply andb_true_iff in Hw as [Hc Hw]. apply Nat.eqb_eq in Hc.
  cbn [split_ws_from]. by rewrite Hc, IH.
Qed.

Definition is_word (w : string) : Prop := w <> "" /\ ws_free w = true.

Lemma push_word_ne w ws : w <> "" -> push_word w ws = w :: ws.
Proof. by destruct w. Qed.

Lemma split_whitespace_cons w r :
  is_word w -> split_whitespace (w +:+ String c_sp r) = w :: split_whitespace r.
Proof.
  intros [Hne Hw]. unfold split_whitespace at 1. rewrite split_ws_from_word by done.
  by apply push_word_ne.
Qed.

Lemma split_whitespace_sp r : split_whitespace (String c_sp r) = split_whitespace r.
Proof. unfold split_whitespace. simpl. by destruct (split_ws_from 0 r) as [[] ?]. Qed.

Lemma split_whitespace_word w : is_word w -> split_whitespace w = [w].
Proof.
  intros [Hne Hw]. unfold split_whitespace. rewrite split_ws_from_last by done.
  by apply push_word_ne.
Qed.

(** Words joined with single spaces are recovered by [split_whitespace]. *)
Lemma split_whitespace_join ws :
  Forall is_word ws -> split_whitespace (join " " ws) = ws.
Proof.
  induction ws as [|w ws IH]; [done|]. intros [Hw Hall]%Forall_cons_1.
  destruct ws as [|v ws]; [by apply split_whitespace_word|].
  change (join " " (w :: v :: ws)) with (w +:+ String c_sp (join " " (v :: ws))).
  rewrite split_whitespace_cons by done. by rewrite IH.
Qed.

(** ** Numbers in texts *)

Lemma pretty_N_go_char c x s :
  has_char c "0123456789" = false -> has_char c s = false -> has_char c (pretty_N_go x s) = false.
Proof.
  intros Hc. revert s. induction (N.lt_wf_0 x) as [x _ IH]; intros s Hs.
  destruct (decide (x = 0)%N) as [->|]; [by rewrite pretty_N_go_0|].
  rewrite pretty_N_go_step by lia. apply IH; [apply N.div_lt; lia|]. simpl. rewrite Hs, orb_false_r.
  assert (has_char (pretty_N_char (x mod 10)) "0123456789" = true) as Hd.
  { pose proof (N.mod_lt x 10 ltac:(done)) as Hlt. revert Hlt. generalize (x mod 10)%N. clear. intros n Hn.
    destruct n as [|p]; [done|]. do 4 (try destruct p as [p|p|]); (done || lia). }
  apply Ascii.eqb_neq. intros Heq. rewrite Heq in Hd. congruence.
Qed.

(** A number is printed with digits and a minus sign. *)
Lemma has_char_pretty c (z : Z) :
  has_char c "-0123456789" = false -> has_char c (pretty z) = false.
Proof.
  change "-0123456789" with ("-" +:+ "0123456789"). rewrite has_char_app.
  intros [Hd Hc]%orb_false_iff. unfold pretty, pretty_Z. destruct z as [|p|p].
  - change (Ascii.eqb "0" c || false = false). rewrite orb_false_r.
    by apply orb_false_iff in Hc as [Hc _].
  - unfold pretty, pretty_N. by apply pretty_N_go_char.
  - rewrite has_char_app, Hd. unfold pretty, pretty_N. by apply pretty_N_go_char.
Qed.
