(* ===== verification/Path.v ===== *)
(** * Paths: the parts of [std::path] the program uses, on Unix

    A [Path] is its text.  [file_name], [file_stem], [extension], [parent]
    and [push] follow the library's component rules: separators repeat, empty
    and [.] components are dropped (a leading [.] is kept), [..] is not a file
    name, and a file whose only dot is the first character has no extension. *)

From S2P Require Import Prelude Str.

Definition is_absolute (p : string) : bool := String.prefix "/" p.

(** The [Normal] and [ParentDir] components. *)
Definition path_comps (p : string) : list string :=
  List.filter (fun c => negb (String.eqb c "") && negb (String.eqb c "."))
    (split_char c_slash p).

Definition file_name (p : string) : option string :=
  match last (path_comps p) with
  | Some c => if String.eqb c ".." then None else Some c
  | None => None
  end.

(** The text before and after the last dot. *)
Fixpoint rsplit_dot (s : string) : option (string * string) :=
  match s with
  | EmptyString => None
  | String c s' =>
    match rsplit_dot s' with
    | Some (b, a) => Some (String c b, a)
    | None => if Ascii.eqb c c_dot then Some ("", s') else None
    end
  end.

Definition rsplit_file_at_dot (file : string) : option string * option string :=
  if String.eqb file ".." then (Some file, None) else
  match rsplit_dot file with
  | None => (None, Some file)
  | Some (before, after) =>
    if String.eqb before "" then (Some file, None) else (Some before, Some after)
  end.

Definition file_stem (p : string) : option string :=
  match file_name p with
  | None => None
  | Some file =>
    match rsplit_file_at_dot file with
    | (Some before, _) => Some before
    | (None, after) => after
    end
  end.

Definition extension (p : string) : option string :=
  match file_name p with
  | None => None
  | Some file =>
    match rsplit_file_at_dot file with
    | (Some _, after) => after
    | (None, _) => None
    end
  end.

(** The parent directory; its text is the normalised one, which is equal to
    the library's as a [Path]. *)
Definition leading_curdir (p : string) : bool :=
  match split_char c_slash p with
  | "." :: _ => true
  | _ => false
  end.

Definition parent (p : string) : option string :=
  match rev ((if leading_curdir p then ["."] else []) ++ path_comps p) with
  | [] => None
  | _ :: rest => Some ((if is_absolute p then "/" else "") +:+ join "/" (rev rest))
  end.

Fixpoint ends_with_slash (p : string) : bool :=
  match p with
  | EmptyString => false
  | String c EmptyString => Ascii.eqb c c_slash
  | String _ p => ends_with_slash p
  end.

(** [PathBuf::push]: an absolute path replaces the whole buffer. *)
Definition path_push (p q : string) : string :=
  if is_absolute q then q
  else if String.eqb p "" || ends_with_slash p then p +:+ q
  else p +:+ "/" +:+ q.

(** ** Lemmas *)

Lemma rsplit_dot_free s : has_char c_dot s = false -> rsplit_dot s = None.
Proof.
  induction s as [|c s IH]; simpl; [done|].
  destruct (Ascii.eqb c c_dot); simpl; [done|]. intros Hs. by rewrite IH.
Qed.

Lemma rsplit_dot_app b a :
  has_char c_dot a = false -> rsplit_dot (b +:+ String c_dot a) = Some (b, a).
Proof.
  intros Ha. induction b as [|c b IH]; simpl.
  - by rewrite rsplit_dot_free.
  - by rewrite IH.
Qed.

Lemma rsplit_dot_Some s b a :
  rsplit_dot s = Some (b, a) -> s = b +:+ String c_dot a /\ has_char c_dot a = false.
Proof.
  revert b a. induction s as [|c s IH]; simpl; intros b a H; [done|].
  destruct (rsplit_dot s) as [[b' a']|] eqn:Hs.
  - injection H as <- <-. destruct (IH _ _ eq_refl) as [-> ?]. done.
  - destruct (Ascii.eqb c c_dot) eqn:Hc; [|done]. injection H as <- <-.
    apply Ascii.eqb_eq in Hc as ->. split; [done|].
    clear IH. induction s as [|d s IH]; [done|]. simpl in *.
    destruct (rsplit_dot s) as [[]|]; [done|].
    destruct (Ascii.eqb d c_dot); [done|]. by apply IH.
Qed.

(** A text without a separator that is neither empty nor a dot directory is
    its own file name. *)
Lemma file_name_plain p :
  has_char c_slash p = false -> p <> "" -> p <> "." -> p <> ".." -> file_name p = Some p.
Proof.
  intros Hp H1 H2 H3. unfold file_name, path_comps. rewrite split_char_free by done.
  simpl. apply String.eqb_neq in H1, H2, H3. rewrite H1, H2. simpl. by rewrite H3.
Qed.

Lemma split_char_pieces sep s w : w ∈ split_char sep s -> has_char sep w = false.
Proof.
  revert w. induction s as [|c s IH]; simpl; intros w.
  - intros ->%list_elem_of_singleton. done.
  - destruct (Ascii.eqb c sep) eqn:Hc.
    + intros [->|Hw]%elem_of_cons; [done|]. by apply IH.
    + destruct (split_char sep s) as [|v ws].
      * intros ->%list_elem_of_singleton. simpl. by rewrite Hc.
      * intros [->|Hw]%elem_of_cons; simpl.
        -- rewrite Hc. simpl. apply IH. by left.
        -- apply IH. by right.
Qed.

Lemma file_name_Some p f :
  file_name p = Some f -> has_char c_slash f = false /\ f <> "" /\ f <> "." /\ f <> "..".
Proof.
  unfold file_name. destruct (last (path_comps p)) as [c|] eqn:Hl; [|done].
  destruct (String.eqb c "..") eqn:Hc; [done|]. intros [= <-].
  apply last_Some_elem_of in Hl. unfold path_comps in Hl.
  apply list_elem_of_In, filter_In in Hl as [Hin Hf].
  apply list_elem_of_In, split_char_pieces in Hin.
  apply andb_true_iff in Hf as [Hf1 Hf2]. apply negb_true_iff in Hf1, Hf2.
  apply String.eqb_neq in Hf1, Hf2, Hc. done.
Qed.
