(* ===== verification/Unit.v ===== *)
(** * Unit names and unit errors ([src/src/unit.rs])

    The kinds of units, the names that identify them everywhere in the
    program, the parser of names in unit files and on the wire, and the error
    types of the unit life cycle with the texts they are displayed as. *)

From S2P Require Import Prelude Str Path.

(** ** Kinds *)

Module UnitKind.
Inductive UnitKind :=
  | Interface | Jig | Logger | Scenario | Test | Trigger
  | Internal.
End UnitKind.
Abbreviation UnitKind := UnitKind.UnitKind.

#[export] Instance UnitKind_eq_dec : EqDecision UnitKind.
Proof. solve_decision. Defined.

(** [Display] for [UnitKind]. *)
Definition kind_fmt (k : UnitKind) : string :=
  match k with
  | UnitKind.Interface => "interface"
  | UnitKind.Internal => "internal"
  | UnitKind.Jig => "jig"
  | UnitKind.Logger => "logger"
  | UnitKind.Scenario => "scenario"
  | UnitKind.Test => "test"
  | UnitKind.Trigger => "trigger"
  end.

#[export] Instance UnitKind_countable : Countable UnitKind.
Proof.
  refine (inj_countable' kind_fmt
    (fun s => if String.eqb s "interface" then UnitKind.Interface
         else if String.eqb s "jig" then UnitKind.Jig
         else if String.eqb s "logger" then UnitKind.Logger
         else if String.eqb s "scenario" then UnitKind.Scenario
         else if String.eqb s "test" then UnitKind.Test
         else if String.eqb s "trigger" then UnitKind.Trigger
         else UnitKind.Internal) _).
  by intros [].
Defined.

(** ** Names *)

Record UnitName := mkName { un_id : string; un_kind : UnitKind }.

#[export] Instance UnitName_eq_dec : EqDecision UnitName.
Proof. solve_decision. Defined.

#[export] Instance UnitName_countable : Countable UnitName.
Proof.
  refine (inj_countable' (fun n => (un_id n, un_kind n)) (fun p => mkName p.1 p.2) _).
  by intros [].
Defined.

Inductive UnitNameError :=
  | NoFileExtension
  | UnrecognizedUnitType (t : string).

Definition UnitNameError_fmt (e : UnitNameError) : string :=
  match e with
  | NoFileExtension => "no file extension"
  | UnrecognizedUnitType t =>
    "unrecognized unit type " +:+ str1 c_quote +:+ "." +:+ t +:+ str1 c_quote
  end.

(** The extension-to-kind mapping of [from_path]. *)
Definition kind_of_extension (extension : string) : result UnitNameError UnitKind :=
  if String.eqb extension "interface" then Ok UnitKind.Interface
  else if String.eqb extension "jig" then Ok UnitKind.Jig
  else if String.eqb extension "logger" then Ok UnitKind.Logger
  else if String.eqb extension "scenario" then Ok UnitKind.Scenario
  else if String.eqb extension "test" then Ok UnitKind.Test
  else if String.eqb extension "trigger" then Ok UnitKind.Trigger
  else Err (UnrecognizedUnitType extension).

Definition from_path (path : string) : result UnitNameError UnitName :=
  let ext := match extension path with None => "" | Some s => s end in
  match file_stem path with
  | None => Err NoFileExtension
  | Some unit_id => unit_kind ← kind_of_extension ext; Ok (mkName unit_id unit_kind)
  end.

Definition from_str (name default_type : string) : result UnitNameError UnitName :=
  match extension name with
  | None => from_path (name +:+ "." +:+ default_type)
  | Some _ => from_path name
  end.

(** The two nested loops of [from_list], which stop at the first bad item. *)
Definition from_list (s default_type : string) : result UnitNameError (list UnitName) :=
  lists ← result_mapM
    (fun in_list => result_mapM (fun item => from_str item default_type)
                      (split_whitespace in_list))
    (split_char c_comma s);
  Ok (concat lists).

Definition internal (s : string) : UnitName := mkName s UnitKind.Internal.

(** [Display] for [UnitName]. *)
Definition name_fmt (n : UnitName) : string := un_id n +:+ "." +:+ kind_fmt (un_kind n).

(** ** Errors of the unit life cycle *)

(** An error value of a library the program only displays: the texts its
    [Display], [Error::description] and [Debug] implementations give. *)
Record ForeignError := mkForeign {
  fe_display : string; fe_description : string; fe_debug : string }.

(** The constructors of [dependy]'s and [runny]'s error types that the code
    matches on. *)
Inductive DepError :=
  | RequirementsNotFound (req : UnitName)
  | RequirementNotFound (req1 req2 : UnitName)
  | SuggestionsNotFound (req : UnitName)
  | SuggestionNotFound (req1 req2 : UnitName)
  | DependencyNotFound (name : UnitName)
  | CircularDependency (req1 req2 : UnitName).

Inductive RunnyError :=
  | NoCommandSpecified
  | RunnyIoError (e : ForeignError)
  | NixError (e : ForeignError).

Inductive UnitIncompatibleReason :=
  | TestProgramReturnedNonzero (val : Z) (program_name : string)
  | TestProgramFailed (program_name : string)
  | TestFileNotPresent (file_name : string)
  | IncompatibleJig
  | DependencyError (e : DepError).

Definition UnitIncompatibleReason_fmt (r : UnitIncompatibleReason) : string :=
  match r with
  | TestProgramFailed program_name => "Test program " +:+ program_name +:+ " failed"
  | TestProgramReturnedNonzero val program_name =>
    "Test program " +:+ program_name +:+ " returned " +:+ pretty val
  | TestFileNotPresent file_name => "Test file " +:+ file_name +:+ " not present"
  | IncompatibleJig => "Jig not compatible"
  | DependencyError dep_error =>
    match dep_error with
    | RequirementsNotFound req => "Requirement '" +:+ name_fmt req +:+ "' not found"
    | RequirementNotFound req1 req2 =>
      "Requirement " +:+ name_fmt req1 +:+ " not found for " +:+ name_fmt req2
    | SuggestionsNotFound req => "Suggestion '" +:+ name_fmt req +:+ "' not found"
    | SuggestionNotFound req1 req2 =>
      "Suggestion " +:+ name_fmt req1 +:+ " not found for " +:+ name_fmt req2
    | DependencyNotFound name => "Dependency '" +:+ name_fmt name +:+ "' not found"
    | CircularDependency req1 req2 =>
      name_fmt req1 +:+ " and " +:+ name_fmt req2 +:+ " have a circular dependency"
    end
  end.

(** [From<RunnyError>]. *)
Definition incompatible_of_runny (error : RunnyError) : UnitIncompatibleReason :=
  match error with
  | NoCommandSpecified => TestProgramFailed "No command specified"
  | RunnyIoError e => TestProgramFailed ("Error running test program: " +:+ fe_display e)
  | NixError e => TestProgramFailed ("Unix error " +:+ fe_display e)
  end.

Inductive UnitSelectError := SelectUnitNotFound | NoCompatibleJig.

Definition UnitSelectError_fmt (e : UnitSelectError) : string :=
  match e with
  | SelectUnitNotFound => "couldn't find unit by ID"
  | NoCompatibleJig => "couldn't find any compatible jig"
  end.

Inductive UnitDeselectError := DeselectUnitNotFound.

Definition UnitDeselectError_fmt (e : UnitDeselectError) : string :=
  "couldn't find unit by ID".

Inductive UnitActivateError :=
  | ActivateUnitNotFound
  | UnitNotSelected
  | ExecFailed (e : RunnyError).

Definition UnitActivateError_fmt (e : UnitActivateError) : string :=
  match e with
  | ExecFailed re =>
    match re with
    | RunnyIoError e => "Unable to activate unit: " +:+ fe_description e
    | NoCommandSpecified => "Unable to activate unit: No command specified"
    | NixError e => "Unable to activate unit: Nix library error: " +:+ fe_debug e
    end
  | ActivateUnitNotFound => "Couldn't find unit by id"
  | UnitNotSelected => "Tried to activate a deselected unit"
  end.

Inductive UnitDeactivateError :=
  | DeactivateUnitNotFound
  | NonZeroReturn (i : Z)
  | RunningError (e : ForeignError).

Definition UnitDeactivateError_fmt (e : UnitDeactivateError) : string :=
  match e with
  | NonZeroReturn i => "Nonzero return: " +:+ pretty i
  | RunningError e => "Running error: " +:+ fe_debug e
  | DeactivateUnitNotFound => "Couldn't find unit by id"
  end.

Inductive UnitDescriptionError :=
  | InvalidUnitName (kind : UnitNameError)
  | MissingSection (section : string)
  | MissingValue (section key : string)
  | FileOpenError (e : ForeignError)
  | ParseError (e : ForeignError)
  | RegexError (e : ForeignError)
  | HumantimeError (e : ForeignError)
  | ParseIntError (e : ForeignError)
  | InvalidValue (section key val : string) (allowed : list string).

Definition UnitDescriptionError_fmt (e : UnitDescriptionError) : string :=
  match e with
  | InvalidUnitName reason => "invalid unit name '" +:+ UnitNameError_fmt reason +:+ "'"
  | MissingSection sec => "missing [" +:+ sec +:+ "] section"
  | FileOpenError e => "unable to open file -- " +:+ fe_description e
  | ParseError e => "syntax error: " +:+ fe_description e
  | HumantimeError e => "time parse error: " +:+ fe_description e
  | RegexError e => "unable to parse regex: " +:+ fe_display e
  | MissingValue sec key =>
    "key '" +:+ key +:+ "' in section '" +:+ sec +:+ "' requires a value"
  | ParseIntError e => "int parse error: " +:+ fe_description e
  | InvalidValue sec key val allowed =>
    "key " +:+ key +:+ " in section " +:+ sec +:+ " has invalid value: " +:+ val
      +:+ ", must be one of: " +:+ join "," allowed
  end.

(** ** Properties of names *)

(** What every name the parser accepts satisfies: an identifier is a single
    non-empty path component, and only the program itself makes [Internal]
    names. *)
Definition valid_name (n : UnitName) : Prop :=
  un_id n <> "" /\ has_char c_slash (un_id n) = false /\ un_kind n <> UnitKind.Internal.

#[export] Instance valid_name_dec n : Decision (valid_name n).
Proof. unfold valid_name. apply _. Defined.

Lemma kind_of_extension_fmt k :
  k <> UnitKind.Internal -> kind_of_extension (kind_fmt k) = Ok k.
Proof. by destruct k. Qed.

Lemma kind_of_extension_Ok e k :
  kind_of_extension e = Ok k -> e = kind_fmt k /\ k <> UnitKind.Internal.
Proof.
  unfold kind_of_extension. intros H.
  repeat match type of H with
  | (if String.eqb ?a ?b then _ else _) = _ =>
      destruct (String.eqb_spec a b); [subst; injection H as <-; done|]
  end. done.
Qed.

Lemma kind_fmt_plain k : has_char c_dot (kind_fmt k) = false /\ has_char c_slash (kind_fmt k) = false.
Proof. by destruct k. Qed.

Lemma name_fmt_file n :
  has_char c_slash (un_id n) = false -> file_name (name_fmt n) = Some (name_fmt n).
Proof.
  intros Hs. apply file_name_plain; destruct n as [i k]; unfold name_fmt; simpl in *.
  - rewrite has_char_app. simpl. rewrite Hs. apply kind_fmt_plain.
  - by destruct i.
  - destruct i as [|? []]; by destruct k.
  - destruct i as [|? [|? []]]; by destruct k.
Qed.

Lemma name_fmt_rsplit n :
  un_id n <> "" ->
  rsplit_file_at_dot (name_fmt n) = (Some (un_id n), Some (kind_fmt (un_kind n))).
Proof.
  intros Hi. unfold rsplit_file_at_dot.
  assert (name_fmt n <> "..") as Hne.
  { destruct n as [[|? [|? []]] k]; unfold name_fmt; simpl in *; by destruct k. }
  apply String.eqb_neq in Hne. rewrite Hne.
  unfold name_fmt. change ("." +:+ ?k) with (String c_dot k).
  rewrite rsplit_dot_app by apply kind_fmt_plain.
  apply String.eqb_neq in Hi. by rewrite Hi.
Qed.

Lemma from_path_name_fmt n : valid_name n -> from_path (name_fmt n) = Ok n.
Proof.
  intros (Hi & Hs & Hk). unfold from_path, extension, file_stem.
  rewrite name_fmt_file, name_fmt_rsplit by done. simpl.
  rewrite kind_of_extension_fmt by done. by destruct n.
Qed.

Lemma from_str_name_fmt n d : valid_name n -> from_str (name_fmt n) d = Ok n.
Proof.
  intros Hn. pose proof Hn as (Hi & Hs & Hk). unfold from_str, extension.
  rewrite name_fmt_file, name_fmt_rsplit by done. by apply from_path_name_fmt.
Qed.

Lemma rsplit_file_stem f :
  f <> "" -> has_char c_slash f = false ->
  exists stem, (match rsplit_file_at_dot f with (Some b, _) => Some b | (None, a) => a end)
                 = Some stem /\ stem <> "" /\ has_char c_slash stem = false.
Proof.
  intros Hne Hs. unfold rsplit_file_at_dot.
  destruct (String.eqb_spec f ".."); [by exists f|].
  destruct (rsplit_dot f) as [[b a]|] eqn:Hr; [|by exists f].
  destruct (String.eqb_spec b ""); [by exists f|].
  apply rsplit_dot_Some in Hr as [-> _]. exists b. split; [done|]. split; [done|].
  rewrite has_char_app in Hs. by apply orb_false_iff in Hs as [? _].
Qed.

Lemma from_path_valid p n : from_path p = Ok n -> valid_name n.
Proof.
  unfold from_path, file_stem. destruct (file_name p) as [f|] eqn:Hf; [|done].
  apply file_name_Some in Hf as (Hs & Hne & _).
  destruct (rsplit_file_stem f Hne Hs) as (stem & Hstem & H1 & H2).
  rewrite Hstem. destruct (kind_of_extension _) as [k|] eqn:Hk; [|done].
  intros [= <-]. apply kind_of_extension_Ok in Hk as [_ Hk]. done.
Qed.

Lemma from_str_valid s d n : from_str s d = Ok n -> valid_name n.
Proof. unfold from_str. destruct (extension s); apply from_path_valid. Qed.

(** The name parser and the displayed form of names agree: whatever text
    a name was parsed from, displaying the name and parsing that again, with
    any default type, gives the same name. *)
Theorem from_str_canonical s d d' n :
  from_str s d = Ok n -> from_str (name_fmt n) d' = Ok n.
Proof. intros Hn. apply from_str_name_fmt. by eapply from_str_valid. Qed.

Lemma from_str_canonical_witness :
  from_str (name_fmt (mkName "swd" UnitKind.Test)) "jig" = Ok (mkName "swd" UnitKind.Test).
Proof. by apply (from_str_canonical "cfg/swd" "test" "jig"). Defined.

(** A reference without a suffix takes the default type. *)
Lemma from_str_default i k :
  i <> "" -> has_char c_slash i = false -> has_char c_dot i = false ->
  k <> UnitKind.Internal -> from_str i (kind_fmt k) = Ok (mkName i k).
Proof.
  intros Hi Hs Hd Hk. unfold from_str, extension.
  rewrite file_name_plain by (done || (intros ->; done)).
  unfold rsplit_file_at_dot. rewrite rsplit_dot_free by done.
  destruct (String.eqb_spec i ".."); [by subst|].
  apply (from_path_name_fmt (mkName i k)). done.
Qed.

(** ** Lists of names *)

(** A name that can stand in a comma- or space-separated list. *)
Definition listable (n : UnitName) : Prop :=
  valid_name n /\ ws_free (un_id n) = true /\ has_char c_comma (un_id n) = false.

Lemma listable_word n : listable n -> is_word (name_fmt n).
Proof.
  intros ((Hi & _ & _) & Hw & _). split.
  - unfold name_fmt. by destruct (un_id n).
  - unfold name_fmt. change ("." +:+ ?k) with (String c_dot k).
    rewrite ws_free_app_ascii by (vm_compute; lia). rewrite Hw. by destruct (un_kind n).
Qed.

Lemma listable_comma n : listable n -> has_char c_comma (name_fmt n) = false.
Proof.
  intros (_ & _ & Hc). unfold name_fmt. rewrite has_char_app, Hc. by destruct (un_kind n).
Qed.

Lemma from_list_items ns d :
  Forall listable ns ->
  result_mapM (fun item => from_str item d) (name_fmt <$> ns) = Ok ns.
Proof.
  intros Hns. apply result_mapM_Ok. induction Hns as [|n ns Hn Hns IH]; constructor.
  - apply from_str_name_fmt, Hn.
  - done.
Qed.

Lemma from_list_pieces pieces (groups : list (list UnitName)) d :
  Forall2 (fun piece ns => split_whitespace piece = name_fmt <$> ns /\ Forall listable ns)
    pieces groups ->
  result_mapM (fun in_list => result_mapM (fun item => from_str item d)
                (split_whitespace in_list)) pieces = Ok groups.
Proof.
  intros H. apply result_mapM_Ok. induction H as [|p ns ps gs [Hp Hn] Hs IH]; constructor.
  - rewrite Hp. by apply from_list_items.
  - done.
Qed.

Lemma join_app_sep sep x w ws :
  join (sep +:+ x) (w :: ws) = join sep (w :: ((fun v => x +:+ v) <$> ws)).
Proof.
  revert w. induction ws as [|v ws IH]; intros w; [done|].
  change (join (sep +:+ x) (w :: v :: ws)) with (w +:+ (sep +:+ x) +:+ join (sep +:+ x) (v :: ws)).
  rewrite IH. simpl. rewrite string_app_assoc. do 2 f_equal.
  destruct ws; simpl; [done|]. by rewrite !string_app_assoc.
Qed.

Lemma concat_singletons {A} (l : list A) : concat ((fun x => [x]) <$> l) = l.
Proof. induction l as [|x l IH]; simpl; [done|]. by f_equal. Qed.

(** Pieces that each hold one name, possibly after a space. *)
Lemma from_list_comma_pieces (ns : list UnitName) pre d :
  Forall listable ns -> pre = "" \/ pre = " " ->
  result_mapM (fun in_list => result_mapM (fun item => from_str item d)
                (split_whitespace in_list)) ((fun n => pre +:+ name_fmt n) <$> ns)
    = Ok ((fun n => [n]) <$> ns).
Proof.
  intros Hns Hpre. apply from_list_pieces.
  induction Hns as [|n ns Hn Hns IH]; constructor; [|done]. split; [|by apply Forall_singleton].
  destruct Hpre as [->| ->]; simpl.
  - by apply split_whitespace_word, listable_word.
  - change " "%char with c_sp. rewrite split_whitespace_sp.
    by apply split_whitespace_word, listable_word.
Qed.

Lemma split_char_name_pieces n ns pre :
  Forall listable (n :: ns) -> has_char c_comma pre = false ->
  split_char c_comma (join "," (name_fmt n :: ((fun m => pre +:+ name_fmt m) <$> ns)))
    = name_fmt n :: ((fun m => pre +:+ name_fmt m) <$> ns).
Proof.
  intros [Hn Hns]%Forall_cons_1 Hpre. apply (split_char_join c_comma). constructor.
  - by apply listable_comma.
  - apply Forall_fmap. eapply Forall_impl; [done|]. intros m Hm. simpl.
    rewrite has_char_app, Hpre. by apply listable_comma.
Qed.

Lemma from_list_comma n ns pre d :
  Forall listable (n :: ns) -> pre = "" \/ pre = " " ->
  from_list (join "," (name_fmt n :: ((fun m => pre +:+ name_fmt m) <$> ns))) d = Ok (n :: ns).
Proof.
  intros Hns Hpre. unfold from_list. rewrite split_char_name_pieces; [|done|by destruct Hpre as [->| ->]].
  apply Forall_cons_1 in Hns as [Hn Hns]. cbn [result_mapM].
  rewrite split_whitespace_word by by apply listable_word.
  rewrite (from_list_items [n]) by by apply Forall_singleton. cbn.
  rewrite from_list_comma_pieces by done. cbn. by rewrite concat_singletons.
Qed.

Lemma from_list_space ns d :
  Forall listable ns -> from_list (join " " (name_fmt <$> ns)) d = Ok ns.
Proof.
  intros Hns. unfold from_list. rewrite split_char_free.
  - cbn [result_mapM]. rewrite split_whitespace_join.
    + rewrite from_list_items by done. simpl. by rewrite app_nil_r.
    + apply Forall_fmap. eapply Forall_impl; [done|]. apply listable_word.
  - induction Hns as [|n ns Hn Hns IH]; [done|].
    destruct ns as [|m ns]; [by apply listable_comma|].
    change (join " " (name_fmt <$> (n :: m :: ns)))
      with (name_fmt n +:+ String c_sp (join " " (name_fmt <$> (m :: ns)))).
    rewrite has_char_app, listable_comma by done. apply IH.
Qed.

(** Whatever a list is parsed from, its members are valid names. *)
Lemma from_list_valid s d ns : from_list s d = Ok ns -> Forall valid_name ns.
Proof.
  unfold from_list. destruct (result_mapM _ _) as [groups|] eqn:Hg; simpl; [|done].
  intros [= <-]. apply result_mapM_Ok in Hg. apply Forall_concat.
  induction Hg as [|piece ns pieces groups Hp Hg IH]; constructor; [|done].
  apply result_mapM_Ok in Hp. clear -Hp.
  induction Hp as [|item n items ns Hi Hp IH]; constructor; [|done].
  by eapply from_str_valid.
Qed.

(** (C33) A list of valid names of units in which there is no white space and no
    comma, written with commas, with spaces or with both, is read back as exactly
    the names written, in the order they were written in.  (A name with a space or
    a comma, which a file may have, is split in two.) *)
Theorem from_list_join sep ns d :
  sep = "," \/ sep = " " \/ sep = ", " -> Forall listable ns ->
  from_list (join sep (name_fmt <$> ns)) d = Ok ns.
Proof.
  intros Hsep Hns. destruct ns as [|n ns]; [by destruct Hsep as [->|[->| ->]]|].
  destruct Hsep as [->|[->| ->]].
  - apply (from_list_comma n ns ""); auto.
  - by apply from_list_space.
  - change ", " with ("," +:+ " ").
    change (name_fmt <$> (n :: ns)) with (name_fmt n :: (name_fmt <$> ns)).
    rewrite join_app_sep, <-list_fmap_compose. apply (from_list_comma n ns " "); auto.
Qed.

Lemma from_list_join_witness :
  let ns := [mkName "sound" UnitKind.Test; mkName "lcd" UnitKind.Test] in
  from_list (join ", " (name_fmt <$> ns)) "test" = Ok ns.
Proof.
  apply (from_list_join ", "); [by right; right|].
  apply Forall_cons; split; [|apply Forall_singleton]; by vm_compute.
Defined.
