(* ===== verification/Cfti.v ===== *)
(** * Escaping on the CFTI wire
    ([cfti_escape] and [cfti_unescape] of [src/src/units/interface.rs],
    [src/src/units/logger.rs] and [src/src/units/trigger.rs])

    Interfaces and loggers write lines whose fields are escaped; interfaces
    and triggers unescape the words they read.  The two readers differ: an
    interface decodes in one pass over the characters, a trigger by four
    replacements in sequence. *)

From S2P Require Import Prelude Str.

(** ** The code *)

Definition cfti_escape (msg : string) : string :=
  replace (str1 c_cr) "\r" (replace (str1 c_lf) "\n" (replace (str1 c_tab) "\t"
    (replace "\" "\\" msg))).

(** The loop of the interface's [cfti_unescape], with its [was_bs] flag. *)
Fixpoint unescape_loop (was_bs : bool) (msg : string) : string :=
  match msg with
  | EmptyString => EmptyString
  | String c msg =>
    if Ascii.eqb c c_bs then
      if was_bs then String c_bs (unescape_loop false msg) else unescape_loop true msg
    else if Ascii.eqb c "t" then String (if was_bs then c_tab else "t") (unescape_loop false msg)
    else if Ascii.eqb c "r" then String (if was_bs then c_cr else "r") (unescape_loop false msg)
    else if Ascii.eqb c "n" then String (if was_bs then c_lf else "n") (unescape_loop false msg)
    else String c (unescape_loop false msg)
  end.

Definition interface_cfti_unescape (msg : string) : string := unescape_loop false msg.

Definition trigger_cfti_unescape (msg : string) : string :=
  replace "\\" "\" (replace "\r" (str1 c_cr) (replace "\n" (str1 c_lf)
    (replace "\t" (str1 c_tab) msg))).

(** ** The escape as one pass over the characters *)

Definition esc_char (c : ascii) : string :=
  if Ascii.eqb c c_bs then "\\"
  else if Ascii.eqb c c_tab then "\t"
  else if Ascii.eqb c c_lf then "\n"
  else if Ascii.eqb c c_cr then "\r"
  else str1 c.

(** The four replacements are one substitution of characters: later ones do
    not touch what earlier ones produced. *)
Lemma cfti_escape_chars msg : cfti_escape msg = flat_map_char esc_char msg.
Proof.
  unfold cfti_escape. change "\" with (str1 c_bs).
  rewrite !replace_char, !flat_map_char_comp. apply flat_map_char_ext.
  intros c. unfold esc_char.
  destruct (Ascii.eqb_spec c c_bs) as [->|Hbs]; [done|].
  destruct (Ascii.eqb_spec c c_tab) as [->|Htab]; [done|].
  apply Ascii.eqb_neq in Htab. simpl. rewrite Htab.
  destruct (Ascii.eqb_spec c c_lf) as [->|Hlf]; [done|].
  apply Ascii.eqb_neq in Hlf. simpl. rewrite Hlf.
  destruct (Ascii.eqb c c_cr) eqn:Hcr; simpl; by rewrite Hcr.
Qed.

Lemma cfti_escape_cons c msg : cfti_escape (String c msg) = esc_char c +:+ cfti_escape msg.
Proof. by rewrite !cfti_escape_chars. Qed.

Lemma cfti_escape_app s t : cfti_escape (s +:+ t) = cfti_escape s +:+ cfti_escape t.
Proof. by rewrite !cfti_escape_chars, flat_map_char_app. Qed.

Lemma unescape_esc_char c msg :
  unescape_loop false (esc_char c +:+ msg) = String c (unescape_loop false msg).
Proof.
  unfold esc_char.
  destruct (Ascii.eqb_spec c c_bs) as [->|Hbs]; [done|].
  destruct (Ascii.eqb_spec c c_tab) as [->|Htab]; [done|].
  destruct (Ascii.eqb_spec c c_lf) as [->|Hlf]; [done|].
  destruct (Ascii.eqb_spec c c_cr) as [->|Hcr]; [done|].
  simpl. apply Ascii.eqb_neq in Hbs. rewrite Hbs.
  destruct (Ascii.eqb_spec c "t") as [->|]; [done|].
  destruct (Ascii.eqb_spec c "r") as [->|]; [done|].
  by destruct (Ascii.eqb_spec c "n") as [->|].
Qed.

Lemma unescape_loop_escape msg : unescape_loop false (cfti_escape msg) = msg.
Proof.
  induction msg as [|c msg IH]; [done|].
  by rewrite cfti_escape_cons, unescape_esc_char, IH.
Qed.

Lemma cfti_escape_inj s t : cfti_escape s = cfti_escape t -> s = t.
Proof. intros H. by rewrite <-(unescape_loop_escape s), H, unescape_loop_escape. Qed.

(** Round trip of the interface protocol: unescaping with the interface's
    decoder what the server escaped gives the original text, whatever it
    contains. *)
Theorem interface_unescape_escape msg :
  interface_cfti_unescape (cfti_escape msg) = msg.
Proof. apply unescape_loop_escape. Qed.

Lemma esc_char_clean d c :
  c = c_tab \/ c = c_lf \/ c = c_cr -> has_char c (esc_char d) = false.
Proof.
  intros Hc. unfold esc_char.
  destruct (Ascii.eqb d c_bs); [by destruct Hc as [->|[->| ->]]|].
  destruct (Ascii.eqb d c_tab) eqn:Htab; [by destruct Hc as [->|[->| ->]]|].
  destruct (Ascii.eqb d c_lf) eqn:Hlf; [by destruct Hc as [->|[->| ->]]|].
  destruct (Ascii.eqb d c_cr) eqn:Hcr; [by destruct Hc as [->|[->| ->]]|].
  simpl. rewrite orb_false_r. by destruct Hc as [->|[->| ->]].
Qed.

(** An escaped field contains no tab, no line feed and no carriage return, so
    it can end neither the record nor the field it stands in. *)
Lemma cfti_escape_clean msg c :
  c = c_tab \/ c = c_lf \/ c = c_cr -> has_char c (cfti_escape msg) = false.
Proof.
  intros Hc. induction msg as [|d msg IH]; [done|].
  by rewrite cfti_escape_cons, has_char_app, IH, esc_char_clean.
Qed.

(** ** The trigger's decoder *)

Definition bs2 (x : ascii) : string := String c_bs (str1 x).

Lemma replace_bs2_hit x to s : replace (bs2 x) to (String c_bs (String x s)) = to +:+ replace (bs2 x) to s.
Proof.
  unfold replace, bs2. cbn. destruct (ascii_dec x x); [|done]. by rewrite prefix_empty.
Qed.

Lemma replace_bs2_miss x y to s :
  x <> y -> replace (bs2 x) to (String c_bs (String y s)) = String c_bs (replace (bs2 x) to (String y s)).
Proof. intros Hne. unfold replace, bs2. cbn. by destruct (ascii_dec x y). Qed.

Lemma replace_bs2_plain x d to s :
  d <> c_bs -> replace (bs2 x) to (String d s) = String d (replace (bs2 x) to s).
Proof.
  intros Hne. unfold replace. cbn [replace_from].
  replace (String.prefix (bs2 x) (String d s)) with false; [done|].
  unfold bs2. cbn [String.prefix]. by destruct (ascii_dec c_bs d).
Qed.

(** Distinct characters, and the replacements pushed through a text. *)
Ltac ascii_ne := first [done | let H := fresh in intros H; vm_compute in H; discriminate].

Ltac replace_bs2_tac :=
  cbn [str1 String.append];
  repeat (match goal with
  | |- context [replace (bs2 ?x) ?to (String c_bs (String ?x ?s))] =>
      rewrite (replace_bs2_hit x to s)
  | |- context [replace (bs2 ?x) ?to (String c_bs (String ?y ?s))] =>
      rewrite (replace_bs2_miss x y to s) by ascii_ne
  | |- context [replace (bs2 ?x) ?to (String ?d ?s)] =>
      rewrite (replace_bs2_plain x d to s) by ascii_ne
  end; cbn [str1 String.append]); done.

(** One escaped character other than a backslash goes through the four
    replacements on its own. *)
Lemma trigger_unescape_char c s :
  c <> c_bs -> trigger_cfti_unescape (esc_char c +:+ s) = String c (trigger_cfti_unescape s).
Proof.
  intros Hbs. unfold trigger_cfti_unescape, esc_char.
  change "\t" with (bs2 "t"). change "\n" with (bs2 "n"). change "\r" with (bs2 "r").
  change "\\" with (bs2 c_bs).
  rewrite (proj2 (Ascii.eqb_neq _ _) Hbs).
  destruct (Ascii.eqb_spec c c_tab) as [->|Htab];
    [|destruct (Ascii.eqb_spec c c_lf) as [->|Hlf];
    [|destruct (Ascii.eqb_spec c c_cr) as [->|Hcr]]]; cbn [bs2 str1 String.append];
  replace_bs2_tac.
Qed.

(** Decoding a trigger's words undoes the escape for text without a backslash. *)
Lemma trigger_unescape_escape msg :
  has_char c_bs msg = false -> trigger_cfti_unescape (cfti_escape msg) = msg.
Proof.
  induction msg as [|c msg IH]; [done|]. cbn [has_char].
  intros [Hc Hmsg]%orb_false_iff. rewrite cfti_escape_cons, trigger_unescape_char, IH; [done..|].
  by apply Ascii.eqb_neq.
Qed.

(** The trigger's decoder is not an inverse of the escape: it replaces the
    two-character escapes before the doubled backslash, so an escaped backslash
    in front of a [t] comes out as a backslash and a tab, where the interface's
    decoder gives the backslash and the [t] back. *)
Theorem trigger_unescape_backslash msg :
  let text := String c_bs (String "t" msg) in
  interface_cfti_unescape (cfti_escape text) = text /\
  trigger_cfti_unescape (cfti_escape text)
    = String c_bs (String c_tab (trigger_cfti_unescape (cfti_escape msg))).
Proof.
  split; [apply unescape_loop_escape|].
  rewrite !cfti_escape_cons. unfold trigger_cfti_unescape.
  change "\t" with (bs2 "t"). change "\n" with (bs2 "n"). change "\r" with (bs2 "r").
  change "\\" with (bs2 c_bs). cbn [esc_char str1 String.append].
  change (esc_char c_bs) with (bs2 c_bs). change (esc_char "t") with (str1 "t").
  cbn [bs2 str1 String.append].
  replace_bs2_tac.
Qed.
