(* ===== verification/Events.v ===== *)
(** * Messages and events
    ([src/src/unitbroadcaster.rs] and the message types of
    [src/src/unitmanager.rs])

    The status a unit goes through, the log entries, the control messages that
    units send to the manager, the status messages the manager sends to
    interfaces and loggers, and the events of the broadcast bus, with their
    constructors and displayed texts. *)

From S2P Require Import Prelude Str Path Unit.

(** ** Unit status *)

Module UnitStatus.
Inductive UnitStatus :=
  | Added (path : string)
  | Updated (path : string)
  | LoadStarted (path : string)
  | LoadFailed (reason : string)
  | Loaded
  | Selected
  | SelectFailed (reason : string)
  | Deselected (reason : string)
  | Active
  | ActivationFailed (reason : string)
  | DeactivatedSuccessfully (reason : string)
  | DeactivatedUnsuccessfully (reason : string)
  | UnloadStarted (path : string)
  | UpdateStarted (path : string)
  | Removed (path : string).
End UnitStatus.
Abbreviation UnitStatus := UnitStatus.UnitStatus.

#[export] Instance UnitStatus_eq_dec : EqDecision UnitStatus.
Proof. solve_decision. Defined.

(** [Display] for [UnitStatus]. *)
Definition status_fmt (s : UnitStatus) : string :=
  match s with
  | UnitStatus.Added path => "added file " +:+ path
  | UnitStatus.Updated path => "updated file " +:+ path
  | UnitStatus.LoadStarted path => "load started " +:+ path
  | UnitStatus.LoadFailed x => "load failed: " +:+ x
  | UnitStatus.Loaded => "loaded"
  | UnitStatus.Selected => "selected"
  | UnitStatus.SelectFailed reason => "select failed: " +:+ reason
  | UnitStatus.Deselected reason => "deselected: " +:+ reason
  | UnitStatus.Active => "active"
  | UnitStatus.ActivationFailed reason => "activation failed: " +:+ reason
  | UnitStatus.DeactivatedSuccessfully x => "deactivated successfully: " +:+ x
  | UnitStatus.DeactivatedUnsuccessfully x => "deactivated unsuccessfilly: " +:+ x
  | UnitStatus.UnloadStarted path => "unloading " +:+ path
  | UnitStatus.UpdateStarted path => "updating " +:+ path
  | UnitStatus.Removed path => "removed file " +:+ path
  end.

Record UnitStatusEvent := mkStatusEvent { se_name : UnitName; se_status : UnitStatus }.

#[export] Instance UnitStatusEvent_eq_dec : EqDecision UnitStatusEvent.
Proof. solve_decision. Defined.

Definition se_kind (e : UnitStatusEvent) : UnitKind := un_kind (se_name e).

(** The three constructors from a path give nothing for a file that is not a
    unit file. *)
Definition event_of_path (st : string -> UnitStatus) (path : string) : option UnitStatusEvent :=
  match from_path path with
  | Err _ => None
  | Ok name => Some (mkStatusEvent name (st path))
  end.

Definition new_added (path : string) : option UnitStatusEvent :=
  event_of_path UnitStatus.Added path.
Definition new_updated (path : string) : option UnitStatusEvent :=
  event_of_path UnitStatus.Updated path.
Definition new_removed (path : string) : option UnitStatusEvent :=
  event_of_path UnitStatus.Removed path.

Definition new_selected (name : UnitName) : UnitStatusEvent :=
  mkStatusEvent name UnitStatus.Selected.
Definition new_select_failed (name : UnitName) (msg : string) : UnitStatusEvent :=
  mkStatusEvent name (UnitStatus.SelectFailed msg).
Definition new_loaded (name : UnitName) : UnitStatusEvent :=
  mkStatusEvent name UnitStatus.Loaded.
Definition new_load_started (name : UnitName) (path : string) : UnitStatusEvent :=
  mkStatusEvent name (UnitStatus.LoadStarted path).
Definition new_update_started (name : UnitName) (path : string) : UnitStatusEvent :=
  mkStatusEvent name (UnitStatus.UpdateStarted path).
Definition new_load_failed (name : UnitName) (msg : string) : UnitStatusEvent :=
  mkStatusEvent name (UnitStatus.LoadFailed msg).
Definition new_active (name : UnitName) : UnitStatusEvent :=
  mkStatusEvent name UnitStatus.Active.
Definition new_active_failed (name : UnitName) (msg : string) : UnitStatusEvent :=
  mkStatusEvent name (UnitStatus.ActivationFailed msg).
Definition new_deactivate_success (name : UnitName) (msg : string) : UnitStatusEvent :=
  mkStatusEvent name (UnitStatus.DeactivatedSuccessfully msg).
Definition new_deactivate_failure (name : UnitName) (msg : string) : UnitStatusEvent :=
  mkStatusEvent name (UnitStatus.DeactivatedUnsuccessfully msg).
Definition new_deselected (name : UnitName) (msg : string) : UnitStatusEvent :=
  mkStatusEvent name (UnitStatus.Deselected msg).
Definition new_unload_started (name : UnitName) (path : string) : UnitStatusEvent :=
  mkStatusEvent name (UnitStatus.UnloadStarted path).

(** ** Categories *)

Record UnitCategoryEvent := mkCategoryEvent { ce_kind : UnitKind; ce_status : string }.

#[export] Instance UnitCategoryEvent_eq_dec : EqDecision UnitCategoryEvent.
Proof. solve_decision. Defined.

(** ** Log entries *)

Inductive LogType := LogError | LogInfo.

#[export] Instance LogType_eq_dec : EqDecision LogType.
Proof. solve_decision. Defined.

Definition log_type_str (t : LogType) : string :=
  match t with LogError => "error" | LogInfo => "info" end.

Record LogEntry := mkLogEntry {
  le_unit : UnitName;
  le_type : LogType;
  le_message : string;
  le_secs : Z;
  le_nsecs : Z;
}.

#[export] Instance LogEntry_eq_dec : EqDecision LogEntry.
Proof. solve_decision. Defined.

(** [LogEntry::elapsed]: the time since the epoch, as seconds and nanoseconds,
    and zero when the clock is before it. *)
Definition elapsed (now : option (Z * Z)) : Z * Z :=
  match now with Some d => d | None => (0, 0)%Z end.

Definition new_error (now : option (Z * Z)) (id : UnitName) (message : string) : LogEntry :=
  let d := elapsed now in mkLogEntry id LogError message d.1 d.2.

Definition new_info (now : option (Z * Z)) (id : UnitName) (message : string) : LogEntry :=
  let d := elapsed now in mkLogEntry id LogInfo message d.1 d.2.

(** [Display] for [LogEntry]. *)
Definition log_fmt (l : LogEntry) : string :=
  match le_type l with
  | LogError => "ERROR " +:+ name_fmt (le_unit l) +:+ ": " +:+ le_message l
  | LogInfo => "INFO " +:+ name_fmt (le_unit l) +:+ ": " +:+ le_message l
  end.

(** ** Control messages: unit to manager *)

Module Ctrl.
Inductive ManagerControlMessageContents :=
  | Jig
  | Scenarios
  | Scenario (name : UnitName)
  | Tests (scenario : option UnitName)
  | Error (err : string)
  | InitialGreeting
  | AdvanceScenario (result : Z)
  | ChildExited
  | Unimplemented (verb rest : string)
  | Log (txt : string)
  | LogError (txt : string)
  | StartScenario (name : option UnitName)
  | StartTest (name : UnitName)
  | StopTest (name : UnitName)
  | TestStarted
  | Skip (name : UnitName) (reason : string)
  | ScenarioFinished (code : Z) (message : string)
  | TestFinished (result : Z) (message : string)
  | Shutdown (reason : option string).
End Ctrl.
Abbreviation ManagerControlMessageContents := Ctrl.ManagerControlMessageContents.

#[export] Instance ManagerControlMessageContents_eq_dec :
  EqDecision ManagerControlMessageContents.
Proof. solve_decision. Defined.

Record ManagerControlMessage := mkCtrl {
  cm_sender : UnitName; cm_contents : ManagerControlMessageContents }.

#[export] Instance ManagerControlMessage_eq_dec : EqDecision ManagerControlMessage.
Proof. solve_decision. Defined.

(** ** Status messages: manager to unit *)

Inductive FieldType := FieldName | FieldDescription.

Definition field_fmt (f : FieldType) : string :=
  match f with FieldName => "name" | FieldDescription => "description" end.

Module Status.
Inductive ManagerStatusMessage :=
  | Jig (name : option UnitName)
  | Scenarios (names : list UnitName)
  | Scenario (name : option UnitName)
  | Tests (scenario : UnitName) (tests : list UnitName)
  | Hello (id : string)
  | Describe (id : UnitName) (field : FieldType) (value : string)
  | Log (l : LogEntry)
  | Running (test : UnitName)
  | Start (scenario : UnitName)
  | Pass (test : UnitName) (reason : string)
  | Fail (test : UnitName) (code : Z) (reason : string)
  | Skipped (test : UnitName) (reason : string)
  | Finished (scenario : UnitName) (result : Z) (reason : string).
End Status.
Abbreviation ManagerStatusMessage := Status.ManagerStatusMessage.

(** ** Events of the broadcast bus *)

Module Event.
Inductive UnitEvent :=
  | Status (e : UnitStatusEvent)
  | Category (e : UnitCategoryEvent)
  | Log (l : LogEntry)
  | RescanRequest
  | RescanStart
  | RescanFinish
  | ManagerRequest (m : ManagerControlMessage)
  | Shutdown.
End Event.
Abbreviation UnitEvent := Event.UnitEvent.

#[export] Instance UnitEvent_eq_dec : EqDecision UnitEvent.
Proof. solve_decision. Defined.
