(* ===== verification/Broadcaster.v ===== *)
(** * The broadcast bus ([UnitBroadcaster] of [src/src/unitbroadcaster.rs])

    A broadcaster holds the sending ends of the channels of its subscribers.
    A channel is a queue and a flag saying whether its receiver still exists;
    [send] fails exactly when it does not. *)

From S2P Require Import Prelude Str Path Unit Events.

(** ** State *)

Record Channel := mkChannel { ch_open : bool; ch_queue : list UnitEvent }.

Record Bus := mkBus {
  bus_chans : gmap nat Channel;   (** the channels, by identity *)
  bus_next : nat;                 (** the identity of the next channel *)
  bus_senders : list nat;         (** [senders]: the vector behind the mutex *)
}.

Definition bus_new : Bus := mkBus ∅ 0 [].

(** ** Operations *)

(** [Sender::send]. *)
Definition chan_send (chans : gmap nat Channel) (c : nat) (ev : UnitEvent) :
    result UnitEvent (gmap nat Channel) :=
  match chans !! c with
  | Some ch =>
    if ch_open ch then Ok (<[c := mkChannel true (ch_queue ch ++ [ev])]> chans) else Err ev
  | None => Err ev
  end.

(** The loop over [senders.iter().enumerate()]: the last index whose send
    failed is kept. *)
Fixpoint broadcast_loop (idx : nat) (senders : list nat) (ev : UnitEvent)
    (chans : gmap nat Channel) (to_remove : option nat) : gmap nat Channel * option nat :=
  match senders with
  | [] => (chans, to_remove)
  | c :: senders =>
    match chan_send chans c ev with
    | Ok chans => broadcast_loop (S idx) senders ev chans to_remove
    | Err _ => broadcast_loop (S idx) senders ev chans (Some idx)
    end
  end.

Definition broadcast (ev : UnitEvent) (b : Bus) : Bus :=
  let '(chans, to_remove) := broadcast_loop 0 (bus_senders b) ev (bus_chans b) None in
  let senders := match to_remove with
                 | Some idx => delete idx (bus_senders b)
                 | None => bus_senders b
                 end in
  let senders := match ev with Event.Shutdown => [] | _ => senders end in
  mkBus chans (bus_next b) senders.

Definition subscribe (b : Bus) : nat * Bus :=
  let c := bus_next b in
  (c, mkBus (<[c := mkChannel true []]> (bus_chans b)) (S c) (bus_senders b ++ [c])).

(** [log]. *)
Definition bus_log (now : option (Z * Z)) (section message : string) (b : Bus) : Bus :=
  broadcast (Event.Log (new_info now (internal section) message)) b.

(** What the owner of a receiver does: read one event, or drop it. *)
Definition chan_recv (c : nat) (b : Bus) : option (UnitEvent * Bus) :=
  match bus_chans b !! c with
  | Some (mkChannel o (ev :: q)) =>
    Some (ev, mkBus (<[c := mkChannel o q]> (bus_chans b)) (bus_next b) (bus_senders b))
  | _ => None
  end.

Definition chan_drop (c : nat) (b : Bus) : Bus :=
  mkBus (alter (fun ch => mkChannel false (ch_queue ch)) c (bus_chans b))
    (bus_next b) (bus_senders b).

(** ** Invariant *)

(** Every sender belongs to an allocated channel and appears once. *)
Record bus_wf (b : Bus) : Prop := {
  wf_senders_nodup : NoDup (bus_senders b);
  wf_senders_alloc : forall c, c ∈ bus_senders b -> c < bus_next b;
  wf_chans_alloc : forall c, is_Some (bus_chans b !! c) <-> c < bus_next b;
}.

Definition is_open (b : Bus) (c : nat) : bool :=
  match bus_chans b !! c with Some ch => ch_open ch | None => false end.

Definition queue_of (b : Bus) (c : nat) : list UnitEvent :=
  match bus_chans b !! c with Some ch => ch_queue ch | None => [] end.

(** The senders whose receiver is gone. *)
Definition dead_senders (b : Bus) : list nat :=
  filter (fun c => is_open b c = false) (bus_senders b).

(** ** Lemmas *)

Definition deliver (ev : UnitEvent) (ch : Channel) : Channel :=
  if ch_open ch then mkChannel true (ch_queue ch ++ [ev]) else ch.

Lemma deliver_open ev ch : ch_open (deliver ev ch) = ch_open ch.
Proof. unfold deliver. by destruct (ch_open ch) eqn:?. Qed.

Definition open_in (chans : gmap nat Channel) (c : nat) : bool :=
  match chans !! c with Some ch => ch_open ch | None => false end.

Lemma chan_send_Ok chans c ev chans' :
  chan_send chans c ev = Ok chans' -> open_in chans c = true /\ chans' = alter (deliver ev) c chans.
Proof.
  unfold chan_send, open_in. destruct (chans !! c) as [ch|] eqn:Hc; [|done].
  destruct (ch_open ch) eqn:Ho; [|done]. intros [= <-]. split; [done|].
  apply map_eq. intros d. rewrite lookup_alter, lookup_insert. case_decide; [|done].
  subst. rewrite Hc. simpl. unfold deliver. by rewrite Ho.
Qed.

Lemma chan_send_Err chans c ev e :
  chan_send chans c ev = Err e -> open_in chans c = false /\ alter (deliver ev) c chans = chans.
Proof.
  unfold chan_send, open_in. destruct (chans !! c) as [ch|] eqn:Hc.
  - destruct (ch_open ch) eqn:Ho; [done|]. intros _. split; [done|].
    apply map_eq. intros d. rewrite lookup_alter. case_decide; [|done]. subst.
    rewrite Hc. simpl. unfold deliver. by rewrite Ho.
  - intros _. split; [done|]. apply map_eq. intros d. rewrite lookup_alter.
    case_decide; [|done]. subst. by rewrite Hc.
Qed.

Lemma open_in_alter ev chans c d : open_in (alter (deliver ev) c chans) d = open_in chans d.
Proof.
  unfold open_in. rewrite lookup_alter. case_decide; [|done]. subst.
  destruct (chans !! d); simpl; [apply deliver_open|done].
Qed.

(** What one pass delivers. *)
Lemma broadcast_loop_chans senders ev idx chans tr :
  NoDup senders ->
  forall c, (broadcast_loop idx senders ev chans tr).1 !! c =
    if decide (c ∈ senders) then deliver ev <$> chans !! c else chans !! c.
Proof.
  revert idx chans tr. induction senders as [|s senders IH]; intros idx chans tr Hnd c.
  { done. }
  apply NoDup_cons in Hnd as [Hs Hnd].
  assert (forall tr', (broadcast_loop (S idx) senders ev (alter (deliver ev) s chans) tr').1 !! c
    = if decide (c ∈ s :: senders) then deliver ev <$> chans !! c else chans !! c) as Hgoal.
  { intros tr'. rewrite IH by done. rewrite lookup_alter.
    repeat case_decide; try set_solver; by destruct (chans !! c). }
  simpl. destruct (chan_send chans s ev) as [chans'|e] eqn:Hsend.
  - apply chan_send_Ok in Hsend as [_ ->]. apply Hgoal.
  - apply chan_send_Err in Hsend as [_ Heq]. rewrite <-(Hgoal (Some idx)), Heq. done.
Qed.

Lemma broadcast_loop_open senders ev idx chans tr c :
  NoDup senders ->
  open_in (broadcast_loop idx senders ev chans tr).1 c = open_in chans c.
Proof.
  intros Hnd. unfold open_in. rewrite broadcast_loop_chans by done.
  case_decide; [|done]. destruct (chans !! c); simpl; [apply deliver_open|done].
Qed.

(** Which sender one pass marks: the last one that is dead. *)
Lemma broadcast_loop_remove senders ev idx chans tr :
  (Forall (fun c => open_in chans c = true) senders /\
    (broadcast_loop idx senders ev chans tr).2 = tr) \/
  (exists l1 c l2, senders = l1 ++ c :: l2 /\ open_in chans c = false /\
    (broadcast_loop idx senders ev chans tr).2 = Some (idx + length l1)).
Proof.
  revert idx chans tr. induction senders as [|s senders IH]; intros idx chans tr; simpl.
  { left. split; [constructor|done]. }
  destruct (chan_send chans s ev) as [chans'|e] eqn:Hsend.
  - apply chan_send_Ok in Hsend as [Ho ->].
    destruct (IH (S idx) (alter (deliver ev) s chans) tr) as [[Hall Htr]|(l1 & c & l2 & -> & Hc & Htr)].
    + left. split; [|done]. constructor; [done|]. eapply Forall_impl; [done|].
      intros c. simpl. by rewrite open_in_alter.
    + right. exists (s :: l1), c, l2. rewrite open_in_alter in Hc.
      split; [done|]. split; [done|]. rewrite Htr. simpl. f_equal. lia.
  - apply chan_send_Err in Hsend as [Ho _].
    destruct (IH (S idx) chans (Some idx)) as [[Hall Htr]|(l1 & c & l2 & -> & Hc & Htr)].
    + right. exists [], s, senders. rewrite Htr. simpl. by rewrite Nat.add_0_r.
    + right. exists (s :: l1), c, l2. split; [done|]. split; [done|].
      rewrite Htr. simpl. f_equal. lia.
Qed.

(** The senders after a broadcast other than [Shutdown]. *)
Lemma broadcast_senders ev b :
  ev <> Event.Shutdown ->
  (Forall (fun c => is_open b c = true) (bus_senders b) /\
    bus_senders (broadcast ev b) = bus_senders b) \/
  (exists l1 c l2, bus_senders b = l1 ++ c :: l2 /\ is_open b c = false /\
    bus_senders (broadcast ev b) = l1 ++ l2).
Proof.
  intros Hev. unfold broadcast.
  pose proof (broadcast_loop_remove (bus_senders b) ev 0 (bus_chans b) None) as Hrem.
  destruct (broadcast_loop 0 _ _ _ _) as [chans tr]. simpl in *.
  replace (match ev with Event.Shutdown => [] | _ =>
    match tr with Some idx => delete idx (bus_senders b) | None => bus_senders b end end)
    with (match tr with Some idx => delete idx (bus_senders b) | None => bus_senders b end)
    by by destruct ev.
  destruct Hrem as [[Hall ->]|(l1 & c & l2 & Heq & Hc & ->)]; [by left|right].
  exists l1, c, l2. split; [done|]. split; [done|]. rewrite Heq. by rewrite delete_middle.
Qed.

Lemma broadcast_open ev b c : NoDup (bus_senders b) -> is_open (broadcast ev b) c = is_open b c.
Proof.
  intros Hnd. pose proof (broadcast_loop_open (bus_senders b) ev 0 (bus_chans b) None c Hnd) as Ho.
  unfold broadcast, is_open. by destruct (broadcast_loop 0 _ _ _ _).
Qed.

Lemma broadcast_queue ev b c :
  NoDup (bus_senders b) ->
  queue_of (broadcast ev b) c =
    if decide (c ∈ bus_senders b /\ is_open b c = true)
    then queue_of b c ++ [ev] else queue_of b c.
Proof.
  intros Hnd.
  pose proof (broadcast_loop_chans (bus_senders b) ev 0 (bus_chans b) None Hnd c) as Hc.
  unfold broadcast, queue_of, is_open. destruct (broadcast_loop 0 _ _ _ _) as [chans tr].
  simpl in *. rewrite Hc. clear Hc.
  destruct (bus_chans b !! c) as [ch|] eqn:Hch; repeat case_decide; simpl; try done; try set_solver.
  all: unfold deliver; destruct (ch_open ch) eqn:Ho; simpl; try done; naive_solver.
Qed.

Lemma bus_new_wf : bus_wf bus_new.
Proof.
  split; simpl; [constructor| set_solver |]. intros c. rewrite lookup_empty.
  split; [by intros [??] | lia].
Qed.

Lemma subscribe_wf b : bus_wf b -> bus_wf (subscribe b).2.
Proof.
  intros [Hnd Hall Hch]. split; simpl.
  - apply NoDup_app. split; [done|]. split; [|apply NoDup_singleton].
    intros c Hc ->%list_elem_of_singleton. apply Hall in Hc. lia.
  - intros c [Hc| ->%list_elem_of_singleton]%elem_of_app; [apply Hall in Hc|]; lia.
  - intros c. rewrite lookup_insert. case_decide; [subst; split; [lia|eauto]|].
    rewrite Hch. lia.
Qed.

Lemma chan_drop_wf c b : bus_wf b -> bus_wf (chan_drop c b).
Proof.
  intros [Hnd Hall Hch]. split; [done..|]. simpl. intros d. rewrite <-Hch, lookup_alter.
  case_decide; [subst|done]. apply fmap_is_Some.
Qed.

Lemma broadcast_wf ev b : bus_wf b -> bus_wf (broadcast ev b).
Proof.
  intros [Hnd Hall Hch].
  pose proof (broadcast_loop_chans (bus_senders b) ev 0 (bus_chans b) None Hnd) as Hc.
  assert (bus_senders (broadcast ev b) `sublist_of` bus_senders b) as Hsub.
  { destruct (decide (ev = Event.Shutdown)) as [->|Hev].
    - unfold broadcast. destruct (broadcast_loop 0 _ _ _ _). apply sublist_nil_l.
    - destruct (broadcast_senders ev b Hev) as [[_ ->]|(l1 & c & l2 & -> & _ & ->)]; [done|].
      apply sublist_app; [done|]. by apply sublist_cons. }
  split.
  - by eapply sublist_NoDup.
  - intros c Hin. unfold broadcast. destruct (broadcast_loop 0 _ _ _ _). simpl.
    apply Hall. by eapply elem_of_sublist.
  - intros c. unfold broadcast.
    destruct (broadcast_loop 0 _ _ _ _) as [chans tr]. simpl in *. rewrite <-Hch, Hc.
    case_decide; [|done]. by rewrite fmap_is_Some.
Qed.

(** A channel that is not subscribed stays so and gets nothing. *)
Lemma broadcast_unsubscribed ev b c : bus_wf b -> c ∉ bus_senders b ->
  c ∉ bus_senders (broadcast ev b) /\ queue_of (broadcast ev b) c = queue_of b c.
Proof.
  intros Hb Hc. split.
  - destruct (decide (ev = Event.Shutdown)) as [->|Hev].
    + unfold broadcast. destruct (broadcast_loop 0 _ _ _ _). apply not_elem_of_nil.
    + destruct (broadcast_senders ev b Hev) as [[_ ->]|(l1 & d & l2 & Heq & _ & ->)]; [done|].
      rewrite Heq in Hc. set_solver.
  - rewrite broadcast_queue by apply Hb. by rewrite decide_False by naive_solver.
Qed.

Lemma broadcast_shutdown_senders b : bus_senders (broadcast Event.Shutdown b) = [].
Proof. unfold broadcast. by destruct (broadcast_loop 0 _ _ _ _). Qed.

Lemma chan_recv_Some c b ev b' : chan_recv c b = Some (ev, b') ->
  queue_of b c = ev :: queue_of b' c /\ bus_senders b' = bus_senders b /\ (bus_wf b -> bus_wf b').
Proof.
  unfold chan_recv, queue_of. destruct (bus_chans b !! c) as [[o [|e q]]|] eqn:Hc; [done| |done].
  intros [= <- <-]. simpl. rewrite lookup_insert_eq. split_and!; [done|done|].
  intros [Hnd Hall Hch]. split; [done|done|]. simpl. intros d. rewrite <- Hch, lookup_insert_is_Some'.
  split; [intros [<-|?]; [by rewrite Hc|done]|by right].
Qed.

Lemma chan_recv_open c b ev b' d : chan_recv c b = Some (ev, b') -> is_open b' d = is_open b d.
Proof.
  unfold chan_recv, is_open. destruct (bus_chans b !! c) as [[o [|e q]]|] eqn:Hc; [done| |done].
  intros [= <- <-]. simpl. rewrite lookup_insert. case_decide; [subst d; by rewrite Hc|done].
Qed.

(** ** Sequences of broadcasts *)

Definition broadcast_all (evs : list UnitEvent) (b : Bus) : Bus :=
  fold_left (fun b ev => broadcast ev b) evs b.

Lemma broadcast_all_wf evs b : bus_wf b -> bus_wf (broadcast_all evs b).
Proof.
  revert b. induction evs as [|ev evs IH]; intros b Hb; [done|]. by apply IH, broadcast_wf.
Qed.

Lemma broadcast_keeps_open ev b c :
  ev <> Event.Shutdown -> c ∈ bus_senders b -> is_open b c = true ->
  c ∈ bus_senders (broadcast ev b).
Proof.
  intros Hev Hin Ho. destruct (broadcast_senders ev b Hev) as [[_ ->]|(l1 & d & l2 & Heq & Hd & ->)];
    [done|]. rewrite Heq in Hin. assert (c <> d) by congruence. set_solver.
Qed.

(** A subscriber whose receiver exists. *)
Definition listens (b : Bus) (c : nat) : Prop := bus_wf b /\ c ∈ bus_senders b /\ is_open b c = true.

Lemma broadcast_listens ev b c : ev <> Event.Shutdown -> listens b c ->
  listens (broadcast ev b) c /\ queue_of (broadcast ev b) c = queue_of b c ++ [ev].
Proof.
  intros Hev (Hb & Hc & Ho). split; [|rewrite broadcast_queue by apply Hb; by rewrite decide_True].
  split_and!; [by apply broadcast_wf|by apply broadcast_keeps_open|]. by rewrite broadcast_open by apply Hb.
Qed.

Lemma broadcast_all_listens evs b c : Event.Shutdown ∉ evs -> listens b c ->
  listens (broadcast_all evs b) c /\ queue_of (broadcast_all evs b) c = queue_of b c ++ evs.
Proof.
  revert b. induction evs as [|ev evs IH]; intros b Hns Hl; [by rewrite app_nil_r|].
  apply not_elem_of_cons in Hns as [Hev Hns].
  destruct (broadcast_listens ev b c) as [Hl1 Hq]; [congruence|done|].
  destruct (IH (broadcast ev b) Hns Hl1) as [Hl2 Hq2]. split; [exact Hl2|].
  change (broadcast_all (ev :: evs) b) with (broadcast_all evs (broadcast ev b)).
  by rewrite Hq2, Hq, <- app_assoc.
Qed.

Lemma subscribe_listens b : bus_wf b -> listens (subscribe b).2 (subscribe b).1 /\
  queue_of (subscribe b).2 (subscribe b).1 = [].
Proof.
  intros Hb. unfold listens, is_open, queue_of. simpl. rewrite lookup_insert_eq.
  split_and!; [by apply (subscribe_wf b)| |done|done]. apply elem_of_app. right. by left.
Qed.

Lemma subscribe_other b c : listens b c -> listens (subscribe b).2 c /\ queue_of (subscribe b).2 c = queue_of b c.
Proof.
  intros (Hb & Hc & Ho). pose proof (wf_senders_alloc b Hb c Hc) as Hlt.
  unfold listens, is_open, queue_of in *. simpl. rewrite lookup_insert_ne by lia.
  split_and!; [by apply (subscribe_wf b)| |done|done]. apply elem_of_app. by left.
Qed.

Lemma broadcast_prunes_one ev b :
  bus_wf b -> ev <> Event.Shutdown ->
  length (dead_senders (broadcast ev b)) = Nat.pred (length (dead_senders b)).
Proof.
  intros Hb Hev. unfold dead_senders.
  rewrite (list_filter_iff (fun c => is_open (broadcast ev b) c = false)
             (fun c => is_open b c = false)) by
    (intros c; by rewrite broadcast_open by apply Hb).
  destruct (broadcast_senders ev b Hev) as [[Hall ->]|(l1 & c & l2 & -> & Hc & ->)].
  - assert (filter (fun c => is_open b c = false) (bus_senders b) = []) as ->; [|done].
    induction Hall as [|c l Hc Hall IH]; [done|]. rewrite filter_cons_False by congruence. done.
  - rewrite !filter_app, filter_cons_True by done. rewrite !length_app. simpl. lia.
Qed.

(** The events up to the first shutdown. *)
Fixpoint until_shutdown (evs : list UnitEvent) : list UnitEvent :=
  match evs with
  | [] => []
  | Event.Shutdown :: _ => [Event.Shutdown]
  | ev :: evs => ev :: until_shutdown evs
  end.

Lemma broadcast_all_unsubscribed evs b c : bus_wf b -> c ∉ bus_senders b ->
  queue_of (broadcast_all evs b) c = queue_of b c.
Proof.
  revert b. induction evs as [|ev evs IH]; intros b Hb Hc; [done|].
  destruct (broadcast_unsubscribed ev b c Hb Hc) as [Hc' <-]. apply IH; [by apply broadcast_wf|done].
Qed.

(** (C30) The bus is a reliable ordered broadcast up to a shutdown: a subscriber
    whose receiver exists gets the events that are broadcast up to the first
    shutdown, this one included, once each and in the order of the broadcasts,
    after what it had not read yet, and nothing that is broadcast later; as long as
    no shutdown is broadcast it stays subscribed; a channel that is not subscribed
    gets nothing. *)
Theorem broadcast_fifo evs b c :
  bus_wf b ->
  (c ∈ bus_senders b /\ is_open b c = true ->
     queue_of (broadcast_all evs b) c = queue_of b c ++ until_shutdown evs /\
     (Event.Shutdown ∉ evs -> c ∈ bus_senders (broadcast_all evs b))) /\
  (c ∉ bus_senders b -> queue_of (broadcast_all evs b) c = queue_of b c).
Proof.
  intros Hb. split; [|by apply broadcast_all_unsubscribed].
  intros [Hc Ho]. split; [|intros Hns; by destruct (broadcast_all_listens evs b c Hns) as [(_ & ? & _) _]].
  assert (listens b c) as Hl by done. clear Hb Hc Ho. revert b Hl.
  induction evs as [|ev evs IH]; intros b Hl; [by rewrite app_nil_r|].
  change (broadcast_all (ev :: evs) b) with (broadcast_all evs (broadcast ev b)).
  destruct (decide (ev = Event.Shutdown)) as [->|Hev].
  - destruct Hl as (Hb & Hc & Ho). rewrite broadcast_all_unsubscribed; [|by apply broadcast_wf|].
    + rewrite broadcast_queue by apply Hb. by rewrite decide_True.
    + rewrite broadcast_shutdown_senders. apply not_elem_of_nil.
  - destruct (broadcast_listens ev b c Hev Hl) as [Hl1 Hq]. rewrite (IH _ Hl1), Hq, <- app_assoc. by destruct ev.
Qed.

Lemma broadcast_fifo_witness :
  let b := (subscribe bus_new).2 in
  queue_of (broadcast_all [Event.RescanStart; Event.Shutdown; Event.RescanFinish] b) 0
    = [Event.RescanStart; Event.Shutdown].
Proof.
  apply (broadcast_fifo [Event.RescanStart; Event.Shutdown; Event.RescanFinish] (subscribe bus_new).2 0).
  - apply subscribe_wf, bus_new_wf.
  - split; [simpl; by left | by vm_compute].
Defined.

(** Receivers that were dropped are pruned, one per broadcast: after [n]
    broadcasts the number of dead senders is lower by [n], and none is left
    after as many broadcasts as there were dead senders. *)
Theorem broadcast_prunes evs b :
  bus_wf b -> Event.Shutdown ∉ evs ->
  length (dead_senders (broadcast_all evs b)) = length (dead_senders b) - length evs.
Proof.
  revert b. induction evs as [|ev evs IH]; intros b Hb Hns; [simpl; lia|].
  apply not_elem_of_cons in Hns as [Hev Hns].
  change (broadcast_all (ev :: evs) b) with (broadcast_all evs (broadcast ev b)).
  rewrite IH by (done || by apply broadcast_wf).
  rewrite broadcast_prunes_one by done. simpl. lia.
Qed.

Lemma broadcast_prunes_witness :
  let b := chan_drop 1 (chan_drop 0 (subscribe (subscribe bus_new).2).2) in
  length (dead_senders (broadcast_all [Event.RescanStart; Event.RescanStart] b)) = 0.
Proof.
  intros b. etrans; [apply broadcast_prunes|by vm_compute].
  - by apply chan_drop_wf, chan_drop_wf, subscribe_wf, subscribe_wf, bus_new_wf.
  - set_solver.
Defined.
