(* ===== verification/Foreign.v ===== *)
(** * Code outside the repository

    The libraries and the file system the program calls, as parameters of the
    model: the [systemd-parser], [humantime], [regex] and [dependy] crates and
    the file system.  Nothing is assumed of them here; theorems that need
    something state it as a hypothesis.  The standard library's integer parser
    is modelled. *)

From S2P Require Import Prelude Str Path Unit.

(** ** Unit files *)

(** [systemd_parser::items]: a directive is a key with an optional value. *)
Record Directive := mkDirective { d_key : string; d_value : option string }.

Inductive DirectiveEntry :=
  | Solo (d : Directive)
  | Many (ds : list Directive).

(** Durations, in nanoseconds. *)
Abbreviation Duration := Z.
Definition from_secs (s : Z) : Duration := (s * 1000000000)%Z.

Class Libraries := {
  UnitFile : Type;
  parse_string : string -> result ForeignError UnitFile;
  has_category : UnitFile -> string -> bool;
  lookup_by_category : UnitFile -> string -> list DirectiveEntry;

  (** [humantime::parse_duration] *)
  parse_duration : string -> result ForeignError Duration;

  (** [regex::Regex] *)
  Regex : Type;
  Regex_new : string -> result ForeignError Regex;
  is_match : Regex -> string -> bool;

  (** [Path::canonicalize] *)
  canonicalize : string -> result ForeignError string;
}.

(** What the files hold when they are read, with [File::open] and
    [read_to_string]: another instance each time a message is processed. *)
Class Files := {
  read_file : string -> result ForeignError string;
}.

(** ** Dependency graphs: [dependy] *)

(** What a [Dependency] tells the graph of itself. *)
Record Dep := mkDep {
  dep_name : UnitName;
  dep_requirements : list UnitName;
  dep_suggestions : list UnitName;
  dep_provides : list UnitName;
}.

(** A [Dependy] is what was added to it, in order. *)
Abbreviation Dependy := (list Dep).

Class DependyLib := {
  resolve_named_dependencies : Dependy -> list UnitName -> result DepError (list UnitName);
  required_parents_of_named : Dependy -> UnitName -> list UnitName;
}.

(** What the scenarios rely on: the sequence that resolves the named
    dependencies lists known nodes, each once, each after what it requires, and
    the names that were asked for are in it. *)
Class DependyLaws `{DependyLib} : Prop := {
  resolve_nodup graph names seq :
    resolve_named_dependencies graph names = Ok seq -> NoDup seq;
  resolve_known graph names seq n :
    resolve_named_dependencies graph names = Ok seq -> n ∈ seq -> n ∈ dep_name <$> graph;
  resolve_after graph names l1 n l2 p :
    resolve_named_dependencies graph names = Ok (l1 ++ n :: l2) ->
    p ∈ required_parents_of_named graph n -> p ∈ l1;
  resolve_named graph names seq n :
    resolve_named_dependencies graph names = Ok seq -> n ∈ names -> n ∈ seq;
}.

(** ** [str::parse] for unsigned integers *)

Definition pe_empty : ForeignError :=
  let t := "cannot parse integer from empty string" in mkForeign t t "ParseIntError { kind: Empty }".
Definition pe_digit : ForeignError :=
  let t := "invalid digit found in string" in mkForeign t t "ParseIntError { kind: InvalidDigit }".
Definition pe_overflow : ForeignError :=
  let t := "number too large to fit in target type" in
  mkForeign t t "ParseIntError { kind: Overflow }".

Definition digit_of (c : ascii) : option Z :=
  let n := nat_of_ascii c in
  if (48 <=? n) && (n <=? 57) then Some (Z.of_nat (n - 48)) else None.

Fixpoint parse_digits (max acc : Z) (s : string) : result ForeignError Z :=
  match s with
  | EmptyString => Ok acc
  | String c s =>
    match digit_of c with
    | None => Err pe_digit
    | Some d =>
      let acc := (acc * 10 + d)%Z in
      if (max <? acc)%Z then Err pe_overflow else parse_digits max acc s
    end
  end.

Definition parse_unsigned (max : Z) (s : string) : result ForeignError Z :=
  match s with
  | EmptyString => Err pe_empty
  | String c EmptyString =>
    if Ascii.eqb c "+" then Err pe_digit else parse_digits max 0 s
  | String c s' => if Ascii.eqb c "+" then parse_digits max 0 s' else parse_digits max 0 s
  end.

Definition u32_max : Z := (2 ^ 32 - 1)%Z.
Definition u64_max : Z := (2 ^ 64 - 1)%Z.

Lemma parse_digits_bounds max acc s v :
  (0 <= acc <= max)%Z -> parse_digits max acc s = Ok v -> (0 <= v <= max)%Z.
Proof.
  revert acc. induction s as [|c s IH]; simpl; intros acc Hacc H; [by injection H as <-|].
  unfold digit_of in H. destruct (_ && _); [|done].
  destruct (Z.ltb_spec max (acc * 10 + Z.of_nat (nat_of_ascii c - 48))); [done|].
  apply IH in H; [done|]. lia.
Qed.

Lemma parse_unsigned_bounds max s v :
  (0 <= max)%Z -> parse_unsigned max s = Ok v -> (0 <= v <= max)%Z.
Proof.
  intros Hmax. unfold parse_unsigned. destruct s as [|c [|d s]]; [done| |];
    destruct (Ascii.eqb c "+"); try done; apply parse_digits_bounds; lia.
Qed.
