(* ===== verification/Config.v ===== *)
(** * Configuration ([src/src/config.rs])

    The defaults shared by all units and the working directory a unit runs
    its programs in. *)

From S2P Require Import Prelude Str Path Unit Foreign.

Definition DEFAULT_TIMEOUT_SECS : Z := 5.

Record Config := mkConfig {
  cfg_timeout : Duration;
  cfg_jig_wd : option string;
  cfg_scenario_wd : option string;
  cfg_paths : list string;
  cfg_terminate_timeout : Duration;
}.

Definition config_new : Config :=
  mkConfig (from_secs DEFAULT_TIMEOUT_SECS) None None
    ["/usr/local/sbin"; "/usr/local/bin"; "/usr/sbin"; "/usr/bin"; "/sbin:/bin"]
    (from_secs DEFAULT_TIMEOUT_SECS).

Definition set_jig_working_directory (p : string) (c : Config) : Config :=
  mkConfig (cfg_timeout c) (Some p) (cfg_scenario_wd c) (cfg_paths c) (cfg_terminate_timeout c).
Definition clear_jig_working_directory (c : Config) : Config :=
  mkConfig (cfg_timeout c) None (cfg_scenario_wd c) (cfg_paths c) (cfg_terminate_timeout c).
Definition set_scenario_working_directory (p : string) (c : Config) : Config :=
  mkConfig (cfg_timeout c) (cfg_jig_wd c) (Some p) (cfg_paths c) (cfg_terminate_timeout c).
Definition clear_scenario_working_directory (c : Config) : Config :=
  mkConfig (cfg_timeout c) (cfg_jig_wd c) None (cfg_paths c) (cfg_terminate_timeout c).

Section working_directory.
Context `{Libraries}.

(** Push the optional directory [wd] onto [p]. *)
Definition push_opt (p : string) (wd : option string) : string :=
  match wd with Some d => path_push p d | None => p end.

Definition working_directory (c : Config) (default : string) (wd : option string) : string :=
  let p := push_opt (push_opt (push_opt default (cfg_jig_wd c)) (cfg_scenario_wd c)) wd in
  match canonicalize p with Ok x => x | Err _ => p end.

(** An absolute directory of the unit hides the jig's, the scenario's and the
    unit file's directories. *)
Lemma working_directory_absolute c default d :
  is_absolute d = true ->
  working_directory c default (Some d)
    = match canonicalize d with Ok x => x | Err _ => d end.
Proof.
  intros Hd. assert (forall p, push_opt p (Some d) = d) as Hp.
  { intros p. unfold push_opt, path_push. by rewrite Hd. }
  unfold working_directory. by rewrite Hp.
Qed.

End working_directory.
