(* ===== verification/Env.v ===== *)
(** * The outside world at run time

    Clocks, child processes and the order in which hash maps are iterated are
    decided by the world: they are parameters, given as functions of the number
    of questions asked before, so that every answer can differ from the last.
    What the program does to the world is recorded as a list of outputs. *)

From S2P Require Import Prelude Str Path Unit Foreign Config Events.

Class Env := {
  (** [Instant::now()], in nanoseconds *)
  env_now : nat -> Z;
  (** [SystemTime::now().duration_since(UNIX_EPOCH)], as seconds and
      nanoseconds *)
  env_time : nat -> option (Z * Z);
  (** [Path::exists] *)
  env_path_exists : nat -> string -> bool;
  (** [Runny::start] for a command, with its timeout and directory *)
  env_start : nat -> string -> option Duration -> option string -> result RunnyError unit;
  (** [Debug] for [RunnyError], and for an [io::Error] made from a text *)
  runny_debug : RunnyError -> string;
  custom_error_debug : string -> string;
  (** [Running::terminate]: the return value of the child *)
  env_terminate : nat -> UnitName -> result ForeignError Z;
  (** one [write!] to the standard input of a child *)
  env_write : nat -> UnitName -> string -> result ForeignError unit;
  (** the [k]-th [read_line] from a jig's test program, and its [result()] *)
  env_read_line : nat -> nat -> result ForeignError string;
  env_program_result : nat -> Z;
  (** [serde_json::to_string] of a log entry *)
  log_to_json : LogEntry -> result ForeignError string;
  (** the order in which a hash map with these keys is iterated *)
  env_order : nat -> list UnitName -> list UnitName;
}.

(** Iterating a map visits each key once. *)
Class EnvLaws `{Env} : Prop := {
  env_order_perm n l : env_order n l ≡ₚ l;
}.

(** What a step of the program did, in order. *)
Inductive Out :=
  (** a message sent on the control channel *)
  | Send (m : ManagerControlMessage)
  (** an event given to the broadcaster *)
  | Broadcast (e : UnitEvent)
  (** a child process started for a unit *)
  | Spawn (owner : UnitName) (cmd : string) (timeout : option Duration) (dir : string)
  (** a child process of a unit told to stop *)
  | Terminate (owner : UnitName) (timeout : option Duration)
  (** a text written to the child of a unit *)
  | Write (owner : UnitName) (text : string).

Definition sent (o : Out) : option ManagerControlMessage :=
  match o with Send m => Some m | _ => None end.

(** The control messages among the outputs. *)
Definition sent_msgs (os : list Out) : list ManagerControlMessage := omap sent os.

Lemma sent_msgs_app os1 os2 : sent_msgs (os1 ++ os2) = sent_msgs os1 ++ sent_msgs os2.
Proof. apply omap_app. Qed.

(** What the operations of a unit share: the configuration, the number of
    questions asked of the world, and the outputs. *)
Record IO := mkIO { io_cfg : Config; io_tick : nat; io_out : list Out }.

#[export] Instance eta_IO : Eta IO := mkEta _ (fun r => mkIO (io_cfg r) (io_tick r) (io_out r)).

Section io.
Context `{Libraries} `{Env}.

Definition emit (o : Out) : M IO unit := modify (fun w => w <| io_out ::= fun os => os ++ [o] |>).

(** Ask the world: the question sees how many were asked before. *)
Definition ask {A} (f : nat -> A) : M IO A :=
  fun w => Done (f (io_tick w), w <| io_tick ::= S |>).

(** [ctrl.send(ManagerControlMessage::new(sender, contents)).ok()] *)
Definition io_send (sender : UnitName) (contents : ManagerControlMessageContents) : M IO unit :=
  emit (Send (mkCtrl sender contents)).

(** [bc.broadcast(&event)] *)
Definition io_broadcast (e : UnitEvent) : M IO unit := emit (Broadcast e).

Definition log_info (id : UnitName) (message : string) : M IO unit :=
  now ← ask env_time; io_broadcast (Event.Log (new_info now id message)).
Definition log_error (id : UnitName) (message : string) : M IO unit :=
  now ← ask env_time; io_broadcast (Event.Log (new_error now id message)).

(** [Runny::new(cmd).directory(dir).start()], with the process id that stands
    for the [Running] it gives. *)
Definition start_child (owner : UnitName) (cmd : string) (timeout : option Duration)
    (unit_directory : string) (wd : option string) : M IO (result RunnyError nat) :=
  cfg ← gets io_cfg;
  let dir := working_directory cfg unit_directory wd in
  pid ← gets io_tick;
  r ← ask (fun n => env_start n cmd timeout (Some dir));
  match r with
  | Ok _ => emit (Spawn owner cmd timeout dir);; mret (Ok pid)
  | Err e => mret (Err e)
  end.

(** [process.terminate(timeout)] and the match on its result. *)
Definition terminate_child (owner : UnitName) (timeout : option Duration) :
    M IO (result UnitDeactivateError unit) :=
  emit (Terminate owner timeout);;
  r ← ask (fun n => env_terminate n owner);
  mret (match r with
        | Ok retval => if (retval =? 0)%Z then Ok tt else Err (NonZeroReturn retval)
        | Err e => Err (RunningError e)
        end).

(** The calls of [write!] and [writeln!] of one message, each followed by [?]. *)
Fixpoint write_chunks (owner : UnitName) (chunks : list string) : M IO (result ForeignError unit) :=
  match chunks with
  | [] => mret (Ok tt)
  | c :: chunks =>
    r ← ask (fun n => env_write n owner c);
    match r with
    | Ok _ => emit (Write owner c);; write_chunks owner chunks
    | Err e => mret (Err e)
    end
  end.

(** [Error::new(ErrorKind::Other, text)] *)
Definition other_error (text : string) : ForeignError :=
  mkForeign text text (custom_error_debug text).

(** The keys and values of a map, in the order it is iterated. *)
Definition iter_map {A} (m : gmap UnitName A) : M IO (list (UnitName * A)) :=
  ask (fun n => omap (fun k => (fun v => (k, v)) <$> m !! k)
                  (env_order n (map_to_list m).*1)).

End io.
