(* ===== verification/Samples.v ===== *)
(** * Concrete libraries

    Instances of the interfaces to code outside the repository, on which the
    theorems are tried out: a reader of [Key=Value] unit files over a small
    file system, and a dependency resolver that searches depth first and
    answers only when the order it found is one. *)

From S2P Require Import Prelude Str Path Unit Foreign Config Events Env.

Definition sample_error (what : string) : ForeignError := mkForeign what what what.

(** ** Unit files *)

(** Lines of [\[Category\]] and [Key=Value]. *)
Definition SampleFile : Type := list (string * list DirectiveEntry).

Definition sample_category (line : string) : option string :=
  match line with
  | String c rest =>
    if Ascii.eqb c "[" then Some (String.substring 0 (String.length rest - 1) rest) else None
  | _ => None
  end.

Definition sample_directive (line : string) : option DirectiveEntry :=
  match split_char "=" line with
  | key :: value :: rest => Some (Solo (mkDirective key (Some (join "=" (value :: rest)))))
  | _ => None
  end.

Fixpoint sample_parse (lines : list string) : list DirectiveEntry * SampleFile :=
  match lines with
  | [] => ([], [])
  | line :: lines =>
    let '(entries, file) := sample_parse lines in
    match sample_category line with
    | Some c => ([], (c, entries) :: file)
    | None => match sample_directive line with
              | Some e => (e :: entries, file)
              | None => (entries, file)
              end
    end
  end.

Definition assoc {A} (k : string) (l : list (string * A)) : option A :=
  snd <$> List.find (fun p => String.eqb p.1 k) l.

Definition sample_libraries : Libraries := {|
  UnitFile := SampleFile;
  parse_string s := Ok (sample_parse (split_char c_lf s)).2;
  has_category f c := bool_decide (is_Some (assoc c f));
  lookup_by_category f c := default [] (assoc c f);
  parse_duration _ := Err (sample_error "duration");
  Regex := string;
  Regex_new := Ok;
  is_match := String.eqb;
  canonicalize := Ok;
|}.

(** Some paths can be read. *)
Definition files_with (files : list (string * string)) : Files := {|
  read_file p := match assoc p files with Some c => Ok c | None => Err (sample_error "no file") end;
|}.

(** ** Dependencies *)

Definition sample_parents (g : Dependy) (n : UnitName) : list UnitName :=
  match List.find (fun d => bool_decide (dep_name d = n)) g with
  | Some d => dep_requirements d
  | None => []
  end.

Fixpoint sample_visit (fuel : nat) (g : Dependy) (todo seen : list UnitName) : list UnitName :=
  match fuel with
  | 0 => seen
  | S fuel =>
    foldl (fun seen n => if bool_decide (n ∈ seen) then seen
                         else sample_visit fuel g (sample_parents g n) seen ++ [n]) seen todo
  end.

Fixpoint in_order (g : Dependy) (seen seq : list UnitName) : bool :=
  match seq with
  | [] => true
  | n :: seq => forallb (fun p => bool_decide (p ∈ seen)) (sample_parents g n)
                && in_order g (seen ++ [n]) seq
  end.

Definition sample_valid (g : Dependy) (names seq : list UnitName) : bool :=
  bool_decide (NoDup seq) && forallb (fun n => bool_decide (n ∈ dep_name <$> g)) seq
  && in_order g [] seq && forallb (fun n => bool_decide (n ∈ seq)) names.

Definition sample_dependy : DependyLib := {|
  resolve_named_dependencies g names :=
    let seq := sample_visit (S (length g)) g names [] in
    if sample_valid g names seq then Ok seq
    else Err (DependencyNotFound (hd (mkName "" UnitKind.Test) names));
  required_parents_of_named := sample_parents;
|}.

Lemma in_order_after g l1 n l2 p seen :
  in_order g seen (l1 ++ n :: l2) = true -> p ∈ sample_parents g n -> p ∈ seen ++ l1.
Proof.
  revert seen. induction l1 as [|m l1 IH]; simpl; intros seen [Hhd Htl]%andb_true_iff Hp.
  - rewrite app_nil_r. rewrite forallb_forall in Hhd.
    apply list_elem_of_In, Hhd, bool_decide_eq_true in Hp. done.
  - apply IH in Htl; [|done]. by rewrite <- app_assoc in Htl.
Qed.

Lemma sample_resolve g names seq :
  @resolve_named_dependencies sample_dependy g names = Ok seq -> sample_valid g names seq = true.
Proof. simpl. destruct (sample_valid _ _ _) eqn:E; [|done]. by intros [= <-]. Qed.

Lemma sample_dependy_laws : @DependyLaws sample_dependy.
Proof.
  split; intros g *; intros Hres%sample_resolve;
    apply andb_true_iff in Hres as [Hres Hnamed]; apply andb_true_iff in Hres as [Hres Horder];
    apply andb_true_iff in Hres as [Hnodup Hknown].
  - by apply bool_decide_eq_true in Hnodup.
  - rewrite forallb_forall in Hknown. intros Hn%list_elem_of_In%Hknown.
    by apply bool_decide_eq_true in Hn.
  - intros Hp. by eapply (in_order_after g l1 n l2 p []).
  - rewrite forallb_forall in Hnamed. intros Hn%list_elem_of_In%Hnamed.
    by apply bool_decide_eq_true in Hn.
Qed.

(** ** A run-time world *)

(** Every path exists, every command starts and ends well, the clocks stand still, writing
    succeeds for the units [writable] allows, and maps are iterated in the order
    of their keys. *)
Definition env_with (writable : UnitName -> bool) (exit_code : Z) : Env := {|
  env_now _ := 0%Z;
  env_time _ := Some (0%Z, 0%Z);
  env_path_exists _ _ := true;
  env_start _ _ _ _ := Ok tt;
  runny_debug _ := "";
  custom_error_debug := id;
  env_terminate _ _ := Ok exit_code;
  env_write _ n _ := if writable n then Ok tt else Err (sample_error "broken pipe");
  env_read_line _ _ := Err (sample_error "end");
  env_program_result _ := 0%Z;
  log_to_json l := Ok (log_fmt l);
  env_order _ := id;
|}.

Definition sample_env : Env := env_with (fun _ => true) 0.

Lemma env_with_laws writable exit_code : @EnvLaws (env_with writable exit_code).
Proof. by split. Qed.
