(* ===== verification/Descriptions.v ===== *)
(** * Unit descriptions
    (the [*Description] types of [src/src/units/])

    Each unit file is parsed into a description by a loop over the directives
    of one section.  A directive that occurs once is [Solo]; repeated ones are
    [Many] and skipped.  The loop keeps the description and stops at the first
    error. *)

From S2P Require Import Prelude Str Path Unit Foreign Samples.

Section descriptions.
Context `{Libraries} `{Files}.

Abbreviation DescResult := (result UnitDescriptionError).

(** ** What the loops share *)

Fixpoint fold_entries {A} (step : A -> Directive -> DescResult A) (acc : A)
    (entries : list DirectiveEntry) : DescResult A :=
  match entries with
  | [] => Ok acc
  | Solo d :: entries => acc ← step acc d; fold_entries step acc entries
  | Many _ :: entries => fold_entries step acc entries
  end.

(** [directive.value().unwrap_or("")] *)
Definition value_or_empty (d : Directive) : string :=
  match d_value d with Some s => s | None => "" end.

Definition names_value (d : Directive) (ty : string) : DescResult (list UnitName) :=
  match d_value d with
  | Some s => map_err InvalidUnitName (from_list s ty)
  | None => Ok []
  end.

(** [parse_time]: a plain number is in seconds. *)
Definition parse_time (time_str : string) : DescResult Duration :=
  match parse_unsigned u64_max time_str with
  | Ok val => Ok (from_secs val)
  | Err _ => map_err HumantimeError (parse_duration time_str)
  end.

Definition time_value (d : Directive) : DescResult (option Duration) :=
  match d_value d with
  | None => Ok None
  | Some s => t ← parse_time s; Ok (Some t)
  end.

(** [path.parent().unwrap()]; the name was parsed from the path before, so the
    path has a parent ([from_path_parent] below). *)
Definition unit_dir (path : string) : string :=
  match parent path with Some d => d | None => "" end.

(** The head of every [from_string]: parse, look for the section. *)
Definition parse_section (section contents : string) : DescResult (list DirectiveEntry) :=
  unit_file ← map_err ParseError (parse_string contents);
  if has_category unit_file section then Ok (lookup_by_category unit_file section)
  else Err (MissingSection section).

(** The head of every [from_path]: the name, then the contents. *)
Definition read_unit {A} (path : string)
    (from_string : string -> UnitName -> string -> DescResult A) : DescResult A :=
  unit_name ← map_err InvalidUnitName (from_path path);
  contents ← map_err FileOpenError (read_file path);
  from_string contents unit_name path.

(** ** Tests ([src/src/units/test.rs]) *)

Inductive TestType := Simple | Daemon.

#[export] Instance TestType_eq_dec : EqDecision TestType.
Proof. solve_decision. Defined.

Record TestDescription := mkTestDescription {
  td_id : UnitName;
  td_name : string;
  td_description : string;
  td_jigs : list UnitName;
  td_requires : list UnitName;
  td_suggests : list UnitName;
  td_provides : list UnitName;
  td_timeout : option Duration;
  td_exec_stop_success_timeout : option Duration;
  td_exec_stop_failure_timeout : option Duration;
  td_test_type : TestType;
  td_test_daemon_ready : option Regex;
  td_exec_start : string;
  td_exec_stop_failure : option string;
  td_exec_stop_success : option string;
  td_working_directory : option string;
  td_unit_directory : string;
}.

#[export] Instance eta_TestDescription : Eta TestDescription := mkEta _ (fun r =>
  mkTestDescription (td_id r) (td_name r) (td_description r) (td_jigs r) (td_requires r)
    (td_suggests r) (td_provides r) (td_timeout r) (td_exec_stop_success_timeout r)
    (td_exec_stop_failure_timeout r) (td_test_type r) (td_test_daemon_ready r)
    (td_exec_start r) (td_exec_stop_failure r) (td_exec_stop_success r)
    (td_working_directory r) (td_unit_directory r)).

Definition test_directive (t : TestDescription) (d : Directive) : DescResult TestDescription :=
  let k := d_key d in
  if String.eqb k "Name" then Ok (t <| td_name := value_or_empty d |>)
  else if String.eqb k "Description" then Ok (t <| td_description := value_or_empty d |>)
  else if String.eqb k "Jigs" then ns ← names_value d "jig"; Ok (t <| td_jigs := ns |>)
  else if String.eqb k "Provides" then ns ← names_value d "test"; Ok (t <| td_provides := ns |>)
  else if String.eqb k "Requires" then ns ← names_value d "test"; Ok (t <| td_requires := ns |>)
  else if String.eqb k "Suggests" then ns ← names_value d "test"; Ok (t <| td_suggests := ns |>)
  else if String.eqb k "DaemonReadyText" then
    match d_value d with
    | Some s => r ← map_err RegexError (Regex_new s); Ok (t <| td_test_daemon_ready := Some r |>)
    | None => Ok (t <| td_test_daemon_ready := None |>)
    end
  else if String.eqb k "Type" then
    match d_value d with
    | Some s =>
      let v := to_lowercase s in
      if String.eqb v "simple" then Ok (t <| td_test_type := Simple |>)
      else if String.eqb v "daemon" then Ok (t <| td_test_type := Daemon |>)
      else Err (InvalidValue "Test" "Type" v ["Simple"; "Daemon"])
    | None => Ok (t <| td_test_type := Simple |>)
    end
  else if String.eqb k "WorkingDirectory" then
    match d_value d with
    | Some wd => Ok (t <| td_working_directory := Some wd |>)
    | None => Ok t
    end
  else if String.eqb k "ExecStart" then
    match d_value d with
    | None => Err (MissingValue "Test" "ExecStart")
    | Some s => Ok (t <| td_exec_start := s |>)
    end
  else if String.eqb k "Timeout" then v ← time_value d; Ok (t <| td_timeout := v |>)
  else if String.eqb k "ExecStopSuccess" then Ok (t <| td_exec_stop_success := d_value d |>)
  else if String.eqb k "ExecStopSuccessTimeout" then
    v ← time_value d; Ok (t <| td_exec_stop_success_timeout := v |>)
  else if String.eqb k "ExecStopFailure" then Ok (t <| td_exec_stop_failure := d_value d |>)
  else if String.eqb k "ExecStopFailureTimeout" then
    v ← time_value d; Ok (t <| td_exec_stop_failure_timeout := v |>)
  else Ok t.

Definition test_from_string (contents : string) (unit_name : UnitName) (path : string) :
    DescResult TestDescription :=
  entries ← parse_section "Test" contents;
  t ← fold_entries test_directive
    (mkTestDescription unit_name "" "" [] [] [] [] None None None Simple None "" None None
       None (unit_dir path)) entries;
  if String.eqb (td_exec_start t) "" then Err (MissingValue "Test" "ExecStart") else Ok t.

Definition test_from_path (path : string) : DescResult TestDescription :=
  read_unit path test_from_string.

Definition test_supports_jig (t : TestDescription) (name : UnitName) : bool :=
  bool_decide (name ∈ td_jigs t).

(** ** Scenarios ([src/src/units/scenario.rs]) *)

Record ScenarioDescription := mkScenarioDescription {
  sd_id : UnitName;
  sd_name : string;
  sd_description : string;
  sd_jigs : list UnitName;
  sd_tests : list UnitName;
  sd_assumptions : list UnitName;
  sd_timeout : option Duration;
  sd_working_directory : option string;
  sd_unit_directory : string;
  sd_exec_start : option string;
  sd_exec_start_timeout : option Duration;
  sd_exec_stop_success : option string;
  sd_exec_stop_success_timeout : option Duration;
  sd_exec_stop_failure : option string;
  sd_exec_stop_failure_timeout : option Duration;
  sd_stop_after_failure_count : option Z;
}.

#[export] Instance eta_ScenarioDescription : Eta ScenarioDescription := mkEta _ (fun r =>
  mkScenarioDescription (sd_id r) (sd_name r) (sd_description r) (sd_jigs r) (sd_tests r)
    (sd_assumptions r) (sd_timeout r) (sd_working_directory r) (sd_unit_directory r)
    (sd_exec_start r) (sd_exec_start_timeout r) (sd_exec_stop_success r)
    (sd_exec_stop_success_timeout r) (sd_exec_stop_failure r)
    (sd_exec_stop_failure_timeout r) (sd_stop_after_failure_count r)).

(** The variables of the loop: the description, [exec_stop] and
    [exec_stop_timeout]. *)
Record ScenarioAcc := mkScenarioAcc {
  sa_desc : ScenarioDescription;
  sa_exec_stop : option string;
  sa_exec_stop_timeout : option Duration;
}.

#[export] Instance eta_ScenarioAcc : Eta ScenarioAcc := mkEta _ (fun r =>
  mkScenarioAcc (sa_desc r) (sa_exec_stop r) (sa_exec_stop_timeout r)).

Definition scenario_directive (a : ScenarioAcc) (d : Directive) : DescResult ScenarioAcc :=
  let s := sa_desc a in
  let k := d_key d in
  if String.eqb k "Name" then Ok (a <| sa_desc := s <| sd_name := value_or_empty d |> |>)
  else if String.eqb k "Description" then Ok (a <| sa_desc := s <| sd_description := value_or_empty d |> |>)
  else if String.eqb k "Jigs" then ns ← names_value d "jig"; Ok (a <| sa_desc := s <| sd_jigs := ns |> |>)
  (* The path is built and dropped. *)
  else if String.eqb k "WorkingDirectory" then Ok a
  else if String.eqb k "Tests" then ns ← names_value d "test"; Ok (a <| sa_desc := s <| sd_tests := ns |> |>)
  else if String.eqb k "Assume" then ns ← names_value d "test"; Ok (a <| sa_desc := s <| sd_assumptions := ns |> |>)
  else if String.eqb k "ExecStart" then Ok (a <| sa_desc := s <| sd_exec_start := d_value d |> |>)
  else if String.eqb k "ExecStartTimeout" then
    v ← time_value d; Ok (a <| sa_desc := s <| sd_exec_start_timeout := v |> |>)
  else if String.eqb k "Timeout" then v ← time_value d; Ok (a <| sa_desc := s <| sd_timeout := v |> |>)
  else if String.eqb k "ExecStopSuccess" then Ok (a <| sa_desc := s <| sd_exec_stop_success := d_value d |> |>)
  else if String.eqb k "ExecStopSuccessTimeout" then
    v ← time_value d; Ok (a <| sa_desc := s <| sd_exec_stop_success_timeout := v |> |>)
  else if String.eqb k "ExecStopFail" then Ok (a <| sa_desc := s <| sd_exec_stop_failure := d_value d |> |>)
  else if String.eqb k "ExecStopFailTimeout" then
    v ← time_value d; Ok (a <| sa_desc := s <| sd_exec_stop_failure_timeout := v |> |>)
  else if String.eqb k "ExecStopFailure" then Ok (a <| sa_desc := s <| sd_exec_stop_failure := d_value d |> |>)
  else if String.eqb k "ExecStopFailureTimeout" then
    v ← time_value d; Ok (a <| sa_desc := s <| sd_exec_stop_failure_timeout := v |> |>)
  else if String.eqb k "ExecStop" then Ok (a <| sa_exec_stop := d_value d |>)
  else if String.eqb k "ExecStopTimeout" then v ← time_value d; Ok (a <| sa_exec_stop_timeout := v |>)
  else if String.eqb k "StopAfterFailureCount" then
    match d_value d with
    | None => Ok (a <| sa_desc := s <| sd_stop_after_failure_count := None |> |>)
    | Some v =>
      n ← map_err ParseIntError (parse_unsigned u32_max v);
      Ok (a <| sa_desc := s <| sd_stop_after_failure_count := Some n |> |>)
    end
  else Ok a.

(** [if x.is_none() { x = Some(s.clone()) }], guarded by [if let Some(s)]. *)
Definition fill_none {A} (x fallback : option A) : option A :=
  match x with Some _ => x | None => fallback end.

Definition scenario_fallbacks (a : ScenarioAcc) : ScenarioDescription :=
  let s := sa_desc a in
  s <| sd_exec_stop_failure := fill_none (sd_exec_stop_failure s) (sa_exec_stop a) |>
    <| sd_exec_stop_success := fill_none (sd_exec_stop_success s) (sa_exec_stop a) |>
    <| sd_exec_stop_failure_timeout :=
         fill_none (sd_exec_stop_failure_timeout s) (sa_exec_stop_timeout a) |>
    <| sd_exec_stop_success_timeout :=
         fill_none (sd_exec_stop_success_timeout s) (sa_exec_stop_timeout a) |>.

Definition scenario_from_string (contents : string) (unit_name : UnitName) (path : string) :
    DescResult ScenarioDescription :=
  entries ← parse_section "Scenario" contents;
  a ← fold_entries scenario_directive
    (mkScenarioAcc (mkScenarioDescription unit_name "" "" [] [] [] None None (unit_dir path)
       None None None None None None None) None None) entries;
  Ok (scenario_fallbacks a).

Definition scenario_from_path (path : string) : DescResult ScenarioDescription :=
  read_unit path scenario_from_string.

Definition scenario_supports_jig (s : ScenarioDescription) (name : UnitName) : bool :=
  bool_decide (name ∈ sd_jigs s).

(** ** Jigs ([src/src/units/jig.rs]) *)

Record JigDescription := mkJigDescription {
  jd_id : UnitName;
  jd_name : string;
  jd_description : string;
  jd_default_scenario : option UnitName;
  jd_working_directory : option string;
  jd_unit_directory : string;
  jd_test_program : option string;
  jd_test_file : option string;
}.

#[export] Instance eta_JigDescription : Eta JigDescription := mkEta _ (fun r =>
  mkJigDescription (jd_id r) (jd_name r) (jd_description r) (jd_default_scenario r)
    (jd_working_directory r) (jd_unit_directory r) (jd_test_program r) (jd_test_file r)).

Definition jig_directive (j : JigDescription) (d : Directive) : DescResult JigDescription :=
  let k := d_key d in
  if String.eqb k "Name" then Ok (j <| jd_name := value_or_empty d |>)
  else if String.eqb k "Description" then Ok (j <| jd_description := value_or_empty d |>)
  else if String.eqb k "WorkingDirectory" || String.eqb k "DefaultWorkingDirectory" then
    match d_value d with
    | Some wd => Ok (j <| jd_working_directory := Some wd |>)
    | None => Ok j
    end
  else if String.eqb k "TestFile" then Ok (j <| jd_test_file := d_value d |>)
  else if String.eqb k "DefaultScenario" then
    match d_value d with
    | Some s =>
      n ← map_err InvalidUnitName (from_str s "scenario");
      Ok (j <| jd_default_scenario := Some n |>)
    | None => Ok (j <| jd_default_scenario := None |>)
    end
  else if String.eqb k "TestProgram" then Ok (j <| jd_test_program := d_value d |>)
  else Ok j.

Definition jig_from_string (contents : string) (unit_name : UnitName) (path : string) :
    DescResult JigDescription :=
  entries ← parse_section "Jig" contents;
  fold_entries jig_directive
    (mkJigDescription unit_name "" "" None None (unit_dir path) None None) entries.

Definition jig_from_path (path : string) : DescResult JigDescription :=
  read_unit path jig_from_string.

(** ** Interfaces ([src/src/units/interface.rs]) *)

Inductive InterfaceFormat := Text | JSON.

Record InterfaceDescription := mkInterfaceDescription {
  id_id : UnitName;
  id_name : string;
  id_description : string;
  id_jigs : list UnitName;
  id_exec_start : string;
  id_format : InterfaceFormat;
  id_working_directory : option string;
  id_unit_directory : string;
}.

#[export] Instance eta_InterfaceDescription : Eta InterfaceDescription := mkEta _ (fun r =>
  mkInterfaceDescription (id_id r) (id_name r) (id_description r) (id_jigs r)
    (id_exec_start r) (id_format r) (id_working_directory r) (id_unit_directory r)).

(** The [Format] values of interfaces and triggers. *)
Definition format_value (section : string) (d : Directive) : DescResult InterfaceFormat :=
  match d_value d with
  | None => Ok Text
  | Some s =>
    let v := to_lowercase s in
    if String.eqb v "text" then Ok Text
    else if String.eqb v "json" then Ok JSON
    else Err (InvalidValue section "Format" v ["text"; "json"])
  end.

Definition interface_directive (i : InterfaceDescription) (d : Directive) :
    DescResult InterfaceDescription :=
  let k := d_key d in
  if String.eqb k "Name" then Ok (i <| id_name := value_or_empty d |>)
  else if String.eqb k "Description" then Ok (i <| id_description := value_or_empty d |>)
  else if String.eqb k "Jigs" then ns ← names_value d "jig"; Ok (i <| id_jigs := ns |>)
  else if String.eqb k "WorkingDirectory" then
    match d_value d with
    | Some wd => Ok (i <| id_working_directory := Some wd |>)
    | None => Ok i
    end
  else if String.eqb k "ExecStart" then
    match d_value d with
    | Some s => Ok (i <| id_exec_start := s |>)
    | None => Err (MissingValue "Interface" "ExecStart")
    end
  else if String.eqb k "Format" then
    f ← format_value "Interface" d; Ok (i <| id_format := f |>)
  else Ok i.

Definition interface_from_path (path : string) : DescResult InterfaceDescription :=
  read_unit path (fun contents unit_name path =>
    entries ← parse_section "Interface" contents;
    fold_entries interface_directive
      (mkInterfaceDescription unit_name "" "" [] "" Text None (unit_dir path)) entries).

Definition interface_supports_jig (i : InterfaceDescription) (name : UnitName) : bool :=
  bool_decide (name ∈ id_jigs i).

(** ** Loggers ([src/src/units/logger.rs]) *)

Inductive LoggerFormat := TSV | LoggerJSON.

Record LoggerDescription := mkLoggerDescription {
  ld_id : UnitName;
  ld_name : string;
  ld_description : string;
  ld_jigs : list UnitName;
  ld_exec_start : string;
  ld_format : LoggerFormat;
  ld_working_directory : option string;
  ld_unit_directory : string;
  ld_terminate_timeout : Duration;
}.

#[export] Instance eta_LoggerDescription : Eta LoggerDescription := mkEta _ (fun r =>
  mkLoggerDescription (ld_id r) (ld_name r) (ld_description r) (ld_jigs r) (ld_exec_start r)
    (ld_format r) (ld_working_directory r) (ld_unit_directory r) (ld_terminate_timeout r)).

Definition logger_directive (l : LoggerDescription) (d : Directive) :
    DescResult LoggerDescription :=
  let k := d_key d in
  if String.eqb k "Name" then Ok (l <| ld_name := value_or_empty d |>)
  else if String.eqb k "Description" then Ok (l <| ld_description := value_or_empty d |>)
  else if String.eqb k "Jigs" then ns ← names_value d "jig"; Ok (l <| ld_jigs := ns |>)
  else if String.eqb k "WorkingDirectory" then
    match d_value d with
    | Some wd => Ok (l <| ld_working_directory := Some wd |>)
    | None => Ok l
    end
  else if String.eqb k "ExecStart" then
    match d_value d with
    | Some s => Ok (l <| ld_exec_start := s |>)
    | None => Err (MissingValue "Logger" "ExecStart")
    end
  else if String.eqb k "Format" then
    match d_value d with
    | None => Ok (l <| ld_format := TSV |>)
    | Some s =>
      let v := to_lowercase s in
      if String.eqb v "tsv" then Ok (l <| ld_format := TSV |>)
      else if String.eqb v "json" then Ok (l <| ld_format := LoggerJSON |>)
      else Err (InvalidValue "Logger" "Format" v ["tsv"; "json"])
    end
  else Ok l.

Definition logger_from_path (path : string) : DescResult LoggerDescription :=
  read_unit path (fun contents unit_name path =>
    entries ← parse_section "Logger" contents;
    fold_entries logger_directive
      (mkLoggerDescription unit_name "" "" [] "" TSV None (unit_dir path) (from_secs 5))
      entries).

Definition logger_supports_jig (l : LoggerDescription) (name : UnitName) : bool :=
  bool_decide (name ∈ ld_jigs l).

(** ** Triggers ([src/src/units/trigger.rs]) *)

Record TriggerDescription := mkTriggerDescription {
  rd_id : UnitName;
  rd_name : string;
  rd_description : string;
  rd_jigs : list UnitName;
  rd_exec_start : string;
  rd_format : InterfaceFormat;
  rd_working_directory : option string;
  rd_unit_directory : string;
}.

#[export] Instance eta_TriggerDescription : Eta TriggerDescription := mkEta _ (fun r =>
  mkTriggerDescription (rd_id r) (rd_name r) (rd_description r) (rd_jigs r)
    (rd_exec_start r) (rd_format r) (rd_working_directory r) (rd_unit_directory r)).

Definition trigger_directive (t : TriggerDescription) (d : Directive) :
    DescResult TriggerDescription :=
  let k := d_key d in
  if String.eqb k "Name" then Ok (t <| rd_name := value_or_empty d |>)
  else if String.eqb k "Description" then Ok (t <| rd_description := value_or_empty d |>)
  else if String.eqb k "Jigs" then ns ← names_value d "jig"; Ok (t <| rd_jigs := ns |>)
  else if String.eqb k "WorkingDirectory" then
    match d_value d with
    | Some wd => Ok (t <| rd_working_directory := Some wd |>)
    | None => Ok t
    end
  else if String.eqb k "ExecStart" then
    match d_value d with
    | Some s => Ok (t <| rd_exec_start := s |>)
    | None => Err (MissingValue "Trigger" "ExecStart")
    end
  else if String.eqb k "Format" then
    f ← format_value "Trigger" d; Ok (t <| rd_format := f |>)
  else Ok t.

Definition trigger_from_path (path : string) : DescResult TriggerDescription :=
  read_unit path (fun contents unit_name path =>
    entries ← parse_section "Trigger" contents;
    fold_entries trigger_directive
      (mkTriggerDescription unit_name "" "" [] "" Text None (unit_dir path)) entries).

Definition trigger_supports_jig (t : TriggerDescription) (name : UnitName) : bool :=
  bool_decide (name ∈ rd_jigs t).

(** ** Properties *)

(** A property that every directive preserves holds of the whole loop. *)
Lemma fold_entries_inv {A} (P : A -> Prop) step acc entries r :
  (forall a d a', P a -> step a d = Ok a' -> P a') ->
  P acc -> fold_entries step acc entries = Ok r -> P r.
Proof.
  intros Hstep. revert acc. induction entries as [|[d|ds] entries IH]; simpl; intros acc Ha Hr.
  - by injection Hr as <-.
  - destruct (step acc d) as [a'|] eqn:Hd; simpl in Hr; [|done]. eauto.
  - eauto.
Qed.

(** A path that names a unit has a parent, so the [unwrap] in [unit_dir] does
    not panic. *)
Lemma from_path_parent path n : from_path path = Ok n -> is_Some (parent path).
Proof.
  unfold from_path, file_stem, file_name, parent. intros Hn.
  destruct (last (path_comps path)) as [c|] eqn:Hl; [|done].
  apply last_Some in Hl as [l Hl]. rewrite Hl, app_assoc, rev_unit. by eexists.
Qed.

(** Case analysis on one step of a directive loop. *)
Ltac directive_cases H :=
  repeat (match type of H with
  | (if ?b then _ else _) = Ok _ => destruct b eqn:?
  | match ?o with _ => _ end = Ok _ => destruct o eqn:?
  | (_ ≫= _) = Ok _ => unfold mbind, result_bind in H
  | Ok _ = Ok _ => injection H as <-
  | Err _ = Ok _ => discriminate H
  end; cbn beta iota zeta in H).

Lemma names_value_valid d ty ns : names_value d ty = Ok ns -> Forall valid_name ns.
Proof.
  unfold names_value. destruct (d_value d) as [s|]; [|by intros [= <-]].
  destruct (from_list s ty) eqn:Hs; simpl; [|done]. intros [= <-]. by eapply from_list_valid.
Qed.

(** What a parsed scenario satisfies. *)
Record scenario_desc_wf (unit_name : UnitName) (s : ScenarioDescription) : Prop := {
  sdw_id : sd_id s = unit_name;
  sdw_tests : Forall valid_name (sd_tests s);
  sdw_assume : Forall valid_name (sd_assumptions s);
  sdw_jigs : Forall valid_name (sd_jigs s);
  sdw_count : forall n, sd_stop_after_failure_count s = Some n -> (0 <= n <= u32_max)%Z;
}.

Lemma scenario_directive_wf un a d a' :
  scenario_desc_wf un (sa_desc a) -> scenario_directive a d = Ok a' ->
  scenario_desc_wf un (sa_desc a').
Proof.
  intros [] Hd. unfold scenario_directive in Hd. directive_cases Hd; split; simpl in *; try done;
    try by eapply names_value_valid.
  intros n [= <-]. destruct (parse_unsigned u32_max _) eqn:Hp; simplify_eq/=.
  eapply parse_unsigned_bounds; [|done]. done.
Qed.

Lemma scenario_from_string_desc contents unit_name path s :
  scenario_from_string contents unit_name path = Ok s -> scenario_desc_wf unit_name s.
Proof.
  unfold scenario_from_string. destruct (parse_section _ _) as [entries|]; [|done]. simpl.
  destruct (fold_entries _ _ _) as [a|] eqn:Hf; [|done]. intros [= <-].
  apply (fold_entries_inv (fun a => scenario_desc_wf unit_name (sa_desc a))) in Hf.
  - by destruct Hf.
  - apply scenario_directive_wf.
  - split; simpl; done.
Qed.

Lemma read_unit_Ok {A} path (parse : string -> UnitName -> string -> DescResult A) a :
  read_unit path parse = Ok a ->
  exists n contents, from_path path = Ok n /\ read_file path = Ok contents /\ parse contents n path = Ok a.
Proof.
  unfold read_unit. destruct (from_path path) as [n|]; [|done]. simpl.
  destruct (read_file path) as [contents|]; [|done]. simpl. by exists n, contents.
Qed.

(** ** What a scenario file says *)

(** The directives that count are those that occur once. *)
Definition solos (entries : list DirectiveEntry) : list Directive :=
  omap (fun e => match e with Solo d => Some d | Many _ => None end) entries.

(** The value of the last directive with one of some keys. *)
Definition setting {A} (keys : list string) (read : Directive -> DescResult A) (dflt : A)
    (ds : list Directive) : A :=
  match last (filter (fun d => existsb (String.eqb (d_key d)) keys = true) ds) with
  | Some d => match read d with Ok v => v | Err _ => dflt end
  | None => dflt
  end.

Definition text_value (d : Directive) : DescResult (option string) := Ok (d_value d).

(** A number of failures, within 32 bits. *)
Definition count_value (d : Directive) : DescResult (option Z) :=
  match d_value d with
  | Some v => n ← map_err ParseIntError (parse_unsigned u32_max v); Ok (Some n)
  | None => Ok None
  end.

(** [ExecStop] stands for both commands of the end, where they are not given. *)
Definition scenario_settings (unit_name : UnitName) (path : string) (ds : list Directive) : ScenarioAcc :=
  let text key := setting [key] text_value None ds in
  let time key := setting [key] time_value None ds in
  let names key ty := setting [key] (fun d => names_value d ty) [] ds in
  {| sa_desc := {|
       sd_id := unit_name;
       sd_name := setting ["Name"] (fun d => Ok (value_or_empty d)) "" ds;
       sd_description := setting ["Description"] (fun d => Ok (value_or_empty d)) "" ds;
       sd_jigs := names "Jigs" "jig";
       sd_tests := names "Tests" "test";
       sd_assumptions := names "Assume" "test";
       sd_timeout := time "Timeout";
       sd_working_directory := None;
       sd_unit_directory := unit_dir path;
       sd_exec_start := text "ExecStart";
       sd_exec_start_timeout := time "ExecStartTimeout";
       sd_exec_stop_success := text "ExecStopSuccess";
       sd_exec_stop_success_timeout := time "ExecStopSuccessTimeout";
       sd_exec_stop_failure := setting ["ExecStopFail"; "ExecStopFailure"] text_value None ds;
       sd_exec_stop_failure_timeout := setting ["ExecStopFailTimeout"; "ExecStopFailureTimeout"] time_value None ds;
       sd_stop_after_failure_count := setting ["StopAfterFailureCount"] count_value None ds |};
     sa_exec_stop := text "ExecStop";
     sa_exec_stop_timeout := time "ExecStopTimeout" |}.

Definition scenario_of (unit_name : UnitName) (path : string) (ds : list Directive) : ScenarioDescription :=
  let a := scenario_settings unit_name path ds in
  let s := sa_desc a in
  let or_stop {A} (x stop : option A) := match x with Some _ => x | None => stop end in
  s <| sd_exec_stop_success := or_stop (sd_exec_stop_success s) (sa_exec_stop a) |>
    <| sd_exec_stop_success_timeout := or_stop (sd_exec_stop_success_timeout s) (sa_exec_stop_timeout a) |>
    <| sd_exec_stop_failure := or_stop (sd_exec_stop_failure s) (sa_exec_stop a) |>
    <| sd_exec_stop_failure_timeout := or_stop (sd_exec_stop_failure_timeout s) (sa_exec_stop_timeout a) |>.

(** What is wrong with a directive. *)
Definition error_of {A} (r : DescResult A) : option UnitDescriptionError :=
  match r with Ok _ => None | Err e => Some e end.

Definition directive_error (d : Directive) : option UnitDescriptionError :=
  let among keys := existsb (String.eqb (d_key d)) keys in
  if among ["Jigs"] then error_of (names_value d "jig")
  else if among ["Tests"; "Assume"] then error_of (names_value d "test")
  else if among ["Timeout"; "ExecStartTimeout"; "ExecStopTimeout"; "ExecStopSuccessTimeout"; "ExecStopFailTimeout";
                 "ExecStopFailureTimeout"] then error_of (time_value d)
  else if among ["StopAfterFailureCount"] then error_of (count_value d)
  else None.

Lemma setting_snoc {A} keys (read : Directive -> DescResult A) dflt ds d :
  setting keys read dflt (ds ++ [d]) =
    if existsb (String.eqb (d_key d)) keys
    then match read d with Ok v => v | Err _ => dflt end else setting keys read dflt ds.
Proof.
  unfold setting. rewrite filter_app, filter_cons, filter_nil.
  destruct (existsb (String.eqb (d_key d)) keys); simpl; [by rewrite last_snoc|by rewrite app_nil_r].
Qed.

(** One directive sets what its key says, or is wrong. *)
Lemma scenario_directive_step n path ds d :
  scenario_directive (scenario_settings n path ds) d =
    match directive_error d with
    | None => Ok (scenario_settings n path (ds ++ [d]))
    | Some e => Err e
    end.
Proof.
  unfold scenario_settings. rewrite !setting_snoc. unfold scenario_directive, directive_error, text_value, count_value.
  repeat match goal with
  | |- context [String.eqb (d_key d) ?key] => destruct (String.eqb (d_key d) key) eqn:?; simpl;
      try match goal with E : String.eqb (d_key d) key = true |- _ => apply String.eqb_eq in E; rewrite ?E; simpl end
  end; try done.
  all: try (destruct (names_value d _); simpl; done).
  all: try (destruct (time_value d); simpl; done).
  destruct (d_value d) as [v|]; simpl; [|done]. by destruct (parse_unsigned u32_max v).
Qed.

Lemma fold_entries_solos {A} (step : A -> Directive -> DescResult A) acc entries :
  fold_entries step acc entries = fold_entries step acc (Solo <$> solos entries).
Proof.
  revert acc. induction entries as [|[d|ds] entries IH]; intros acc; simpl; [done| |apply IH].
  destruct (step acc d); simpl; [apply IH|done].
Qed.

Lemma scenario_loop n path ds0 ds :
  fold_entries scenario_directive (scenario_settings n path ds0) (Solo <$> ds) =
    match head (omap directive_error ds) with
    | None => Ok (scenario_settings n path (ds0 ++ ds))
    | Some e => Err e
    end.
Proof.
  revert ds0. induction ds as [|d ds IH]; intros ds0; simpl; [by rewrite app_nil_r|].
  rewrite scenario_directive_step. destruct (directive_error d); simpl; [done|].
  rewrite IH, <- app_assoc. done.
Qed.


(** The step of a loop over directives keeps the name. *)
Ltac keeps_name f :=
  let Hd := fresh "Hd" in intros ? ? ? ? Hd; unfold f in Hd; directive_cases Hd; simplify_eq/=; done.

Lemma test_from_path_id path t : test_from_path path = Ok t ->
  from_path path = Ok (td_id t) /\ td_exec_start t <> "".
Proof.
  intros (n & contents & Hn & _ & Ht)%read_unit_Ok. revert Ht. unfold test_from_string.
  destruct (parse_section _ _) as [entries|]; [|done]. simpl.
  destruct (fold_entries _ _ _) as [t'|] eqn:Hf; [|done]. simpl.
  destruct (String.eqb_spec (td_exec_start t') ""); [done|]. intros [= <-]. split; [|done].
  rewrite Hn. f_equal. symmetry.
  apply (fold_entries_inv (fun t => td_id t = n)) in Hf; [done| |done]. keeps_name test_directive.
Qed.

Lemma scenario_from_path_id path s : scenario_from_path path = Ok s ->
  from_path path = Ok (sd_id s) /\ forall c, sd_stop_after_failure_count s = Some c -> (0 <= c)%Z.
Proof.
  intros (n & contents & Hn & _ & Hs)%read_unit_Ok. destruct (scenario_from_string_desc _ _ _ _ Hs).
  subst n. split; [done|]. intros c Hc. by apply sdw_count0.
Qed.

(** The other kinds parse in one loop. *)
Ltac named_by step id :=
  intros (n & contents & Hn & _ & Hr)%read_unit_Ok; revert Hr; cbn beta;
  try unfold jig_from_string;
  destruct (parse_section _ _) as [entries|]; [|done]; cbn beta iota delta [mbind result_bind];
  intros Hf; rewrite Hn; f_equal; symmetry;
  apply (fold_entries_inv (fun a => id a = n)) in Hf; [done| |done]; keeps_name step.

Lemma jig_from_path_id path j : jig_from_path path = Ok j -> from_path path = Ok (jd_id j).
Proof. named_by jig_directive jd_id. Qed.
Lemma interface_from_path_id path i : interface_from_path path = Ok i -> from_path path = Ok (id_id i).
Proof. named_by interface_directive id_id. Qed.
Lemma logger_from_path_id path l : logger_from_path path = Ok l -> from_path path = Ok (ld_id l).
Proof. named_by logger_directive ld_id. Qed.
Lemma trigger_from_path_id path t : trigger_from_path path = Ok t -> from_path path = Ok (rd_id t).
Proof. named_by trigger_directive rd_id. Qed.

(** The [WorkingDirectory] of a scenario is read and dropped: whatever the
    file says, the description has no working directory, so the scenario's
    programs run in the unit's directory and the scenario directory of the
    configuration is cleared on activation. *)
Theorem scenario_ignores_working_directory contents unit_name path s :
  scenario_from_string contents unit_name path = Ok s -> sd_working_directory s = None.
Proof.
  unfold scenario_from_string. destruct (parse_section _ _) as [entries|]; [|done]. simpl.
  destruct (fold_entries _ _ _) as [a|] eqn:Hf; [|done]. intros [= <-]. simpl.
  apply (fold_entries_inv (fun a => sd_working_directory (sa_desc a) = None)) in Hf; [done| |done].
  intros a1 d a2 Ha Hd. unfold scenario_directive in Hd. by directive_cases Hd.
Qed.

End descriptions.

(** ** Concrete unit files *)

Module SampleUnits.


Definition scenario_text : string :=
"[Scenario]
Name=Program the board
Tests=erase, flash
Assume=power
WorkingDirectory=/tmp
Timeout=90
StopAfterFailureCount=2".

Definition program : UnitName := mkName "program" UnitKind.Scenario.

#[export] Instance libs : Libraries := sample_libraries.
#[export] Instance files : Files := files_with [("/units/program.scenario", scenario_text)].

Definition scenario_result : result UnitDescriptionError ScenarioDescription :=
  scenario_from_string scenario_text program "/units/program.scenario".

(** A description, and the first of two errors. *)
Example program_described : (fun s => (sd_tests s, sd_assumptions s, sd_stop_after_failure_count s)) <$>
    scenario_from_path "/units/program.scenario" =
  Ok ([mkName "erase" UnitKind.Test; mkName "flash" UnitKind.Test], [mkName "power" UnitKind.Test], Some 2%Z).
Proof. vm_compute. reflexivity. Qed.

Lemma scenario_ignores_working_directory_witness : exists s,
  scenario_result = Ok s /\ sd_working_directory s = None.
Proof.
  eexists. split; [vm_compute; reflexivity|].
  apply (scenario_ignores_working_directory scenario_text program "/units/program.scenario").
  by vm_compute.
Defined.

End SampleUnits.
