(* ===== verification/Interface.v ===== *)
(** * Interfaces ([src/src/units/interface.rs])

    An interface is a child process that shows the operator what happens: the
    manager writes status messages to it, one line each, and what it prints is
    read line by line as requests. *)

From S2P Require Import Prelude Str Path Unit Cfti Foreign Config Events Env Samples Descriptions.

Section interface.
Context `{Libraries} `{Env}.

(** ** The unit *)

Record Interface := mkInterface {
  if_desc : InterfaceDescription;
  if_process : option nat;
  if_terminate_timeout : Duration;
}.

#[export] Instance eta_Interface : Eta Interface := mkEta _ (fun r =>
  mkInterface (if_desc r) (if_process r) (if_terminate_timeout r)).

Definition if_id (i : Interface) : UnitName := id_id (if_desc i).

(** No jig is asked for, or one of them is loaded. *)
Definition jigs_compatible (jigs : list UnitName) (jig_is_loaded : UnitName -> bool) :
    result UnitIncompatibleReason unit :=
  if bool_decide (jigs = []) then Ok tt
  else if existsb jig_is_loaded jigs then Ok tt
  else Err IncompatibleJig.

Definition interface_is_compatible (desc : InterfaceDescription)
    (jig_is_loaded : UnitName -> bool) : result UnitIncompatibleReason unit :=
  jigs_compatible (id_jigs desc) jig_is_loaded.

Definition interface_new (desc : InterfaceDescription) (cfg : Config) : Interface :=
  mkInterface desc None (cfg_terminate_timeout cfg).

Definition interface_load (desc : InterfaceDescription) (jig_is_loaded : UnitName -> bool)
    (cfg : Config) : result UnitIncompatibleReason Interface :=
  _ ← interface_is_compatible desc jig_is_loaded;
  Ok (interface_new desc cfg).

(** Start the child; two threads, not part of the step, then read what it
    prints ([text_read] and [text_read_stderr] below). *)
Definition interface_activate (i : Interface) : M IO (Interface * result UnitActivateError unit) :=
  r ← start_child (if_id i) (id_exec_start (if_desc i)) None
        (id_unit_directory (if_desc i)) (id_working_directory (if_desc i));
  match r with
  | Err e => mret (i, Err (ExecFailed e))
  | Ok pid =>
    io_send (if_id i) Ctrl.InitialGreeting;;
    mret (i <| if_process := Some pid |>, Ok tt)
  end.

Definition interface_deactivate (i : Interface) :
    M IO (Interface * result UnitDeactivateError unit) :=
  match if_process i with
  | None => mret (i, Ok tt)
  | Some _ =>
    r ← terminate_child (if_id i) (Some (if_terminate_timeout i));
    mret (i <| if_process := None |>, r)
  end.

(** ** Writing messages *)

Definition lf : string := str1 c_lf.
Definition tab : string := str1 c_tab.

(** The texts that [text_write] writes for a message, in order. *)
Definition message_chunks (msg : ManagerStatusMessage) : list string :=
  match msg with
  | Status.Jig (Some jig_name) => ["JIG " +:+ cfti_escape (name_fmt jig_name) +:+ lf]
  | Status.Jig None => ["JIG" +:+ lf]
  | Status.Hello id => ["HELLO " +:+ cfti_escape id +:+ lf]
  | Status.Tests scenario tests =>
    ("TESTS " +:+ cfti_escape (un_id scenario))
      :: ((fun test => " " +:+ cfti_escape (un_id test)) <$> tests) ++ [lf]
  | Status.Scenario (Some s) => ["SCENARIO " +:+ cfti_escape (un_id s) +:+ lf]
  | Status.Scenario None => ["SCENARIO" +:+ lf]
  | Status.Scenarios list =>
    "SCENARIOS" :: ((fun s => " " +:+ cfti_escape (un_id s)) <$> list) ++ [lf]
  | Status.Describe id field value =>
    ["DESCRIBE " +:+ cfti_escape (kind_fmt (un_kind id) +:+ " " +:+ field_fmt field +:+ " "
                                    +:+ un_id id +:+ " " +:+ value) +:+ lf]
  | Status.Log l =>
    ["LOG " +:+ log_type_str (le_type l) +:+ tab +:+ cfti_escape (un_id (le_unit l)) +:+ tab
       +:+ kind_fmt (un_kind (le_unit l)) +:+ tab +:+ pretty (le_secs l) +:+ tab
       +:+ pretty (le_nsecs l) +:+ tab +:+ cfti_escape (le_message l) +:+ lf]
  | Status.Running test => ["RUNNING " +:+ cfti_escape (un_id test) +:+ lf]
  | Status.Skipped test reason =>
    ["SKIP " +:+ cfti_escape (un_id test) +:+ " " +:+ cfti_escape reason +:+ lf]
  | Status.Finished scenario result reason =>
    ["FINISH " +:+ cfti_escape (un_id scenario) +:+ " " +:+ pretty result +:+ " "
       +:+ cfti_escape reason +:+ lf]
  | Status.Fail test _ reason =>
    ["FAIL " +:+ cfti_escape (un_id test) +:+ " " +:+ cfti_escape reason +:+ lf]
  | Status.Pass test reason =>
    ["PASS " +:+ cfti_escape (un_id test) +:+ " " +:+ cfti_escape reason +:+ lf]
  | Status.Start scenario => ["START " +:+ cfti_escape (un_id scenario) +:+ lf]
  end.

Definition text_write (i : Interface) (msg : ManagerStatusMessage) :
    M IO (result ForeignError unit) :=
  match if_process i with
  | None => mret (Err (other_error "no process running"))
  | Some _ => write_chunks (if_id i) (message_chunks msg)
  end.

(** [json_write] is [unimplemented!()]. *)
Definition interface_output_message (i : Interface) (msg : ManagerStatusMessage) :
    M IO (result ForeignError unit) :=
  match id_format (if_desc i) with
  | Text => text_write i msg
  | JSON => panic "not yet implemented"
  end.

(** ** Reading requests *)

(** The request of a line, none for a blank one. *)
Definition interface_request (line : string) : option ManagerControlMessageContents :=
  match interface_cfti_unescape <$> split_whitespace line with
  | [] => None
  | word :: words =>
    let verb := to_lowercase word in
    Some (
      if String.eqb verb "scenarios" then Ctrl.Scenarios
      else if String.eqb verb "scenario" then
        match from_str (to_lowercase (default "" (head words))) "scenario" with
        | Err e => Ctrl.Error ("Invalid scenario name: " +:+ UnitNameError_fmt e)
        | Ok o => Ctrl.Scenario o
        end
      else if String.eqb verb "tests" then
        match words with
        | [] => Ctrl.Tests None
        | w :: _ =>
          match from_str (to_lowercase w) "test" with
          | Ok scenario_name => Ctrl.Tests (Some scenario_name)
          | Err e => Ctrl.Error ("Invalid test name specified: " +:+ UnitNameError_fmt e)
          end
        end
      else if String.eqb verb "jig" then Ctrl.Jig
      else if String.eqb verb "log" then Ctrl.Log (join " " words)
      else if String.eqb verb "start" then
        match words with
        | [] => Ctrl.StartScenario None
        | w :: _ =>
          match from_str (to_lowercase w) "scenario" with
          | Err e => Ctrl.Error ("Invalid scenario name: " +:+ UnitNameError_fmt e)
          | Ok o => Ctrl.StartScenario (Some o)
          end
        end
      else if String.eqb verb "shutdown" then
        match words with
        | [] => Ctrl.Shutdown None
        | _ => Ctrl.Shutdown (Some (join " " words))
        end
      else Ctrl.Unimplemented verb (join " " words))
  end.

(** A reader thread: what it sends for the lines its child prints.  [send_ok]
    says whether the [k]-th send finds the other end of the channel. *)
Fixpoint read_lines (id : UnitName) (request : string -> option ManagerControlMessageContents)
    (send_ok : nat -> bool) (k : nat) (lines : list (result ForeignError string)) :
    outcome (list ManagerControlMessage * nat) :=
  match lines with
  | [] => Done ([], k)
  | Err _ :: _ => Panic "Unable to get next line"
  | Ok line :: lines =>
    match request line with
    | None => read_lines id request send_ok k lines
    | Some response =>
      if send_ok k then
        '(msgs, k') ← read_lines id request send_ok (S k) lines;
        Done (mkCtrl id response :: msgs, k')
      else Done ([], S k)
    end
  end.

Definition interface_text_read (id : UnitName) (send_ok : nat -> bool)
    (lines : list (result ForeignError string)) : outcome (list ManagerControlMessage) :=
  '(msgs, k) ← read_lines id interface_request send_ok 0 lines;
  if send_ok k then Done (msgs ++ [mkCtrl id Ctrl.ChildExited])
  else Panic "interface couldn't send exit message to controller".

Definition text_read_stderr (id : UnitName) (send_ok : nat -> bool)
    (lines : list (result ForeignError string)) : outcome (list ManagerControlMessage) :=
  '(msgs, _) ← read_lines id (fun line => Some (Ctrl.LogError line)) send_ok 0 lines;
  Done msgs.

(** ** Messages are lines *)

Fixpoint concat_str (l : list string) : string :=
  match l with [] => "" | s :: l => s +:+ concat_str l end.

Lemma concat_str_app l1 l2 : concat_str (l1 ++ l2) = concat_str l1 +:+ concat_str l2.
Proof. induction l1 as [|s l1 IH]; simpl; [done|]. by rewrite IH, string_app_assoc. Qed.

Lemma concat_str_char {A} c (f : A -> string) l :
  (forall x, has_char c (f x) = false) -> has_char c (concat_str (f <$> l)) = false.
Proof.
  intros Hf. induction l as [|x l IH]; [done|]. rewrite fmap_cons. cbn [concat_str].
  by rewrite has_char_app, Hf, IH.
Qed.

Lemma kind_fmt_clean k : has_char c_lf (kind_fmt k) = false.
Proof. by destruct k. Qed.
Lemma field_fmt_clean f : has_char c_lf (field_fmt f) = false.
Proof. by destruct f. Qed.
Lemma log_type_clean t : has_char c_lf (log_type_str t) = false.
Proof. by destruct t. Qed.
Lemma escape_clean s : has_char c_lf (cfti_escape s) = false.
Proof. apply cfti_escape_clean. auto. Qed.
Lemma pretty_clean (z : Z) : has_char c_lf (pretty z) = false.
Proof. by apply has_char_pretty. Qed.

(** Every status message is one line: what is written for it ends with a
    line feed and contains no other, whatever the names and texts in it are. *)
Theorem message_is_one_line msg : exists body,
  concat_str (message_chunks msg) = body +:+ lf /\ has_char c_lf body = false.
Proof.
  assert (forall (l : list UnitName),
    has_char c_lf (concat_str ((fun x => " " +:+ cfti_escape (un_id x)) <$> l)) = false) as Hl.
  { intros l. apply concat_str_char. intros x. apply escape_clean. }
  destruct msg as [[]| |[]| | | | | | | | | |]; cbn [message_chunks concat_str];
    rewrite ?concat_str_app; cbn [concat_str]; rewrite ?string_app_empty_r;
    rewrite <- ?string_app_assoc; eexists; (split; [reflexivity|]); rewrite ?has_char_app;
    rewrite ?escape_clean, ?Hl, ?kind_fmt_clean, ?log_type_clean, ?pretty_clean; done.
Qed.

(** ** Writing *)

(** What was written to a unit's child. *)
Definition written_to (n : UnitName) (os : list Out) : string :=
  concat_str (omap (fun o => match o with
                             | Write m s => if bool_decide (m = n) then Some s else None
                             | _ => None end) os).

Lemma written_to_app n os1 os2 : written_to n (os1 ++ os2) = written_to n os1 +:+ written_to n os2.
Proof. unfold written_to. by rewrite omap_app, concat_str_app. Qed.

Lemma written_to_writes n chunks : written_to n (Write n <$> chunks) = concat_str chunks.
Proof.
  unfold written_to. induction chunks as [|c chunks IH]; [done|]. rewrite fmap_cons. simpl.
  rewrite bool_decide_eq_true_2 by done. simpl. by f_equal.
Qed.

Lemma write_chunks_run n chunks w : exists r done tick,
  write_chunks n chunks w = Done (r, mkIO (io_cfg w) tick (io_out w ++ (Write n <$> done))) /\
  done `prefix_of` chunks /\ (is_ok r = true -> done = chunks).
Proof.
  revert w. induction chunks as [|c chunks IH]; intros w; simpl.
  - exists (Ok tt), [], (io_tick w). rewrite app_nil_r. by destruct w.
  - unfold ask, mbind, M_bind. destruct (env_write (io_tick w) n c); simpl.
    + destruct (IH (mkIO (io_cfg w) (S (io_tick w)) (io_out w ++ [Write n c]))) as (r & d & tick & Hrun & Hp & Hok).
      exists r, (c :: d), tick. rewrite Hrun. simpl. rewrite <- app_assoc. simpl.
      split_and!; [done|by apply prefix_cons|]. intros Hr. by rewrite Hok.
    + eexists (Err e), [], _. split_and!; [by rewrite app_nil_r|apply prefix_nil|done].
Qed.

Lemma concat_str_prefix l1 l2 : l1 `prefix_of` l2 ->
  exists rest, concat_str l2 = concat_str l1 +:+ rest.
Proof. intros [k ->]. exists (concat_str k). apply concat_str_app. Qed.

(** Sending a message to a text interface never panics; what reaches the
    child is a beginning of the message's line, and the whole line when the
    result is [Ok].  Without a child nothing is written and the result is an
    error. *)
Theorem interface_writes_line i msg w :
  id_format (if_desc i) = Text ->
  exists r w', interface_output_message i msg w = Done (r, w') /\
    (exists rest, written_to (if_id i) (io_out w) +:+ concat_str (message_chunks msg)
                  = written_to (if_id i) (io_out w') +:+ rest /\ (is_ok r = true -> rest = "")) /\
    (if_process i = None -> is_ok r = false /\ io_out w' = io_out w).
Proof.
  intros Hf. unfold interface_output_message, text_write. rewrite Hf.
  destruct (if_process i) as [pid|].
  - destruct (write_chunks_run (if_id i) (message_chunks msg) w) as (r & d & tick & -> & Hp & Hok).
    eexists _, _. split; [done|]. split; [|done]. simpl.
    rewrite written_to_app, written_to_writes. destruct (concat_str_prefix _ _ Hp) as [rest Hrest].
    destruct (is_ok r) eqn:Hr.
    + exists "". rewrite (Hok eq_refl), string_app_empty_r. by split.
    + exists rest. rewrite Hrest, string_app_assoc. by split.
  - eexists _, w. split; [done|]. simpl. split; [|done].
    exists (concat_str (message_chunks msg)). by split.
Qed.

(** An interface of format [JSON], which the unit files allow, panics on
    every message it is given. *)
Theorem json_interface_panics i msg w :
  id_format (if_desc i) = JSON -> interface_output_message i msg w = Panic "not yet implemented".
Proof. intros Hf. unfold interface_output_message. by rewrite Hf. Qed.

(** ** Reading *)

Lemma read_lines_open id request lines k :
  read_lines id request (fun _ => true) k (Ok <$> lines) =
    Done (mkCtrl id <$> omap request lines, k + length (omap request lines)).
Proof.
  revert k. induction lines as [|l lines IH]; intros k; simpl; [by rewrite Nat.add_0_r|].
  destruct (request l); simpl; rewrite IH; simpl; [|done].
  by rewrite Nat.add_succ_r.
Qed.

(** As long as the manager listens, the reader thread of an interface
    sends one request for each line that is not blank, in the order of the
    lines and in the interface's name, and then that the child exited; a
    closed channel makes the thread panic after its last line. *)
Theorem interface_reader_sends id lines :
  interface_text_read id (fun _ => true) (Ok <$> lines) =
    Done ((mkCtrl id <$> omap interface_request lines) ++ [mkCtrl id Ctrl.ChildExited]) /\
  interface_text_read id (fun _ => false) (Ok <$> lines) =
    Panic "interface couldn't send exit message to controller" /\
  forall line, interface_request line = None <-> split_whitespace line = [].
Proof.
  split_and!.
  - unfold interface_text_read. by rewrite read_lines_open.
  - unfold interface_text_read. enough (exists k, read_lines id interface_request (fun _ => false) 0 (Ok <$> lines) = Done ([], k)) as [k ->] by done.
    induction lines as [|l lines [k IH]]; simpl; [by eexists|]. destruct (interface_request l); eauto.
  - intros line. unfold interface_request. destruct (split_whitespace line); simpl; by split.
Qed.

(** The word after [tests] is read as the name of a test: without an
    extension the request never names a scenario, although the manager looks
    the name up among the scenarios. *)
Theorem tests_request_names_a_test word :
  is_word word -> interface_cfti_unescape word = word -> to_lowercase word = word ->
  has_char c_dot word = false -> has_char c_slash word = false ->
  interface_request ("tests " +:+ word) = Some (Ctrl.Tests (Some (mkName word UnitKind.Test))).
Proof.
  intros Hw Hu Hl Hdot Hslash. unfold interface_request.
  change ("tests " +:+ word) with ("tests" +:+ String c_sp word).
  rewrite split_whitespace_cons by (by split). rewrite (split_whitespace_word word Hw). simpl.
  rewrite Hu. change (interface_cfti_unescape "tests") with "tests". simpl. rewrite Hl.
  change "test" with (kind_fmt UnitKind.Test).
  by rewrite from_str_default by (try done; apply Hw).
Qed.

End interface.

(** ** Concrete messages *)

Module SampleInterface.

#[export] Instance libs : Libraries := sample_libraries.
#[export] Existing Instance sample_env.

Definition gui : UnitName := mkName "gui" UnitKind.Interface.

Definition interface (format : InterfaceFormat) : Interface :=
  mkInterface (mkInterfaceDescription gui "" "" [] "./gui" format None "/units") (Some 0) 0.

Definition w0 : IO := mkIO config_new 0 [].

Lemma interface_writes_line_witness : exists r w',
  interface_output_message (interface Text) (Status.Hello "a") w0 = Done (r, w').
Proof.
  destruct (interface_writes_line (interface Text) (Status.Hello "a") w0 eq_refl) as (r & w' & Hrun & _).
  exact (ex_intro _ r (ex_intro _ w' Hrun)).
Defined.

Lemma json_interface_panics_witness :
  interface_output_message (interface JSON) (Status.Hello "a") w0 = Panic "not yet implemented".
Proof. apply json_interface_panics. reflexivity. Defined.

Lemma tests_request_names_a_test_witness :
  interface_request "tests program" = Some (Ctrl.Tests (Some (mkName "program" UnitKind.Test))).
Proof. by apply tests_request_names_a_test. Defined.

End SampleInterface.
