(* ===== verification/Trigger.v ===== *)
(** * Triggers ([src/src/units/trigger.rs])

    A trigger is a child process that starts scenarios: a button, or a detector
    for a board on the jig.  Nothing is written to it; what it prints is read
    line by line. *)

From S2P Require Import Prelude Str Path Unit Cfti Foreign Config Events Env Samples Descriptions Interface.

Section trigger.
Context `{Libraries} `{Env}.

Record Trigger := mkTrigger { tr_desc : TriggerDescription; tr_process : option nat }.

#[export] Instance eta_Trigger : Eta Trigger := mkEta _ (fun r => mkTrigger (tr_desc r) (tr_process r)).

Definition tr_id (t : Trigger) : UnitName := rd_id (tr_desc t).

Definition trigger_is_compatible (desc : TriggerDescription)
    (jig_is_loaded : UnitName -> bool) : result UnitIncompatibleReason unit :=
  jigs_compatible (rd_jigs desc) jig_is_loaded.

Definition trigger_new (desc : TriggerDescription) : Trigger := mkTrigger desc None.

Definition trigger_load (desc : TriggerDescription) (jig_is_loaded : UnitName -> bool) :
    result UnitIncompatibleReason Trigger :=
  _ ← trigger_is_compatible desc jig_is_loaded;
  Ok (trigger_new desc).

Definition trigger_activate (t : Trigger) : M IO (Trigger * result UnitActivateError unit) :=
  r ← start_child (tr_id t) (rd_exec_start (tr_desc t)) None
        (rd_unit_directory (tr_desc t)) (rd_working_directory (tr_desc t));
  match r with
  | Err e => mret (t, Err (ExecFailed e))
  | Ok pid =>
    io_send (tr_id t) Ctrl.InitialGreeting;;
    mret (t <| tr_process := Some pid |>, Ok tt)
  end.

Definition trigger_deactivate (t : Trigger) : M IO (Trigger * result UnitDeactivateError unit) :=
  match tr_process t with
  | None => mret (t, Ok tt)
  | Some _ =>
    r ← terminate_child (tr_id t) None;
    mret (t <| tr_process := None |>, r)
  end.

(** ** Reading requests *)

(** The request of a line; a blank one starts the current scenario. *)
Definition trigger_request (line : string) : option ManagerControlMessageContents :=
  Some (
    match trigger_cfti_unescape <$> split_whitespace line with
    | [] => Ctrl.StartScenario None
    | word :: words =>
      let verb := to_lowercase word in
      if String.eqb verb "stop" then Ctrl.Unimplemented "stop" "Unable to stop tests"
      else if String.eqb verb "start" then
        match words with
        | [] => Ctrl.StartScenario None
        | w :: _ =>
          match from_str w "test" with
          | Ok name => Ctrl.StartScenario (Some name)
          | Err _ => Ctrl.Unimplemented w "name could not be decoded"
          end
        end
      else Ctrl.Unimplemented verb (join " " words)
    end).

Definition trigger_text_read (id : UnitName) (send_ok : nat -> bool)
    (lines : list (result ForeignError string)) : outcome (list ManagerControlMessage) :=
  '(msgs, k) ← read_lines id trigger_request send_ok 0 lines;
  if send_ok k then Done (msgs ++ [mkCtrl id Ctrl.ChildExited])
  else Panic "interface couldn't send exit message to controller".

(** What it prints on its other output is logged as errors. *)
Definition trigger_text_read_stderr (id : UnitName) (send_ok : nat -> bool)
    (lines : list (result ForeignError string)) : outcome (list ManagerControlMessage) :=
  '(msgs, _) ← read_lines id (fun line => Some (Ctrl.LogError line)) send_ok 0 lines;
  Done msgs.

(** A trigger that names the scenario to start without an extension asks
    for a unit of kind test, which the manager can not start as a scenario. *)
Theorem trigger_start_names_a_test word :
  is_word word -> trigger_cfti_unescape word = word ->
  has_char c_dot word = false -> has_char c_slash word = false ->
  trigger_request ("start " +:+ word) = Some (Ctrl.StartScenario (Some (mkName word UnitKind.Test))).
Proof.
  intros Hw Hu Hdot Hslash. unfold trigger_request.
  change ("start " +:+ word) with ("start" +:+ String c_sp word).
  rewrite split_whitespace_cons by (by split). rewrite (split_whitespace_word word Hw). simpl.
  rewrite Hu. change (trigger_cfti_unescape "start") with "start". simpl.
  change "test" with (kind_fmt UnitKind.Test).
  by rewrite from_str_default by (try done; apply Hw).
Qed.

(** Every line a trigger prints is a request, a blank one included, which
    starts the current scenario; after the last line the manager is told that
    the child exited. *)
Theorem trigger_reader_sends id lines :
  (exists msgs, length msgs = length lines /\
    trigger_text_read id (fun _ => true) (Ok <$> lines) =
      Done ((mkCtrl id <$> msgs) ++ [mkCtrl id Ctrl.ChildExited])) /\
  forall line, split_whitespace line = [] -> trigger_request line = Some (Ctrl.StartScenario None).
Proof.
  split.
  - exists (omap trigger_request lines). split.
    + unfold trigger_request. induction lines as [|l lines IH]; [done|]. simpl. by f_equal.
    + unfold trigger_text_read. by rewrite read_lines_open.
  - intros line Hl. unfold trigger_request. by rewrite Hl.
Qed.

End trigger.

Lemma trigger_start_names_a_test_witness :
  trigger_request "start program" = Some (Ctrl.StartScenario (Some (mkName "program" UnitKind.Test))).
Proof. by apply trigger_start_names_a_test. Defined.
