(* ===== verification/Logger.v ===== *)
(** * Loggers ([src/src/units/logger.rs])

    A logger is a child process that stores log entries: the manager writes each
    entry to it as a line of six fields separated by tabs, or as JSON. *)

From S2P Require Import Prelude Str Path Unit Cfti Foreign Config Events Env Samples Descriptions Interface.

Section logger.
Context `{Libraries} `{Env}.

Record Logger := mkLogger { lg_desc : LoggerDescription; lg_process : option nat }.

#[export] Instance eta_Logger : Eta Logger := mkEta _ (fun r => mkLogger (lg_desc r) (lg_process r)).

Definition lg_id (l : Logger) : UnitName := ld_id (lg_desc l).

Definition logger_is_compatible (desc : LoggerDescription)
    (jig_is_loaded : UnitName -> bool) : result UnitIncompatibleReason unit :=
  jigs_compatible (ld_jigs desc) jig_is_loaded.

Definition logger_new (desc : LoggerDescription) : Logger := mkLogger desc None.

Definition logger_load (desc : LoggerDescription) (jig_is_loaded : UnitName -> bool) :
    result UnitIncompatibleReason Logger :=
  _ ← logger_is_compatible desc jig_is_loaded;
  Ok (logger_new desc).

Definition logger_activate (l : Logger) : M IO (Logger * result UnitActivateError unit) :=
  r ← start_child (lg_id l) (ld_exec_start (lg_desc l)) None
        (ld_unit_directory (lg_desc l)) (ld_working_directory (lg_desc l));
  match r with
  | Err e => mret (l, Err (ExecFailed e))
  | Ok pid =>
    io_send (lg_id l) Ctrl.InitialGreeting;;
    mret (l <| lg_process := Some pid |>, Ok tt)
  end.

Definition logger_deactivate (l : Logger) : M IO (Logger * result UnitDeactivateError unit) :=
  match lg_process l with
  | None => mret (l, Ok tt)
  | Some _ =>
    r ← terminate_child (lg_id l) (Some (ld_terminate_timeout (lg_desc l)));
    mret (l <| lg_process := None |>, r)
  end.

(** What the child prints is logged as errors, on both of its outputs. *)
Definition logger_text_read (id : UnitName) (send_ok : nat -> bool)
    (lines : list (result ForeignError string)) : outcome (list ManagerControlMessage) :=
  '(msgs, _) ← read_lines id (fun line => Some (Ctrl.LogError line)) send_ok 0 lines;
  Done msgs.

(** ** Writing entries *)

(** The logger's own escaping, which is the interface's. *)
Definition logger_cfti_escape (msg : string) : string :=
  replace (str1 c_cr) "\r" (replace (str1 c_lf) "\n" (replace (str1 c_tab) "\t"
    (replace "\" "\\" msg))).

Definition tsv_fields (l : LogEntry) : list string :=
  [log_type_str (le_type l); logger_cfti_escape (un_id (le_unit l));
   logger_cfti_escape (kind_fmt (un_kind (le_unit l))); pretty (le_secs l); pretty (le_nsecs l);
   logger_cfti_escape (le_message l)].

Definition tsv_write (l : Logger) (entry : LogEntry) : M IO (result ForeignError unit) :=
  write_chunks (lg_id l) [join tab (tsv_fields entry) +:+ lf].

Definition logger_json_write (l : Logger) (entry : LogEntry) : M IO (result ForeignError unit) :=
  match log_to_json entry with
  | Err e => mret (Err e)
  | Ok text => write_chunks (lg_id l) [text +:+ lf]
  end.

Definition logger_output_message (l : Logger) (msg : ManagerStatusMessage) :
    M IO (result ForeignError unit) :=
  match lg_process l with
  | None => mret (Err (other_error "no process running"))
  | Some _ =>
    match msg with
    | Status.Log entry =>
      match ld_format (lg_desc l) with
      | TSV => tsv_write l entry
      | LoggerJSON => logger_json_write l entry
      end
    | _ => mret (Ok tt)
    end
  end.

Lemma tsv_fields_clean l c : c = c_tab \/ c = c_lf -> Forall (fun f => has_char c f = false) (tsv_fields l).
Proof.
  intros Hc. assert (c = c_tab \/ c = c_lf \/ c = c_cr) as Hc' by naive_solver.
  unfold tsv_fields. repeat constructor; change logger_cfti_escape with cfti_escape; rewrite ?cfti_escape_clean by done; try done.
  - destruct Hc as [->| ->]; by destruct (le_type l).
  - apply has_char_pretty. by destruct Hc as [->| ->].
  - apply has_char_pretty. by destruct Hc as [->| ->].
Qed.

Lemma join_clean c sep l : has_char c sep = false -> Forall (fun f => has_char c f = false) l ->
  has_char c (join sep l) = false.
Proof.
  intros Hs. induction 1 as [|f l Hf Hl IH]; [done|]. destruct l as [|g l]; [done|].
  change (join sep (f :: g :: l)) with (f +:+ sep +:+ join sep (g :: l)).
  by rewrite !has_char_app, Hf, Hs, IH.
Qed.

(** (C32) A log entry survives the trip to a TSV logger: its line has exactly
    six fields between tabs and no line feed inside, and un-escaping the second,
    third and last of them gives the unit's name, its kind and the message back,
    whatever characters they contain. *)
Theorem tsv_roundtrip l :
  exists kind id unit secs nsecs message,
    split_char c_tab (join tab (tsv_fields l)) = [kind; id; unit; secs; nsecs; message] /\
    has_char c_lf (join tab (tsv_fields l)) = false /\
    kind = log_type_str (le_type l) /\
    interface_cfti_unescape id = un_id (le_unit l) /\
    interface_cfti_unescape unit = kind_fmt (un_kind (le_unit l)) /\
    secs = pretty (le_secs l) /\ nsecs = pretty (le_nsecs l) /\
    interface_cfti_unescape message = le_message l.
Proof.
  eexists _, _, _, _, _, _. split; [|split_and!].
  - apply (split_char_join c_tab). exact (tsv_fields_clean l c_tab (or_introl eq_refl)).
  - apply join_clean; [done|]. apply tsv_fields_clean. by right.
  - done.
  - apply unescape_loop_escape.
  - apply unescape_loop_escape.
  - done.
  - done.
  - apply unescape_loop_escape.
Qed.

End logger.
