(* ===== verification/Jig.v ===== *)
(** * Jigs ([src/src/units/jig.rs])

    A jig stands for the fixture the program runs on: it is compatible when a
    file exists and a test program succeeds, and it sets the working directory
    under which the other units run. *)

From S2P Require Import Prelude Str Path Unit Foreign Config Events Env Samples Descriptions.

Section jig.
Context `{Libraries} `{Env}.

Record Jig := mkJig { jg_desc : JigDescription }.

Definition jg_id (j : Jig) : UnitName := jd_id (jg_desc j).

(** The loop that reads the output of the test program: only a read error ends
    it, and a read that gives nothing does not. *)
Fixpoint read_to_error (fuel : nat) (program k : nat) (buf : string) : outcome string :=
  match fuel with
  | 0 => OutOfFuel
  | S fuel =>
    match env_read_line program k with
    | Err _ => Done buf
    | Ok line => read_to_error fuel program (S k) (buf +:+ line)
    end
  end.

(** The program is [fuel] lines long at most. *)
Definition jig_is_compatible (fuel : nat) (desc : JigDescription) :
    M IO (result UnitIncompatibleReason unit) :=
  match jd_test_file desc with
  | Some test_file =>
    found ← ask (fun n => env_path_exists n test_file);
    mret (if found : bool then Ok tt else Err (TestFileNotPresent test_file))
  | None => mret (Ok tt)
  end ≫= fun file_ok =>
  match file_ok, jd_test_program desc with
  | Err e, _ => mret (Err e)
  | Ok _, None => mret (Ok tt)
  | Ok _, Some cmd_str =>
    cfg ← gets io_cfg;
    r ← start_child (jd_id desc) cmd_str (Some (cfg_timeout cfg))
          (jd_unit_directory desc) (jd_working_directory desc);
    match r with
    | Err e => mret (Err (incompatible_of_runny e))
    | Ok pid =>
      buf ← liftO (read_to_error fuel pid 0 "");
      let res := env_program_result pid in
      mret (if (res =? 0)%Z then Ok tt else Err (TestProgramReturnedNonzero res buf))
    end
  end.

Definition jig_load (fuel : nat) (desc : JigDescription) :
    M IO (result UnitIncompatibleReason Jig) :=
  r ← jig_is_compatible fuel desc;
  mret (match r with Ok _ => Ok (mkJig desc) | Err e => Err e end).

Definition jig_activate (j : Jig) : M IO (result UnitActivateError unit) :=
  modify (fun w => w <| io_cfg ::=
    match jd_working_directory (jg_desc j) with
    | Some wd => set_jig_working_directory wd
    | None => clear_jig_working_directory
    end |>);;
  mret (Ok tt).

Definition jig_deactivate (j : Jig) : result UnitDeactivateError unit := Ok tt.

(** ** Properties *)

Lemma read_to_error_ends k0 n program k buf :
  (forall k, k0 <= k < k0 + n -> exists line, env_read_line program k = Ok line) ->
  (exists e, env_read_line program (k0 + n) = Err e) -> k = k0 ->
  exists text, read_to_error (S n) program k buf = Done text.
Proof.
  revert k0 k buf. induction n as [|n IH]; intros k0 k buf Hlines [e He] ->; simpl.
  - rewrite Nat.add_0_r in He. rewrite He. by eexists.
  - destruct (Hlines k0) as [line ->]; [lia|].
    destruct (IH (S k0) (S k0) (buf +:+ line)) as [text Ht]; [|by exists e; rewrite Nat.add_succ_comm|done|].
    + intros j Hj. apply Hlines. lia.
    + by exists text.
Qed.

Lemma read_to_error_hangs fuel program k buf :
  (forall j, k <= j -> exists line, env_read_line program j = Ok line) ->
  read_to_error fuel program k buf = OutOfFuel.
Proof.
  revert k buf. induction fuel as [|fuel IH]; intros k buf Hlines; simpl; [done|].
  destruct (Hlines k) as [line ->]; [lia|]. apply IH. intros j Hj. apply Hlines. lia.
Qed.

(** The first question the test program is about: it comes after the one for
    the test file. *)
Definition program_tick (desc : JigDescription) (w : IO) : nat :=
  match jd_test_file desc with Some _ => S (io_tick w) | None => io_tick w end.

(** The check of the test file. *)
Definition file_ok (desc : JigDescription) (w : IO) : Prop :=
  forall f, jd_test_file desc = Some f -> env_path_exists (io_tick w) f = true.

(** The test program runs to its end and gives its result. *)
Lemma program_runs n desc cmd w : jd_test_program desc = Some cmd -> jd_test_file desc = None ->
  (forall k, k < n -> exists line, env_read_line (io_tick w) k = Ok line) ->
  (exists e, env_read_line (io_tick w) n = Err e) ->
  exists r w', jig_load (S n) desc w = Done (r, w') /\
    (is_ok r = true <->
      (exists dir, is_ok (env_start (io_tick w) cmd (Some (cfg_timeout (io_cfg w))) (Some dir)) = true /\
         dir = working_directory (io_cfg w) (jd_unit_directory desc) (jd_working_directory desc)) /\
      env_program_result (io_tick w) = 0%Z).
Proof.
  intros Hp Hf Hlines Hend. unfold jig_load, jig_is_compatible. rewrite Hf, Hp.
  unfold start_child, gets, ask, mbind, M_bind. simpl.
  set (dir := working_directory _ _ _).
  destruct (env_start (io_tick w) cmd (Some (cfg_timeout (io_cfg w))) (Some dir)) eqn:Hs; simpl.
  - destruct (read_to_error_ends 0 n (io_tick w) 0 "") as [text Ht]; [|done|done|].
    { intros k Hk. apply Hlines. lia. }
    unfold liftO. simpl in Ht. rewrite Ht.
    destruct (Z.eqb_spec (env_program_result (io_tick w)) 0) as [Hz|Hz]; simpl;
      eexists _, _; (split; [done|]); simpl; split; try done.
    + intros _. split; [|done]. exists dir. by rewrite Hs.
    + by intros (_ & ?).
  - eexists _, _. split; [done|]. simpl. split; [done|]. intros ((d & Hd & ->) & _).
    fold dir in Hd. by rewrite Hs in Hd.
Qed.

(** A test file that is there makes no difference but the question. *)
Lemma file_asked fuel desc f w : jd_test_file desc = Some f -> env_path_exists (io_tick w) f = true ->
  jig_is_compatible fuel desc w =
  jig_is_compatible fuel (mkJigDescription (jd_id desc) (jd_name desc) (jd_description desc)
    (jd_default_scenario desc) (jd_working_directory desc) (jd_unit_directory desc) (jd_test_program desc) None)
    (w <| io_tick ::= S |>).
Proof. intros Hf He. unfold jig_is_compatible. rewrite Hf. unfold ask, mbind, M_bind. simpl. by rewrite He. Qed.

(** A jig with a test program is loaded if and only if its file exists and
    its program, once the reads of its output end with an error, returned
    zero; the reason of a refusal says which of them failed. *)
Theorem jig_load_checks n desc cmd w line_count : let pid := program_tick desc w in
  jd_test_program desc = Some cmd ->
  (forall k, k < n -> exists line, env_read_line pid k = Ok line) ->
  (exists e, env_read_line pid n = Err e) -> line_count = S n ->
  exists r w', jig_load line_count desc w = Done (r, w') /\
    (is_ok r = true <-> file_ok desc w /\
      (exists dir, is_ok (env_start pid cmd (Some (cfg_timeout (io_cfg w))) (Some dir)) = true /\
         dir = working_directory (io_cfg w) (jd_unit_directory desc) (jd_working_directory desc)) /\
      env_program_result pid = 0%Z).
Proof.
  unfold program_tick, file_ok. destruct (jd_test_file desc) as [f|] eqn:Hf; cbv zeta; intros Hp Hlines Hend ->.
  - destruct (env_path_exists (io_tick w) f) eqn:He.
    + destruct desc as [id nm ds def wd dir prog file]. simpl in *. subst file prog.
      set (desc' := mkJigDescription id nm ds def wd dir (Some cmd) None).
      destruct (program_runs n desc' cmd (w <| io_tick ::= S |>)) as (r & w' & Hrun & Hok); try done.
      revert Hrun. unfold jig_load, mbind, M_bind.
      rewrite (file_asked _ (mkJigDescription _ _ _ _ _ _ _ (Some f)) f) by done. simpl. fold desc'.
      destruct (jig_is_compatible _ _ _) as [[r0 w0]| |]; [|done|done]. intros [= <- <-].
      eexists _, _. split; [done|]. simpl in Hok. etransitivity; [|etransitivity; [exact Hok|]]; [by destruct r0|].
      split; [|tauto]. intros Hall. split; [by intros ? [= <-]|exact Hall].
    + unfold jig_load, jig_is_compatible. rewrite Hf. unfold ask, mbind, M_bind. simpl. rewrite He.
      eexists _, _. split; [done|]. simpl. split; [done|]. intros [Hall _]. by rewrite (Hall f) in He.
  - destruct (program_runs n desc cmd w) as (r & w' & Hrun & Hok); try done.
    exists r, w'. split; [done|]. rewrite Hok. split; [|tauto]. intros Hall. by split.
Qed.

(** The loop over the test program's output does not stop at its end: if
    reading at the end of the output gives nothing, as it does for a pipe,
    instead of an error, loading the jig never ends. *)
Theorem jig_test_program_hangs desc cmd w fuel :
  jd_test_file desc = None -> jd_test_program desc = Some cmd ->
  (forall n c t d, is_ok (env_start n c t d) = true) ->
  (forall k, exists line, env_read_line (io_tick w) k = Ok line) ->
  jig_load fuel desc w = OutOfFuel.
Proof.
  intros Hf Hp Hs Hr. unfold jig_load, jig_is_compatible. rewrite Hf, Hp.
  unfold start_child, gets, ask, mbind, M_bind. simpl.
  set (dir := working_directory _ _ _).
  specialize (Hs (io_tick w) cmd (Some (cfg_timeout (io_cfg w))) (Some dir)).
  destruct (env_start _ _ _ _); [|done]. simpl. unfold liftO.
  rewrite read_to_error_hangs; [done|]. intros j _. apply Hr.
Qed.

End jig.

(** ** A jig with a test program *)

Module SampleJig.

#[export] Instance libs : Libraries := sample_libraries.

Definition desc (file : option string) : JigDescription :=
  mkJigDescription (mkName "bench" UnitKind.Jig) "" "" None None "/units" (Some "./probe") file.

Definition w0 : IO := mkIO config_new 0 [].

(** The first read fails, as on a terminal whose program is gone. *)
Lemma jig_load_checks_witness : exists r w',
  @jig_load libs sample_env 1 (desc (Some "/dev/board")) w0 = Done (r, w') /\ is_ok r = true.
Proof.
  destruct (@jig_load_checks libs sample_env 0 (desc (Some "/dev/board")) "./probe" w0 1)
    as (r & w' & Hrun & Hok); [done|intros; lia|by eexists|done|].
  exists r, w'. split; [exact Hrun|]. apply Hok. split_and!; [|by eexists|done].
  by intros f [= <-].
Defined.

(** Reads at the end give nothing. *)
Definition pipe_env : Env :=
  let e := sample_env in
  {| env_now := env_now; env_time := env_time; env_path_exists := env_path_exists; env_start := env_start;
     runny_debug := runny_debug; custom_error_debug := custom_error_debug; env_terminate := env_terminate;
     env_write := env_write; env_read_line _ _ := Ok "";
     env_program_result := env_program_result; log_to_json := log_to_json; env_order := env_order |}.

Lemma jig_test_program_hangs_witness : @jig_load libs pipe_env 1000 (desc None) w0 = OutOfFuel.
Proof.
  apply (@jig_test_program_hangs libs pipe_env (desc None) "./probe"); try done. by eexists.
Defined.

End SampleJig.
