(* ===== verification/Test.v ===== *)
(** * Tests ([src/src/units/test.rs])

    A test is a command.  Activating it starts the command and threads that
    follow it: they log what it prints and, when it ends or, for a daemon, when
    it is ready, report to the manager.  The threads and the manager share the
    cell of the result, which decides who reports that the test finished. *)

From S2P Require Import Prelude Str Path Unit Foreign Config Events Env Samples Descriptions.

(** ** The unit *)

Section test.
Context `{Libraries} `{Env}.

(** [te_result] and [te_last_line] are the cells shared with the threads. *)
Record Test := mkTest {
  te_desc : TestDescription;
  te_program : option nat;
  te_result : option Z;
  te_last_line : string;
}.

#[export] Instance eta_Test : Eta Test := mkEta _ (fun r =>
  mkTest (te_desc r) (te_program r) (te_result r) (te_last_line r)).

Definition te_id (t : Test) : UnitName := td_id (te_desc t).
Definition te_is_daemon (t : Test) : bool := bool_decide (td_test_type (te_desc t) = Daemon).

Definition test_new (desc : TestDescription) : Test := mkTest desc None None "".

Definition test_load (desc : TestDescription) : result UnitIncompatibleReason Test :=
  Ok (test_new desc).

Definition test_select (t : Test) (jig_is_loaded : UnitName -> bool) : result UnitSelectError unit :=
  if negb (bool_decide (td_jigs (te_desc t) = [])) && negb (existsb jig_is_loaded (td_jigs (te_desc t)))
  then Err NoCompatibleJig else Ok tt.

(** Report the result, unless one was reported. *)
Definition send_finished_once (t : Test) (result_val : Z) : M IO Test :=
  match te_result t with
  | None =>
    io_send (te_id t) (Ctrl.TestFinished result_val (te_last_line t));;
    mret (t <| te_result := Some result_val |>)
  | Some _ => mret t
  end.

Definition test_activate (t : Test) : M IO (Test * result UnitActivateError unit) :=
  let t := t <| te_result := None |> in
  io_send (te_id t) Ctrl.TestStarted;;
  r ← start_child (te_id t) (td_exec_start (te_desc t)) (td_timeout (te_desc t))
        (td_unit_directory (te_desc t)) (td_working_directory (te_desc t));
  match r with
  | Err e =>
    let text := "unable to start test: " +:+ runny_debug e in
    io_send (te_id t) (Ctrl.LogError text);;
    io_send (te_id t) (Ctrl.TestFinished (-3) text);;
    io_send (te_id t) (Ctrl.AdvanceScenario (-3));;
    mret (t, Err (ExecFailed e))
  | Ok pid => mret (t <| te_program := Some pid |>, Ok tt)
  end.

(** A daemon that is told to stop has done its work: it passes, unless it has
    failed before. *)
Definition test_deactivate (t : Test) : M IO (Test * result UnitDeactivateError unit) :=
  match te_program t with
  | None => mret (t, Ok tt)
  | Some _ =>
    t ← (if te_is_daemon t then send_finished_once t 0 else mret t);
    emit (Terminate (te_id t) None);;
    mret (t, Ok tt)
  end.

End test.

(** ** The threads of an activation *)

(** What a thread does, one atomic action after the other. *)
Inductive Action :=
  (** [*last_line.lock().unwrap() = line] *)
  | SetLast (line : string)
  (** [ctrl.send(...)] *)
  | Tell (c : ManagerControlMessageContents)
  (** [send_finished_once] *)
  | FinishOnce (code : Z)
  (** [running.terminate(...)] *)
  | Kill
  (** [thread::spawn] *)
  | Fork (body : list Action).

Abbreviation Thread := (list Action).

Section threads.
Context `{Libraries}.

(** What the command did: the lines of its outputs, a read of which may fail,
    and its exit code. *)
Record Behaviour := mkBehaviour {
  b_stdout : list (result ForeignError string);
  b_stderr : list (result ForeignError string);
  b_code : Z;
}.

(** The threads that log a whole output; a read error is a panic of the
    thread. *)
Fixpoint log_lines (msg : string -> ManagerControlMessageContents)
    (lines : list (result ForeignError string)) : Thread :=
  match lines with
  | Ok line :: lines => SetLast line :: Tell (msg line) :: log_lines msg lines
  | _ => []
  end.

Definition log_output (lines : list (result ForeignError string)) : Thread := log_lines Ctrl.Log lines.
Definition log_error_output (lines : list (result ForeignError string)) : Thread :=
  log_lines Ctrl.LogError lines.

(** After the daemon is ready: log the rest, advance, wait, report. *)
Definition daemon_ready (rest : list (result ForeignError string)) (code : Z) : Thread :=
  [Fork (log_output rest); Tell (Ctrl.AdvanceScenario 0); FinishOnce code].

(** The loop that waits for the text that says that the daemon is ready. *)
Fixpoint daemon_wait (r : Regex) (lines : list (result ForeignError string)) (code : Z) : Thread :=
  match lines with
  | [] =>
    [Tell (Ctrl.LogError "test daemon exited before ready string was found");
     Tell (Ctrl.AdvanceScenario (-1)); Kill; FinishOnce (-1)]
  | Err e :: _ =>
    [Tell (Ctrl.LogError ("test daemon raised an error: " +:+ fe_description e));
     Tell (Ctrl.AdvanceScenario (-2)); Kill; FinishOnce (-2)]
  | Ok line :: lines =>
    Tell (Ctrl.Log line) :: if is_match r line then daemon_ready lines code else daemon_wait r lines code
  end.

Definition daemon_main (desc : TestDescription) (b : Behaviour) : Thread :=
  Fork (log_error_output (b_stderr b)) ::
  match td_test_daemon_ready desc with
  | Some r => daemon_wait r (b_stdout b) (b_code b)
  | None => daemon_ready (b_stdout b) (b_code b)
  end.

Definition simple_waiter (code : Z) : Thread := [FinishOnce code; Tell (Ctrl.AdvanceScenario code)].

(** The threads that [activate] starts. *)
Definition spawned (desc : TestDescription) (b : Behaviour) : list Thread :=
  match td_test_type desc with
  | Daemon => [daemon_main desc b]
  | Simple => [log_output (b_stdout b); log_error_output (b_stderr b); simple_waiter (b_code b)]
  end.

End threads.

(** ** Interleaving *)

(** The shared cells, what was sent, and the threads. *)
Record Running := mkRunning {
  ru_result : option Z;
  ru_last : string;
  ru_sent : list ManagerControlMessageContents;
  ru_threads : list Thread;
}.

#[export] Instance eta_Running : Eta Running := mkEta _ (fun r =>
  mkRunning (ru_result r) (ru_last r) (ru_sent r) (ru_threads r)).

Definition finish_once (code : Z) (r : Running) : Running :=
  match ru_result r with
  | None => r <| ru_sent ::= fun m => m ++ [Ctrl.TestFinished code (ru_last r)] |>
              <| ru_result := Some code |>
  | Some _ => r
  end.

Definition do_action (a : Action) (r : Running) : Running :=
  match a with
  | SetLast line => r <| ru_last := line |>
  | Tell c => r <| ru_sent ::= fun m => m ++ [c] |>
  | FinishOnce code => finish_once code r
  | Kill => r
  | Fork body => r <| ru_threads ::= fun ts => ts ++ [body] |>
  end.

(** Any thread takes its next action, or the manager stops the test. *)
Inductive thread_step (daemon : bool) : Running -> Running -> Prop :=
  | step_thread r i a rest :
    ru_threads r !! i = Some (a :: rest) ->
    thread_step daemon r (do_action a (r <| ru_threads ::= <[i := rest]> |>))
  | step_stop r :
    thread_step daemon r (if daemon then finish_once 0 r else r).

Abbreviation thread_steps daemon := (rtc (thread_step daemon)).

Definition is_finished (c : ManagerControlMessageContents) : bool :=
  match c with Ctrl.TestFinished _ _ => true | _ => false end.
Definition is_advance (c : ManagerControlMessageContents) : bool :=
  match c with Ctrl.AdvanceScenario _ => true | _ => false end.

Definition count (p : ManagerControlMessageContents -> bool)
    (l : list ManagerControlMessageContents) : nat := length (List.filter p l).

Lemma count_app p l1 l2 : count p (l1 ++ l2) = count p l1 + count p l2.
Proof. unfold count. by rewrite List.filter_app, length_app. Qed.

(** How often a thread will still advance the scenario, and report that the
    test finished. *)
Fixpoint advances (a : Action) : nat :=
  match a with
  | Tell c => if is_advance c then 1 else 0
  | Fork body => list_sum (map advances body)
  | _ => 0
  end.

Fixpoint tells_finished (a : Action) : nat :=
  match a with
  | Tell c => if is_finished c then 1 else 0
  | Fork body => list_sum (map tells_finished body)
  | _ => 0
  end.

Definition pending (f : Action -> nat) (ts : list Thread) : nat :=
  list_sum (map (fun t => list_sum (map f t)) ts).

Lemma pending_app f ts1 ts2 : pending f (ts1 ++ ts2) = pending f ts1 + pending f ts2.
Proof. unfold pending. by rewrite map_app, list_sum_app. Qed.

Lemma pending_insert f ts i a rest :
  ts !! i = Some (a :: rest) -> pending f ts = f a + pending f (<[i := rest]> ts).
Proof.
  intros Hi. rewrite <- (take_drop_middle ts i (a :: rest) Hi) at 1.
  rewrite (insert_take_drop ts i rest) by (by eapply lookup_lt_Some).
  rewrite !pending_app. unfold pending. simpl. lia.
Qed.

(** A result in the cell is a report that was sent, and no thread reports in
    another way. *)
Record once_inv (r : Running) : Prop := {
  on_count : count is_finished (ru_sent r) = (if ru_result r then 1 else 0);
  on_threads : pending tells_finished (ru_threads r) = 0;
}.

Lemma finish_once_inv code r : once_inv r -> once_inv (finish_once code r).
Proof.
  intros [Hc Ht]. unfold finish_once. destruct (ru_result r) eqn:Hr; [by split; rewrite ?Hr|].
  split; simpl; [|done]. rewrite count_app, Hc. done.
Qed.

Lemma thread_step_once daemon r r' : thread_step daemon r r' -> once_inv r -> once_inv r'.
Proof.
  intros [r0 i a rest Hi|r0] Hinv; [|destruct daemon; [by apply finish_once_inv|done]].
  assert (once_inv (r0 <| ru_threads ::= <[i := rest]> |>) /\ tells_finished a = 0) as [Hinv' Ha].
  { destruct Hinv as [Hc Ht]. rewrite (pending_insert _ _ _ _ _ Hi) in Ht. split; [split|]; simpl; [done|lia|lia]. }
  destruct a as [line|c|code| |body]; simpl; [|destruct Hinv' as [Hc Ht]|by apply finish_once_inv|done|].
  - by destruct Hinv'.
  - split; simpl in *; [|done]. rewrite count_app, Hc. unfold count. simpl.
    destruct (is_finished c); [done|]. simpl. lia.
  - destruct Hinv' as [Hc Ht]. split; simpl in *; [done|]. rewrite pending_app, Ht. unfold pending. simpl in *. lia.
Qed.

(** Advancing is conserved: what was sent and what is still to come. *)
Lemma thread_step_advances daemon r r' : thread_step daemon r r' ->
  count is_advance (ru_sent r') + pending advances (ru_threads r') =
  count is_advance (ru_sent r) + pending advances (ru_threads r).
Proof.
  assert (forall code r, count is_advance (ru_sent (finish_once code r)) = count is_advance (ru_sent r)
    /\ ru_threads (finish_once code r) = ru_threads r) as Hfin.
  { intros code r0. unfold finish_once. destruct (ru_result r0); [done|]. simpl. split; [|done].
    rewrite count_app. unfold count. simpl. lia. }
  intros [r0 i a rest Hi|r0]; [|destruct daemon; [by destruct (Hfin 0%Z r0) as [-> ->]|done]].
  rewrite (pending_insert advances _ _ _ _ Hi).
  destruct a as [line|c|code| |body]; simpl; try lia.
  - rewrite count_app. unfold count. simpl. destruct (is_advance c); simpl; lia.
  - match goal with |- context [finish_once code ?x] => destruct (Hfin code x) as [-> ->] end.
    simpl. lia.
  - rewrite pending_app. unfold pending. simpl. lia.
Qed.

(** ** What an activation reports *)

(** The threads and cells right after a successful [activate]. *)
Definition activated `{Libraries} (desc : TestDescription) (b : Behaviour) (last : string) : Running :=
  mkRunning None last [Ctrl.TestStarted] (spawned desc b).

Lemma log_lines_pending f msg lines :
  (forall l, f (SetLast l) = 0) -> (forall l, f (Tell (msg l)) = 0) ->
  list_sum (map f (log_lines msg lines)) = 0.
Proof.
  intros H1 H2. induction lines as [|[l|e] lines IH]; simpl; [done| |done]. by rewrite H1, H2, IH.
Qed.

Section reports.
Context `{Libraries}.

Lemma log_output_pending lines :
  list_sum (map advances (log_output lines)) = 0 /\ list_sum (map tells_finished (log_output lines)) = 0 /\
  list_sum (map advances (log_error_output lines)) = 0 /\
  list_sum (map tells_finished (log_error_output lines)) = 0.
Proof. split_and!; by apply log_lines_pending. Qed.

Lemma daemon_wait_pending r lines code :
  list_sum (map advances (daemon_wait r lines code)) = 1 /\
  list_sum (map tells_finished (daemon_wait r lines code)) = 0.
Proof.
  induction lines as [|[l|e] lines IH]; [done| |done]. simpl. destruct (is_match r l); [|done].
  simpl. destruct (log_output_pending lines) as (-> & -> & _). done.
Qed.

(** The threads of an activation advance the scenario once and report only
    through the cell. *)
Lemma spawned_pending desc b :
  pending advances (spawned desc b) = 1 /\ pending tells_finished (spawned desc b) = 0.
Proof.
  unfold spawned, pending. destruct (log_output_pending (b_stdout b)) as (Ho1 & Ho2 & _).
  destruct (log_output_pending (b_stderr b)) as (_ & _ & He1 & He2).
  destruct (td_test_type desc); simpl; rewrite ?Ho1, ?Ho2, ?He1, ?He2; [done|].
  destruct (td_test_daemon_ready desc) as [r|]; simpl.
  - by destruct (daemon_wait_pending r (b_stdout b) (b_code b)) as [-> ->].
  - by rewrite Ho1, Ho2.
Qed.


(** (C29) Every activation that started its command advances the scenario
    exactly once: never twice on the way, and once when its threads have
    ended, whether it is a simple test, a daemon that became ready, or one that
    did not. *)
Theorem test_advances_scenario_once desc b last r :
  thread_steps (bool_decide (td_test_type desc = Daemon)) (activated desc b last) r ->
  count is_advance (ru_sent r) <= 1 /\
  (Forall (fun t => t = []) (ru_threads r) -> count is_advance (ru_sent r) = 1).
Proof.
  intros Hsteps.
  assert (count is_advance (ru_sent r) + pending advances (ru_threads r) = 1) as Hsum.
  { rewrite <- (proj1 (spawned_pending desc b)).
    change (pending advances (spawned desc b)) with (count is_advance (ru_sent (activated desc b last))
      + pending advances (ru_threads (activated desc b last))).
    induction Hsteps as [|r1 r2 r3 Hstep _ IH]; [done|]. rewrite IH. by eapply thread_step_advances. }
  split; [lia|]. intros Hall. enough (pending advances (ru_threads r) = 0) by lia.
  clear -Hall. unfold pending. induction Hall as [|t ts -> _ IH]; simpl; [done|lia].
Qed.

End reports.

(** A test whose command can not be started reports it and lets the
    scenario go on: exactly [TestStarted], an error in the log, one
    [TestFinished] and one [AdvanceScenario], both with code -3. *)
Theorem test_start_failure `{Libraries} `{Env} t w e :
  env_start (io_tick w) (td_exec_start (te_desc t)) (td_timeout (te_desc t))
    (Some (working_directory (io_cfg w) (td_unit_directory (te_desc t)) (td_working_directory (te_desc t))))
    = Err e ->
  exists t' w' text, test_activate t w = Done ((t', Err (ExecFailed e)), w') /\
    cm_contents <$> sent_msgs (io_out w') = (cm_contents <$> sent_msgs (io_out w)) ++
      [Ctrl.TestStarted; Ctrl.LogError text; Ctrl.TestFinished (-3) text; Ctrl.AdvanceScenario (-3)] /\
    te_program t' = te_program t.
Proof.
  intros He. unfold test_activate, start_child, io_send, emit, ask, gets, mbind, M_bind. simpl.
  unfold te_id in *. simpl. rewrite He. simpl. eexists _, _, _. split; [reflexivity|]. simpl.
  split; [|done]. rewrite !sent_msgs_app, !fmap_app, <- !app_assoc. done.
Qed.

(** ** Concrete runs *)

Module SampleTest.

#[export] Instance libs : Libraries := sample_libraries.

Definition desc (ty : TestType) : TestDescription :=
  mkTestDescription (mkName "t" UnitKind.Test) "" "" [] [] [] [] None None None ty None "./t" None None None "/units".

Definition b : Behaviour := mkBehaviour [Ok "hello"] [] 1.

(** A daemon that is stopped before its command ends: it passes, and the exit
    code of the command is not reported. *)
Definition stopped : Running :=
  mkRunning (Some 0%Z) "" [Ctrl.TestStarted; Ctrl.TestFinished 0 ""] (spawned (desc Daemon) b).

Lemma stopped_run : thread_steps true (activated (desc Daemon) b "") stopped.
Proof. apply rtc_once. apply (step_stop true (activated (desc Daemon) b "")). Qed.


Lemma test_advances_scenario_once_witness : count is_advance (ru_sent stopped) <= 1.
Proof. apply (test_advances_scenario_once (desc Daemon) b "" stopped). exact stopped_run. Defined.

(** No command can be started. *)
Definition broken_env : Env :=
  let e := sample_env in
  {| env_now := env_now; env_time := env_time; env_path_exists := env_path_exists; env_start _ _ _ _ := Err NoCommandSpecified;
     runny_debug := runny_debug; custom_error_debug := custom_error_debug;
     env_terminate := env_terminate; env_write := env_write; env_read_line := env_read_line;
     env_program_result := env_program_result; log_to_json := log_to_json; env_order := env_order |}.

Lemma test_start_failure_witness : exists t' w' text,
  @test_activate libs broken_env (test_new (desc Simple)) (mkIO config_new 0 []) =
    Done ((t', Err (ExecFailed NoCommandSpecified)), w') /\
  cm_contents <$> sent_msgs (io_out w') =
    [Ctrl.TestStarted; Ctrl.LogError text; Ctrl.TestFinished (-3) text; Ctrl.AdvanceScenario (-3)].
Proof.
  destruct (@test_start_failure libs broken_env (test_new (desc Simple)) (mkIO config_new 0 [])
    NoCommandSpecified eq_refl) as (t' & w' & text & Hrun & Hmsgs & _).
  exact (ex_intro _ t' (ex_intro _ w' (ex_intro _ text (conj Hrun Hmsgs)))).
Defined.

End SampleTest.
