(* ===== verification/Scenario.v ===== *)
(** * Scenarios ([src/src/units/scenario.rs])

    A scenario runs an optional start command, its tests in the order the
    dependency graph gives, and a stop command that depends on the result.  It
    is a state machine driven by [AdvanceScenario] messages: each one records
    the result of what was running and starts what comes next. *)

From S2P Require Import Prelude Str Path Unit Foreign Config Descriptions Events Env.

(** ** Data *)

Module ScenarioState.
Inductive ScenarioState :=
  | Idle
  | PreStart
  | Running (step : nat)
  | PostSuccess
  | PostFailure
  | ScenarioFinished.
End ScenarioState.
Abbreviation ScenarioState := ScenarioState.ScenarioState.

#[export] Instance ScenarioState_eq_dec : EqDecision ScenarioState.
Proof. solve_decision. Defined.

Module TestState.
Inductive TestState :=
  | Pending
  | Running
  | Pass
  | Skip
  | Fail (reason : string).
End TestState.
Abbreviation TestState := TestState.TestState.

#[export] Instance TestState_eq_dec : EqDecision TestState.
Proof. solve_decision. Defined.

Definition is_fail (t : TestState) : bool :=
  match t with TestState.Fail _ => true | _ => false end.

Section scenario.
Context `{Libraries} `{DependyLib} `{Env}.

(** An [Rc<RefCell<Test>>]: scenarios read nothing of a test but its
    description, which never changes. *)
Record TestRc := mkTestRc { rc_desc : TestDescription }.

Definition rc_id (t : TestRc) : UnitName := td_id (rc_desc t).
Definition rc_is_daemon (t : TestRc) : bool := bool_decide (td_test_type (rc_desc t) = Daemon).
Definition rc_timeout (t : TestRc) : option Duration := td_timeout (rc_desc t).

Record Scenario := mkScenario {
  sc_description : ScenarioDescription;
  sc_test_sequence : list TestRc;
  sc_tests : gmap UnitName TestRc;
  sc_test_states : gmap UnitName TestState;
  sc_exec_start_state : TestState;
  sc_failures : Z;
  sc_state : ScenarioState;
  sc_support_wd : string;
  sc_graph : Dependy;
  sc_start_time : Z;
  sc_program : option string;
}.

#[export] Instance eta_Scenario : Eta Scenario := mkEta _ (fun r =>
  mkScenario (sc_description r) (sc_test_sequence r) (sc_tests r) (sc_test_states r)
    (sc_exec_start_state r) (sc_failures r) (sc_state r) (sc_support_wd r) (sc_graph r)
    (sc_start_time r) (sc_program r)).

Definition sc_id (s : Scenario) : UnitName := sd_id (sc_description s).

(** The state a scenario's operations run on: the scenario, the shared
    configuration, the questions asked of the world and the outputs. *)
Record ScW := mkScW {
  w_sc : Scenario;
  w_cfg : Config;
  w_tick : nat;
  w_out : list Out;
}.

#[export] Instance eta_ScW : Eta ScW := mkEta _ (fun r =>
  mkScW (w_sc r) (w_cfg r) (w_tick r) (w_out r)).

Abbreviation ScM := (M ScW).

Definition sc_modify (f : Scenario -> Scenario) : ScM unit := modify (fun w => w <| w_sc ::= f |>).
Definition sc_get {A} (f : Scenario -> A) : ScM A := gets (fun w => f (w_sc w)).

(** [ctrl.send(ManagerControlMessage::new(sender, contents)).ok()] *)
Definition send (sender : UnitName) (contents : ManagerControlMessageContents) : ScM unit :=
  modify (fun w => w <| w_out ::= fun o => o ++ [Send (mkCtrl sender contents)] |>).

Definition instant_now : ScM Z :=
  fun w => Done (env_now (w_tick w), w <| w_tick ::= S |>).

(** [Instant::duration_since], which saturates at zero. *)
Definition duration_since (later earlier : Z) : Duration := Z.max 0 (later - earlier).

(** ** Building a scenario *)

(** [ScenarioDescription::get_test_order]: the graph of the loaded tests, in
    the order the map of tests is iterated, and the tests to run.  Assumed
    tests are in the graph without dependencies, as [AssumptionDependency], and
    are not run. *)
Definition assumption_dep (name : UnitName) : Dep := mkDep name [] [] [].

Definition test_as_dep (t : TestDescription) : Dep := mkDep (td_id t) (td_requires t) (td_suggests t) (td_provides t).

Definition test_dep (assumptions : list UnitName) (test_name : UnitName) (t : TestDescription) : Dep :=
  if bool_decide (test_name ∈ assumptions) then assumption_dep test_name else test_as_dep t.

Definition get_test_order (desc : ScenarioDescription) (tests : list (UnitName * TestRc)) :
    result UnitIncompatibleReason (list UnitName * Dependy) :=
  let graph := (fun '(n, t) => test_dep (sd_assumptions desc) n (rc_desc t)) <$> tests in
  test_sequence ← map_err DependencyError (resolve_named_dependencies graph (sd_tests desc));
  Ok (filter (fun n => n ∉ sd_assumptions desc) test_sequence, graph).

(** [ScenarioDescription::is_compatible] *)
Definition scenario_is_compatible (desc : ScenarioDescription)
    (jig_is_loaded : UnitName -> bool) (tests : list (UnitName * TestRc)) :
    result UnitIncompatibleReason (list UnitName * Dependy) :=
  if negb (bool_decide (sd_jigs desc = [])) && negb (existsb jig_is_loaded (sd_jigs desc))
  then Err IncompatibleJig
  else get_test_order desc tests.

(** The loop of [Scenario::new]. *)
Fixpoint checkout_tests (test_order : list UnitName) (get_test_named : UnitName -> option TestRc) :
    outcome (list TestRc * gmap UnitName TestRc * gmap UnitName TestState) :=
  match test_order with
  | [] => Done ([], ∅, ∅)
  | name :: order =>
    match get_test_named name with
    | None => Panic "Unable to check out requested test from library"
    | Some t =>
      '(seq, tests, states) ← checkout_tests order get_test_named;
      Done (t :: seq, <[name := t]> tests, <[name := TestState.Pending]> states)
    end
  end.

Definition scenario_new (desc : ScenarioDescription) (test_order : list UnitName)
    (get_test_named : UnitName -> option TestRc) (graph : Dependy) (now : Z) :
    outcome Scenario :=
  '(seq, tests, states) ← checkout_tests test_order get_test_named;
  Done (mkScenario desc seq tests states TestState.Pending 0 ScenarioState.Idle
          (sd_unit_directory desc) graph now None).

(** [ScenarioDescription::load] *)
Definition scenario_load (desc : ScenarioDescription) (jig_is_loaded : UnitName -> bool)
    (tests : list (UnitName * TestRc)) (get_test_named : UnitName -> option TestRc) (now : Z) :
    outcome (result UnitIncompatibleReason Scenario) :=
  match scenario_is_compatible desc jig_is_loaded tests with
  | Err e => Done (Err e)
  | Ok (test_order, graph) =>
    s ← scenario_new desc test_order get_test_named graph now;
    Done (Ok s)
  end.

(** ** Accessors *)

Definition test_sequence (s : Scenario) : list UnitName := rc_id <$> sc_test_sequence s.

Definition uses_test (s : Scenario) (test_name : UnitName) : bool :=
  bool_decide (is_Some (sc_tests s !! test_name)).

Definition is_running (s : Scenario) : bool :=
  negb (bool_decide (sc_state s = ScenarioState.Idle)) &&
  negb (bool_decide (sc_state s = ScenarioState.ScenarioFinished)).

(** ** Activation *)

(** Start afresh, re-assign the working directories, and ask to be advanced. *)
Definition scenario_activate : ScM (result UnitActivateError unit) :=
  sc_modify (fun s => s <| sc_failures := 0%Z |>);;
  now ← instant_now;
  sc_modify (fun s => s <| sc_start_time := now |> <| sc_state := ScenarioState.Idle |>
                        <| sc_exec_start_state := TestState.Pending |>
                        <| sc_test_states ::= fmap (fun _ => TestState.Pending) |>);;
  desc ← sc_get sc_description;
  modify (fun w => w <| w_cfg ::=
    match sd_working_directory desc with
    | Some wd => set_scenario_working_directory wd
    | None => clear_scenario_working_directory
    end |>);;
  modify (fun w => w <| w_sc ::= fun s => s <| sc_support_wd :=
    working_directory (w_cfg w) (sd_unit_directory desc) (sd_working_directory desc) |> |>);;
  send (sd_id desc) (Ctrl.AdvanceScenario 0);;
  mret (Ok tt).

(** ** Choosing the next state *)

Definition scenario_timed_out : ScM bool :=
  timeout ← sc_get (fun s => sd_timeout (sc_description s));
  match timeout with
  | None => mret false
  | Some timeout =>
    now ← instant_now;
    start ← sc_get sc_start_time;
    mret (bool_decide (timeout <= duration_since now start)%Z)
  end.

(** The recursion over the graph follows the required parents; its fuel is the
    depth it may reach. *)
Fixpoint all_dependencies_succeeded (fuel : nat) (s : Scenario) (test_name : UnitName) :
    outcome bool :=
  match fuel with
  | 0 => OutOfFuel
  | S fuel =>
    (fix loop (parents : list UnitName) : outcome bool :=
       match parents with
       | [] => Done true
       | parent_name :: parents =>
         if bool_decide (parent_name ∈ sd_assumptions (sc_description s)) then Done true
         else match sc_test_states s !! parent_name with
              | None => Panic "called `Option::unwrap()` on a `None` value"
              | Some result =>
                if bool_decide (result <> TestState.Pass) &&
                   bool_decide (result <> TestState.Running) then Done false
                else ok ← all_dependencies_succeeded fuel s parent_name;
                     if (ok : bool) then loop parents else Done false
              end
       end) (required_parents_of_named (sc_graph s) test_name)
  end.

(** A chain of parents goes back through the tests of the sequence. *)
Definition deps_fuel (s : Scenario) : nat := S (length (sc_test_sequence s)).

Definition is_state_okay (new_state : ScenarioState) : ScM bool :=
  desc ← sc_get sc_description;
  match new_state with
  | ScenarioState.Idle => mret true
  | ScenarioState.PreStart => mret (bool_decide (is_Some (sd_exec_start desc)))
  | ScenarioState.Running i =>
    seq ← sc_get sc_test_sequence;
    test ← unwrap "index out of bounds" (seq !! i);
    let test_name := rc_id test in
    timed_out ← scenario_timed_out;
    s ← sc_get id;
    if (timed_out : bool) then mret false
    else if size (sc_tests s) <=? i then mret false
    else if is_fail (sc_exec_start_state s) then mret false
    else
      test_state ← unwrap "called `Option::unwrap()` on a `None` value"
                     (sc_test_states s !! test_name);
      if bool_decide (test_state <> TestState.Pending) then mret false
      else
        ok ← liftO (all_dependencies_succeeded (deps_fuel s) s test_name);
        if (ok : bool) then mret true
        else
          sc_modify (fun s => s <| sc_test_states ::= <[test_name := TestState.Skip]> |>);;
          send (sd_id desc) (Ctrl.Skip test_name "dependency failed");;
          mret false
  | ScenarioState.PostSuccess => mret (bool_decide (is_Some (sd_exec_stop_success desc)))
  | ScenarioState.PostFailure => mret (bool_decide (is_Some (sd_exec_stop_failure desc)))
  | ScenarioState.ScenarioFinished => mret true
  end.

(** The candidate that follows a state. *)
Definition candidate (s : Scenario) (current : ScenarioState) : outcome ScenarioState :=
  let test_count := size (sc_tests s) in
  let failure_count := sc_failures s in
  match current with
  | ScenarioState.Idle => Done ScenarioState.PreStart
  | ScenarioState.PreStart => Done (ScenarioState.Running 0)
  | ScenarioState.Running i =>
    if i + 1 <? test_count then
      match sd_stop_after_failure_count (sc_description s) with
      | Some count =>
        if (count <=? failure_count)%Z then Done ScenarioState.PostFailure
        else Done (ScenarioState.Running (i + 1))
      | None => Done (ScenarioState.Running (i + 1))
      end
    else if (0 <? failure_count)%Z then Done ScenarioState.PostFailure
    else if (failure_count =? 0)%Z then Done ScenarioState.PostSuccess
    else Panic "Got into a weird state."
  | ScenarioState.PostFailure => Done ScenarioState.ScenarioFinished
  | ScenarioState.PostSuccess => Done ScenarioState.ScenarioFinished
  | ScenarioState.ScenarioFinished => Done ScenarioState.ScenarioFinished
  end.

Fixpoint find_next_state (fuel : nat) (current_state : ScenarioState) : ScM ScenarioState :=
  match fuel with
  | 0 => out_of_fuel
  | S fuel =>
    s ← sc_get id;
    new_state ← liftO (candidate s current_state);
    okay ← is_state_okay new_state;
    if (okay : bool) then
      sc_modify (fun s => s <| sc_state := new_state |>);; mret new_state
    else find_next_state fuel new_state
  end.

(** One candidate per test, and the five states around them. *)
Definition next_fuel (s : Scenario) : nat := size (sc_tests s) + 5.

(** ** Running *)

(** [run_support_cmd].  The threads it starts log the output of the command,
    send [AdvanceScenario] with its result when it ends, and log that it
    finished: System.support_threads. *)
Definition run_support_cmd (cmd : string) (timeout : option Duration) (testname : string) :
    ScM unit :=
  id ← sc_get sc_id;
  send id (Ctrl.Log (testname +:+ ": starting [" +:+ cmd +:+ "]"));;
  wd ← sc_get sc_support_wd;
  tick ← gets w_tick;
  modify (fun w => w <| w_tick ::= S |>);;
  match env_start tick cmd timeout (Some wd) with
  | Ok _ =>
    modify (fun w => w <| w_out ::= fun o => o ++ [Spawn id cmd timeout wd] |>);;
    sc_modify (fun s => s <| sc_program := Some cmd |>)
  | Err e =>
    send id (Ctrl.LogError (testname +:+ ": unable to run command: " +:+ runny_debug e));;
    send id (Ctrl.AdvanceScenario 1)
  end.

(** The longest [Duration]: [u64::MAX] seconds and 999999999 nanoseconds. *)
Definition duration_max : Duration := (u64_max * 1000000000 + 999999999)%Z.

(** Limit the time of a test to what the scenario has left; [Duration]s add
    with a panic above the longest and subtract with a panic below zero. *)
Definition make_timeout (test_max_time : option Duration) : ScM (option Duration) :=
  now ← instant_now;
  s ← sc_get id;
  let scenario_elapsed_time := duration_since now (sc_start_time s) in
  match test_max_time with
  | None => mret None
  | Some test_max_time =>
    match sd_timeout (sc_description s) with
    | None => mret (Some test_max_time)
    | Some timeout =>
      if (duration_max <? test_max_time + scenario_elapsed_time)%Z
      then panic "overflow when adding durations"
      else if (timeout <? test_max_time + scenario_elapsed_time)%Z then
        if (timeout <? scenario_elapsed_time)%Z
        then panic "overflow when subtracting durations"
        else mret (Some (timeout - scenario_elapsed_time)%Z)
      else mret (Some test_max_time)
    end
  end.

(** [+= 1] on a [u32]. *)
Definition add_failure : ScM unit :=
  f ← sc_get sc_failures;
  if (f =? u32_max)%Z then panic "attempt to add with overflow"
  else sc_modify (fun s => s <| sc_failures := (f + 1)%Z |>).

(** Post messages and terminate tests. *)
Definition finish_scenario : ScM unit :=
  s ← sc_get id;
  let failures := sc_failures s in
  forM (sc_test_sequence s) (fun test => send (sc_id s) (Ctrl.StopTest (rc_id test)));;
  send (sc_id s) (Ctrl.StopTest (sc_id s));;
  if (0 <? failures)%Z then
    if (u32_max <? failures + 500)%Z then panic "attempt to add with overflow"
    else send (sc_id s) (Ctrl.ScenarioFinished (failures + 500)%Z "at least one test failed")
  else send (sc_id s) (Ctrl.ScenarioFinished 200 "all tests passed").

(** The first half of [advance]: record the result of what was running. *)
Definition record_result (current_state : ScenarioState) (last_unit : UnitName)
    (last_result : Z) : ScM unit :=
  match current_state with
  | ScenarioState.Running step =>
    s ← sc_get id;
    test ← unwrap "index out of bounds" (sc_test_sequence s !! step);
    let test_id := rc_id test in
    when (bool_decide (test_id <> last_unit))
      (send (sc_id s) (Ctrl.LogError ("unit " +:+ name_fmt last_unit
         +:+ " is not the expected currently-running unit: " +:+ name_fmt test_id
         +:+ " (step " +:+ pretty step +:+ ")")));;
    result ←
      (if (last_result =? 0)%Z then mret TestState.Pass
       else
         add_failure;;
         send last_unit (Ctrl.LogError
           ("test failed with nonzero return code: " +:+ pretty last_result));;
         mret (TestState.Fail
           ("test exited with nonzero return code: " +:+ pretty last_result)));
    unwrap "called `Option::unwrap()` on a `None` value" (sc_test_states s !! test_id);;
    sc_modify (fun s => s <| sc_test_states ::= <[test_id := result]> |>);;
    when (negb (rc_is_daemon test)) (send (sc_id s) (Ctrl.StopTest test_id))
  | ScenarioState.PreStart =>
    if (last_result =? 0)%Z then
      sc_modify (fun s => s <| sc_exec_start_state := TestState.Pass |>)
    else
      add_failure;;
      sc_modify (fun s => s <| sc_exec_start_state :=
        TestState.Fail ("test exited with " +:+ pretty last_result) |>)
  | _ => mret tt
  end.

(** The second half of [advance]: act on entering a state. *)
Definition enter_state (new_state : ScenarioState) : ScM unit :=
  s ← sc_get id;
  let desc := sc_description s in
  match new_state with
  | ScenarioState.Idle => mret tt
  | ScenarioState.PreStart =>
    cmd ← unwrap "called `Option::unwrap()` on a `None` value" (sd_exec_start desc);
    run_support_cmd cmd (sd_exec_start_timeout desc) "execstart"
  | ScenarioState.Running next_step =>
    test ← unwrap "index out of bounds" (sc_test_sequence s !! next_step);
    _ ← make_timeout (rc_timeout test);
    send (sc_id s) (Ctrl.StartTest (rc_id test))
  | ScenarioState.PostSuccess =>
    cmd ← unwrap "called `Option::unwrap()` on a `None` value" (sd_exec_stop_success desc);
    run_support_cmd cmd (sd_exec_stop_success_timeout desc) "execstopsuccess"
  | ScenarioState.PostFailure =>
    cmd ← unwrap "called `Option::unwrap()` on a `None` value" (sd_exec_stop_failure desc);
    run_support_cmd cmd (sd_exec_stop_failure_timeout desc) "execstopfailure"
  | ScenarioState.ScenarioFinished => finish_scenario
  end.

Definition advance (last_unit : UnitName) (last_result : Z) : ScM unit :=
  current_state ← sc_get sc_state;
  record_result current_state last_unit last_result;;
  fuel ← sc_get next_fuel;
  new_state ← find_next_state fuel current_state;
  enter_state new_state.

End scenario.

Abbreviation ScM := (M ScW).
