(* ===== verification/ScenarioProps.v ===== *)
(** * The scenario as a machine

    The invariant of a scenario, the step relation behind [find_next_state], what
    one [advance] is ([advanced]: record, search, enter), and runs of it. *)

From S2P Require Import Prelude Str Path Unit Foreign Samples Config Descriptions Events Env Scenario.

(** ** Reading the outputs *)

(** A message goes to the manager over its channel or, like all that arrives there,
    as a broadcast. *)
Definition request_of (o : Out) : option ManagerControlMessageContents :=
  match o with
  | Send m | Broadcast (Event.ManagerRequest m) => Some (cm_contents m)
  | _ => None
  end.

Definition started_of (o : Out) : option UnitName :=
  match request_of o with Some (Ctrl.StartTest n) => Some n | _ => None end.

Definition finish_of (o : Out) : option Z :=
  match request_of o with Some (Ctrl.ScenarioFinished code _) => Some code | _ => None end.

(** The tests a run asked the manager to start, and the codes it finished
    with. *)
Definition started (os : list Out) : list UnitName := omap started_of os.
Definition finishes (os : list Out) : list Z := omap finish_of os.

Lemma started_app os1 os2 : started (os1 ++ os2) = started os1 ++ started os2.
Proof. apply omap_app. Qed.
Lemma finishes_app os1 os2 : finishes (os1 ++ os2) = finishes os1 ++ finishes os2.
Proof. apply omap_app. Qed.
Create Rewrite HintDb scenario.
#[export] Hint Rewrite started_app finishes_app : scenario.

(** The outputs that will advance the scenario, each once: the message itself, the
    request to start a test, and a command that was started. *)
Definition token_of (o : Out) : nat :=
  match request_of o, o with
  | Some (Ctrl.AdvanceScenario _ | Ctrl.StartTest _), _ | _, Spawn _ _ _ _ => 1
  | _, _ => 0
  end.
Definition tokens (os : list Out) : nat := list_sum (token_of <$> os).

Lemma tokens_cons o os : tokens (o :: os) = token_of o + tokens os.
Proof. done. Qed.
Lemma tokens_app os1 os2 : tokens (os1 ++ os2) = tokens os1 + tokens os2.
Proof. unfold tokens. by rewrite fmap_app, list_sum_app. Qed.

(** Only commands of the unit [id] are started. *)
Definition owner_of (o : Out) : option UnitName :=
  match o with Spawn n _ _ _ => Some n | _ => None end.
Definition owned (id : UnitName) (os : list Out) : Prop := Forall (fun o => forall n, owner_of o = Some n -> n = id) os.

(** Outputs that neither start a test nor finish the scenario. *)
Definition unheard (o : Out) : Prop := started_of o = None /\ finish_of o = None.

(** ... and do not advance it either. *)
Definition silent (o : Out) : Prop := unheard o /\ token_of o = 0.

Lemma unheard_out os : Forall unheard os -> started os = [] /\ finishes os = [].
Proof.
  induction 1 as [|o l [Hs Hf] Hl [IH1 IH2]]; [done|].
  unfold started, finishes in *. simpl. by rewrite Hs, Hf.
Qed.

Lemma silent_unheard os : Forall silent os -> Forall unheard os.
Proof. intros Hs. eapply Forall_impl; [exact Hs|]. by intros o []. Qed.

Lemma silent_out os : Forall silent os -> started os = [] /\ finishes os = [].
Proof. intros Hs. by apply unheard_out, silent_unheard. Qed.

Lemma silent_tokens os : Forall silent os -> tokens os = 0.
Proof. induction 1 as [|o l [_ Ho] _ IH]; [done|]. unfold tokens in *. rewrite fmap_cons. simpl. by rewrite Ho. Qed.

Lemma silent_owned id os : Forall silent os -> owned id os.
Proof. intros Hs. eapply Forall_impl; [exact Hs|]. by intros [] []. Qed.

Section scenario.
Context `{Libraries} `{DependyLib} `{Env}.
Implicit Types (s : Scenario) (w : ScW).

(** ** The invariant *)

(** What does not change while a scenario runs.  The sequence is a
    topological order: what a test requires is assumed or comes before it. *)
Record sc_static s : Prop := {
  st_nodup : NoDup (test_sequence s);
  st_nonempty : sc_test_sequence s <> [];
  st_tests : dom (sc_tests s) = list_to_set (test_sequence s);
  st_states : dom (sc_test_states s) = list_to_set (test_sequence s);
  st_topo : forall i t p, sc_test_sequence s !! i = Some t ->
    p ∈ required_parents_of_named (sc_graph s) (rc_id t) ->
    p ∈ sd_assumptions (sc_description s) \/
    exists j, j < i /\ test_sequence s !! j = Some p;
  st_count : forall c, sd_stop_after_failure_count (sc_description s) = Some c -> (0 <= c)%Z;
  st_u32 : (Z.of_nat (length (sc_test_sequence s)) + 501 <= u32_max)%Z;
}.

(** The recorded state of the test at a position. *)
Definition state_at s (i : nat) : option TestState :=
  test_sequence s !! i ≫= (sc_test_states s !!.).

Definition pending_from s (k : nat) : Prop :=
  forall j, k <= j < length (test_sequence s) -> state_at s j = Some TestState.Pending.

(** The first position that was not looked at, in a state and once the result
    of the state is recorded. *)
Definition pos s (st : ScenarioState) : nat :=
  match st with
  | ScenarioState.Idle | ScenarioState.PreStart => 0
  | ScenarioState.Running i => i
  | _ => length (test_sequence s)
  end.
Definition next_pos s (st : ScenarioState) : nat :=
  match st with ScenarioState.Running i => S i | _ => pos s st end.

Definition failed (m : gmap UnitName TestState) : gmap UnitName TestState :=
  filter (fun p => is_fail p.2 = true) m.

Definition fail_count s : nat :=
  size (failed (sc_test_states s)) + (if is_fail (sc_exec_start_state s) then 1 else 0).

Record sc_dyn (k : nat) s : Prop := {
  dy_pending : pending_from s k;
  dy_failures : sc_failures s = Z.of_nat (fail_count s);
  dy_not_running : forall i, state_at s i <> Some TestState.Running;
  (** a skipped test has a test before it that did not pass *)
  dy_skip : forall i, state_at s i = Some TestState.Skip ->
    exists j, j < i /\ state_at s j <> Some TestState.Pass;
  (** unless time ran out or the scenario stops at once, every test up to here
      was run or skipped as long as nothing failed *)
  dy_covered : sd_timeout (sc_description s) = None ->
    sd_stop_after_failure_count (sc_description s) <> Some 0%Z ->
    sc_failures s = 0%Z ->
    forall j, j < k -> state_at s j <> Some TestState.Pending;
}.

(** The states in which the commands a state needs exist. *)
Definition state_ok s (st : ScenarioState) : Prop :=
  match st with
  | ScenarioState.Running i => i < length (sc_test_sequence s)
  | ScenarioState.PreStart => is_Some (sd_exec_start (sc_description s))
  | _ => True
  end.

Record sc_wf s : Prop := {
  wf_static : sc_static s;
  wf_state : state_ok s (sc_state s);
  wf_exec : sc_state s = ScenarioState.Idle \/ sc_state s = ScenarioState.PreStart ->
    sc_exec_start_state s = TestState.Pending;
  wf_dyn : sc_dyn (pos s (sc_state s)) s;
}.

Lemma test_sequence_length s : length (test_sequence s) = length (sc_test_sequence s).
Proof. apply length_fmap. Qed.

Lemma test_count s : sc_static s -> size (sc_tests s) = length (sc_test_sequence s).
Proof.
  intros Hs. rewrite <- (size_dom (D:=gset UnitName)), (st_tests s Hs), size_list_to_set;
    [apply test_sequence_length | apply (st_nodup s Hs)].
Qed.

Lemma sequence_lookup s i t :
  sc_test_sequence s !! i = Some t -> test_sequence s !! i = Some (rc_id t).
Proof. intros Hi. unfold test_sequence. by rewrite list_lookup_fmap, Hi. Qed.

Lemma state_at_test s i t :
  sc_test_sequence s !! i = Some t -> state_at s i = sc_test_states s !! rc_id t.
Proof. intros Hi. unfold state_at. by rewrite (sequence_lookup s i t Hi). Qed.

Lemma state_at_is_Some s i :
  sc_static s -> i < length (test_sequence s) -> is_Some (state_at s i).
Proof.
  intros Hs [n Hi]%lookup_lt_is_Some. unfold state_at. rewrite Hi. simpl.
  apply elem_of_dom. rewrite (st_states s Hs), elem_of_list_to_set.
  by eapply list_elem_of_lookup_2.
Qed.

(** ** Dependencies *)

(** One unfolding of [all_dependencies_succeeded]. *)
Fixpoint check_parents (rec : UnitName -> outcome bool) s (parents : list UnitName) :
    outcome bool :=
  match parents with
  | [] => Done true
  | p :: parents =>
    if bool_decide (p ∈ sd_assumptions (sc_description s)) then Done true
    else match sc_test_states s !! p with
         | None => Panic "called `Option::unwrap()` on a `None` value"
         | Some r =>
           if bool_decide (r <> TestState.Pass) && bool_decide (r <> TestState.Running)
           then Done false
           else ok ← rec p; if (ok : bool) then check_parents rec s parents else Done false
         end
  end.

Lemma all_dependencies_unfold fuel s n :
  all_dependencies_succeeded (S fuel) s n =
    check_parents (all_dependencies_succeeded fuel s) s
      (required_parents_of_named (sc_graph s) n).
Proof.
  simpl. generalize (required_parents_of_named (sc_graph s) n) as l.
  induction l as [|p l IH]; [done|]. simpl. rewrite <- IH. by repeat case_match.
Qed.

#[local] Arguments all_dependencies_succeeded : simpl never.

(** The check of a test terminates without panicking, and fails only because a
    test before it neither passed nor is running. *)
Lemma all_dependencies_total s i t fuel :
  sc_static s -> sc_test_sequence s !! i = Some t -> i < fuel ->
  exists b, all_dependencies_succeeded fuel s (rc_id t) = Done b /\
    (b = false -> exists j x, j < i /\ state_at s j = Some x /\
                    x <> TestState.Pass /\ x <> TestState.Running).
Proof.
  intros Hs. revert i t. induction fuel as [|fuel IH]; intros i t Hi Hf; [lia|].
  rewrite all_dependencies_unfold.
  pose proof (fun p => st_topo s Hs i t p Hi) as Htopo. revert Htopo.
  generalize (required_parents_of_named (sc_graph s) (rc_id t)) as l.
  induction l as [|p l IHl]; intros Htopo; simpl; [by exists true|].
  case_bool_decide as Ha; [by exists true|].
  destruct (Htopo p) as [?|(j & Hj & Hp)]; [by left|done|].
  assert (is_Some (state_at s j)) as [x Hx].
  { apply state_at_is_Some; [done|]. by eapply lookup_lt_Some. }
  unfold state_at in Hx. rewrite Hp in Hx. simpl in Hx. rewrite Hx.
  assert (state_at s j = Some x) as Hjx by (unfold state_at; by rewrite Hp).
  destruct (bool_decide (x <> TestState.Pass) && bool_decide (x <> TestState.Running)) eqn:Hb.
  { apply andb_true_iff in Hb as [?%bool_decide_eq_true ?%bool_decide_eq_true].
    exists false. split; [done|]. intros _. by exists j, x. }
  apply list_lookup_fmap_Some in Hp as (tp & -> & Htp).
  destruct (IH j tp Htp ltac:(lia)) as ([] & -> & Hfalse); simpl.
  - apply IHl. intros q Hq. apply Htopo. by right.
  - exists false. split; [done|]. intros _.
    destruct (Hfalse eq_refl) as (j' & x' & ? & ?). exists j', x'. split; [lia|done].
Qed.

(** The ancestors of a test that the check reaches: through required parents,
    as long as no required parent is assumed. *)
Inductive requires s : UnitName -> UnitName -> Prop :=
  | requires_parent n p :
    p ∈ required_parents_of_named (sc_graph s) n -> requires s n p
  | requires_trans n p q :
    p ∈ required_parents_of_named (sc_graph s) n -> requires s p q -> requires s n q.

Lemma check_parents_true rec s parents :
  sd_assumptions (sc_description s) = [] ->
  check_parents rec s parents = Done true ->
  forall p, p ∈ parents ->
    (sc_test_states s !! p = Some TestState.Pass \/ sc_test_states s !! p = Some TestState.Running)
    /\ rec p = Done true.
Proof.
  intros Ha. induction parents as [|q l IH]; intros Hc p Hp; [by apply elem_of_nil in Hp|].
  simpl in Hc. rewrite bool_decide_eq_false_2 in Hc by (rewrite Ha; apply not_elem_of_nil).
  destruct (sc_test_states s !! q) as [r|] eqn:Hq; [|done].
  destruct (bool_decide (r <> TestState.Pass) && bool_decide (r <> TestState.Running)) eqn:Hb;
    [done|].
  destruct (rec q) as [[]| |] eqn:Hrec; simpl in Hc; try done.
  apply elem_of_cons in Hp as [->|Hp]; [|by apply IH].
  split; [|done]. rewrite Hq.
  apply andb_false_iff in Hb as [Hb|Hb]; apply bool_decide_eq_false, dec_stable in Hb; subst; auto.
Qed.

Lemma all_dependencies_true fuel s n :
  sd_assumptions (sc_description s) = [] ->
  all_dependencies_succeeded fuel s n = Done true ->
  forall q, requires s n q ->
    sc_test_states s !! q = Some TestState.Pass \/ sc_test_states s !! q = Some TestState.Running.
Proof.
  intros Ha Hd q Hq. revert fuel Hd.
  induction Hq as [n p Hp|n p q Hp Hq IH]; intros [|fuel] Hd; try done;
    rewrite all_dependencies_unfold in Hd;
    destruct (check_parents_true _ s _ Ha Hd p Hp) as [? ?]; [done|by eapply IH].
Qed.

(** How far a state is along a run. *)
Definition rank s (st : ScenarioState) : nat :=
  match st with
  | ScenarioState.Idle => 0
  | ScenarioState.PreStart => 1
  | ScenarioState.Running i => 2 + i
  | ScenarioState.PostSuccess | ScenarioState.PostFailure => 2 + length (sc_test_sequence s)
  | ScenarioState.ScenarioFinished => 3 + length (sc_test_sequence s)
  end.

Lemma requires_in_sequence s n p :
  sc_static s -> sd_assumptions (sc_description s) = [] ->
  (exists i, test_sequence s !! i = Some n) -> requires s n p -> exists j, test_sequence s !! j = Some p.
Proof.
  intros Hs Ha Hn Hr. induction Hr as [n p Hp|n p q Hp Hq IH]; [|apply IH];
    destruct Hn as [i Hi]; unfold test_sequence in Hi;
    apply list_lookup_fmap_Some in Hi as (t & -> & Ht);
    destruct (st_topo s Hs i t p Ht Hp) as [Hassume|(j & _ & Hj)]; try (by exists j);
    rewrite Ha in Hassume; by apply elem_of_nil in Hassume.
Qed.

(** ** Recording the outcome of a test *)

(** The parts of a scenario that never change. *)
Record agree s s' : Prop := {
  ag_description : sc_description s' = sc_description s;
  ag_sequence : sc_test_sequence s' = sc_test_sequence s;
  ag_tests : sc_tests s' = sc_tests s;
  ag_graph : sc_graph s' = sc_graph s;
}.

#[export] Instance agree_preorder : PreOrder agree.
Proof.
  split; [by split|]. intros s1 s2 s3 [] []. split; congruence.
Qed.

Lemma agree_test_sequence s s' : agree s s' -> test_sequence s' = test_sequence s.
Proof. intros Ha. unfold test_sequence. by rewrite (ag_sequence s s' Ha). Qed.

Lemma agree_static s s' :
  agree s s' -> dom (sc_test_states s') = dom (sc_test_states s) -> sc_static s -> sc_static s'.
Proof.
  intros Ha Hd []. pose proof (agree_test_sequence s s' Ha) as Hseq.
  destruct Ha as [Hdesc Hts Htests Hg].
  split; rewrite ?Hd, ?Hseq, ?Hts, ?Htests, ?Hg, ?Hdesc; done.
Qed.

Lemma agree_pos s s' st : agree s s' -> pos s' st = pos s st.
Proof. intros Ha. destruct st; simpl; try done; by rewrite (agree_test_sequence s s'). Qed.

Lemma agree_next_pos s s' st : agree s s' -> next_pos s' st = next_pos s st.
Proof. intros Ha. destruct st; try done; by apply agree_pos. Qed.

Lemma agree_rank s s' st : agree s s' -> rank s' st = rank s st.
Proof. intros Ha. unfold rank. by rewrite (ag_sequence s s' Ha). Qed.

Lemma agree_state_at s s' i :
  agree s s' -> sc_test_states s' = sc_test_states s -> state_at s' i = state_at s i.
Proof. intros Ha Hst. unfold state_at. by rewrite (agree_test_sequence s s' Ha), Hst. Qed.

Lemma agree_dyn k s s' :
  agree s s' -> sc_test_states s' = sc_test_states s ->
  sc_exec_start_state s' = sc_exec_start_state s -> sc_failures s' = sc_failures s ->
  sc_dyn k s -> sc_dyn k s'.
Proof.
  intros Ha Hst He Hf [Hp Hfl Hr Hsk Hc].
  pose proof (fun i => agree_state_at s s' i Ha Hst) as Hat.
  split; unfold pending_from, fail_count in *;
    rewrite ?(agree_test_sequence s s' Ha), ?(ag_description s s' Ha), ?Hst, ?He, ?Hf;
    try done; intros; rewrite ?Hat in *; eauto.
  destruct (Hsk i) as (j & ? & ?); [done|]. exists j. by rewrite Hat.
Qed.

Lemma agree_dependencies fuel s s' n :
  agree s s' -> sc_test_states s' = sc_test_states s ->
  all_dependencies_succeeded fuel s' n = all_dependencies_succeeded fuel s n.
Proof.
  intros Ha Hst. revert n. induction fuel as [|fuel IH]; intros n; [done|].
  rewrite !all_dependencies_unfold, (ag_graph s s' Ha).
  generalize (required_parents_of_named (sc_graph s) n) as l.
  induction l as [|p l IHl]; [done|]. simpl.
  rewrite (ag_description s s' Ha), Hst, IH, IHl. done.
Qed.

Lemma agree_requires s s' n p : agree s s' -> requires s n p -> requires s' n p.
Proof.
  intros Ha. induction 1; [apply requires_parent|eapply requires_trans];
    rewrite ?(ag_graph s s' Ha); done.
Qed.

(** A change to the test at one position shows at that position only. *)
Lemma state_at_insert s s' i t r j :
  sc_static s -> agree s s' -> sc_test_sequence s !! i = Some t ->
  sc_test_states s' = <[rc_id t := r]> (sc_test_states s) ->
  state_at s' j = if decide (j = i) then Some r else state_at s j.
Proof.
  intros Hs Ha Hi Hst. unfold state_at. rewrite (agree_test_sequence s s' Ha), Hst.
  pose proof (sequence_lookup s i t Hi) as Hn. case_decide as Hj.
  - subst j. rewrite Hn. simpl. apply lookup_insert_eq.
  - destruct (test_sequence s !! j) as [n|] eqn:Hjn; [|done]. simpl.
    apply lookup_insert_ne. intros <-. apply Hj.
    by eapply NoDup_lookup; [apply (st_nodup s Hs)| |].
Qed.

Lemma failed_insert (m : gmap UnitName TestState) n r :
  m !! n = Some TestState.Pending ->
  size (failed (<[n := r]> m)) = size (failed m) + (if is_fail r then 1 else 0).
Proof.
  intros Hn. unfold failed. destruct (is_fail r) eqn:Hr.
  - rewrite map_filter_insert_True by (simpl; congruence).
    rewrite map_size_insert_None; [lia|]. apply map_lookup_filter_None. right. intros x Hx.
    rewrite Hn in Hx. by injection Hx as <-.
  - rewrite map_filter_insert_False by (simpl; congruence).
    rewrite map_filter_delete, delete_id; [lia|]. apply map_lookup_filter_None. right.
    intros x Hx. rewrite Hn in Hx. by injection Hx as <-.
Qed.

(** The outcome of the test at the current position moves the invariant to
    the next position. *)
Lemma sc_dyn_record k s s' t r :
  sc_static s -> sc_dyn k s -> agree s s' -> sc_test_sequence s !! k = Some t ->
  sc_test_states s' = <[rc_id t := r]> (sc_test_states s) ->
  sc_exec_start_state s' = sc_exec_start_state s ->
  sc_failures s' = (sc_failures s + (if is_fail r then 1 else 0))%Z ->
  r <> TestState.Pending -> r <> TestState.Running ->
  (r = TestState.Skip -> exists j, j < k /\ state_at s j <> Some TestState.Pass) ->
  sc_dyn (S k) s'.
Proof.
  intros Hs [Hp Hf Hr Hsk Hc] Ha Hk Hst He Hfl Hr1 Hr2 Hr3.
  pose proof (fun j => state_at_insert s s' k t r j Hs Ha Hk Hst) as Hat.
  assert (sc_test_states s !! rc_id t = Some TestState.Pending) as Hpend.
  { rewrite <- (state_at_test s k t Hk). apply Hp. split; [done|].
    rewrite test_sequence_length. by eapply lookup_lt_Some. }
  split.
  - intros j Hj. rewrite (agree_test_sequence s s' Ha) in Hj. rewrite Hat, decide_False by lia.
    apply Hp. lia.
  - rewrite Hfl, Hf. unfold fail_count. rewrite Hst, He, failed_insert by done.
    destruct (is_fail r); lia.
  - intros i. rewrite Hat. case_decide; [by intros [= ->]|apply Hr].
  - intros i. rewrite Hat. case_decide as Hi.
    + subst i. intros [= ->]. destruct Hr3 as (j & Hj & Hjs); [done|]. exists j.
      split; [done|]. by rewrite Hat, decide_False by lia.
    + intros Hi'. destruct (Hsk i Hi') as (j & Hj & Hjs). exists j. split; [done|].
      rewrite Hat. case_decide as Hjk; [|done]. subst j. exfalso.
      assert (i < length (test_sequence s)).
      { unfold state_at in Hi'. destruct (test_sequence s !! i) eqn:E; [|done].
        by eapply lookup_lt_Some. }
      rewrite Hp in Hi' by lia. done.
  - rewrite (ag_description s s' Ha). intros Ht Hcount Hz j Hj. rewrite Hat.
    case_decide as Hjk; [by intros [= ->]|]. apply Hc; try done; [|lia].
    destruct (is_fail r); rewrite Hfl in Hz; [|lia]. lia.
Qed.

(** ** The next state *)

Definition accepted s (new : ScenarioState) : Prop :=
  match new with
  | ScenarioState.Idle | ScenarioState.ScenarioFinished => True
  | ScenarioState.PreStart => is_Some (sd_exec_start (sc_description s))
  | ScenarioState.PostSuccess => is_Some (sd_exec_stop_success (sc_description s))
  | ScenarioState.PostFailure => is_Some (sd_exec_stop_failure (sc_description s))
  | ScenarioState.Running i =>
    exists t, sc_test_sequence s !! i = Some t /\
      is_fail (sc_exec_start_state s) = false /\
      sc_test_states s !! rc_id t = Some TestState.Pending /\
      all_dependencies_succeeded (deps_fuel s) s (rc_id t) = Done true
  end.

Definition refused s (new : ScenarioState) : Prop :=
  match new with
  | ScenarioState.Idle | ScenarioState.ScenarioFinished => False
  | ScenarioState.PreStart => sd_exec_start (sc_description s) = None
  | ScenarioState.PostSuccess => sd_exec_stop_success (sc_description s) = None
  | ScenarioState.PostFailure => sd_exec_stop_failure (sc_description s) = None
  | ScenarioState.Running i =>
    sd_timeout (sc_description s) <> None \/ is_fail (sc_exec_start_state s) = true \/
    state_at s i <> Some TestState.Pending
  end.

Definition skip_msg s (n : UnitName) : Out :=
  Send (mkCtrl (sc_id s) (Ctrl.Skip n "dependency failed")).

(** What [is_state_okay] answers, and what it does to the scenario. *)
Inductive okay_spec s (new : ScenarioState) : bool -> Scenario -> list Out -> Prop :=
  | okay_accept : accepted s new -> okay_spec s new true s []
  | okay_refuse : refused s new -> okay_spec s new false s []
  | okay_skip i t j x :
    new = ScenarioState.Running i -> sc_test_sequence s !! i = Some t ->
    sc_test_states s !! rc_id t = Some TestState.Pending ->
    j < i -> state_at s j = Some x -> x <> TestState.Pass ->
    okay_spec s new false (s <| sc_test_states ::= <[rc_id t := TestState.Skip]> |>)
      [skip_msg s (rc_id t)].

Lemma timed_out_spec w : exists b tick,
  scenario_timed_out w = Done (b, w <| w_tick := tick |>) /\
  (b = true -> sd_timeout (sc_description (w_sc w)) <> None).
Proof.
  unfold scenario_timed_out, sc_get, gets, mbind, M_bind. destruct w as [s cfg tick out]. simpl.
  destruct (sd_timeout (sc_description s)) as [d|]; simpl.
  - eexists _, _. split; [done|]. done.
  - by exists false, tick.
Qed.

Lemma is_state_okay_spec w new :
  sc_static (w_sc w) -> (forall i, new = ScenarioState.Running i -> i < length (sc_test_sequence (w_sc w))) ->
  exists b s' tick os, okay_spec (w_sc w) new b s' os /\
    is_state_okay new w = Done (b, mkScW s' (w_cfg w) tick (w_out w ++ os)).
Proof.
  intros Hs Hin. destruct w as [s cfg tick out]. simpl in *.
  assert (forall b, (b = true -> accepted s new) -> (b = false -> refused s new) ->
    is_state_okay new (mkScW s cfg tick out) = Done (b, mkScW s cfg tick out) ->
    exists b s' tick' os, okay_spec s new b s' os /\
      is_state_okay new (mkScW s cfg tick out) = Done (b, mkScW s' cfg tick' (out ++ os))) as Hpure.
  { intros b Ha Hr Hrun. exists b, s, tick, []. rewrite app_nil_r. split; [|done].
    destruct b; constructor; auto. }
  destruct new as [| |i| | |];
    try (eapply Hpure; [| |done]; simpl; try done;
         first [by intros ?%bool_decide_eq_true | by intros ?%bool_decide_eq_false%eq_None_not_Some]).
  clear Hpure. destruct (lookup_lt_is_Some_2 _ _ (Hin i eq_refl)) as [t Ht].
  pose proof (state_at_test s i t Ht) as Hat.
  unfold is_state_okay, sc_get, gets, unwrap, mbind, M_bind. simpl. rewrite Ht. simpl.
  destruct (timed_out_spec (mkScW s cfg tick out)) as (b & tick' & -> & Hb). simpl in Hb |- *.
  destruct b.
  { exists false, s, tick', []. rewrite app_nil_r. split; [|done]. apply okay_refuse. left. auto. }
  rewrite test_count by done. rewrite (proj2 (Nat.leb_gt _ _)) by (by eapply lookup_lt_Some).
  destruct (is_fail (sc_exec_start_state s)) eqn:He.
  { exists false, s, tick', []. rewrite app_nil_r. split; [|done]. apply okay_refuse. simpl. auto. }
  destruct (state_at_is_Some s i Hs) as [x Hx].
  { rewrite test_sequence_length. by eapply lookup_lt_Some. }
  rewrite Hat in Hx. rewrite Hx. simpl. case_bool_decide as Hp.
  { exists false, s, tick', []. rewrite app_nil_r. split; [|done]. apply okay_refuse.
    right. right. rewrite Hat, Hx. congruence. }
  subst x. unfold liftO.
  destruct (all_dependencies_total s i t (deps_fuel s) Hs Ht) as (b & Hdep & Hfalse).
  { apply lookup_lt_Some in Ht. unfold deps_fuel. lia. }
  rewrite Hdep. destruct b; simpl.
  - exists true, s, tick', []. rewrite app_nil_r. split; [|done]. apply okay_accept.
    by exists t.
  - destruct (Hfalse eq_refl) as (j & y & Hj & Hy & Hy1 & _).
    eexists false, _, tick', _. split; [by eapply (okay_skip s _ i t j y)|]. done.
Qed.

Lemma agree_accepted s s' st :
  agree s s' -> sc_test_states s' = sc_test_states s ->
  sc_exec_start_state s' = sc_exec_start_state s -> accepted s st -> accepted s' st.
Proof.
  intros Ha Hst He. pose proof (agree_dependencies (deps_fuel s) s s') as Hdep.
  unfold accepted, deps_fuel in *. rewrite (ag_description s s' Ha), (ag_sequence s s' Ha), Hst, He.
  destruct st; try done. intros (t & ? & ? & ? & ?). exists t. by rewrite Hdep.
Qed.

(** The search for the next state: candidates that are not okay are passed
    over. *)
Inductive next : ScenarioState -> Scenario -> ScenarioState -> Scenario -> list Out -> Prop :=
  | next_accept cur s new s1 os :
    candidate s cur = Done new -> okay_spec s new true s1 os ->
    next cur s new (s1 <| sc_state := new |>) os
  | next_refuse cur s mid s1 os new s2 os2 :
    candidate s cur = Done mid -> okay_spec s mid false s1 os ->
    next mid s1 new s2 os2 -> next cur s new s2 (os ++ os2).

Lemma candidate_spec s cur :
  sc_static s -> (0 <= sc_failures s)%Z -> (forall i, cur = ScenarioState.Running i -> i < length (sc_test_sequence s)) ->
  exists new, candidate s cur = Done new /\
    (cur <> ScenarioState.ScenarioFinished -> rank s cur < rank s new) /\
    (cur = ScenarioState.ScenarioFinished -> new = ScenarioState.ScenarioFinished) /\
    (forall i, new = ScenarioState.Running i -> i < length (sc_test_sequence s)) /\
    next_pos s cur <= pos s new /\
    (next_pos s cur < pos s new -> exists c, sd_stop_after_failure_count (sc_description s) = Some c /\
      (c <= sc_failures s)%Z).
Proof.
  intros Hs Hf Hin. unfold candidate. rewrite test_count by done.
  assert (0 < length (sc_test_sequence s)) as Hne.
  { destruct (sc_test_sequence s) eqn:E; [|simpl; lia]. by destruct (st_nonempty s Hs). }
  pose proof (test_sequence_length s) as Hlen.
  destruct cur as [| |i| | |]; try (eexists; split; [done|]; simpl; rewrite ?Hlen;
    repeat split; try done; try lia; intros ? [= <-]; lia).
  specialize (Hin i eq_refl). destruct (Nat.ltb_spec (i + 1) (length (sc_test_sequence s))) as [Hi|Hi].
  - destruct (sd_stop_after_failure_count (sc_description s)) as [c|] eqn:Hc.
    + destruct (Z.leb_spec c (sc_failures s)); (eexists; split; [done|]); simpl; rewrite ?Hlen;
        repeat split; try done; try lia; try (intros ? [= <-]; lia). intros _. by exists c.
    + eexists; split; [done|]; simpl. repeat split; try done; try lia; intros ? [= <-]; lia.
  - destruct (Z.ltb_spec 0 (sc_failures s)); [|rewrite (proj2 (Z.eqb_eq _ _)) by lia];
      (eexists; split; [done|]); simpl; rewrite ?Hlen; repeat split; try done; lia.
Qed.

Lemma okay_spec_agree s new b s1 os : okay_spec s new b s1 os ->
  agree s s1 /\ dom (sc_test_states s1) = dom (sc_test_states s) /\
  sc_exec_start_state s1 = sc_exec_start_state s /\ sc_failures s1 = sc_failures s /\
  Forall silent os.
Proof.
  destruct 1 as [| |i t j x -> Hi Hp]; simpl; (split; [by split|]); repeat split; auto.
  - rewrite dom_insert_L. apply elem_of_dom_2 in Hp. set_solver.
  - by repeat constructor.
Qed.

(** Looking at a candidate moves the invariant to it, or past it. *)
Lemma okay_spec_dyn s cur new b s1 os :
  sc_static s -> sc_dyn (next_pos s cur) s -> (0 <= sc_failures s)%Z ->
  (forall i, cur = ScenarioState.Running i -> i < length (sc_test_sequence s)) ->
  candidate s cur = Done new -> okay_spec s new b s1 os ->
  sc_dyn (if b then pos s new else next_pos s new) s1.
Proof.
  intros Hs Hd Hf Hin Hc Hok.
  destruct (candidate_spec s cur Hs Hf Hin) as (new' & Hc' & _ & _ & Hin' & Hle & Hlt).
  rewrite Hc in Hc'. injection Hc' as <-.
  assert (sc_dyn (pos s new) s) as Hnew.
  { destruct Hd as [Hp Hfl Hr Hsk Hcov]. split; try done.
    - intros j Hj. apply Hp. lia.
    - intros Ht Hcount Hz j Hj. apply Hcov; try done.
      destruct (decide (next_pos s cur < pos s new)) as [Hl|]; [|lia].
      destruct (Hlt Hl) as (c & Hsc & Hcf). pose proof (st_count s Hs c Hsc).
      assert (c = 0%Z) by lia. by subst c. }
  destruct Hok as [Ha|Href|i t j x -> Hi Hp Hj Hx Hx1]; [done| |].
  - destruct new as [| |i| | |]; try done. simpl in *. destruct Hnew as [Hp Hfl Hr Hsk Hcov].
    split; try done.
    + intros j Hj. apply Hp. lia.
    + intros Ht Hcount Hz j Hj. destruct (decide (j = i)) as [->|]; [|apply Hcov; try done; lia].
      destruct Href as [?|[He|?]]; [done| |done]. exfalso.
      rewrite Hfl in Hz. unfold fail_count in Hz. rewrite He in Hz. lia.
  - eapply (sc_dyn_record i s _ t TestState.Skip); try done; simpl; [lia|].
    intros _. exists j. split; [done|]. rewrite Hx. congruence.
Qed.

Lemma next_inv cur s new s' os :
  next cur s new s' os -> sc_static s -> sc_dyn (next_pos s cur) s -> (0 <= sc_failures s)%Z ->
  (forall i, cur = ScenarioState.Running i -> i < length (sc_test_sequence s)) ->
  agree s s' /\ sc_static s' /\ sc_dyn (pos s' new) s' /\
  sc_state s' = new /\ accepted s' new /\ Forall silent os /\
  sc_exec_start_state s' = sc_exec_start_state s /\ sc_failures s' = sc_failures s /\
  next_pos s cur <= pos s new /\
  (cur <> ScenarioState.ScenarioFinished -> rank s cur < rank s new) /\
  (cur = ScenarioState.ScenarioFinished -> new = ScenarioState.ScenarioFinished).
Proof.
  induction 1 as [cur s new s1 os Hc Hok|cur s mid s1 os new s2 os2 Hc Hok Hn IH];
    intros Hs Hd Hf Hin;
    pose proof (okay_spec_dyn s cur _ _ _ _ Hs Hd Hf Hin Hc Hok) as Hd1;
    destruct (candidate_spec s cur Hs Hf Hin) as (new' & Hc' & Hrank & Hfin & Hin' & Hle & _);
    rewrite Hc in Hc'; injection Hc' as <-;
    destruct (okay_spec_agree _ _ _ _ _ Hok) as (Ha & Hdom & He & Hfl & Hsil);
    pose proof (agree_static _ _ Ha Hdom Hs) as Hs1.
  - inversion Hok; subst.
    assert (agree s1 (s1 <| sc_state := new |>)) as Ha1 by done.
    split_and!; try done.
    + by eapply agree_static.
    + eapply agree_dyn; [exact Ha1|done..|]. by rewrite (agree_pos _ _ new Ha1).
    + by eapply agree_accepted.
  - destruct IH as (Ha2 & Hs2 & Hd2 & Hst & Hacc & Hsil2 & He2 & Hfl2 & Hle2 & Hr2 & Hfin2); try done.
    + by rewrite (agree_next_pos s s1).
    + lia.
    + intros i ->. rewrite (ag_sequence _ _ Ha). by apply Hin'.
    + rewrite !(agree_rank s s1), ?(agree_next_pos s s1), ?(agree_pos s s1) in * by done.
      assert (mid <> ScenarioState.ScenarioFinished) by (intros ->; inversion Hok; simplify_eq; done).
      split_and!; try done; try congruence.
      * by transitivity s1.
      * by apply Forall_app.
      * enough (pos s mid <= next_pos s mid) by lia. destruct mid; simpl; lia.
      * intros ?. specialize (Hrank ltac:(done)). specialize (Hr2 ltac:(done)). lia.
      * intros ->. by specialize (Hfin eq_refl).
Qed.

(** The search ends: each candidate is further along than the last. *)
Lemma find_next_state_total fuel w cur :
  sc_static (w_sc w) -> (0 <= sc_failures (w_sc w))%Z ->
  (forall i, cur = ScenarioState.Running i -> i < length (sc_test_sequence (w_sc w))) ->
  4 + length (sc_test_sequence (w_sc w)) <= fuel + rank (w_sc w) cur ->
  exists new s' tick os, next cur (w_sc w) new s' os /\
    find_next_state fuel cur w = Done (new, mkScW s' (w_cfg w) tick (w_out w ++ os)).
Proof.
  revert w cur. induction fuel as [|fuel IH]; intros w cur Hs Hf Hin Hfuel.
  { exfalso. destruct cur; simpl in Hfuel; try lia. specialize (Hin _ eq_refl). lia. }
  destruct (candidate_spec (w_sc w) cur Hs Hf Hin) as (mid & Hc & Hrank & Hfin & Hin' & _).
  destruct (is_state_okay_spec w mid Hs Hin') as (b & s1 & tick & os & Hok & Hrun).
  simpl. unfold sc_get, gets, liftO, mbind, M_bind in *. simpl. rewrite Hc. simpl. rewrite Hrun.
  destruct b.
  { eexists _, _, tick, os. split; [by eapply next_accept|]. done. }
  destruct (okay_spec_agree _ _ _ _ _ Hok) as (Ha & Hdom & He & Hfl & _).
  destruct (IH (mkScW s1 (w_cfg w) tick (w_out w ++ os)) mid) as (new & s' & tick' & os' & Hn & Hrun').
  - by eapply agree_static.
  - simpl. lia.
  - simpl. by rewrite (ag_sequence _ _ Ha).
  - simpl. rewrite (ag_sequence _ _ Ha), (agree_rank (w_sc w) s1) by done.
    assert (mid <> ScenarioState.ScenarioFinished) by (intros ->; inversion Hok; simplify_eq; done).
    assert (cur <> ScenarioState.ScenarioFinished) as Hcur by auto. specialize (Hrank Hcur). lia.
  - exists new, s', tick', (os ++ os'). split; [by eapply next_refuse|].
    rewrite Hrun'. simpl. by rewrite app_assoc.
Qed.

(** ** The two halves of [advance] *)

(** What [record_result] leaves: the result counts, and the invariant is past
    the state that was left. *)
Record recorded s s' : Prop := {
  re_agree : agree s s';
  re_static : sc_static s';
  re_dyn : sc_dyn (next_pos s (sc_state s)) s';
  re_state : sc_state s' = sc_state s;
  re_exec : sc_state s <> ScenarioState.PreStart -> sc_exec_start_state s' = sc_exec_start_state s;
}.

Lemma sc_failures_bound s k : sc_static s -> sc_dyn k s ->
  (0 <= sc_failures s <= Z.of_nat (length (sc_test_sequence s)) + 1)%Z.
Proof.
  intros Hs Hd. rewrite (dy_failures k s Hd). unfold fail_count.
  assert (size (failed (sc_test_states s)) <= length (sc_test_sequence s)).
  { rewrite <- test_count, <- !(size_dom (D:=gset UnitName)) by done.
    rewrite (st_tests s Hs), <- (st_states s Hs). apply subseteq_size. apply dom_filter_subseteq. }
  destruct (is_fail _); lia.
Qed.

(** Runs that end normally and say nothing but silent outputs: the rules from
    which such runs are put together. *)
Definition quiet {A} (m : ScM A) w (a : A) s' : Prop :=
  exists tick os, Forall silent os /\ m w = Done (a, mkScW s' (w_cfg w) tick (w_out w ++ os)).

Lemma quiet_ret {A} (a : A) w : quiet (mret a) w a (w_sc w).
Proof. exists (w_tick w), []. split; [done|]. rewrite app_nil_r. by destruct w. Qed.

Lemma quiet_bind {A B} (m : ScM A) (k : A -> ScM B) w a s1 b s2 :
  quiet m w a s1 -> (forall w1, w_sc w1 = s1 -> quiet (k a) w1 b s2) -> quiet (m ≫= k) w b s2.
Proof.
  intros (tick & os & Hsil & Hrun) Hk.
  destruct (Hk (mkScW s1 (w_cfg w) tick (w_out w ++ os)) eq_refl) as (tick' & os' & Hsil' & Hrun').
  exists tick', (os ++ os'). split; [by apply Forall_app|]. unfold mbind, M_bind. rewrite Hrun, Hrun'.
  simpl. by rewrite app_assoc.
Qed.

Lemma quiet_get {A} (f : Scenario -> A) w : quiet (sc_get f) w (f (w_sc w)) (w_sc w).
Proof. exists (w_tick w), []. split; [done|]. rewrite app_nil_r. by destruct w. Qed.

Lemma quiet_modify (f : Scenario -> Scenario) w : quiet (sc_modify f) w tt (f (w_sc w)).
Proof. exists (w_tick w), []. split; [done|]. rewrite app_nil_r. by destruct w. Qed.

Lemma quiet_now w : quiet instant_now w (env_now (w_tick w)) (w_sc w).
Proof. exists (S (w_tick w)), []. split; [done|]. rewrite app_nil_r. by destruct w. Qed.

Lemma quiet_unwrap {A} msg (a : A) w : quiet (unwrap msg (Some a)) w a (w_sc w).
Proof. apply (quiet_ret a). Qed.

Lemma quiet_send u c w : silent (Send (mkCtrl u c)) -> quiet (send u c) w tt (w_sc w).
Proof. intros Hs. exists (w_tick w), [Send (mkCtrl u c)]. split; [by apply Forall_singleton|]. done. Qed.

Lemma quiet_when b m w : (b = true -> quiet m w tt (w_sc w)) -> quiet (when b m) w tt (w_sc w).
Proof. destruct b; [by auto|]. intros _. apply (quiet_ret tt). Qed.

Lemma quiet_add_failure w : (0 <= sc_failures (w_sc w) < u32_max)%Z ->
  quiet add_failure w tt (w_sc w <| sc_failures := (sc_failures (w_sc w) + 1)%Z |>).
Proof.
  intros Hf. eapply quiet_bind; [apply quiet_get|]. intros w1 Hw1.
  rewrite (proj2 (Z.eqb_neq _ _)) by lia. rewrite <- Hw1. apply quiet_modify.
Qed.

(** The result of the test that was running. *)
Definition result_of (code : Z) : TestState :=
  if (code =? 0)%Z then TestState.Pass
  else TestState.Fail ("test exited with nonzero return code: " +:+ pretty code).

Lemma record_running w i t last_unit code :
  sc_wf (w_sc w) -> sc_test_sequence (w_sc w) !! i = Some t ->
  quiet (record_result (ScenarioState.Running i) last_unit code) w tt
    (w_sc w <| sc_failures := (sc_failures (w_sc w) + (if (code =? 0)%Z then 0 else 1))%Z |>
            <| sc_test_states ::= <[rc_id t := result_of code]> |>).
Proof.
  intros [Hs Hst _ Hd] Ht. pose proof (sc_failures_bound _ _ Hs Hd) as Hf.
  pose proof (st_u32 _ Hs) as Hu.
  assert (is_Some (sc_test_states (w_sc w) !! rc_id t)) as [x Hx].
  { rewrite <- (state_at_test _ i t Ht). apply state_at_is_Some; [done|].
    rewrite test_sequence_length. by eapply lookup_lt_Some. }
  eapply quiet_bind; [apply quiet_get|]. intros w1 Hw1. simpl. rewrite Ht.
  eapply quiet_bind; [apply quiet_unwrap|]. intros w2 Hw2.
  eapply quiet_bind; [apply quiet_when; intros _; by apply quiet_send|]. intros w3 Hw3.
  assert (w_sc w3 = w_sc w) as Heq by congruence.
  eapply (quiet_bind _ _ _ (result_of code)
    (w_sc w <| sc_failures := (sc_failures (w_sc w) + (if (code =? 0)%Z then 0 else 1))%Z |>)).
  - rewrite <- Heq. unfold result_of. destruct (code =? 0)%Z.
    + rewrite Z.add_0_r. replace (_ <| sc_failures := _ |>) with (w_sc w3) by (by destruct (w_sc w3)).
      apply quiet_ret.
    + eapply quiet_bind; [apply quiet_add_failure; rewrite Heq; lia|]. intros w4 <-.
      eapply quiet_bind; [by apply quiet_send|]. intros w5 <-. apply quiet_ret.
  - intros w4 Hw4. rewrite Hx. eapply quiet_bind; [apply quiet_unwrap|]. intros w5 Hw5.
    eapply quiet_bind; [apply quiet_modify|]. intros w6 Hw6.
    match goal with |- quiet _ _ _ ?s' => replace s' with (w_sc w6) by (by rewrite Hw6, Hw5, Hw4) end.
    apply quiet_when. intros _. by apply quiet_send.
Qed.

(** A test passes or fails only by the result that arrives while it is the one
    that runs. *)
Definition records (code : Z) s s' : Prop := forall n r, sc_test_states s' !! n = Some r ->
  r = TestState.Pass \/ is_fail r = true -> sc_test_states s !! n = Some r \/
  r = result_of code /\ exists i, sc_state s = ScenarioState.Running i /\ test_sequence s !! i = Some n.

Lemma records_same code s s' : sc_test_states s' = sc_test_states s -> records code s s'.
Proof. intros Heq n r. rewrite Heq. by left. Qed.

Lemma record_result_spec w last_unit code :
  sc_wf (w_sc w) -> exists s',
    quiet (record_result (sc_state (w_sc w)) last_unit code) w tt s' /\ recorded (w_sc w) s' /\ records code (w_sc w) s'.
Proof.
  intros Hwf. destruct (sc_state (w_sc w)) as [| |i| | |] eqn:Hst;
    try (exists (w_sc w); split; [apply quiet_ret|]; split; [|by apply records_same]; destruct Hwf as [Hs Hok He Hd];
         rewrite Hst in Hd; split; rewrite ?Hst; done).
  - assert (sc_exec_start_state (w_sc w) = TestState.Pending) as He
      by (apply (wf_exec _ Hwf); auto).
    destruct Hwf as [Hs Hok _ Hd]. rewrite Hst in Hd.
    pose proof (sc_failures_bound _ _ Hs Hd) as Hf. pose proof (st_u32 _ Hs) as Hu.
    set (r := if (code =? 0)%Z then TestState.Pass
              else TestState.Fail ("test exited with " +:+ pretty code)).
    exists (w_sc w <| sc_failures := (sc_failures (w_sc w) + (if (code =? 0)%Z then 0 else 1))%Z |>
                   <| sc_exec_start_state := r |>). split.
    + unfold record_result, r. destruct (code =? 0)%Z.
      * rewrite Z.add_0_r. replace (_ <| sc_failures := _ |>) with (w_sc w) by (by destruct (w_sc w)).
        apply quiet_modify.
      * eapply quiet_bind; [apply quiet_add_failure; lia|]. intros w1 <-. apply quiet_modify.
    + split; [|by apply records_same]. split; rewrite ?Hst; try done; [by apply (agree_static (w_sc w))|].
      destruct Hd as [Hp Hfl Hr Hsk _]. simpl in *.
      split; try done; [|intros; simpl in *; lia]. simpl. rewrite Hfl. unfold fail_count. simpl.
      rewrite He. unfold r. destruct (code =? 0)%Z; simpl; lia.
  - pose proof (wf_state _ Hwf) as Hin. rewrite Hst in Hin. simpl in Hin.
    apply lookup_lt_is_Some_2 in Hin as [t Ht].
    eexists. split; [by apply record_running|]. pose proof (wf_static _ Hwf) as Hs.
    pose proof (wf_dyn _ Hwf) as Hd. rewrite Hst in Hd. simpl in Hd.
    assert (sc_test_states (w_sc w) !! rc_id t = Some TestState.Pending) as Hp.
    { rewrite <- (state_at_test _ i t Ht). apply (dy_pending _ _ Hd). split; [done|].
      rewrite test_sequence_length. by eapply lookup_lt_Some. }
    split; [split; try done|].
    + apply (agree_static (w_sc w)); [by split| |done]. simpl. rewrite dom_insert_L.
      apply elem_of_dom_2 in Hp. set_solver.
    + rewrite Hst. simpl. eapply (sc_dyn_record i _ _ t (result_of code)); try done; simpl;
        unfold result_of; destruct (code =? 0)%Z; done.
    + intros n r. simpl. destruct (decide (n = rc_id t)) as [->|Hne]; [|rewrite lookup_insert_ne by done; by left].
      rewrite lookup_insert_eq. intros [= <-] _. right.
      split; [done|]. exists i. split; [done|by apply sequence_lookup].
Qed.

(** The search for the next state makes no test pass or fail. *)
Lemma next_records code cur s new s' os : next cur s new s' os -> records code s s'.
Proof.
  induction 1 as [cur s new s1 os Hc Hok|cur s mid s1 os new s2 os2 Hc Hok Hn IH].
  - inversion Hok; subst. by apply records_same.
  - destruct Hok as [_|_|i t j x _ _ _ _ _ _]; [exact IH|exact IH|]. intros n r Hn2 Hr.
    destruct (IH n r Hn2 Hr) as [Hp|?]; [left|by right]. simpl in Hp.
    destruct (decide (n = rc_id t)) as [->|]; [|by rewrite lookup_insert_ne in Hp].
    rewrite lookup_insert_eq in Hp. injection Hp as <-. by destruct Hr.
Qed.

(** Tests are not limited by the time the scenario has left. *)
Definition no_time_limit s : Prop :=
  sd_timeout (sc_description s) = None \/
  forall t, t ∈ sc_test_sequence s -> rc_timeout t = None.

Definition finish_code s : Z :=
  if (0 <? sc_failures s)%Z then (sc_failures s + 500)%Z else 200%Z.

(** What entering a state does. *)
Inductive entered s : ScenarioState -> Scenario -> list Out -> Prop :=
  | entered_command new p os :
    (forall i, new <> ScenarioState.Running i) -> new <> ScenarioState.ScenarioFinished ->
    Forall unheard os -> (new <> ScenarioState.Idle -> tokens os = 1) -> owned (sc_id s) os ->
    entered s new (s <| sc_program := p |>) os
  | entered_test i t :
    sc_test_sequence s !! i = Some t ->
    entered s (ScenarioState.Running i) s [Send (mkCtrl (sc_id s) (Ctrl.StartTest (rc_id t)))]
  | entered_finish os msg :
    Forall silent os -> (forall id, id = sc_id s \/ id ∈ test_sequence s -> Send (mkCtrl (sc_id s) (Ctrl.StopTest id)) ∈ os) ->
    entered s ScenarioState.ScenarioFinished s
      (os ++ [Send (mkCtrl (sc_id s) (Ctrl.ScenarioFinished (finish_code s) msg))]).

Lemma run_support_cmd_run w cmd timeout name : exists p tick os,
  Forall unheard os /\ tokens os = 1 /\ owned (sc_id (w_sc w)) os /\
  run_support_cmd cmd timeout name w = Done (tt, mkScW (w_sc w <| sc_program := p |>) (w_cfg w) tick (w_out w ++ os)).
Proof.
  unfold run_support_cmd. destruct (env_start (w_tick w) cmd timeout (Some (sc_support_wd (w_sc w)))) eqn:E.
  - exists (Some cmd), (S (w_tick w)), [Send (mkCtrl (sc_id (w_sc w)) (Ctrl.Log (name +:+ ": starting [" +:+ cmd +:+ "]"))); Spawn (sc_id (w_sc w)) cmd timeout (sc_support_wd (w_sc w))].
    split_and!; [by repeat constructor|done|by repeat (constructor; try (intros ? [= <-]))|].
    unfold sc_get, gets, send, modify, mbind, M_bind. simpl. rewrite E. simpl. by rewrite <- app_assoc.
  - exists (sc_program (w_sc w)), (S (w_tick w)). eexists [_; _; _]. split_and!.
    4: { unfold sc_get, gets, send, modify, mbind, M_bind. simpl. rewrite E. simpl.
         rewrite <- !app_assoc. simpl. destruct w as [[] ? ? ?]. reflexivity. }
    all: by repeat constructor.
Qed.

Lemma make_timeout_run w t :
  no_time_limit (w_sc w) -> t ∈ sc_test_sequence (w_sc w) ->
  make_timeout (rc_timeout t) w = Done (rc_timeout t, w <| w_tick ::= S |>).
Proof.
  intros Hl Ht. assert (rc_timeout t = None \/ sd_timeout (sc_description (w_sc w)) = None) as Hn
    by (destruct Hl; auto).
  unfold make_timeout, instant_now, sc_get, gets, mbind, M_bind. simpl. unfold id.
  destruct (rc_timeout t) as [d|]; [|done]. destruct Hn as [| ->]; done.
Qed.

Lemma forM_send {A} (l : list A) (f : A -> ManagerControlMessageContents) u w :
  forM l (fun x => send u (f x)) w =
    Done (tt, w <| w_out ::= fun o => o ++ ((fun x => Send (mkCtrl u (f x))) <$> l) |>).
Proof.
  revert w. induction l as [|x l IH]; intros w; simpl.
  - rewrite app_nil_r. by destruct w.
  - unfold mbind, M_bind, send, modify at 1. simpl. rewrite IH. simpl. by rewrite <- app_assoc.
Qed.

Lemma finish_scenario_run w :
  (sc_failures (w_sc w) + 500 <= u32_max)%Z ->
  exists os, entered (w_sc w) ScenarioState.ScenarioFinished (w_sc w) os /\
    finish_scenario w = Done (tt, w <| w_out ::= fun o => o ++ os |>).
Proof.
  intros Hf. unfold finish_scenario, sc_get, gets. unfold mbind at 1, M_bind at 1.
  cbv beta iota zeta. unfold mbind at 1, M_bind at 1. rewrite forM_send.
  unfold mbind, M_bind, send, modify, id. simpl.
  eexists. split.
  - eapply (entered_finish _ (((fun x => Send (mkCtrl (sc_id (w_sc w)) (Ctrl.StopTest (rc_id x))))
      <$> sc_test_sequence (w_sc w)) ++ [Send (mkCtrl (sc_id (w_sc w)) (Ctrl.StopTest (sc_id (w_sc w))))])
      (if (0 <? sc_failures (w_sc w))%Z then "at least one test failed" else "all tests passed")).
    + apply Forall_app. split; [|by apply Forall_singleton]. apply Forall_fmap, Forall_true. by intros.
    + intros n Hn. apply elem_of_app. destruct Hn as [->|Hn]; [right; by apply list_elem_of_singleton|left].
      apply list_elem_of_fmap in Hn as (t & -> & Ht). by apply (list_elem_of_fmap_2 (fun x => Send (mkCtrl _ (Ctrl.StopTest (rc_id x))))).
  - unfold finish_code. destruct (0 <? sc_failures (w_sc w))%Z eqn:E; simpl.
    + rewrite (proj2 (Z.ltb_ge _ _)) by lia. by rewrite !app_assoc.
    + by rewrite !app_assoc.
Qed.

Lemma enter_command w new cmd timeout name :
  enter_state new w = run_support_cmd cmd timeout name w ->
  (forall i, new <> ScenarioState.Running i) -> new <> ScenarioState.ScenarioFinished ->
  exists s' tick os, entered (w_sc w) new s' os /\
    enter_state new w = Done (tt, mkScW s' (w_cfg w) tick (w_out w ++ os)).
Proof.
  intros -> Hr Hfin. destruct (run_support_cmd_run w cmd timeout name) as (p & tick & os & Hsil & Ht & Ho & Hrun).
  eexists _, tick, os. split; [by apply (entered_command _ new p)|exact Hrun].
Qed.

Lemma enter_state_spec w new :
  accepted (w_sc w) new -> no_time_limit (w_sc w) -> (sc_failures (w_sc w) + 500 <= u32_max)%Z ->
  exists s' tick os, entered (w_sc w) new s' os /\
    enter_state new w = Done (tt, mkScW s' (w_cfg w) tick (w_out w ++ os)).
Proof.
  intros Hacc Hlim Hf.
  assert (forall o cmd timeout name, o = Some cmd ->
    (c ← unwrap "called `Option::unwrap()` on a `None` value" o; run_support_cmd c timeout name) w =
    run_support_cmd cmd timeout name w) as Hcmd by (by intros ? ? ? ? ->).
  destruct new as [| |i| | |].
  - eexists _, (w_tick w), []. split; [apply (entered_command _ _ (sc_program (w_sc w))); by first [done | constructor]|].
    rewrite app_nil_r. by destruct w as [[] ? ? ?].
  - destruct Hacc as [cmd Hacc]. eapply (enter_command _ _ cmd); [by eapply Hcmd|done..].
  - destruct Hacc as (t & Ht & _).
    eexists _, (S (w_tick w)), _. split; [by apply (entered_test _ i t)|].
    unfold enter_state, sc_get, gets, id. unfold mbind at 1, M_bind at 1. cbv beta iota zeta.
    rewrite Ht. unfold mbind, M_bind, unwrap, mret, M_ret.
    rewrite (make_timeout_run w t) by (try done; by eapply list_elem_of_lookup_2). done.
  - destruct Hacc as [cmd Hacc]. eapply (enter_command _ _ cmd); [by eapply Hcmd|done..].
  - destruct Hacc as [cmd Hacc]. eapply (enter_command _ _ cmd); [by eapply Hcmd|done..].
  - destruct (finish_scenario_run w Hf) as (os & Hent & Hrun).
    exists (w_sc w), (w_tick w), os. split; [done|]. unfold enter_state, sc_get, gets.
    unfold mbind at 1, M_bind at 1. cbv beta iota zeta. by rewrite Hrun.
Qed.

(** One [AdvanceScenario]: record, search, enter. *)
Inductive advanced s : Scenario -> list Out -> Prop :=
  advanced_steps s1 new s2 s3 os1 os2 os3 :
    recorded s s1 -> Forall silent os1 -> next (sc_state s) s1 new s2 os2 ->
    entered s2 new s3 os3 -> advanced s s3 (os1 ++ os2 ++ os3).

Lemma recorded_pre s s1 : recorded s s1 -> sc_wf s ->
  (0 <= sc_failures s1)%Z /\ sc_dyn (next_pos s1 (sc_state s)) s1 /\
  (forall i, sc_state s = ScenarioState.Running i -> i < length (sc_test_sequence s1)).
Proof.
  intros [Ha Hs1 Hd1 Hst _] [Hs Hok He Hd]. rewrite (agree_next_pos s s1), (ag_sequence s s1 Ha) by done.
  split_and!; [by apply (sc_failures_bound s1 _ Hs1 Hd1)|done|].
  intros i Hi. by rewrite Hi in Hok.
Qed.

Lemma advance_run_records w last_unit code :
  sc_wf (w_sc w) -> no_time_limit (w_sc w) ->
  exists s' tick os, advanced (w_sc w) s' os /\
    advance last_unit code w = Done (tt, mkScW s' (w_cfg w) tick (w_out w ++ os)) /\ records code (w_sc w) s'.
Proof.
  intros Hwf Hlim. unfold advance. unfold mbind at 1, M_bind at 1, sc_get, gets.
  destruct (record_result_spec w last_unit code Hwf) as (s1 & (tick1 & os1 & Hsil & Hrec) & Hr & Hrecs).
  unfold mbind at 1, M_bind at 1. rewrite Hrec. unfold mbind, M_bind. cbv beta iota.
  destruct (recorded_pre _ _ Hr Hwf) as (Hf & Hd & Hin). destruct Hr as [Ha Hs1 Hd1 Hst Hex].
  destruct (find_next_state_total (next_fuel s1) (mkScW s1 (w_cfg w) tick1 (w_out w ++ os1))
    (sc_state (w_sc w))) as (new & s2 & tick2 & os2 & Hn & Hfind); try done.
  { unfold next_fuel. rewrite test_count by done. simpl. lia. }
  simpl in *. rewrite Hfind.
  destruct (next_inv _ _ _ _ _ Hn Hs1 Hd Hf Hin) as (Ha2 & Hs2 & Hd2 & Hst2 & Hacc & _ & _ & Hf2 & _).
  destruct (enter_state_spec (mkScW s2 (w_cfg w) tick2 ((w_out w ++ os1) ++ os2)) new)
    as (s3 & tick3 & os3 & Hent & Hrun); [done| | |].
  - destruct Hlim as [Hl|Hl]; [left|right]; simpl.
    + by rewrite (ag_description _ _ Ha2), (ag_description _ _ Ha).
    + by rewrite (ag_sequence _ _ Ha2), (ag_sequence _ _ Ha).
  - pose proof (sc_failures_bound _ _ Hs2 Hd2). pose proof (st_u32 _ Hs2). simpl. lia.
  - exists s3, tick3, (os1 ++ os2 ++ os3). split_and!; [by econstructor|rewrite Hrun; simpl; by rewrite !app_assoc|].
    assert (sc_test_states s3 = sc_test_states s2) as Hts by (by destruct Hent).
    intros n r Hn3 Hr3. rewrite Hts in Hn3.
    destruct (next_records code _ _ _ _ _ Hn n r Hn3 Hr3) as [Hp|(Hc & i & Hi & Hid)]; [by apply Hrecs|].
    right. split; [done|]. exists i. rewrite <- Hst, Hi. split; [done|]. by rewrite <- (agree_test_sequence _ _ Ha).
Qed.

Lemma advance_run w last_unit code :
  sc_wf (w_sc w) -> no_time_limit (w_sc w) ->
  exists s' tick os, advanced (w_sc w) s' os /\
    advance last_unit code w = Done (tt, mkScW s' (w_cfg w) tick (w_out w ++ os)).
Proof.
  intros Hwf Hlim. destruct (advance_run_records w last_unit code Hwf Hlim) as (s' & tick & os & Ha & Hrun & _).
  by exists s', tick, os.
Qed.

(** ** Runs *)

Lemma advanced_inv s s' os :
  advanced s s' os -> sc_wf s ->
  agree s s' /\ sc_wf s' /\ next_pos s (sc_state s) <= pos s (sc_state s') /\
  (sc_state s <> ScenarioState.ScenarioFinished -> rank s (sc_state s) < rank s (sc_state s')) /\
  (sc_state s = ScenarioState.ScenarioFinished -> sc_state s' = ScenarioState.ScenarioFinished).
Proof.
  intros [s1 new s2 s3 os1 os2 os3 Hr Hsil Hn Hent] Hwf.
  destruct (recorded_pre _ _ Hr Hwf) as (Hf & Hd & Hin). destruct Hr as [Ha Hs1 Hd1 Hst Hex].
  destruct (next_inv _ _ _ _ _ Hn Hs1 Hd Hf Hin)
    as (Ha2 & Hs2 & Hd2 & Hst2 & Hacc & Hsil2 & He2 & Hf2 & Hle & Hrk & Hfin).
  rewrite !(agree_rank s s1), (agree_pos s s1), (agree_next_pos s s1) in * by done.
  assert (agree s s2) as Has2 by (by transitivity s1).
  assert (sc_state s3 = new /\ agree s2 s3 /\ sc_test_states s3 = sc_test_states s2 /\
    sc_exec_start_state s3 = sc_exec_start_state s2 /\ sc_failures s3 = sc_failures s2)
    as (Hst3 & Ha3 & Hts3 & He3 & Hf3) by (by destruct Hent).
  assert (agree s s3) as Has3 by (by transitivity s2).
  split_and!; rewrite ?Hst3; try done. split.
  - apply (agree_static s2); [done| |done]. by rewrite Hts3.
  - rewrite Hst3. destruct new; simpl in Hacc |- *; try done.
    + by rewrite (ag_description _ _ Ha3).
    + destruct Hacc as (t & Ht & _). rewrite (ag_sequence _ _ Ha3). by eapply lookup_lt_Some.
  - rewrite Hst3, He3, He2. intros Hnew. destruct (sc_state s) eqn:E; simpl in *;
      try (destruct Hnew as [->| ->]; simpl in *; specialize (Hrk ltac:(done)); lia).
    + rewrite Hex by done. apply (wf_exec _ Hwf). by left.
    + specialize (Hfin eq_refl). destruct Hnew; congruence.
  - rewrite Hst3, (agree_pos s2 s3) by done. by apply (agree_dyn _ s2).
Qed.


(** The results of several steps, one [AdvanceScenario] each. *)
Definition run (results : list (UnitName * Z)) : ScM unit :=
  forM results (fun '(last_unit, code) => advance last_unit code).

Inductive runs : Scenario -> nat -> Scenario -> list Out -> Prop :=
  | runs_nil s : runs s 0 s []
  | runs_cons s s1 n s2 os1 os2 :
    advanced s s1 os1 -> runs s1 n s2 os2 -> runs s (S n) s2 (os1 ++ os2).

Lemma agree_no_time_limit s s' : agree s s' -> no_time_limit s -> no_time_limit s'.
Proof. intros [Hd Hq _ _]. unfold no_time_limit. by rewrite Hd, Hq. Qed.

Lemma run_total results w :
  sc_wf (w_sc w) -> no_time_limit (w_sc w) ->
  exists s' tick os, runs (w_sc w) (length results) s' os /\
    run results w = Done (tt, mkScW s' (w_cfg w) tick (w_out w ++ os)).
Proof.
  revert w. induction results as [|[u c] results IH]; intros w Hwf Hlim.
  - exists (w_sc w), (w_tick w), []. split; [constructor|]. rewrite app_nil_r. by destruct w.
  - destruct (advance_run w u c Hwf Hlim) as (s1 & tick1 & os1 & Ha & Hrun).
    destruct (advanced_inv _ _ _ Ha Hwf) as (Hag & Hwf1 & _).
    destruct (IH (mkScW s1 (w_cfg w) tick1 (w_out w ++ os1)) Hwf1 (agree_no_time_limit _ _ Hag Hlim))
      as (s2 & tick2 & os2 & Hr & Hrun2).
    exists s2, tick2, (os1 ++ os2). split; [by econstructor|].
    change (run ((u, c) :: results)) with (advance u c ;; run results).
    unfold mbind, M_bind. rewrite Hrun, Hrun2. simpl. by rewrite app_assoc.
Qed.

Lemma runs_inv s n s' os : runs s n s' os -> sc_wf s ->
  agree s s' /\ sc_wf s' /\
  (sc_state s' = ScenarioState.ScenarioFinished \/ n + rank s (sc_state s) <= rank s (sc_state s')).
Proof.
  induction 1 as [s|s s1 n s2 os1 os2 Ha Hr IH]; intros Hwf; [by split_and!; auto|].
  destruct (advanced_inv _ _ _ Ha Hwf) as (Hag & Hwf1 & _ & Hrk & Hfin).
  destruct (IH Hwf1) as (Hag2 & Hwf2 & Hend).
  split_and!; [by transitivity s1|done|]. rewrite !(agree_rank s s1) in Hend by done.
  destruct (decide (sc_state s = ScenarioState.ScenarioFinished)) as [Hs|Hs].
  - left. specialize (Hfin Hs). clear -Hfin Hr Hwf1. induction Hr as [|s s1 n s2 os1 os2 Ha Hr IH]; [done|].
    destruct (advanced_inv _ _ _ Ha Hwf1) as (_ & Hwf2 & _ & _ & Hf). auto.
  - specialize (Hrk Hs). destruct Hend as [|Hend]; [by left|right; lia].
Qed.

Lemma rank_bound s st : state_ok s st -> rank s st <= 3 + length (sc_test_sequence s).
Proof. destruct st; simpl; lia. Qed.

Lemma entered_outputs s new s' os : entered s new s' os ->
  started os = match new with
               | ScenarioState.Running i => option_list (rc_id <$> sc_test_sequence s !! i)
               | _ => []
               end /\
  finishes os = match new with ScenarioState.ScenarioFinished => [finish_code s'] | _ => [] end.
Proof.
  destruct 1 as [new p os Hr Hf Hsil|i t Ht|os msg Hsil].
  - destruct (unheard_out os Hsil) as [-> ->]. destruct new; try done. by destruct (Hr step).
  - by rewrite Ht.
  - destruct (silent_out os Hsil) as [Hst Hfin]. rewrite started_app, finishes_app.
    by rewrite Hst, Hfin.
Qed.

(** What one step tells the manager, and on what grounds. *)
Lemma advanced_outputs s s' os : advanced s s' os -> sc_wf s ->
  accepted s' (sc_state s') /\
  started os = match sc_state s' with
               | ScenarioState.Running i => option_list (rc_id <$> sc_test_sequence s' !! i)
               | _ => []
               end /\
  finishes os = match sc_state s' with
                | ScenarioState.ScenarioFinished => [finish_code s'] | _ => [] end.
Proof.
  intros [s1 new s2 s3 os1 os2 os3 Hr Hsil Hn Hent] Hwf.
  destruct (recorded_pre _ _ Hr Hwf) as (Hf & Hd & Hin). destruct Hr as [Ha Hs1 Hd1 Hst Hex].
  destruct (next_inv _ _ _ _ _ Hn Hs1 Hd Hf Hin) as (_ & _ & _ & Hst2 & Hacc & Hsil2 & _).
  destruct (entered_outputs _ _ _ _ Hent) as [Hsta Hfin].
  rewrite !started_app, !finishes_app, Hsta, Hfin.
  destruct (silent_out os1 Hsil) as [Hs_1 Hf_1], (silent_out os2 Hsil2) as [Hs_2 Hf_2].
  rewrite Hs_1, Hs_2, Hf_1, Hf_2.
  assert (sc_state s3 = new /\ agree s2 s3 /\ sc_test_states s3 = sc_test_states s2 /\
    sc_exec_start_state s3 = sc_exec_start_state s2) as (-> & Ha3 & Hts3 & He3) by (by destruct Hent).
  rewrite (ag_sequence _ _ Ha3). split_and!; try done. by eapply agree_accepted.
Qed.

(** At the end everything is told to stop. *)
Lemma advanced_stops s s' os id : advanced s s' os -> sc_wf s -> sc_state s' = ScenarioState.ScenarioFinished ->
  id = sc_id s \/ id ∈ test_sequence s -> Send (mkCtrl (sc_id s) (Ctrl.StopTest id)) ∈ os.
Proof.
  intros [s1 new s2 s3 os1 os2 os3 Hr Hsil Hn Hent] Hwf Hfin Hid.
  destruct (recorded_pre _ _ Hr Hwf) as (Hf & Hd & Hin). destruct Hr as [Ha Hs1 _ _ _].
  destruct (next_inv _ _ _ _ _ Hn Hs1 Hd Hf Hin) as (Ha2 & _ & _ & Hst2 & _).
  assert (agree s s2) as Hag by (by transitivity s1). rewrite !elem_of_app. right; right.
  assert (sc_id s2 = sc_id s) as Hsid by (unfold sc_id; by rewrite (ag_description _ _ Hag)).
  rewrite <- (agree_test_sequence _ _ Hag), <- Hsid in Hid. rewrite <- Hsid.
  destruct Hent as [new q osc Hrun Hne _ _ _|i t _|osf msg _ Hall]; [simpl in Hfin; congruence..|].
  apply elem_of_app. left. by apply Hall.
Qed.

(** One step keeps exactly one thing under way that will advance the scenario
    again, until it is finished. *)
Lemma entered_tokens s new s' os : entered s new s' os -> new <> ScenarioState.Idle ->
  tokens os = match new with ScenarioState.ScenarioFinished => 0 | _ => 1 end.
Proof.
  intros [new' p os' Hr Hfin _ Ht|i t _|os' msg Hsil] Hnew.
  - rewrite Ht by done. by destruct new'.
  - done.
  - rewrite tokens_app, (silent_tokens _ Hsil). done.
Qed.

Lemma advanced_tokens s s' os : advanced s s' os -> sc_wf s ->
  sc_state s' <> ScenarioState.Idle /\
  tokens os = match sc_state s' with ScenarioState.ScenarioFinished => 0 | _ => 1 end.
Proof.
  intros [s1 new s2 s3 os1 os2 os3 Hr Hsil Hn Hent] Hwf.
  destruct (recorded_pre _ _ Hr Hwf) as (Hf & Hd & Hin). destruct Hr as [Ha Hs1 Hd1 Hst Hex].
  destruct (next_inv _ _ _ _ _ Hn Hs1 Hd Hf Hin) as (_ & _ & _ & Hst2 & _ & Hsil2 & _ & _ & _ & Hrk & Hfin).
  assert (sc_state s3 = new) as -> by (rewrite <- Hst2; by destruct Hent).
  assert (new <> ScenarioState.Idle) as Hidle.
  { intros ->. destruct (sc_state s) eqn:E; try (specialize (Hrk ltac:(done)); simpl in Hrk; lia).
    by specialize (Hfin eq_refl). }
  split; [done|]. rewrite !tokens_app, (silent_tokens _ Hsil), (silent_tokens _ Hsil2). simpl.
  by eapply entered_tokens.
Qed.

Lemma advanced_owned s s' os : advanced s s' os -> sc_wf s -> owned (sc_id s) os.
Proof.
  intros [s1 new s2 s3 os1 os2 os3 Hr Hsil Hn Hent] Hwf.
  destruct (recorded_pre _ _ Hr Hwf) as (Hf & Hd & Hin). destruct Hr as [Ha Hs1 Hd1 Hst Hex].
  destruct (next_inv _ _ _ _ _ Hn Hs1 Hd Hf Hin) as (Ha2 & _ & _ & _ & _ & Hsil2 & _).
  assert (sc_id s2 = sc_id s) as Hid by (unfold sc_id; by rewrite (ag_description _ _ Ha2), (ag_description _ _ Ha)).
  apply Forall_app. split; [by apply silent_owned|]. apply Forall_app. split; [by apply silent_owned|].
  destruct Hent as [new p os0 _ _ _ _ Ho|i t _|os0 msg Hsil3].
  - by rewrite <- Hid.
  - by constructor.
  - apply Forall_app. split; [by apply silent_owned|by constructor].
Qed.

Lemma pos_next_pos s st : pos s st <= next_pos s st.
Proof. destruct st; simpl; lia. Qed.

Lemma runs_next_pos s n s' os : runs s n s' os -> sc_wf s ->
  next_pos s (sc_state s) <= next_pos s (sc_state s').
Proof.
  induction 1 as [|s s1 n s2 os1 os2 Ha Hr IH]; intros Hwf; [done|].
  destruct (advanced_inv _ _ _ Ha Hwf) as (Hag & Hwf1 & Hle & _). specialize (IH Hwf1).
  rewrite !(agree_next_pos s s1) in IH by done. pose proof (pos_next_pos s (sc_state s1)). lia.
Qed.

(** Enough steps from the idle state finish it. *)
Lemma runs_finish s n s' os : runs s n s' os -> sc_wf s -> sc_state s = ScenarioState.Idle ->
  length (sc_test_sequence s) + 3 <= n -> sc_state s' = ScenarioState.ScenarioFinished.
Proof.
  intros Hr Hwf Hidle Hlen. destruct (runs_inv _ _ _ _ Hr Hwf) as (Hag & Hwf' & Hend).
  destruct Hend as [|Hend]; [done|]. rewrite Hidle in Hend. simpl in Hend.
  pose proof (wf_state _ Hwf') as Hin. destruct (sc_state s') as [| |i| | |] eqn:E; simpl in *; try done; try lia.
  rewrite (ag_sequence _ _ Hag) in Hin. lia.
Qed.

(** The tests started in a run are tests of the sequence, in order. *)
Lemma runs_started s n s' os : runs s n s' os -> sc_wf s ->
  started os `sublist_of` take (next_pos s (sc_state s') - next_pos s (sc_state s))
                            (drop (next_pos s (sc_state s)) (test_sequence s)).
Proof.
  induction 1 as [s|s s1 n s2 os1 os2 Ha Hr IH]; intros Hwf; [apply sublist_nil_l|].
  destruct (advanced_inv _ _ _ Ha Hwf) as (Hag & Hwf1 & Hle & _).
  destruct (advanced_outputs _ _ _ Ha Hwf) as (_ & Hst & _). specialize (IH Hwf1).
  assert (next_pos s (sc_state s1) <= next_pos s (sc_state s2)) as Hle2.
  { rewrite <- !(agree_next_pos s s1) by done. by eapply runs_next_pos. }
  rewrite !(agree_next_pos s s1), (agree_test_sequence s s1) in IH by done.
  rewrite started_app.
  set (a := next_pos s (sc_state s)) in *. set (b := next_pos s (sc_state s1)) in *.
  set (c := next_pos s (sc_state s2)) in *.
  assert (a <= b) as Hab.
  { pose proof (pos_next_pos s (sc_state s1)). unfold b. lia. }
  replace (take (c - a) (drop a (test_sequence s))) with
    (take (b - a) (drop a (test_sequence s)) ++ take (c - b) (drop b (test_sequence s))).
  2: { replace (c - a) with ((b - a) + (c - b)) by lia.
       rewrite <- take_take_drop, drop_drop. do 3 f_equal. lia. }
  apply sublist_app; [|done]. rewrite Hst.
  destruct (sc_state s1) as [| |i| | |]; try apply sublist_nil_l.
  rewrite (ag_sequence s s1 Hag). destruct (sc_test_sequence s !! i) as [t|] eqn:Ht; [|apply sublist_nil_l].
  simpl in *. subst b. apply singleton_sublist_l.
  apply list_elem_of_lookup. exists (i - a). rewrite lookup_take_lt by lia. rewrite lookup_drop.
  replace (a + (i - a)) with i by lia. by apply sequence_lookup.
Qed.

(** No failure counted means no test failed. *)
Lemma no_failures_no_fail s k i x :
  sc_dyn k s -> sc_failures s = 0%Z -> state_at s i = Some x -> is_fail x = false.
Proof.
  intros Hd Hz Hx. destruct (is_fail x) eqn:E; [|done]. exfalso.
  rewrite (dy_failures k s Hd) in Hz. unfold fail_count in Hz.
  assert (size (failed (sc_test_states s)) = 0) as Hsz by lia.
  apply map_size_empty_inv in Hsz. unfold state_at in Hx.
  destruct (test_sequence s !! i) as [n|]; [|done]. simpl in Hx.
  assert (failed (sc_test_states s) !! n = Some x) as Hn by (by apply map_lookup_filter_Some).
  by rewrite Hsz, lookup_empty in Hn.
Qed.

(** Without failures, and with every test looked at, all tests passed. *)
Lemma all_passed s :
  sc_static s -> sc_dyn (length (test_sequence s)) s -> sc_failures s = 0%Z ->
  sd_timeout (sc_description s) = None ->
  sd_stop_after_failure_count (sc_description s) <> Some 0%Z ->
  forall i, i < length (test_sequence s) -> state_at s i = Some TestState.Pass.
Proof.
  intros Hs Hd Hz Ht Hc i. induction (lt_wf i) as [i _ IH]. intros Hi.
  destruct (state_at_is_Some s i Hs Hi) as [x Hx].
  pose proof (dy_covered _ _ Hd Ht Hc Hz i Hi) as Hp.
  pose proof (dy_not_running _ _ Hd i) as Hr.
  pose proof (no_failures_no_fail s _ i x Hd Hz Hx) as Hf.
  rewrite Hx in *. destruct x; try done.
  destruct (dy_skip _ _ Hd i Hx) as (j & Hj & Hn). destruct Hn. apply IH; lia.
Qed.

Definition past_prestart (st : ScenarioState) : Prop :=
  match st with ScenarioState.Idle | ScenarioState.PreStart => False | _ => True end.

Definition past_tests (st : ScenarioState) : Prop :=
  match st with ScenarioState.Running _ => False | _ => past_prestart st end.

Lemma next_stopped cur s new s' os c :
  next cur s new s' os -> past_prestart cur ->
  sd_stop_after_failure_count (sc_description s) = Some c -> (c <= sc_failures s)%Z ->
  past_tests new.
Proof.
  assert (forall s cur mid, past_prestart cur -> candidate s cur = Done mid ->
    sd_stop_after_failure_count (sc_description s) = Some c -> (c <= sc_failures s)%Z ->
    past_tests mid) as Hcand.
  { clear. intros s cur mid Hcur Hmid Hc Hle. unfold candidate in Hmid. rewrite Hc in Hmid.
    rewrite (proj2 (Z.leb_le _ _)) in Hmid by done.
    destruct cur; try done; repeat case_match; by simplify_eq/=. }
  induction 1 as [cur s new s1 os Hmid Hok|cur s mid s1 os new s2 os2 Hmid Hok Hn IH];
    intros Hcur Hc Hle; [by eapply Hcand|].
  destruct (okay_spec_agree _ _ _ _ _ Hok) as (Ha & _ & _ & Hf & _).
  apply IH; [|by rewrite (ag_description _ _ Ha)|by rewrite Hf].
  pose proof (Hcand s cur mid Hcur Hmid Hc Hle). by destruct mid.
Qed.

End scenario.
