(* ===== verification/ScenarioTheorems.v ===== *)
(** * Scenarios run their tests in dependency order, once, to an end

    What a run of [advance] guarantees: it does not panic, moves forward, starts
    tests only after what they require, and reports success exactly when
    everything passed; and what loading and activating give.  The cases where the
    code falls short of this are theorems too. *)

From S2P Require Import Prelude Str Path Unit Foreign Samples Config Descriptions Events Env Scenario ScenarioProps.

Section scenario.
Context `{Libraries} `{DependyLib} `{Env}.
Implicit Types (s : Scenario) (w : ScW).

(** ** Properties *)

(** (C3) A well-formed scenario whose tests are not limited by the scenario's
    time never panics and never loops when it is advanced, whatever the unit
    and the result it is advanced with: [advance] ends, the scenario is still
    well-formed, and it has moved on to a later state (or was finished and
    stays so). *)
Theorem advance_safe w last_unit code :
  sc_wf (w_sc w) -> no_time_limit (w_sc w) ->
  exists w', advance last_unit code w = Done (tt, w') /\ sc_wf (w_sc w') /\
    (rank (w_sc w) (sc_state (w_sc w)) < rank (w_sc w) (sc_state (w_sc w')) \/
     sc_state (w_sc w) = ScenarioState.ScenarioFinished /\
     sc_state (w_sc w') = ScenarioState.ScenarioFinished).
Proof.
  intros Hwf Hlim. destruct (advance_run w last_unit code Hwf Hlim) as (s' & tick & os & Ha & Hrun).
  destruct (advanced_inv _ _ _ Ha Hwf) as (_ & Hwf' & _ & Hrk & Hfin).
  eexists. split; [exact Hrun|]. split; [done|]. simpl.
  destruct (decide (sc_state (w_sc w) = ScenarioState.ScenarioFinished)); auto.
Qed.

(** (C4) A well-formed scenario, which has a test to run, whose tests are not
    limited by the scenario's time finishes: from the idle state, as many results
    as there are tests, plus three, bring it to [ScenarioFinished] without a
    panic, whatever the results are. *)
Theorem scenario_finishes w results :
  sc_wf (w_sc w) -> no_time_limit (w_sc w) -> sc_state (w_sc w) = ScenarioState.Idle ->
  length (sc_test_sequence (w_sc w)) + 3 <= length results ->
  exists w', run results w = Done (tt, w') /\ sc_state (w_sc w') = ScenarioState.ScenarioFinished.
Proof.
  intros Hwf Hlim Hidle Hlen. destruct (run_total results w Hwf Hlim) as (s' & tick & os & Hr & Hrun).
  eexists. split; [exact Hrun|]. by eapply runs_finish.
Qed.

(** (C15) Over a whole run from the idle state, whatever the results, the tests
    that are started are a sublist of the test sequence: each test is started
    at most once, and no test before one it requires. *)
Theorem tests_started_in_order w results :
  sc_wf (w_sc w) -> no_time_limit (w_sc w) -> sc_state (w_sc w) = ScenarioState.Idle ->
  w_out w = [] ->
  exists w', run results w = Done (tt, w') /\
    started (w_out w') `sublist_of` test_sequence (w_sc w) /\ NoDup (started (w_out w')).
Proof.
  intros Hwf Hlim Hidle Hout. destruct (run_total results w Hwf Hlim) as (s' & tick & os & Hr & Hrun).
  eexists. split; [exact Hrun|]. simpl. rewrite Hout. simpl.
  pose proof (runs_started _ _ _ _ Hr Hwf) as Hsub. rewrite Hidle in Hsub. simpl in Hsub.
  rewrite drop_0 in Hsub. assert (started os `sublist_of` test_sequence (w_sc w)) as Hsub'
    by (etrans; [exact Hsub|apply sublist_take]).
  split; [done|]. eapply sublist_NoDup; [|exact Hsub']. apply (st_nodup _ (wf_static _ Hwf)).
Qed.

(** (C16) A scenario that assumes nothing starts a test only when everything the
    test requires, directly or through other tests, has passed. *)
Theorem started_dependencies_passed w last_unit code w' n p :
  sc_wf (w_sc w) -> no_time_limit (w_sc w) -> sd_assumptions (sc_description (w_sc w)) = [] ->
  w_out w = [] -> advance last_unit code w = Done (tt, w') -> n ∈ started (w_out w') ->
  requires (w_sc w) n p -> sc_test_states (w_sc w') !! p = Some TestState.Pass.
Proof.
  intros Hwf Hlim Has Hout Hadv Hn Hreq.
  destruct (advance_run w last_unit code Hwf Hlim) as (s' & tick & os & Ha & Hrun).
  rewrite Hadv in Hrun. injection Hrun as ->. rewrite Hout in Hn. simpl in Hn |- *.
  destruct (advanced_inv _ _ _ Ha Hwf) as (Hag & Hwf' & _).
  destruct (advanced_outputs _ _ _ Ha Hwf) as (Hacc & Hst & _). rewrite Hst in Hn.
  destruct (sc_state s') as [| |i| | |]; try by apply elem_of_nil in Hn.
  destruct Hacc as (t & Ht & _ & _ & Hdep). rewrite Ht in Hn. simpl in Hn.
  apply list_elem_of_singleton in Hn as ->.
  assert (requires s' (rc_id t) p) as Hreq' by (by eapply agree_requires).
  destruct (all_dependencies_true (deps_fuel s') s' (rc_id t)) with (q := p) as [|Hrun]; try done.
  { by rewrite (ag_description _ _ Hag). }
  destruct (requires_in_sequence s' (rc_id t) p) as [j Hj]; try done.
  { by apply wf_static. } { by rewrite (ag_description _ _ Hag). } { exists i. by apply sequence_lookup. }
  exfalso. apply (dy_not_running _ _ (wf_dyn _ Hwf') j). unfold state_at. by rewrite Hj.
Qed.

(** (C23) A step that finishes the scenario says so exactly once: with code 200
    when no test and no start command failed, and otherwise with 500 plus the
    number of failures, which fits the [u32]. *)
Theorem finish_code_counts_failures w last_unit code w' :
  sc_wf (w_sc w) -> no_time_limit (w_sc w) -> w_out w = [] ->
  advance last_unit code w = Done (tt, w') ->
  finishes (w_out w') =
    (if bool_decide (sc_state (w_sc w') = ScenarioState.ScenarioFinished)
     then [if decide (fail_count (w_sc w') = 0) then 200%Z
           else (500 + Z.of_nat (fail_count (w_sc w')))%Z]
     else []) /\
  (500 + Z.of_nat (fail_count (w_sc w')) <= u32_max)%Z.
Proof.
  intros Hwf Hlim Hout Hadv.
  destruct (advance_run w last_unit code Hwf Hlim) as (s' & tick & os & Ha & Hrun).
  rewrite Hadv in Hrun. injection Hrun as ->. rewrite Hout. simpl.
  destruct (advanced_inv _ _ _ Ha Hwf) as (Hag & Hwf' & _).
  destruct (advanced_outputs _ _ _ Ha Hwf) as (_ & _ & ->).
  pose proof (sc_failures_bound _ _ (wf_static _ Hwf') (wf_dyn _ Hwf')) as Hb.
  pose proof (st_u32 _ (wf_static _ Hwf')) as Hu. rewrite (dy_failures _ _ (wf_dyn _ Hwf')) in Hb.
  split; [|lia]. destruct (sc_state s'); try done. rewrite bool_decide_eq_true_2 by done.
  unfold finish_code. rewrite (dy_failures _ _ (wf_dyn _ Hwf')).
  case_decide; [by rewrite (proj2 (Z.ltb_ge _ _)) by lia|].
  rewrite (proj2 (Z.ltb_lt _ _)) by lia. f_equal. lia.
Qed.

(** Failures are failed tests, or the failed start command. *)
Lemma failures_failed s k : sc_static s -> sc_dyn k s -> sc_failures s <> 0%Z ->
  is_fail (sc_exec_start_state s) = true \/
  exists n r, n ∈ test_sequence s /\ sc_test_states s !! n = Some r /\ is_fail r = true.
Proof.
  intros Hs Hd Hf. rewrite (dy_failures _ _ Hd) in Hf. unfold fail_count in Hf.
  destruct (is_fail (sc_exec_start_state s)); [by left|right].
  destruct (map_choose (failed (sc_test_states s))) as (n & r & Hn); [by intros Hempty; rewrite Hempty, map_size_empty in Hf|].
  apply map_lookup_filter_Some in Hn as [Hn Hr]. exists n, r. split_and!; [|done|done].
  apply elem_of_dom_2 in Hn. rewrite (st_states _ Hs) in Hn. by apply elem_of_list_to_set in Hn.
Qed.

(** A scenario that finished with code 200 passed every test. *)
Lemma success_passed s : sc_wf s -> sc_state s = ScenarioState.ScenarioFinished -> sd_timeout (sc_description s) = None ->
  sd_stop_after_failure_count (sc_description s) <> Some 0%Z -> 200%Z = finish_code s ->
  is_fail (sc_exec_start_state s) = false /\
  forall n, n ∈ test_sequence s -> sc_test_states s !! n = Some TestState.Pass.
Proof.
  intros [Hs _ _ Hd] Hst Ht Hc H200. rewrite Hst in Hd. simpl in Hd.
  unfold finish_code in H200. destruct (Z.ltb_spec 0 (sc_failures s)) as [|Hz]; [lia|].
  assert (sc_failures s = 0%Z) as Hz' by (pose proof (sc_failures_bound _ _ Hs Hd); lia). split.
  - pose proof (dy_failures _ _ Hd) as Hf. unfold fail_count in Hf. destruct (is_fail _); [lia|done].
  - intros n [i Hi]%list_elem_of_lookup. pose proof (all_passed s Hs Hd Hz' Ht Hc i (lookup_lt_Some _ _ _ Hi)) as Hall.
    unfold state_at in Hall. by rewrite Hi in Hall.
Qed.

(** (C1) A scenario without a time limit of its own that does not stop at zero
    failures reports success, code 200, only when every test of it was run and
    passed and its start command did not fail. *)
Theorem success_means_all_passed w last_unit code w' :
  sc_wf (w_sc w) -> sd_timeout (sc_description (w_sc w)) = None ->
  sd_stop_after_failure_count (sc_description (w_sc w)) <> Some 0%Z ->
  w_out w = [] -> advance last_unit code w = Done (tt, w') -> 200%Z ∈ finishes (w_out w') ->
  is_fail (sc_exec_start_state (w_sc w')) = false /\
  forall n, n ∈ test_sequence (w_sc w) -> sc_test_states (w_sc w') !! n = Some TestState.Pass.
Proof.
  intros Hwf Ht Hc Hout Hadv H200.
  destruct (advance_run w last_unit code Hwf (or_introl Ht)) as (s' & tick & os & Ha & Hrun).
  rewrite Hadv in Hrun. injection Hrun as ->. rewrite Hout in H200. simpl in *.
  destruct (advanced_inv _ _ _ Ha Hwf) as (Hag & Hwf' & _).
  destruct (advanced_outputs _ _ _ Ha Hwf) as (_ & _ & Hfin). rewrite Hfin in H200.
  rewrite <- (ag_description _ _ Hag) in Ht, Hc. rewrite <- (agree_test_sequence _ _ Hag).
  destruct (sc_state s') eqn:Hst; try (by apply elem_of_nil in H200). apply list_elem_of_singleton in H200.
  by apply success_passed.
Qed.

(** (C24) Once a scenario that is running tests has as many failures as
    [StopAfterFailureCount] allows, counting the one just reported, it starts
    no other test. *)
Theorem stop_after_failure_count w i last_unit code w' c :
  sc_wf (w_sc w) -> no_time_limit (w_sc w) -> w_out w = [] ->
  sc_state (w_sc w) = ScenarioState.Running i ->
  sd_stop_after_failure_count (sc_description (w_sc w)) = Some c ->
  advance last_unit code w = Done (tt, w') -> (c <= sc_failures (w_sc w'))%Z ->
  started (w_out w') = [] /\ past_tests (sc_state (w_sc w')).
Proof.
  intros Hwf Hlim Hout Hi Hc Hadv Hle.
  destruct (advance_run w last_unit code Hwf Hlim) as (s' & tick & os & Ha & Hrun).
  rewrite Hadv in Hrun. injection Hrun as ->. rewrite Hout. simpl in *.
  destruct (advanced_outputs _ _ _ Ha Hwf) as (_ & Hst & _).
  enough (past_tests (sc_state s')) as Hp by (split; [rewrite Hst; by destruct (sc_state s')|done]).
  destruct Ha as [s1 new s2 s3 os1 os2 os3 Hr Hsil Hn Hent].
  destruct (recorded_pre _ _ Hr Hwf) as (Hf & Hd & Hin). destruct Hr as [Ha Hs1 Hd1 Hst1 Hex].
  destruct (next_inv _ _ _ _ _ Hn Hs1 Hd Hf Hin) as (_ & _ & _ & Hst2 & _ & _ & _ & Hf2 & _).
  assert (sc_state s3 = new /\ sc_failures s3 = sc_failures s2) as [-> Hf3] by (by destruct Hent).
  eapply next_stopped; [exact Hn|by rewrite Hi|by rewrite (ag_description _ _ Ha)|lia].
Qed.

(** ** Loading and activating *)

Lemma checkout_tests_spec order get :
  (forall n, n ∈ order -> exists t, get n = Some t /\ rc_id t = n) ->
  exists seq tests, checkout_tests order get =
    Done (seq, tests, gset_to_gmap TestState.Pending (list_to_set order)) /\
    rc_id <$> seq = order /\ dom tests = list_to_set order /\
    forall t, t ∈ seq -> get (rc_id t) = Some t.
Proof.
  induction order as [|n order IH]; intros Hget; simpl.
  - eexists [], ∅. split_and!; [by rewrite gset_to_gmap_empty|done|by rewrite dom_empty_L|].
    by intros t ?%not_elem_of_nil.
  - destruct (Hget n) as (t & Ht & Hid); [by left|]. rewrite Ht.
    destruct IH as (seq & tests & -> & Hseq & Hdom & Hall); [intros m Hm; apply Hget; by right|].
    eexists (t :: seq), _. simpl. split_and!.
    + by rewrite gset_to_gmap_union_singleton.
    + by f_equal.
    + by rewrite dom_insert_L, Hdom.
    + intros t' [->|Ht']%elem_of_cons; [by rewrite Hid|auto].
Qed.

Lemma filter_topo (P : UnitName -> Prop) `{forall x, Decision (P x)} (seq : list UnitName) i n l1 l2 p :
  NoDup seq -> seq = l1 ++ n :: l2 -> filter P seq !! i = Some n -> P p -> p ∈ l1 ->
  exists j, j < i /\ filter P seq !! j = Some p.
Proof.
  intros Hnd -> Hi Hp Hin. assert (P n) as Hn.
  { apply list_elem_of_lookup_2, list_elem_of_filter in Hi. tauto. }
  pose proof (NoDup_filter P _ Hnd) as Hnd'. rewrite filter_app, filter_cons_True in * by done.
  assert (i = length (filter P l1)) as ->.
  { eapply NoDup_lookup; [exact Hnd'|done|]. by rewrite list_lookup_middle. }
  assert (p ∈ filter P l1) as [j Hj]%list_elem_of_lookup by (by apply list_elem_of_filter).
  exists j. split; [by eapply lookup_lt_Some|]. by apply lookup_app_l_Some.
Qed.

Lemma failed_pending (d : gset UnitName) : failed (gset_to_gmap TestState.Pending d) = ∅.
Proof.
  apply map_eq. intros n. rewrite lookup_empty. apply map_lookup_filter_None. right.
  intros x [_ <-]%lookup_gset_to_gmap_Some. done.
Qed.

(** Every test pending, nothing counted. *)
Lemma fresh_dyn s :
  sc_test_states s = gset_to_gmap TestState.Pending (list_to_set (test_sequence s)) ->
  is_fail (sc_exec_start_state s) = false -> sc_failures s = 0%Z -> sc_dyn 0 s.
Proof.
  intros Hst He Hf.
  assert (forall i x, state_at s i = Some x -> x = TestState.Pending) as Hat.
  { intros i x. unfold state_at. destruct (test_sequence s !! i); [|done]. simpl. rewrite Hst.
    by intros [_ <-]%lookup_gset_to_gmap_Some. }
  split.
  - intros j [_ [n Hn]%lookup_lt_is_Some_2]. unfold state_at. rewrite Hn. simpl. rewrite Hst.
    apply lookup_gset_to_gmap_Some. split; [|done]. apply elem_of_list_to_set.
    by eapply list_elem_of_lookup_2.
  - rewrite Hf. unfold fail_count. by rewrite Hst, failed_pending, He.
  - intros i Hi. by apply Hat in Hi.
  - intros i Hi. by apply Hat in Hi.
  - intros; lia.
Qed.

Lemma scenario_new_wf desc order get graph now :
  (forall n, n ∈ order -> exists t, get n = Some t /\ rc_id t = n) -> NoDup order ->
  (forall c, sd_stop_after_failure_count desc = Some c -> (0 <= c)%Z) ->
  (forall i n p, order !! i = Some n -> p ∈ required_parents_of_named graph n ->
     p ∈ sd_assumptions desc \/ exists j, j < i /\ order !! j = Some p) ->
  exists s, scenario_new desc order get graph now = Done s /\ test_sequence s = order /\
    sc_description s = desc /\ (forall t, t ∈ sc_test_sequence s -> get (rc_id t) = Some t) /\
    (order <> [] -> (Z.of_nat (length order) + 501 <= u32_max)%Z ->
     sc_wf s /\ sc_state s = ScenarioState.Idle).
Proof.
  intros Hget Hnd Hcount Htopo.
  destruct (checkout_tests_spec order get Hget) as (ts & tm & Hco & Hts & Htm & Hall).
  unfold scenario_new. rewrite Hco. simpl. eexists. do 4 (split; [done|]).
  intros Hne Hlen. split; [|done]. rewrite <- Hts, length_fmap in Hlen.
  split; simpl; try done; [|apply fresh_dyn; try done; unfold test_sequence; simpl; by rewrite Hts].
  split; unfold test_sequence; simpl; rewrite ?Hts; try done.
  - intros ->. by rewrite <- Hts in Hne.
  - by rewrite dom_gset_to_gmap.
  - intros i t p Ht Hp. apply (Htopo i (rc_id t)); [|done]. by rewrite <- Hts, list_lookup_fmap, Ht.
Qed.

(** What a loaded scenario is. *)
Record loaded_scenario (desc : ScenarioDescription) (get : UnitName -> option TestRc) s : Prop := {
  lo_description : sc_description s = desc;
  lo_sequence t : t ∈ sc_test_sequence s -> get (rc_id t) = Some t;
  lo_nodup : NoDup (test_sequence s);
  lo_named n : n ∈ sd_tests desc -> n ∉ sd_assumptions desc -> n ∈ test_sequence s;
  lo_wf : test_sequence s <> [] -> (Z.of_nat (length (test_sequence s)) + 501 <= u32_max)%Z ->
    sc_wf s /\ sc_state s = ScenarioState.Idle;
}.

Lemma scenario_load_run `{!DependyLaws} desc jig_is_loaded tests get_test_named now :
  (forall n t, (n, t) ∈ tests -> rc_id t = n) ->
  (forall n t, get_test_named n = Some t <-> (n, t) ∈ tests) ->
  (forall c, sd_stop_after_failure_count desc = Some c -> (0 <= c)%Z) ->
  exists r, scenario_load desc jig_is_loaded tests get_test_named now = Done r /\
    forall s, r = Ok s -> loaded_scenario desc get_test_named s.
Proof.
  intros Hid Hget Hcount. unfold scenario_load, scenario_is_compatible.
  destruct (_ && _); [eexists; by split|]. unfold get_test_order.
  set (graph := _ <$> tests).
  destruct (resolve_named_dependencies graph (sd_tests desc)) as [seq|e] eqn:Hres; simpl;
    [|eexists; by split].
  set (order := filter _ seq).
  destruct (scenario_new_wf desc order get_test_named graph now) as (s & Hs & Hseq & Hdesc & Hall & Hwf); try done.
  - intros n [_ Hn]%list_elem_of_filter. apply (resolve_known _ _ _ n Hres) in Hn.
    apply list_elem_of_fmap in Hn as (d & -> & Hd).
    apply list_elem_of_fmap in Hd as ([m t] & -> & Hm). exists t.
    replace (dep_name _) with m; [by split; [apply Hget|apply Hid]|].
    unfold test_dep. case_bool_decide; simpl; [done|]. symmetry. by apply Hid.
  - apply NoDup_filter. by eapply resolve_nodup.
  - intros i n p Hi Hp. destruct (decide (p ∈ sd_assumptions desc)) as [|Hna]; [by left|right].
    assert (n ∈ seq) as (l1 & l2 & Hsplit)%list_elem_of_split
      by (apply list_elem_of_lookup_2, list_elem_of_filter in Hi; tauto).
    eapply filter_topo; try done; [by eapply resolve_nodup|].
    rewrite Hsplit in Hres. by eapply resolve_after.
  - rewrite Hs. eexists. split; [done|]. intros s' [= <-]. split; rewrite ?Hseq; try done.
    + apply NoDup_filter. by eapply resolve_nodup.
    + intros n Hn Hna. apply list_elem_of_filter. split; [done|]. by eapply resolve_named.
Qed.


(** (C25) Loading a scenario from the tests of the manager, each known under its
    own name, never panics; what it gives is well-formed and idle, if the
    scenario has a test to run and its numbers are those of [u32]s. *)
Theorem scenario_load_wf `{!DependyLaws} desc jig_is_loaded tests get_test_named now :
  (forall n t, (n, t) ∈ tests -> rc_id t = n) ->
  (forall n t, get_test_named n = Some t <-> (n, t) ∈ tests) ->
  (forall c, sd_stop_after_failure_count desc = Some c -> (0 <= c)%Z) ->
  exists r, scenario_load desc jig_is_loaded tests get_test_named now = Done r /\
    forall s, r = Ok s -> test_sequence s <> [] ->
      (Z.of_nat (length (test_sequence s)) + 501 <= u32_max)%Z ->
      sc_wf s /\ sc_state s = ScenarioState.Idle.
Proof.
  intros Hid Hget Hcount. destruct (scenario_load_run desc jig_is_loaded tests get_test_named now)
    as (r & Hrun & Hs); [done..|].
  exists r. split; [done|]. intros s Hr. apply (lo_wf _ _ _ (Hs s Hr)).
Qed.

Lemma scenario_activate_spec w : exists w',
  scenario_activate w = Done (Ok tt, w') /\ agree (w_sc w) (w_sc w') /\
  sc_state (w_sc w') = ScenarioState.Idle /\ sc_start_time (w_sc w') = env_now (w_tick w) /\
  w_out w' = w_out w ++ [Send (mkCtrl (sc_id (w_sc w)) (Ctrl.AdvanceScenario 0))] /\
  (sc_static (w_sc w) -> sc_wf (w_sc w') /\ fail_count (w_sc w') = 0).
Proof.
  destruct w as [s cfg tick out]. eexists. split; [reflexivity|]. simpl. split_and!; try done.
  intros Hs. assert ((fun _ => TestState.Pending) <$> sc_test_states s =
    gset_to_gmap TestState.Pending (list_to_set (test_sequence s))) as Hst.
  { rewrite <- (st_states s Hs). apply map_eq. intros n. rewrite lookup_fmap, lookup_gset_to_gmap.
    destruct (sc_test_states s !! n) eqn:E; simpl.
    - rewrite option_guard_True by (by apply elem_of_dom_2 in E). done.
    - by rewrite option_guard_False by (by apply not_elem_of_dom). }
  split; [|unfold fail_count; simpl; by rewrite Hst, failed_pending].
  split; simpl; try done.
  - apply (agree_static s); [done|simpl; by rewrite dom_fmap_L|done].
  - by apply fresh_dyn.
Qed.

(** Activating starts afresh: whatever an earlier run left, an activated
    scenario is idle and well-formed with every test pending and no failure
    counted, and it asks to be advanced. *)
Theorem activate_starts_afresh w :
  sc_static (w_sc w) ->
  exists w', scenario_activate w = Done (Ok tt, w') /\ sc_wf (w_sc w') /\
    sc_state (w_sc w') = ScenarioState.Idle /\ fail_count (w_sc w') = 0 /\
    sc_start_time (w_sc w') = env_now (w_tick w) /\
    w_out w' = w_out w ++ [Send (mkCtrl (sc_id (w_sc w)) (Ctrl.AdvanceScenario 0))].
Proof.
  intros Hs. destruct (scenario_activate_spec w) as (w' & Hrun & _ & Hst & Htime & Hout & Hwf).
  exists w'. destruct (Hwf Hs) as [? ?]. by split_and!.
Qed.

(** ** Where the code falls short *)

(** The check of the required parents stops at the first parent that the
    scenario assumes and answers yes: the parents after it are not looked at,
    even when they failed. *)
Theorem assumed_parent_hides_failure fuel s n a rest :
  required_parents_of_named (sc_graph s) n = a :: rest ->
  a ∈ sd_assumptions (sc_description s) ->
  all_dependencies_succeeded (S fuel) s n = Done true.
Proof.
  intros Hp Ha. rewrite all_dependencies_unfold, Hp. simpl. by rewrite bool_decide_eq_true_2.
Qed.

(** A scenario whose sequence of tests is empty panics when it leaves the
    idle or the start state, since the test is indexed before the index is
    compared with the number of tests. *)
Theorem empty_scenario_panics w last_unit code :
  sc_state (w_sc w) = ScenarioState.Idle -> sc_test_sequence (w_sc w) = [] ->
  sd_exec_start (sc_description (w_sc w)) = None ->
  advance last_unit code w = Panic "index out of bounds".
Proof.
  intros Hi Hseq He. unfold advance, sc_get, gets, mbind, M_bind. rewrite Hi. simpl.
  unfold next_fuel. rewrite Nat.add_comm. simpl.
  unfold sc_get, gets, mbind, M_bind, liftO. simpl. unfold id. rewrite He. simpl.
  assert (is_state_okay (ScenarioState.Running 0) w = Panic "index out of bounds") as Hp.
  { unfold is_state_okay, sc_get, gets, mbind, M_bind. by rewrite Hseq. }
  unfold mbind, M_bind. by rewrite Hp.
Qed.

(** The time of the scenario is over. *)
Definition time_over s : Prop :=
  exists d, sd_timeout (sc_description s) = Some d /\
    forall tick, (d <= duration_since (env_now tick) (sc_start_time s))%Z.

Lemma time_over_refuses w i :
  time_over (w_sc w) -> i < length (sc_test_sequence (w_sc w)) ->
  exists tick, is_state_okay (ScenarioState.Running i) w = Done (false, w <| w_tick := tick |>).
Proof.
  intros (d & Hd & Hover) [t Ht]%lookup_lt_is_Some_2. exists (S (w_tick w)).
  unfold is_state_okay, scenario_timed_out, instant_now, sc_get, gets, mbind, M_bind.
  rewrite Ht. simpl. rewrite Hd. simpl. by rewrite bool_decide_eq_true_2.
Qed.

Lemma time_over_find k i fuel w :
  sc_static (w_sc w) -> time_over (w_sc w) -> sc_failures (w_sc w) = 0%Z ->
  sd_stop_after_failure_count (sc_description (w_sc w)) = None ->
  sd_exec_stop_success (sc_description (w_sc w)) = None ->
  i + k + 1 = length (sc_test_sequence (w_sc w)) -> k + 2 <= fuel ->
  exists tick, find_next_state fuel (ScenarioState.Running i) w =
    Done (ScenarioState.ScenarioFinished,
          mkScW (w_sc w <| sc_state := ScenarioState.ScenarioFinished |>) (w_cfg w) tick (w_out w)).
Proof.
  intros Hs Hover Hf Hc Hstop. revert i fuel w Hs Hover Hf Hc Hstop.
  induction k as [|k IH]; intros i [|fuel] w Hs Hover Hf Hc Hstop Hi Hfuel; try lia; simpl;
    unfold sc_get, gets, liftO, mbind, M_bind; simpl; unfold id; rewrite test_count by done.
  - rewrite (proj2 (Nat.ltb_ge _ _)) by lia. rewrite Hf. simpl.
    unfold mbind, M_bind, sc_get, gets. rewrite Hstop. simpl.
    destruct fuel as [|fuel]; [lia|]. simpl. exists (w_tick w).
    rewrite <- Hf. reflexivity.
  - rewrite (proj2 (Nat.ltb_lt _ _)) by lia. rewrite Hc.
    destruct (time_over_refuses w (i + 1) Hover ltac:(lia)) as [tick ->].
    destruct (IH (i + 1) fuel (w <| w_tick := tick |>)) as [tick' Hrun]; try done; simpl; try lia.
    exists tick'. exact Hrun.
Qed.

(** A scenario whose time is over before its first test, with no start and
    success commands, goes straight to its end without starting a test, leaves
    every test pending, and still reports code 200, "all tests passed". *)
Theorem timeout_reports_success w last_unit code :
  sc_wf (w_sc w) -> sc_state (w_sc w) = ScenarioState.Idle -> time_over (w_sc w) -> w_out w = [] ->
  sc_failures (w_sc w) = 0%Z ->
  sd_stop_after_failure_count (sc_description (w_sc w)) = None ->
  sd_exec_start (sc_description (w_sc w)) = None ->
  sd_exec_stop_success (sc_description (w_sc w)) = None ->
  exists w', advance last_unit code w = Done (tt, w') /\
    started (w_out w') = [] /\ finishes (w_out w') = [200%Z] /\
    sc_test_states (w_sc w') = sc_test_states (w_sc w).
Proof.
  intros Hwf Hidle Hover Hout Hf Hc He Hstop. pose proof (wf_static _ Hwf) as Hs.
  assert (0 < length (sc_test_sequence (w_sc w))) as Hlen.
  { destruct (sc_test_sequence (w_sc w)) eqn:E; [by destruct (st_nonempty _ Hs)|simpl; lia]. }
  destruct (time_over_refuses w 0 Hover Hlen) as [tick Hrefuse].
  destruct (time_over_find (length (sc_test_sequence (w_sc w)) - 1) 0 (size (sc_tests (w_sc w)) + 3)
    (w <| w_tick := tick |>)) as [tick' Hfind]; try done; simpl; [lia|rewrite test_count by done; lia|].
  assert (find_next_state (next_fuel (w_sc w)) ScenarioState.Idle w = Done (ScenarioState.ScenarioFinished,
    mkScW (w_sc w <| sc_state := ScenarioState.ScenarioFinished |>) (w_cfg w) tick' (w_out w))) as Hrun.
  { unfold next_fuel. rewrite !Nat.add_succ_r. simpl. rewrite !Nat.add_succ_r in Hfind.
    unfold sc_get, gets, mbind, M_bind, liftO. simpl. unfold id. rewrite He. simpl.
    rewrite Hrefuse. exact Hfind. }
  unfold advance, sc_get, gets. unfold mbind at 1, M_bind at 1. rewrite Hidle. simpl.
  unfold mbind, M_bind. simpl. rewrite Hrun. simpl.
  destruct (finish_scenario_run (mkScW (w_sc w <| sc_state := ScenarioState.ScenarioFinished |>)
    (w_cfg w) tick' (w_out w))) as (os & Hent & Hfin); [simpl; unfold u32_max; lia|].
  eexists. split; [exact Hfin|]. simpl. rewrite Hout. simpl.
  destruct (entered_outputs _ _ _ _ Hent) as [-> ->]. split_and!; try done.
  unfold finish_code. simpl. by rewrite Hf.
Qed.

(** The limit on a test's time is computed from a clock that is read again
    after the check of the scenario's time: when the time runs out in between,
    the subtraction of the durations panics. *)
Theorem make_timeout_panics w d timeout :
  sd_timeout (sc_description (w_sc w)) = Some timeout -> (0 <= d)%Z ->
  (timeout < duration_since (env_now (w_tick w)) (sc_start_time (w_sc w)))%Z ->
  (d + duration_since (env_now (w_tick w)) (sc_start_time (w_sc w)) <= duration_max)%Z ->
  make_timeout (Some d) w = Panic "overflow when subtracting durations".
Proof.
  intros Ht Hd Hlt Hmax. unfold make_timeout, instant_now, sc_get, gets, mbind, M_bind. simpl.
  unfold id. rewrite Ht, (proj2 (Z.ltb_ge _ _)) by lia.
  by rewrite !(proj2 (Z.ltb_lt _ _)) by lia.
Qed.

End scenario.

(** ** A scenario of two tests, the second requiring the first *)

Module SampleScenario.

#[export] Instance libs : Libraries := sample_libraries.

#[export] Existing Instance sample_dependy.
#[export] Existing Instance sample_dependy_laws.
#[export] Existing Instance sample_env.

Definition a : UnitName := mkName "a" UnitKind.Test.
Definition b : UnitName := mkName "b" UnitKind.Test.

Definition test_desc (n : UnitName) (requires : list UnitName) : TestDescription :=
  mkTestDescription n "" "" [] requires [] [] None None None Simple None "true" None None None "/units".

Definition tests : list (UnitName * TestRc) :=
  [(a, mkTestRc (test_desc a [])); (b, mkTestRc (test_desc b [a]))].

Definition get_test (n : UnitName) : option TestRc :=
  if decide (n = a) then Some (mkTestRc (test_desc a []))
  else if decide (n = b) then Some (mkTestRc (test_desc b [a])) else None.

Definition desc (timeout : option Duration) (stop : option Z) : ScenarioDescription :=
  mkScenarioDescription (mkName "s" UnitKind.Scenario) "" "" [] [b] [] timeout None "/units"
    None None None None None None stop.

Definition graph : Dependy := (fun '(n, t) => test_dep [] n (rc_desc t)) <$> tests.

Definition scenario (timeout : option Duration) (stop : option Z) : Scenario :=
  match scenario_new (desc timeout stop) [a; b] get_test graph 0 with
  | Done s => s
  | _ => mkScenario (desc timeout stop) [] ∅ ∅ TestState.Pending 0 ScenarioState.Idle "" graph 0 None
  end.

Definition world (s : Scenario) : ScW := mkScW s (config_new) 0 [].

Lemma scenario_wf timeout stop :
  (forall c, stop = Some c -> (0 <= c)%Z) -> sc_wf (scenario timeout stop).
Proof.
  intros Hstop.
  destruct (scenario_new_wf (desc timeout stop) [a; b] get_test graph 0) as (s & Hs & _ & Hwf).
  - intros n. rewrite !elem_of_cons. intros [->|[->|[]%elem_of_nil]]; eexists; split; reflexivity.
  - vm_compute. repeat constructor; set_solver.
  - done.
  - intros [|[|i]] n p; simpl; [| |done]; intros [= <-].
    + vm_compute. by intros ?%elem_of_nil.
    + vm_compute. intros Hp%list_elem_of_singleton. right. exists 0. split; [lia|]. by rewrite Hp.
  - unfold scenario. rewrite Hs. by apply Hwf.
Qed.

(** The world after a step, with its outputs read. *)
Definition step (u : UnitName) (code : Z) (w : ScW) : ScW :=
  match advance u code w with Done (_, w') => w' | _ => w end.
Definition read (w : ScW) : ScW := w <| w_out := [] |>.

Lemma step_wf u code w : sc_wf (w_sc w) -> no_time_limit (w_sc w) -> sc_wf (w_sc (step u code w)).
Proof.
  intros Hwf Hlim. unfold step. destruct (advance_run w u code Hwf Hlim) as (s' & tick & os & Ha & ->).
  by destruct (advanced_inv _ _ _ Ha Hwf) as (_ & Hwf' & _).
Qed.

Lemma step_run u code w :
  sc_wf (w_sc w) -> no_time_limit (w_sc w) -> advance u code w = Done (tt, step u code w).
Proof.
  intros Hwf Hlim. unfold step. by destruct (advance_run w u code Hwf Hlim) as (s' & tick & os & _ & ->).
Qed.

(** Idle; running [a]; running [b]; at the end, all passed. *)
Definition w0 : ScW := world (scenario None None).
Definition w1 : ScW := read (step a 0 w0).
Definition w2 : ScW := read (step a 0 w1).

Lemma read_wf w : sc_wf (w_sc w) -> sc_wf (w_sc (read w)).
Proof. done. Qed.

Lemma wf0 : sc_wf (w_sc w0).
Proof. by apply scenario_wf. Qed.
Lemma lim0 : no_time_limit (w_sc w0).
Proof. by left. Qed.
Lemma wf1 : sc_wf (w_sc w1).
Proof. exact (read_wf _ (step_wf _ _ _ wf0 lim0)). Qed.
Lemma lim1 : no_time_limit (w_sc w1).
Proof. left. by vm_compute. Qed.
Lemma wf2 : sc_wf (w_sc w2).
Proof. exact (read_wf _ (step_wf _ _ _ wf1 lim1)). Qed.
Lemma lim2 : no_time_limit (w_sc w2).
Proof. left. by vm_compute. Qed.

Lemma advance_safe_witness : exists w', advance a 0 w0 = Done (tt, w') /\ sc_wf (w_sc w').
Proof.
  destruct (advance_safe w0 a 0 wf0 lim0) as (w' & Hrun & Hwf & _).
  exact (ex_intro _ w' (conj Hrun Hwf)).
Defined.

Lemma scenario_finishes_witness : exists w',
  run [(a, 0); (a, 0); (b, 1); (b, 0); (b, 0)]%Z w0 = Done (tt, w') /\
  sc_state (w_sc w') = ScenarioState.ScenarioFinished.
Proof. apply (scenario_finishes w0 _ wf0 lim0); by vm_compute. Defined.

Lemma tests_started_in_order_witness : exists w',
  run [(a, 0); (a, 0); (b, 0)]%Z w0 = Done (tt, w') /\
  started (w_out w') `sublist_of` test_sequence (w_sc w0) /\ NoDup (started (w_out w')).
Proof. apply (tests_started_in_order w0 _ wf0 lim0); by vm_compute. Defined.

Lemma started_dependencies_passed_witness :
  started (w_out (step a 0 w1)) = [b] /\ sc_test_states (w_sc (step a 0 w1)) !! a = Some TestState.Pass.
Proof.
  split; [by vm_compute|].
  apply (started_dependencies_passed w1 a 0 (step a 0 w1) b a wf1 lim1); [by vm_compute|done| | |].
  - apply (step_run _ _ _ wf1 lim1).
  - vm_compute. by left.
  - apply requires_parent. vm_compute. by left.
Defined.

Lemma finish_code_counts_failures_witness : finishes (w_out (step b 7 w2)) = [501%Z].
Proof.
  destruct (finish_code_counts_failures w2 b 7 (step b 7 w2) wf2 lim2 eq_refl
    (step_run _ _ _ wf2 lim2)) as [Hf _].
  rewrite Hf. by vm_compute.
Defined.

Lemma success_means_all_passed_witness :
  sc_test_states (w_sc (step b 0 w2)) !! b = Some TestState.Pass.
Proof.
  apply (success_means_all_passed w2 b 0 (step b 0 w2) wf2); [by vm_compute..| | |].
  - apply (step_run _ _ _ wf2 lim2).
  - vm_compute. by left.
  - vm_compute. by right; left.
Defined.

(** The same scenario, stopping at its first failure. *)
Definition stopping1 : ScW := read (step a 0 (world (scenario None (Some 1%Z)))).

Lemma wf_stopping1 : sc_wf (w_sc stopping1).
Proof. apply step_wf; [|by left]. apply scenario_wf. by intros c [= <-]. Qed.

Lemma stop_after_failure_count_witness :
  started (w_out (step a 1 stopping1)) = [] /\ past_tests (sc_state (w_sc (step a 1 stopping1))).
Proof.
  assert (no_time_limit (w_sc stopping1)) as Hlim by (left; by vm_compute).
  apply (stop_after_failure_count stopping1 0 a 1 (step a 1 stopping1) 1 wf_stopping1 Hlim);
    [by vm_compute..| |by vm_compute].
  apply (step_run _ _ _ wf_stopping1 Hlim).
Defined.

Lemma scenario_load_wf_witness : exists r,
  scenario_load (desc None None) (fun _ => true) tests get_test 0 = Done r /\
  forall s, r = Ok s -> test_sequence s <> [] ->
    (Z.of_nat (length (test_sequence s)) + 501 <= u32_max)%Z ->
    sc_wf s /\ sc_state s = ScenarioState.Idle.
Proof.
  apply scenario_load_wf; [| |done].
  - intros n t. unfold tests. rewrite !elem_of_cons. intros [[= -> ->]|[[= -> ->]|[]%elem_of_nil]]; reflexivity.
  - intros n t. unfold get_test, tests. rewrite !elem_of_cons. split.
    + intros Ht. repeat case_decide; simplify_eq; auto.
    + intros [[= -> ->]|[[= -> ->]|[]%elem_of_nil]]; reflexivity.
Defined.

Lemma activate_starts_afresh_witness : exists w',
  scenario_activate w2 = Done (Ok tt, w') /\ sc_state (w_sc w') = ScenarioState.Idle.
Proof.
  destruct (activate_starts_afresh w2) as (w' & Hrun & _ & Hst & _); [apply wf_static, wf2|].
  exact (ex_intro _ w' (conj Hrun Hst)).
Defined.

(** [b] also requires [c], which failed, after [a], which is assumed. *)
Definition c : UnitName := mkName "c" UnitKind.Test.
Definition assuming : Scenario :=
  scenario None None <| sc_description ::= fun d => d <| sd_assumptions := [a] |> |>
    <| sc_graph := [mkDep b [a; c] [] []] |>
    <| sc_test_states := {[ b := TestState.Pending; c := TestState.Fail "exit 1" ]} |>.

Lemma assumed_parent_hides_failure_witness :
  all_dependencies_succeeded 2 assuming b = Done true /\
  sc_test_states assuming !! c = Some (TestState.Fail "exit 1").
Proof.
  split; [|by vm_compute].
  apply (assumed_parent_hides_failure 1 assuming b a [c]); [by vm_compute|]. vm_compute. by left.
Defined.

Definition empty_scenario : ScW :=
  world (scenario None None <| sc_test_sequence := [] |> <| sc_tests := ∅ |> <| sc_test_states := ∅ |>).

Lemma empty_scenario_panics_witness : advance a 0 empty_scenario = Panic "index out of bounds".
Proof. by apply empty_scenario_panics. Defined.

(** No time at all. *)
Lemma timeout_reports_success_witness : exists w',
  advance a 0 (world (scenario (Some 0%Z) None)) = Done (tt, w') /\
  started (w_out w') = [] /\ finishes (w_out w') = [200%Z] /\
  sc_test_states (w_sc w') = {[ a := TestState.Pending; b := TestState.Pending ]}.
Proof.
  apply (timeout_reports_success (world (scenario (Some 0%Z) None))); try done.
  - by apply scenario_wf.
  - exists 0%Z. done.
Defined.

Definition late : ScW :=
  world (scenario (Some 5%Z) None <| sc_start_time := (-6)%Z |>).

Lemma make_timeout_panics_witness :
  make_timeout (Some 1%Z) late = Panic "overflow when subtracting durations".
Proof. apply (make_timeout_panics late 1 5); [done|done|by vm_compute|by vm_compute]. Defined.

End SampleScenario.
