(* ===== verification/Manager.v ===== *)
(** * The unit manager ([src/src/unitmanager.rs])

    The manager holds the loaded units, decides which are selected and which
    are active, and serves the requests of the units.  Its cells
    [current_scenario] and [current_jig] are [RefCell]s that its operations
    borrow while they call each other; a second borrow panics, so the borrows
    are part of the state. *)

From S2P Require Import Prelude Str Path Unit Foreign Config Events Env Samples Descriptions Interface Trigger Logger Jig Test Scenario.

(** ** State *)

(** The borrows of a [RefCell]. *)
Inductive Borrow := Unborrowed | Reading (n : nat) | Writing.

Section manager.
Context `{Libraries} `{DependyLib} `{Env}.

(** Scenarios live behind pointers, since [current_scenario] and [scenarios]
    may hold the same one.  Jigs never change, so a copy is as good as a
    pointer. *)
Record Manager := mkManager {
  m_io : IO;
  m_interfaces : gmap UnitName Interface;
  m_jigs : gmap UnitName Jig;
  m_loggers : gmap UnitName Logger;
  m_scenarios : gmap UnitName positive;
  m_tests : gmap UnitName Test;
  m_triggers : gmap UnitName Trigger;
  m_current_scenario : option positive;
  m_current_jig : option Jig;
  m_selected : gset UnitName;
  m_active : gset UnitName;
  m_heap : gmap positive Scenario;
  m_cs_borrow : Borrow;
  m_cj_borrow : Borrow;
}.

#[export] Instance eta_Manager : Eta Manager := mkEta _ (fun r =>
  mkManager (m_io r) (m_interfaces r) (m_jigs r) (m_loggers r) (m_scenarios r) (m_tests r)
    (m_triggers r) (m_current_scenario r) (m_current_jig r) (m_selected r) (m_active r)
    (m_heap r) (m_cs_borrow r) (m_cj_borrow r)).

(** [UnitManager::new], without the thread that forwards control messages. *)
Definition manager_new (io : IO) : Manager :=
  mkManager io ∅ ∅ ∅ ∅ ∅ ∅ None None ∅ ∅ ∅ Unborrowed Unborrowed.

(** [control_message_monitor]: every control message is broadcast. *)
Definition control_message_monitor (msgs : list ManagerControlMessage) : list UnitEvent :=
  Event.ManagerRequest <$> msgs.

Abbreviation MM := (M Manager).

Definition io {A} (m : M IO A) : MM A := zoom m_io (fun i w => w <| m_io := i |>) m.

Definition broadcast_status (e : UnitStatusEvent) : MM unit := io (io_broadcast (Event.Status e)).
Definition manager_log_info (id : UnitName) (txt : string) : MM unit := io (log_info id txt).
Definition manager_log_error (id : UnitName) (txt : string) : MM unit := io (log_error id txt).

(** Run while a cell is borrowed. *)
Definition borrow {A} (cell : Manager -> Borrow) (put : Borrow -> Manager -> Manager) (m : MM A) : MM A :=
  fun w =>
    match cell w with
    | Writing => Panic "already mutably borrowed: BorrowError"
    | b =>
      let during := match b with Reading n => Reading (S n) | _ => Reading 1 end in
      match m (put during w) with
      | Done (a, w') => Done (a, put b w')
      | Panic msg => Panic msg
      | OutOfFuel => OutOfFuel
      end
    end.

Definition borrow_mut {A} (cell : Manager -> Borrow) (put : Borrow -> Manager -> Manager) (m : MM A) : MM A :=
  fun w =>
    match cell w with
    | Unborrowed =>
      match m (put Writing w) with
      | Done (a, w') => Done (a, put Unborrowed w')
      | Panic msg => Panic msg
      | OutOfFuel => OutOfFuel
      end
    | _ => Panic "already borrowed: BorrowMutError"
    end.

Definition put_cs (b : Borrow) (w : Manager) : Manager := w <| m_cs_borrow := b |>.
Definition put_cj (b : Borrow) (w : Manager) : Manager := w <| m_cj_borrow := b |>.

Definition with_current_scenario {A} (m : MM A) : MM A := borrow m_cs_borrow put_cs m.
Definition with_current_scenario_mut {A} (m : MM A) : MM A := borrow_mut m_cs_borrow put_cs m.
Definition with_current_jig {A} (m : MM A) : MM A := borrow m_cj_borrow put_cj m.
Definition with_current_jig_mut {A} (m : MM A) : MM A := borrow_mut m_cj_borrow put_cj m.

(** The scenario behind a pointer, and an operation on it. *)
Definition deref (p : positive) : MM Scenario :=
  o ← gets (fun w => m_heap w !! p); unwrap "dangling pointer" o.

Definition on_scenario {A} (p : positive) (m : M ScW A) : MM A :=
  s ← deref p;
  fun w =>
    match m (mkScW s (io_cfg (m_io w)) (io_tick (m_io w)) (io_out (m_io w))) with
    | Done (a, sw) =>
      Done (a, w <| m_heap ::= <[p := w_sc sw]> |> <| m_io := mkIO (w_cfg sw) (w_tick sw) (w_out sw) |>)
    | Panic msg => Panic msg
    | OutOfFuel => OutOfFuel
    end.

(** The id of the current scenario, read while the cell is borrowed. *)
Definition current_scenario_id : MM (option UnitName) :=
  with_current_scenario (
    c ← gets m_current_scenario;
    match c with
    | None => mret None
    | Some p => s ← deref p; mret (Some (sc_id s))
    end).

Definition current_jig_id : MM (option UnitName) :=
  with_current_jig (c ← gets m_current_jig; mret (jg_id <$> c)).

(** ** Queries *)

Definition jig_is_loaded (w : Manager) (id : UnitName) : bool :=
  bool_decide (is_Some (m_jigs w !! id)).

Definition get_scenario_named (id : UnitName) : MM (option positive) :=
  gets (fun w => m_scenarios w !! id).

Definition get_test_named (w : Manager) (id : UnitName) : option TestRc :=
  (fun t => mkTestRc (te_desc t)) <$> m_tests w !! id.

(** ** Deactivating *)

Definition deactivate_interface (id : UnitName) : MM (result UnitDeactivateError unit) :=
  o ← gets (fun w => m_interfaces w !! id);
  match o with
  | None => mret (Err DeactivateUnitNotFound)
  | Some i => '(i', r) ← io (interface_deactivate i);
              modify (fun w => w <| m_interfaces ::= <[id := i']> |>);; mret r
  end.

Definition deactivate_trigger (id : UnitName) : MM (result UnitDeactivateError unit) :=
  o ← gets (fun w => m_triggers w !! id);
  match o with
  | None => mret (Err DeactivateUnitNotFound)
  | Some t => '(t', r) ← io (trigger_deactivate t);
              modify (fun w => w <| m_triggers ::= <[id := t']> |>);; mret r
  end.

Definition deactivate_logger (id : UnitName) : MM (result UnitDeactivateError unit) :=
  o ← gets (fun w => m_loggers w !! id);
  match o with
  | None => mret (Err DeactivateUnitNotFound)
  | Some l => '(l', r) ← io (logger_deactivate l);
              modify (fun w => w <| m_loggers ::= <[id := l']> |>);; mret r
  end.

Definition deactivate_test (id : UnitName) : MM (result UnitDeactivateError unit) :=
  o ← gets (fun w => m_tests w !! id);
  match o with
  | None => mret (Err DeactivateUnitNotFound)
  | Some t => '(t', r) ← io (test_deactivate t);
              modify (fun w => w <| m_tests ::= <[id := t']> |>);; mret r
  end.

Definition deactivate_scenario (id : UnitName) : MM (result UnitDeactivateError unit) :=
  with_current_scenario_mut (
    c ← gets m_current_scenario;
    match c with
    | None => mret (Ok tt)
    | Some p =>
      s ← deref p;
      if bool_decide (sc_id s <> id) then mret (Ok tt)
      else manager_log_info id "scenario ended";; mret (Ok tt)
    end).

Definition deactivate_jig (id : UnitName) : MM (result UnitDeactivateError unit) :=
  with_current_jig_mut (
    c ← gets m_current_jig;
    mret (match c with
          | None => Ok tt
          | Some j => if bool_decide (jg_id j <> id) then Ok tt else jig_deactivate j
          end)).

Definition deactivate (id : UnitName) (reason : string) : MM unit :=
  active ← gets m_active;
  if bool_decide (id ∉ active) then mret tt
  else
    res ← (match un_kind id with
           | UnitKind.Interface => deactivate_interface id
           | UnitKind.Jig => deactivate_jig id
           | UnitKind.Logger => deactivate_logger id
           | UnitKind.Scenario => deactivate_scenario id
           | UnitKind.Test => deactivate_test id
           | UnitKind.Trigger => deactivate_trigger id
           | UnitKind.Internal => mret (Ok tt)
           end);
    match res with
    | Ok _ =>
      modify (fun w => w <| m_active ::= fun a => a ∖ {[ id ]} |>);;
      broadcast_status (new_deactivate_success id reason)
    | Err e =>
      broadcast_status (new_deactivate_failure id
        ("unable to deactivate: " +:+ UnitDeactivateError_fmt e))
    end.

(** ** Deselecting *)

(** The units whose [deselect] does nothing. *)
Definition deselect_plain {A} (units : Manager -> gmap UnitName A) (id : UnitName) :
    MM (result UnitDeselectError unit) :=
  o ← gets (fun w => units w !! id);
  mret (match o with Some _ => Ok tt | None => Err DeselectUnitNotFound end).

Definition deselect_jig (deselect : UnitName -> string -> MM unit) (id : UnitName) :
    MM (result UnitDeselectError unit) :=
  with_current_jig_mut (
    c ← gets m_current_jig;
    match c with
    | None => mret (Ok tt)
    | Some j =>
      if bool_decide (jg_id j <> id) then mret (Ok tt)
      else
        match jd_default_scenario (jg_desc j) with
        | Some scenario_id => deselect scenario_id "jig is deselecting"
        | None => mret tt
        end;;
        modify (fun w => w <| m_current_jig := None |>);;
        mret (Ok tt)
    end).

Definition deselect_scenario (deselect : UnitName -> string -> MM unit) (id : UnitName) :
    MM (result UnitDeselectError unit) :=
  cur ← current_scenario_id;
  if bool_decide (cur <> Some id) then mret (Ok tt)
  else
    with_current_scenario_mut (
      c ← gets m_current_scenario;
      modify (fun w => w <| m_current_scenario := None |>);;
      match c with
      | None => mret (Ok tt)
      | Some p =>
        s ← deref p;
        forM (test_sequence s) (fun test_id => deselect test_id "scenario is deselecting");;
        mret (Ok tt)
      end).

(** The fuel is the depth of the calls: a jig deselects its scenario, which
    deselects its tests. *)
Fixpoint deselect (fuel : nat) (id : UnitName) (reason : string) : MM unit :=
  match fuel with
  | 0 => out_of_fuel
  | S fuel =>
    deactivate id "unit is being deselcted";;
    selected ← gets m_selected;
    if bool_decide (id ∉ selected) then mret tt
    else
      res ← (match un_kind id with
             | UnitKind.Internal => mret (Ok tt)
             | UnitKind.Interface => deselect_plain m_interfaces id
             | UnitKind.Jig => deselect_jig (deselect fuel) id
             | UnitKind.Logger => deselect_plain m_loggers id
             | UnitKind.Scenario => deselect_scenario (deselect fuel) id
             | UnitKind.Test => deselect_plain m_tests id
             | UnitKind.Trigger => deselect_plain m_triggers id
             end);
      match res with
      | Ok _ =>
        modify (fun w => w <| m_selected ::= fun s => s ∖ {[ id ]} |>);;
        broadcast_status (new_deselected id reason)
      | Err _ => mret tt
      end
  end.

(** ** Selecting *)

Definition select_plain {A} (units : Manager -> gmap UnitName A) (id : UnitName) :
    MM (result UnitSelectError unit) :=
  o ← gets (fun w => units w !! id);
  mret (match o with Some _ => Ok tt | None => Err SelectUnitNotFound end).

Definition select_test (id : UnitName) : MM (result UnitSelectError unit) :=
  o ← gets (fun w => m_tests w !! id);
  loaded ← gets jig_is_loaded;
  mret (match o with Some t => test_select t loaded | None => Err SelectUnitNotFound end).

Definition select_scenario (deselect : UnitName -> string -> MM unit) (select : UnitName -> MM unit)
    (id : UnitName) : MM (result UnitSelectError unit) :=
  o ← gets (fun w => m_scenarios w !! id);
  match o with
  | None => mret (Err SelectUnitNotFound)
  | Some new_scenario =>
    cur ← current_scenario_id;
    if bool_decide (cur = Some id) then mret (Ok tt)
    else
      match cur with
      | Some old_id => deselect old_id "switching to a new scenario"
      | None => mret tt
      end;;
      with_current_scenario_mut (modify (fun w => w <| m_current_scenario := Some new_scenario |>));;
      s ← deref new_scenario;
      forM (test_sequence s) select;;
      mret (Ok tt)
  end.

Definition select_jig (deselect : UnitName -> string -> MM unit) (select : UnitName -> MM unit)
    (id : UnitName) : MM (result UnitSelectError unit) :=
  o ← gets (fun w => m_jigs w !! id);
  match o with
  | None => mret (Err SelectUnitNotFound)
  | Some new_jig =>
    cur ← current_jig_id;
    if bool_decide (cur = Some id) then mret (Ok tt)
    else
      match cur with
      | Some old_id => deselect old_id "switching to a new jig"
      | None => mret tt
      end;;
      with_current_jig_mut (modify (fun w => w <| m_current_jig := Some new_jig |>));;
      match jd_default_scenario (jg_desc new_jig) with
      | Some scenario_name => select scenario_name
      | None => mret tt
      end;;
      mret (Ok tt)
  end.

Fixpoint select (fuel : nat) (id : UnitName) : MM unit :=
  match fuel with
  | 0 => out_of_fuel
  | S fuel =>
    selected ← gets m_selected;
    if bool_decide (id ∈ selected) then mret tt
    else
      res ← (match un_kind id with
             | UnitKind.Interface => select_plain m_interfaces id
             | UnitKind.Jig => select_jig (deselect fuel) (select fuel) id
             | UnitKind.Logger => select_plain m_loggers id
             | UnitKind.Scenario => select_scenario (deselect fuel) (select fuel) id
             | UnitKind.Test => select_test id
             | UnitKind.Trigger => select_plain m_triggers id
             | UnitKind.Internal => mret (Ok tt)
             end);
      match res with
      | Ok _ =>
        modify (fun w => w <| m_selected ::= fun s => {[ id ]} ∪ s |>);;
        broadcast_status (new_selected id)
      | Err e => broadcast_status (new_select_failed id (UnitSelectError_fmt e))
      end
  end.

(** ** Activating *)

(** [depth] is the depth of the calls of [select] and [deselect], and
    [program_lines] how much a jig's test program prints at most. *)
Context (depth program_lines : nat).

Definition activate_interface (id : UnitName) : MM (result UnitActivateError unit) :=
  o ← gets (fun w => m_interfaces w !! id);
  match o with
  | None => mret (Err ActivateUnitNotFound)
  | Some i => '(i', r) ← io (interface_activate i);
              modify (fun w => w <| m_interfaces ::= <[id := i']> |>);; mret r
  end.

Definition activate_trigger (id : UnitName) : MM (result UnitActivateError unit) :=
  o ← gets (fun w => m_triggers w !! id);
  match o with
  | None => mret (Err ActivateUnitNotFound)
  | Some t => '(t', r) ← io (trigger_activate t);
              modify (fun w => w <| m_triggers ::= <[id := t']> |>);; mret r
  end.

Definition activate_logger (id : UnitName) : MM (result UnitActivateError unit) :=
  o ← gets (fun w => m_loggers w !! id);
  match o with
  | None => mret (Err ActivateUnitNotFound)
  | Some l => '(l', r) ← io (logger_activate l);
              modify (fun w => w <| m_loggers ::= <[id := l']> |>);; mret r
  end.

Definition activate_test (id : UnitName) : MM (result UnitActivateError unit) :=
  o ← gets (fun w => m_tests w !! id);
  match o with
  | None => mret (Err ActivateUnitNotFound)
  | Some t => '(t', r) ← io (test_activate t);
              modify (fun w => w <| m_tests ::= <[id := t']> |>);; mret r
  end.

Definition activate_jig (id : UnitName) : MM (result UnitActivateError unit) :=
  with_current_jig (
    c ← gets m_current_jig;
    match c with
    | None => mret (Err UnitNotSelected)
    | Some j => if bool_decide (jg_id j <> id) then mret (Err UnitNotSelected)
                else io (jig_activate j)
    end).

Definition activate_scenario (id : UnitName) : MM (result UnitActivateError unit) :=
  with_current_scenario (
    c ← gets m_current_scenario;
    match c with
    | None => mret (Err UnitNotSelected)
    | Some p =>
      s ← deref p;
      if bool_decide (sc_id s <> id) then mret (Err UnitNotSelected)
      else
        manager_log_info id "scenario starting";;
        on_scenario p scenario_activate
    end).

Definition activate (id : UnitName) : MM unit :=
  select depth id;;
  active ← gets m_active;
  if bool_decide (id ∈ active) then mret tt
  else
    selected ← gets m_selected;
    if bool_decide (id ∉ selected) then mret tt
    else
      res ← (match un_kind id with
             | UnitKind.Interface => activate_interface id
             | UnitKind.Jig => activate_jig id
             | UnitKind.Logger => activate_logger id
             | UnitKind.Scenario => activate_scenario id
             | UnitKind.Test => activate_test id
             | UnitKind.Trigger => activate_trigger id
             | UnitKind.Internal => mret (Ok tt)
             end);
      match res with
      | Ok _ =>
        modify (fun w => w <| m_active ::= fun a => {[ id ]} ∪ a |>);;
        broadcast_status (new_active id)
      | Err e =>
        broadcast_status (new_active_failed id ("unable to activate: " +:+ UnitActivateError_fmt e))
      end.

(** [keys().next()] *)
Definition first_key {A} (units : Manager -> gmap UnitName A) : MM (option UnitName) :=
  m ← gets units; l ← io (iter_map m); mret (head l.*1).

Definition refresh_defaults : MM unit :=
  jig ← current_jig_id;
  jigs ← gets m_jigs;
  when (bool_decide (jig = None) && negb (bool_decide (jigs = ∅)))
    (k ← first_key m_jigs;
     id ← unwrap "called `Option::unwrap()` on a `None` value" k;
     activate id);;
  scenario ← current_scenario_id;
  scenarios ← gets m_scenarios;
  when (bool_decide (scenario = None) && negb (bool_decide (scenarios = ∅)))
    (k ← first_key m_scenarios;
     id ← unwrap "called `Option::unwrap()` on a `None` value" k;
     select depth id).

(** ** Messages to interfaces *)

(** The loop over the messages, which stops at the first error. *)
Fixpoint output_messages (i : Interface) (messages : list ManagerStatusMessage) :
    M IO (option ForeignError) :=
  match messages with
  | [] => mret None
  | msg :: messages =>
    r ← interface_output_message i msg;
    match r with
    | Err e => mret (Some e)
    | Ok _ => output_messages i messages
    end
  end.

Definition send_messages_to (sender_name : UnitName) (messages : list ManagerStatusMessage) : MM unit :=
  deactivate_reason ←
    (match un_kind sender_name with
     | UnitKind.Interface =>
       o ← gets (fun w => m_interfaces w !! sender_name);
       i ← unwrap "Unable to find Interface in the library" o;
       io (output_messages i messages)
     | _ => mret None
     end);
  match deactivate_reason with
  | Some e => deactivate sender_name ("communication error: " +:+ fe_display e)
  | None => mret tt
  end.

Definition broadcast_messages (messages : list ManagerStatusMessage) : MM unit :=
  interfaces ← gets m_interfaces;
  l ← io (iter_map interfaces);
  forM l.*1 (fun interface_id => send_messages_to interface_id messages).

Definition broadcast_message (msg : ManagerStatusMessage) : MM unit := broadcast_messages [msg].
Definition broadcast_skipped (unit_id : UnitName) (reason : string) : MM unit :=
  broadcast_messages [Status.Skipped unit_id reason].
Definition broadcast_finished (unit_id : UnitName) (code : Z) (message : string) : MM unit :=
  broadcast_messages [Status.Finished unit_id code message].

Definition broadcast_selected_jig : MM unit :=
  with_current_jig (
    c ← gets m_current_jig;
    match c with
    | None => mret tt
    | Some j => broadcast_messages [Status.Jig (Some (jg_id j))]
    end).

Definition scenario_list : MM (list UnitName) :=
  scenarios ← gets m_scenarios; l ← io (iter_map scenarios); mret l.*1.

Definition broadcast_scenario_list : MM unit :=
  names ← scenario_list; broadcast_messages [Status.Scenarios names].

Definition broadcast_selected_scenario : MM unit :=
  with_current_scenario (
    c ← gets m_current_scenario;
    match c with
    | None => mret tt
    | Some p =>
      s ← deref p;
      broadcast_messages [Status.Scenario (Some (sc_id s)); Status.Tests (sc_id s) (test_sequence s)]
    end).

Definition broadcast_jig_named (jig_id : UnitName) : MM unit :=
  o ← gets (fun w => m_jigs w !! jig_id);
  match o with
  | None => mret tt
  | Some j =>
    broadcast_messages [Status.Describe (jg_id j) FieldName (jd_name (jg_desc j));
                        Status.Describe (jg_id j) FieldDescription (jd_description (jg_desc j))]
  end.

Definition broadcast_scenario_named (scenario_id : UnitName) : MM unit :=
  o ← get_scenario_named scenario_id;
  match o with
  | None => mret tt
  | Some p =>
    broadcast_scenario_list;;
    s ← deref p;
    broadcast_messages
      [Status.Describe scenario_id FieldName (sd_name (sc_description s));
       Status.Describe scenario_id FieldDescription (sd_description (sc_description s))]
  end.

Definition broadcast_test_named (unit_id : UnitName) : MM unit :=
  o ← gets (fun w => m_tests w !! unit_id);
  match o with
  | None => mret tt
  | Some t =>
    broadcast_messages [Status.Describe unit_id FieldName (td_name (te_desc t));
                        Status.Describe unit_id FieldDescription (td_description (te_desc t))]
  end.

Definition send_hello_to (sender_name : UnitName) : MM unit :=
  send_messages_to sender_name [Status.Hello "Jig/20 1.0"].

Definition send_jig_to (sender_name : UnitName) : MM unit :=
  messages ← with_current_jig (
    c ← gets m_current_jig;
    mret (match c with
          | None => [Status.Jig None]
          | Some j => [Status.Jig (Some (jg_id j));
                       Status.Describe (jg_id j) FieldName (jd_name (jg_desc j));
                       Status.Describe (jg_id j) FieldDescription (jd_description (jg_desc j))]
          end));
  send_messages_to sender_name messages.

(** The two descriptions of each scenario, in the order of the iteration. *)
Fixpoint describe_scenarios (l : list (UnitName * positive)) : MM (list ManagerStatusMessage) :=
  match l with
  | [] => mret []
  | (scenario_id, p) :: l =>
    s ← deref p;
    rest ← describe_scenarios l;
    mret (Status.Describe scenario_id FieldName (sd_name (sc_description s))
            :: Status.Describe scenario_id FieldDescription (sd_description (sc_description s)) :: rest)
  end.

Definition send_scenarios_to (sender_name : UnitName) : MM unit :=
  names ← scenario_list;
  scenarios ← gets m_scenarios;
  l ← io (iter_map scenarios);
  messages ← describe_scenarios l;
  send_messages_to sender_name (Status.Scenarios names :: messages).

Definition describe_test (p : UnitName * TestRc) : list ManagerStatusMessage :=
  [Status.Describe p.1 FieldName (td_name (rc_desc p.2));
   Status.Describe p.1 FieldDescription (td_description (rc_desc p.2))].

Definition send_scenario_to (sender_name scenario_name : UnitName) : MM unit :=
  o ← get_scenario_named scenario_name;
  messages ←
    (match o with
     | None => mret [Status.Scenario None]
     | Some p =>
       s ← deref p;
       l ← io (iter_map (sc_tests s));
       mret (Status.Scenario (Some scenario_name) :: concat (describe_test <$> l)
               ++ [Status.Tests (sc_id s) (test_sequence s)])
     end);
  send_messages_to sender_name messages.

Definition send_tests_to (sender_name : UnitName) (scenario_name_opt : option UnitName) : MM unit :=
  scenario_id ←
    (match scenario_name_opt with
     | Some n => mret (Some n)
     | None => current_scenario_id
     end);
  match scenario_id with
  | None =>
    manager_log_error sender_name
      "unable to list tests, no scenario specified and no scenario selected"
  | Some scenario_id =>
    o ← get_scenario_named scenario_id;
    match o with
    | None =>
      manager_log_error sender_name
        ("unable to list tests, scenario " +:+ name_fmt scenario_id +:+ " not found")
    | Some p =>
      s ← deref p;
      send_messages_to sender_name [Status.Tests (sc_id s) (test_sequence s)]
    end
  end.

(** ** Unloading and loading *)

(** The deactivation and deselection that every [unload_*] starts with. *)
Definition unload_unit (id : UnitName) (reason : string) (remove : Manager -> Manager) : MM unit :=
  deactivate id reason;;
  deselect depth id reason;;
  modify remove.

Definition unload (id : UnitName) : MM unit :=
  deselect depth id "unloading";;
  match un_kind id with
  | UnitKind.Interface =>
    unload_unit id "interface is being unloaded" (fun w => w <| m_interfaces ::= delete id |>)
  | UnitKind.Jig => unload_unit id "jig is being unloaded" (fun w => w <| m_jigs ::= delete id |>)
  | UnitKind.Logger =>
    unload_unit id "logger is being unloaded" (fun w => w <| m_loggers ::= delete id |>)
  | UnitKind.Scenario =>
    unload_unit id "scenario is being unloaded" (fun w => w <| m_scenarios ::= delete id |>);;
    broadcast_scenario_list
  | UnitKind.Test => unload_unit id "test is being unloaded" (fun w => w <| m_tests ::= delete id |>)
  | UnitKind.Trigger =>
    unload_unit id "trigger is being unloaded" (fun w => w <| m_triggers ::= delete id |>)
  | UnitKind.Internal => mret tt
  end.

(** The [load!] macro: [known] says whether the unit is loaded already, and
    [load] loads and stores the new one. *)
Definition load_macro (id : UnitName) (known : Manager -> bool)
    (load : MM (result UnitIncompatibleReason unit)) : MM (result UnitIncompatibleReason UnitName) :=
  k ← gets known;
  when k (deselect depth id "reloading");;
  r ← load;
  match r with
  | Ok _ => broadcast_status (new_loaded id);; mret (Ok id)
  | Err e =>
    broadcast_status (new_load_failed id (UnitIncompatibleReason_fmt e));;
    mret (Err e)
  end.

Definition known_in {A} (units : Manager -> gmap UnitName A) (id : UnitName) (w : Manager) : bool :=
  bool_decide (is_Some (units w !! id)).

(** Store what was loaded. *)
Definition store {A} (r : result UnitIncompatibleReason A) (put : A -> Manager -> Manager) :
    MM (result UnitIncompatibleReason unit) :=
  match r with
  | Ok a => modify (put a);; mret (Ok tt)
  | Err e => mret (Err e)
  end.

Definition load_interface (d : InterfaceDescription) : MM (result UnitIncompatibleReason UnitName) :=
  load_macro (id_id d) (known_in m_interfaces (id_id d)) (
    r ← gets (fun w => interface_load d (jig_is_loaded w) (io_cfg (m_io w)));
    store r (fun i w => w <| m_interfaces ::= <[id_id d := i]> |>)).

Definition load_logger (d : LoggerDescription) : MM (result UnitIncompatibleReason UnitName) :=
  load_macro (ld_id d) (known_in m_loggers (ld_id d)) (
    r ← gets (fun w => logger_load d (jig_is_loaded w));
    store r (fun l w => w <| m_loggers ::= <[ld_id d := l]> |>)).

Definition load_trigger (d : TriggerDescription) : MM (result UnitIncompatibleReason UnitName) :=
  load_macro (rd_id d) (known_in m_triggers (rd_id d)) (
    r ← gets (fun w => trigger_load d (jig_is_loaded w));
    store r (fun t w => w <| m_triggers ::= <[rd_id d := t]> |>)).

Definition load_test (d : TestDescription) : MM (result UnitIncompatibleReason UnitName) :=
  load_macro (td_id d) (known_in m_tests (td_id d)) (
    store (test_load d) (fun t w => w <| m_tests ::= <[td_id d := t]> |>)).

Definition load_jig (d : JigDescription) : MM (result UnitIncompatibleReason UnitName) :=
  load_macro (jd_id d) (known_in m_jigs (jd_id d)) (
    r ← io (jig_load program_lines d);
    store r (fun j w => w <| m_jigs ::= <[jd_id d := j]> |>)).

(** A scenario gets a pointer of its own. *)
Definition load_scenario (d : ScenarioDescription) : MM (result UnitIncompatibleReason UnitName) :=
  load_macro (sd_id d) (known_in m_scenarios (sd_id d)) (
    tests ← gets m_tests;
    l ← io (iter_map tests);
    now ← io (ask env_now);
    w ← get;
    r ← liftO (scenario_load d (jig_is_loaded w) ((fun '(n, t) => (n, mkTestRc (te_desc t))) <$> l)
                 (get_test_named w) now);
    store r (fun s w =>
      let p := fresh (dom (m_heap w)) in
      w <| m_heap ::= <[p := s]> |> <| m_scenarios ::= <[sd_id d := p]> |>)).

(** ** Requests *)

Definition manager_request (msg : ManagerControlMessage) : MM unit :=
  let sender_name := cm_sender msg in
  match cm_contents msg with
  | Ctrl.Scenarios => send_scenarios_to sender_name
  | Ctrl.Tests scenario_name => send_tests_to sender_name scenario_name
  | Ctrl.Log txt => manager_log_info sender_name txt
  | Ctrl.LogError txt => manager_log_error sender_name txt
  | Ctrl.Scenario new_scenario_name =>
    o ← get_scenario_named new_scenario_name;
    match o with
    | Some _ => select depth new_scenario_name;; broadcast_selected_scenario
    | None =>
      manager_log_error sender_name ("unable to find scenario " +:+ name_fmt new_scenario_name)
    end
  | Ctrl.Error err => manager_log_error sender_name err
  | Ctrl.Jig => send_jig_to sender_name
  | Ctrl.InitialGreeting =>
    send_hello_to sender_name;;
    send_jig_to sender_name;;
    send_scenarios_to sender_name;;
    with_current_scenario (
      c ← gets m_current_scenario;
      match c with
      | None => mret tt
      | Some p => s ← deref p; send_scenario_to sender_name (sc_id s)
      end)
  | Ctrl.ChildExited =>
    broadcast_status (new_active_failed sender_name "Unit unexpectedly exited")
  | Ctrl.AdvanceScenario result =>
    with_current_scenario (
      c ← gets m_current_scenario;
      match c with
      | None => mret tt
      | Some p => on_scenario p (advance sender_name result)
      end)
  | Ctrl.Unimplemented verb remainder =>
    manager_log_error sender_name
      ("unimplemented verb: " +:+ verb +:+ " (args: " +:+ remainder +:+ ")")
  | Ctrl.StartScenario scenario_name_opt =>
    busy ← with_current_scenario (
      c ← gets m_current_scenario;
      match c with
      | None => mret false
      | Some p => s ← deref p; mret (is_running s)
      end);
    if (busy : bool) then
      manager_log_error sender_name "unable to start scenario: scenario not idle"
    else
      name ←
        (match scenario_name_opt with
         | Some scenario_name => select depth scenario_name;; mret (Some scenario_name)
         | None => current_scenario_id
         end);
      match name with
      | None =>
        manager_log_error sender_name
          "unable to start scenario: no scenario selected and no scenario specified"
      | Some scenario_name =>
        activate scenario_name;;
        broadcast_message (Status.Start scenario_name)
      end
  | Ctrl.Skip test_name reason => broadcast_skipped test_name reason
  | Ctrl.TestStarted => broadcast_message (Status.Running sender_name)
  | Ctrl.TestFinished result message =>
    broadcast_message (if (result =? 0)%Z then Status.Pass sender_name message
                       else Status.Fail sender_name result message)
  | Ctrl.ScenarioFinished code message =>
    with_current_scenario (
      c ← gets m_current_scenario;
      p ← unwrap "called `Option::unwrap()` on a `None` value" c;
      s ← deref p;
      deactivate (sc_id s) message);;
    broadcast_finished sender_name code message
  | Ctrl.StartTest test_name => activate test_name
  | Ctrl.StopTest test_name => deactivate test_name "controller requested test stop"
  | Ctrl.Shutdown reason =>
    manager_log_info sender_name
      (match reason with
       | None => "shutdown requested (no reason given)"
       | Some s => "shutdown requested: " +:+ s
       end);;
    io (io_broadcast Event.Shutdown)
  end.

Definition status_message (msg : UnitStatusEvent) : MM unit :=
  match se_status msg with
  | UnitStatus.Loaded =>
    match un_kind (se_name msg) with
    | UnitKind.Jig => broadcast_jig_named (se_name msg)
    | UnitKind.Scenario => broadcast_scenario_named (se_name msg)
    | UnitKind.Test => broadcast_test_named (se_name msg)
    | _ => mret tt
    end
  | UnitStatus.Selected =>
    match un_kind (se_name msg) with
    | UnitKind.Jig => broadcast_selected_jig
    | UnitKind.Scenario => broadcast_selected_scenario
    | _ => mret tt
    end
  | _ => mret tt
  end.

(** Give a log entry to each unit of a list, and collect those that failed with
    the reason to deactivate them. *)
Fixpoint output_log {A} (output : A -> ManagerStatusMessage -> M IO (result ForeignError unit))
    (what : string) (log : LogEntry) (l : list (UnitName * A)) : M IO (list (UnitName * string)) :=
  match l with
  | [] => mret []
  | (id, u) :: l =>
    r ← output u (Status.Log log);
    rest ← output_log output what log l;
    mret (match r with
          | Ok _ => rest
          | Err e => (id, "unable to send message to " +:+ what +:+ ": " +:+ fe_debug e) :: rest
          end)
  end.

Definition process_message (msg : UnitEvent) : MM unit :=
  match msg with
  | Event.ManagerRequest req => manager_request req
  | Event.Status stat => status_message stat
  | Event.Log log =>
    interfaces ← gets m_interfaces;
    li ← io (iter_map interfaces);
    bad_interfaces ← io (output_log interface_output_message "interface" log li);
    loggers ← gets m_loggers;
    ll ← io (iter_map loggers);
    bad_loggers ← io (output_log logger_output_message "logger" log ll);
    forM (bad_interfaces ++ bad_loggers) (fun '(unit_id, reason) => deactivate unit_id reason)
  | _ => mret tt
  end.

End manager.

Abbreviation MM := (M Manager).
