(* ===== verification/ManagerProps.v ===== *)
(** * What the manager keeps true

    There is at most one selected scenario and one selected jig, the current
    ones; active jigs, scenarios and tests are selected; and the operations
    that keep this so neither panic on a borrowed cell nor call each other
    without end.  The invariant is split by the kind of unit it is about, and
    each operation is shown to leave the other kinds alone. *)

From S2P Require Import Prelude Str Path Unit Foreign Config Events Env Samples Descriptions Interface Trigger Logger Jig Test Scenario ScenarioProps ScenarioTheorems Manager.

Section manager.
Context `{Libraries} `{DependyLib} `{Env}.
Implicit Types w : Manager.

(** ** The invariant *)

(** Scenarios: what is loaded is in the heap under its name and runs tests; the
    selected scenario is the current one, and it is loaded. *)
Record inv_scenarios w : Prop := {
  is_heap id p : m_scenarios w !! id = Some p -> un_kind id = UnitKind.Scenario /\
    exists s, m_heap w !! p = Some s /\ sc_id s = id /\
      forall n, n ∈ test_sequence s -> un_kind n = UnitKind.Test;
  is_current p : m_current_scenario w = Some p ->
    exists id, m_scenarios w !! id = Some p /\ id ∈ m_selected w;
  is_selected id : id ∈ m_selected w -> un_kind id = UnitKind.Scenario ->
    exists p, m_current_scenario w = Some p /\ m_scenarios w !! id = Some p;
  is_active id : id ∈ m_active w -> un_kind id = UnitKind.Scenario -> id ∈ m_selected w;
}.

(** Jigs: likewise; the default of a jig is a scenario. *)
Record inv_jigs w : Prop := {
  ij_loaded id j : m_jigs w !! id = Some j -> jg_id j = id /\ un_kind id = UnitKind.Jig /\
    forall n, jd_default_scenario (jg_desc j) = Some n -> un_kind n = UnitKind.Scenario;
  ij_current j : m_current_jig w = Some j ->
    m_jigs w !! jg_id j = Some j /\ jg_id j ∈ m_selected w;
  ij_selected id : id ∈ m_selected w -> un_kind id = UnitKind.Jig ->
    exists j, m_current_jig w = Some j /\ jg_id j = id;
  ij_active id : id ∈ m_active w -> un_kind id = UnitKind.Jig -> id ∈ m_selected w;
}.

(** Tests: selected ones are loaded, active ones are selected. *)
Record inv_tests w : Prop := {
  it_selected id : id ∈ m_selected w -> un_kind id = UnitKind.Test -> is_Some (m_tests w !! id);
  it_active id : id ∈ m_active w -> un_kind id = UnitKind.Test -> id ∈ m_selected w;
}.

Record mgr_wf w : Prop := {
  mw_scenarios : inv_scenarios w;
  mw_jigs : inv_jigs w;
  mw_tests : inv_tests w;
  mw_cs : m_cs_borrow w = Unborrowed;
  mw_cj : m_cj_borrow w = Unborrowed;
}.

(** ** Frames *)

(** Nothing about a kind of unit changed. *)
Definition same_kind (k : UnitKind) w w' : Prop :=
  forall id, un_kind id = k ->
    (id ∈ m_selected w' <-> id ∈ m_selected w) /\ (id ∈ m_active w' <-> id ∈ m_active w).

Record same_scenarios w w' : Prop := {
  ss_scenarios : m_scenarios w' = m_scenarios w;
  ss_heap : m_heap w' = m_heap w;
  ss_current : m_current_scenario w' = m_current_scenario w;
  ss_borrow : m_cs_borrow w' = m_cs_borrow w;
  ss_kind : same_kind UnitKind.Scenario w w';
}.

Record same_jigs w w' : Prop := {
  sj_jigs : m_jigs w' = m_jigs w;
  sj_current : m_current_jig w' = m_current_jig w;
  sj_borrow : m_cj_borrow w' = m_cj_borrow w;
  sj_kind : same_kind UnitKind.Jig w w';
}.

Definition same_tests w w' : Prop :=
  te_desc <$> m_tests w' = te_desc <$> m_tests w /\ same_kind UnitKind.Test w w'.

(** Maps of units that agree on their descriptions hold the same units. *)
Lemma fmap_loaded {A B} (f : A -> B) (m m' : gmap UnitName A) id :
  f <$> m' = f <$> m -> is_Some (m' !! id) <-> is_Some (m !! id).
Proof.
  intros Hm. apply (f_equal (fun x => x !! id)) in Hm. rewrite !lookup_fmap in Hm.
  destruct (m !! id), (m' !! id); simpl in Hm; try done; split; intros [? ?]; done || by eexists.
Qed.

#[export] Instance same_kind_preorder k : PreOrder (same_kind k).
Proof.
  split; [by intros w id|]. intros w1 w2 w3 H12 H23 id Hk.
  destruct (H12 id Hk), (H23 id Hk). tauto.
Qed.

#[export] Instance same_scenarios_preorder : PreOrder same_scenarios.
Proof.
  split; [by split|]. intros w1 w2 w3 [] []. split; try congruence. by transitivity w2.
Qed.

#[export] Instance same_jigs_preorder : PreOrder same_jigs.
Proof.
  split; [by split|]. intros w1 w2 w3 [] []. split; try congruence. by transitivity w2.
Qed.

#[export] Instance same_tests_preorder : PreOrder same_tests.
Proof.
  split; [by split|]. intros w1 w2 w3 [Hd1 Hk1] [Hd2 Hk2]. split; [congruence|]. by transitivity w2.
Qed.

(** The invariant of a kind depends on that kind only. *)
Lemma same_scenarios_inv w w' : same_scenarios w w' -> inv_scenarios w -> inv_scenarios w'.
Proof.
  intros [Hs Hh Hc _ Hk] []. split; rewrite ?Hs, ?Hh, ?Hc; try done.
  - intros p Hp. destruct (is_current0 p Hp) as (id & Hid & Hsel). exists id. split; [done|].
    apply Hk; [|done]. by apply is_heap0 in Hid as [? _].
  - intros id Hid Hkind. apply is_selected0; [|done]. by apply Hk.
  - intros id Hid Hkind. apply Hk; [done|]. apply is_active0; [|done]. by apply Hk.
Qed.

Lemma same_jigs_inv w w' : same_jigs w w' -> inv_jigs w -> inv_jigs w'.
Proof.
  intros [Hj Hc _ Hk] []. split; rewrite ?Hj, ?Hc; try done.
  - intros j Hcur. destruct (ij_current0 j Hcur) as [Hl Hsel]. split; [done|].
    apply Hk; [|done]. by apply ij_loaded0 in Hl as (_ & ? & _).
  - intros id Hid Hkind. apply ij_selected0; [|done]. by apply Hk.
  - intros id Hid Hkind. apply Hk; [done|]. apply ij_active0; [|done]. by apply Hk.
Qed.

Lemma same_tests_inv w w' : same_tests w w' -> inv_tests w -> inv_tests w'.
Proof.
  intros [Hd Hk] [Hs Ha]. split.
  - intros id Hid Hkind. apply (fmap_loaded _ _ _ id Hd). apply Hs; [|done]. by apply Hk.
  - intros id Hid Hkind. apply Hk; [done|]. apply Ha; [|done]. by apply Hk.
Qed.

(** ** Units with a process never get in the way *)

Definition io_total {A} (m : M IO A) : Prop := forall i, exists a i', m i = Done (a, i').

Lemma io_total_ret {A} (a : A) : io_total (mret a).
Proof. intros i. by exists a, i. Qed.

Lemma io_total_bind {A B} (m : M IO A) (k : A -> M IO B) :
  io_total m -> (forall a, io_total (k a)) -> io_total (m ≫= k).
Proof.
  intros Hm Hk i. destruct (Hm i) as (a & i1 & Hi). destruct (Hk a i1) as (b & i2 & Hi2).
  exists b, i2. unfold mbind, M_bind. by rewrite Hi.
Qed.

Lemma io_total_emit o : io_total (emit o).
Proof. intros i. by eexists _, _. Qed.
Lemma io_total_ask {A} (f : nat -> A) : io_total (ask f).
Proof. intros i. by eexists _, _. Qed.
Lemma io_total_gets {A} (f : IO -> A) : io_total (gets f).
Proof. intros i. by eexists _, _. Qed.
Lemma io_total_modify f : io_total (modify f).
Proof. intros i. by eexists _, _. Qed.

Create HintDb io_total.
#[local] Hint Resolve io_total_ret io_total_emit io_total_ask io_total_gets io_total_modify : io_total.

(** Run through the binds and cases of a computation. *)
Ltac solve_total :=
  repeat first
    [ solve [auto with io_total nocore]
    | progress (unfold io_send, io_broadcast, terminate_child, start_child, log_info, log_error)
    | apply io_total_bind; [|intros ?]
    | case_match ].

Lemma interface_deactivate_run i io : exists i' r io',
  interface_deactivate i io = Done ((i', r), io') /\ if_desc i' = if_desc i.
Proof.
  unfold interface_deactivate, terminate_child, emit, ask, modify, mbind, M_bind.
  destruct (if_process i); by eexists _, _, _.
Qed.
Lemma trigger_deactivate_total t : io_total (trigger_deactivate t).
Proof. unfold trigger_deactivate. solve_total. Qed.
Lemma logger_deactivate_total l : io_total (logger_deactivate l).
Proof. unfold logger_deactivate. solve_total. Qed.
Lemma test_deactivate_total t : io_total (test_deactivate t).
Proof. unfold test_deactivate, send_finished_once. solve_total. Qed.
Lemma interface_activate_total i : io_total (interface_activate i).
Proof. unfold interface_activate. solve_total. Qed.
Lemma trigger_activate_total t : io_total (trigger_activate t).
Proof. unfold trigger_activate. solve_total. Qed.
Lemma logger_activate_total l : io_total (logger_activate l).
Proof. unfold logger_activate. solve_total. Qed.
Lemma jig_activate_total j : io_total (jig_activate j).
Proof. unfold jig_activate. solve_total. Qed.

Lemma test_deactivate_ok t i : exists t' i',
  test_deactivate t i = Done ((t', Ok tt), i') /\ te_desc t' = te_desc t.
Proof.
  unfold test_deactivate, send_finished_once, io_send, emit, modify, mbind, M_bind.
  destruct (te_program t); simpl; [|by eexists _, _].
  destruct (te_is_daemon t); simpl; [|by eexists _, _]. destruct (te_result t); by eexists _, _.
Qed.

(** ** Deactivating *)

(** What [deactivate] may change: the active units lose at most the unit, and
    the loaded units keep their names. *)
Record deactivated (id : UnitName) w w' : Prop := {
  de_selected : m_selected w' = m_selected w;
  de_active : m_active w' = m_active w \/ m_active w' = m_active w ∖ {[ id ]};
  de_scenarios : m_scenarios w' = m_scenarios w;
  de_heap : m_heap w' = m_heap w;
  de_cs : m_current_scenario w' = m_current_scenario w;
  de_cs_borrow : m_cs_borrow w' = m_cs_borrow w;
  de_jigs : m_jigs w' = m_jigs w;
  de_cj : m_current_jig w' = m_current_jig w;
  de_cj_borrow : m_cj_borrow w' = m_cj_borrow w;
  de_tests : te_desc <$> m_tests w' = te_desc <$> m_tests w;
  de_interfaces : if_desc <$> m_interfaces w' = if_desc <$> m_interfaces w;
  de_loggers : dom (m_loggers w') = dom (m_loggers w);
  de_triggers : dom (m_triggers w') = dom (m_triggers w);
}.

Lemma deactivated_kind id w w' k : deactivated id w w' -> un_kind id <> k -> same_kind k w w'.
Proof.
  intros [Hs Ha] Hk n Hn. rewrite Hs. split; [done|]. assert (n <> id) by congruence.
  destruct Ha as [->| ->]; [done|set_solver].
Qed.

Lemma deactivated_frames id w w' : deactivated id w w' ->
  (un_kind id <> UnitKind.Scenario -> same_scenarios w w') /\
  (un_kind id <> UnitKind.Jig -> same_jigs w w') /\
  (un_kind id <> UnitKind.Test -> same_tests w w').
Proof.
  intros Hd. pose proof (fun k => deactivated_kind id w w' k Hd). destruct Hd.
  split_and!; intros; split; auto.
Qed.

(** The cells that the deactivation of a unit borrows are free. *)
Definition cells_free (id : UnitName) w : Prop :=
  (un_kind id = UnitKind.Scenario -> m_cs_borrow w = Unborrowed /\
     forall p, m_current_scenario w = Some p -> is_Some (m_heap w !! p)) /\
  (un_kind id = UnitKind.Jig -> m_cj_borrow w = Unborrowed).

(** The kinds whose deactivation can not fail. *)
Definition deactivates (id : UnitName) w : Prop :=
  match un_kind id with
  | UnitKind.Jig | UnitKind.Scenario | UnitKind.Internal => True
  | UnitKind.Test => is_Some (m_tests w !! id)
  | _ => False
  end.

(** A step on one unit of a map, through its [io] operation. *)
Lemma dom_insert_same {A} (m : gmap UnitName A) id x y : m !! id = Some x -> dom (<[id := y]> m) = dom m.
Proof. intros Hx. rewrite dom_insert_L. apply elem_of_dom_2 in Hx. set_solver. Qed.

Lemma fmap_insert_same {A B} (f : A -> B) (m : gmap UnitName A) id x y :
  m !! id = Some x -> f y = f x -> f <$> <[id := y]> m = f <$> m.
Proof. intros Hx Hf. rewrite fmap_insert, Hf. apply insert_id. by rewrite lookup_fmap, Hx. Qed.

Definition deactivate_kind (id : UnitName) : MM (result UnitDeactivateError unit) :=
  match un_kind id with
  | UnitKind.Interface => deactivate_interface id
  | UnitKind.Jig => deactivate_jig id
  | UnitKind.Logger => deactivate_logger id
  | UnitKind.Scenario => deactivate_scenario id
  | UnitKind.Test => deactivate_test id
  | UnitKind.Trigger => deactivate_trigger id
  | UnitKind.Internal => mret (Ok tt)
  end.

Lemma deactivate_kind_run id w : cells_free id w ->
  exists r w', deactivate_kind id w = Done (r, w') /\ deactivated id w w' /\
    m_active w' = m_active w /\ (deactivates id w -> r = Ok tt).
Proof.
  intros [Hcs Hcj]. unfold deactivate_kind, deactivates. destruct (un_kind id).
  - unfold deactivate_interface, gets, io, zoom, mbind, M_bind. simpl.
    destruct (m_interfaces w !! id) as [i|] eqn:Hi; [|by eexists _, w; split_and!; [done|split; auto|done|]].
    destruct (interface_deactivate_run i (m_io w)) as (i' & r & io' & -> & Hdesc). eexists _, _. split; [done|].
    split_and!; [|done|done]. split; simpl; auto. by eapply fmap_insert_same.
  - unfold deactivate_jig, with_current_jig_mut, borrow_mut. rewrite Hcj by done.
    unfold gets, mbind, M_bind. simpl.
    eexists _, _. split; [done|]. split_and!; [|done|by repeat case_match]. split; simpl; auto. by rewrite Hcj.
  - unfold deactivate_logger, gets, io, zoom, mbind, M_bind. simpl.
    destruct (m_loggers w !! id) as [i|] eqn:Hi; [|by eexists _, w; split_and!; [done|split; auto|done|]].
    destruct (logger_deactivate_total i (m_io w)) as ([i' r] & io' & ->). eexists _, _. split; [done|].
    split_and!; [|done|done]. split; simpl; auto. by eapply dom_insert_same.
  - destruct (Hcs eq_refl) as [Hb Hp].
    unfold deactivate_scenario, with_current_scenario_mut, borrow_mut. rewrite Hb.
    unfold deref, gets, unwrap, mbind, M_bind. simpl.
    destruct (m_current_scenario w) as [p|] eqn:Hc; simpl.
    + destruct (Hp p eq_refl) as [s ->]. simpl. case_bool_decide; simpl;
        (eexists _, _; split; [done|]; split_and!; [|done|done]; split; simpl; auto; by rewrite Hb).
    + eexists _, _. split; [done|]. split_and!; [|done|done]. split; simpl; auto; congruence.
  - unfold deactivate_test, gets, io, zoom, mbind, M_bind. simpl.
    destruct (m_tests w !! id) as [i|] eqn:Hi;
      [|eexists _, w; split_and!; [done|split; auto|done|by intros [??]]].
    destruct (test_deactivate_ok i (m_io w)) as (i' & io' & -> & Hdesc). eexists _, _. split; [done|].
    split_and!; [|done|done]. split; simpl; auto. by eapply fmap_insert_same.
  - unfold deactivate_trigger, gets, io, zoom, mbind, M_bind. simpl.
    destruct (m_triggers w !! id) as [i|] eqn:Hi; [|by eexists _, w; split_and!; [done|split; auto|done|]].
    destruct (trigger_deactivate_total i (m_io w)) as ([i' r] & io' & ->). eexists _, _. split; [done|].
    split_and!; [|done|done]. split; simpl; auto. by eapply dom_insert_same.
  - eexists _, w. split; [done|]. split_and!; [split; auto|done|done].
Qed.

Lemma deactivate_run id reason w : cells_free id w ->
  exists w', deactivate id reason w = Done (tt, w') /\ deactivated id w w' /\
    (deactivates id w -> id ∉ m_active w').
Proof.
  intros Hfree. unfold deactivate, gets. unfold mbind at 1, M_bind at 1. case_bool_decide as Ha.
  { exists w. split; [done|]. split; [split; auto|done]. }
  destruct (deactivate_kind_run id w Hfree) as (r & w1 & Hrun & Hd & Hact & Hok).
  change (match un_kind id with
    | UnitKind.Interface => deactivate_interface id | UnitKind.Jig => deactivate_jig id
    | UnitKind.Logger => deactivate_logger id | UnitKind.Scenario => deactivate_scenario id
    | UnitKind.Test => deactivate_test id | UnitKind.Trigger => deactivate_trigger id
    | UnitKind.Internal => mret (Ok tt) end) with (deactivate_kind id).
  unfold mbind at 1, M_bind at 1. rewrite Hrun.
  destruct r as [[]|e]; unfold broadcast_status, modify, io, zoom, mbind, M_bind; simpl;
    eexists; (split; [reflexivity|]); destruct Hd; (split; [split; simpl; auto|]); simpl.
  - right. by rewrite Hact.
  - set_solver.
  - intros Hdt. specialize (Hok Hdt). done.
Qed.

(** ** Deselecting *)

(** A step that concerns tests only. *)
Record tests_step w w' : Prop := {
  ts_scenarios : same_scenarios w w';
  ts_jigs : same_jigs w w';
  ts_dom : te_desc <$> m_tests w' = te_desc <$> m_tests w;
  ts_interfaces : if_desc <$> m_interfaces w' = if_desc <$> m_interfaces w;
  ts_inv : inv_tests w -> inv_tests w';
}.

#[export] Instance tests_step_preorder : PreOrder tests_step.
Proof.
  split; [by split|]. intros w1 w2 w3 [] []. split; [by transitivity w2|by transitivity w2|congruence|congruence|auto].
Qed.

(** A change to the selection of one test. *)
Lemma same_kind_select w w' id (f : gset UnitName -> gset UnitName) k :
  m_selected w' = f (m_selected w) -> m_active w' = m_active w ->
  (forall n s, n <> id -> n ∈ f s <-> n ∈ s) -> un_kind id <> k -> same_kind k w w'.
Proof. intros Hs Ha Hf Hk n Hn. rewrite Hs, Ha. split; [|done]. apply Hf. congruence. Qed.

Lemma deselect_test_run fuel id reason w : un_kind id = UnitKind.Test ->
  exists w', deselect (S fuel) id reason w = Done (tt, w') /\ tests_step w w' /\
    (inv_tests w -> id ∉ m_selected w').
Proof.
  intros Hk. destruct (deactivate_run id "unit is being deselcted" w) as (w1 & Hrun & Hd & Hdt).
  { split; congruence. }
  destruct (deactivated_frames id w w1 Hd) as (Hfs & Hfj & _).
  assert (inv_tests w -> inv_tests w1) as Hinv.
  { intros [Hs Ha]. split.
    - intros n. rewrite (de_selected _ _ _ Hd). intros Hn Hkn.
      apply (fmap_loaded _ _ _ n (de_tests _ _ _ Hd)). auto.
    - intros n Hn Hkn. rewrite (de_selected _ _ _ Hd). apply Ha; [|done].
      destruct (de_active _ _ _ Hd) as [Hact|Hact]; rewrite Hact in Hn; set_solver. }
  assert (tests_step w w1) as Hstep.
  { split; [apply Hfs; congruence|apply Hfj; congruence|apply (de_tests _ _ _ Hd)|apply (de_interfaces _ _ _ Hd)|done]. }
  simpl. unfold mbind at 1, M_bind at 1. rewrite Hrun. unfold gets. unfold mbind at 1, M_bind at 1.
  case_bool_decide as Hsel; [by exists w1|]. rewrite Hk.
  unfold deselect_plain, gets, mbind, M_bind. simpl.
  destruct (m_tests w1 !! id) as [t|] eqn:Ht.
  2: { exists w1. split_and!; [done|done|]. intros Hi Hin.
       destruct (it_selected _ (Hinv Hi) id Hin Hk) as [? ?]. congruence. }
  unfold broadcast_status, io, zoom, modify, mbind, M_bind. simpl. eexists. split; [reflexivity|].
  split; [|intros _; simpl; set_solver]. transitivity w1; [done|].
  assert (id ∉ m_active w1) as Hna.
  { apply Hdt. unfold deactivates. rewrite Hk.
    apply (fmap_loaded _ _ _ id (de_tests _ _ _ Hd)). by rewrite Ht. }
  assert (forall k, UnitKind.Test <> k -> same_kind k w1 (w1 <| m_selected ::= fun s => s ∖ {[id]} |>)) as Hsk.
  { intros k Hne. eapply (same_kind_select _ _ id (fun s => s ∖ {[id]})); [done|done|set_solver|congruence]. }
  split; simpl; [split; try done; by apply Hsk|split; try done; by apply Hsk|done|done|].
  intros [Hs Ha]. split; simpl; [set_solver|]. intros n Hn Hkn. specialize (Ha n Hn Hkn).
  assert (n <> id) by congruence. set_solver.
Qed.

Lemma forM_tests_step (f : UnitName -> MM unit) l w :
  (forall n w, n ∈ l -> exists w', f n w = Done (tt, w') /\ tests_step w w') ->
  exists w', forM l f w = Done (tt, w') /\ tests_step w w'.
Proof.
  revert w. induction l as [|n l IH]; intros w Hf; simpl; [by exists w|].
  destruct (Hf n w) as (w1 & Hrun & Hst); [by left|].
  destruct (IH w1) as (w2 & Hrun2 & Hst2); [intros m w0 Hm; apply Hf; by right|].
  exists w2. split; [|by transitivity w1]. unfold mbind, M_bind. by rewrite Hrun.
Qed.

Lemma current_scenario_id_run w : inv_scenarios w -> m_cs_borrow w = Unborrowed ->
  exists cur, current_scenario_id w = Done (cur, w) /\
    match m_current_scenario w with
    | None => cur = None
    | Some p => exists id, cur = Some id /\ m_scenarios w !! id = Some p /\ id ∈ m_selected w
    end.
Proof.
  intros Hinv Hb. unfold current_scenario_id, with_current_scenario, borrow. rewrite Hb.
  unfold deref, gets, unwrap, mbind, M_bind. simpl.
  assert (w <| m_cs_borrow := Reading 1 |> <| m_cs_borrow := Unborrowed |> = w) as Heq
    by (destruct w; simpl in *; by subst).
  destruct (m_current_scenario w) as [p|] eqn:Hc; simpl.
  - destruct (is_current w Hinv p Hc) as (id & Hid & Hsel).
    destruct (is_heap w Hinv id p Hid) as (_ & s & Hs & Hsid & _). rewrite Hs. simpl.
    exists (Some id). rewrite Hsid. unfold put_cs. split; [by rewrite <- Heq at 2|]. by exists id.
  - exists None. unfold put_cs. by rewrite <- Heq at 2.
Qed.

(** The one scenario that can be selected. *)
Lemma selected_scenario_unique w id1 id2 : inv_scenarios w ->
  id1 ∈ m_selected w -> id2 ∈ m_selected w -> un_kind id1 = UnitKind.Scenario ->
  un_kind id2 = UnitKind.Scenario -> id1 = id2.
Proof.
  intros Hinv H1' H2' Hk1 Hk2.
  destruct (is_selected w Hinv id1 H1' Hk1) as (p & Hp & Hs1).
  destruct (is_selected w Hinv id2 H2' Hk2) as (q & Hq & Hs2).
  assert (p = q) as -> by congruence.
  destruct (is_heap w Hinv id1 q Hs1) as (_ & s & Hs & <- & _).
  destruct (is_heap w Hinv id2 q Hs2) as (_ & s' & Hs' & <- & _). congruence.
Qed.

(** A step that concerns scenarios and tests. *)
Record scenario_step w w' : Prop := {
  sc_inv : inv_scenarios w';
  sc_inv_tests : inv_tests w';
  sc_jigs : same_jigs w w';
  sc_loaded : m_scenarios w' = m_scenarios w;
  sc_heap : m_heap w' = m_heap w;
  sc_borrow : m_cs_borrow w' = m_cs_borrow w;
  sc_dom : te_desc <$> m_tests w' = te_desc <$> m_tests w;
  sc_interfaces : if_desc <$> m_interfaces w' = if_desc <$> m_interfaces w;
}.

Lemma deactivated_scenario id w w1 :
  deactivated id w w1 -> inv_scenarios w -> inv_scenarios w1.
Proof.
  intros Hd Hinv. destruct Hinv as [Hh Hc Hs Ha].
  split; rewrite ?(de_scenarios _ _ _ Hd), ?(de_heap _ _ _ Hd), ?(de_cs _ _ _ Hd), ?(de_selected _ _ _ Hd);
    try done.
  intros n Hn Hkn. apply Ha; [|done]. destruct (de_active _ _ _ Hd) as [Hact|Hact]; rewrite Hact in Hn; set_solver.
Qed.

Lemma deactivated_jig id w w1 : deactivated id w w1 -> inv_jigs w -> inv_jigs w1.
Proof.
  intros Hd [Hl Hc Hs Ha].
  split; rewrite ?(de_jigs _ _ _ Hd), ?(de_cj _ _ _ Hd), ?(de_selected _ _ _ Hd); try done.
  intros n Hn Hkn. apply Ha; [|done]. destruct (de_active _ _ _ Hd) as [Hact|Hact]; rewrite Hact in Hn; set_solver.
Qed.

Lemma inv_scenarios_heap w p : inv_scenarios w -> m_current_scenario w = Some p -> is_Some (m_heap w !! p).
Proof.
  intros Hinv Hp. destruct (is_current w Hinv p Hp) as (id & Hid & _).
  destruct (is_heap w Hinv id p Hid) as (_ & s & Hs & _). by exists s.
Qed.

(** The parts of [deselect] after the deactivation. *)
Definition deselect_kind (rec : UnitName -> string -> MM unit) (id : UnitName) :
    MM (result UnitDeselectError unit) :=
  match un_kind id with
  | UnitKind.Internal => mret (Ok tt)
  | UnitKind.Interface => deselect_plain m_interfaces id
  | UnitKind.Jig => deselect_jig rec id
  | UnitKind.Logger => deselect_plain m_loggers id
  | UnitKind.Scenario => deselect_scenario rec id
  | UnitKind.Test => deselect_plain m_tests id
  | UnitKind.Trigger => deselect_plain m_triggers id
  end.

Lemma deselect_unselected fuel id reason w w1 :
  deactivate id "unit is being deselcted" w = Done (tt, w1) -> id ∉ m_selected w1 ->
  deselect (S fuel) id reason w = Done (tt, w1).
Proof.
  intros Hrun Hsel. simpl. unfold mbind at 1, M_bind at 1. rewrite Hrun.
  unfold gets, mbind, M_bind. by rewrite bool_decide_eq_true_2.
Qed.

Lemma deselect_selected fuel id reason w w1 w2 :
  deactivate id "unit is being deselcted" w = Done (tt, w1) -> id ∈ m_selected w1 ->
  deselect_kind (deselect fuel) id w1 = Done (Ok tt, w2) ->
  exists i, deselect (S fuel) id reason w =
    Done (tt, w2 <| m_selected ::= fun s => s ∖ {[ id ]} |> <| m_io := i |>).
Proof.
  intros Hrun Hsel Hkind. eexists.
  change (deselect (S fuel) id reason) with
    (deactivate id "unit is being deselcted";; selected ← gets m_selected;
     if bool_decide (id ∉ selected) then mret tt
     else res ← deselect_kind (deselect fuel) id;
      match res with
      | Ok _ => modify (fun w => w <| m_selected ::= fun s => s ∖ {[ id ]} |>);;
                broadcast_status (new_deselected id reason)
      | Err _ => mret tt
      end).
  unfold mbind at 1, M_bind at 1. rewrite Hrun. unfold gets at 1. unfold mbind at 1, M_bind at 1.
  rewrite bool_decide_eq_false_2 by (intros ?; done).
  unfold mbind at 1, M_bind at 1. rewrite Hkind. reflexivity.
Qed.

(** Taking the current scenario out deselects its tests. *)
Lemma deselect_current_scenario fuel id w : un_kind id = UnitKind.Scenario ->
  inv_scenarios w -> m_cs_borrow w = Unborrowed -> id ∈ m_selected w ->
  exists w', deselect_kind (deselect (S fuel)) id w = Done (Ok tt, w') /\
    tests_step (w <| m_current_scenario := None |>) w'.
Proof.
  intros Hk Hinv Hb Hsel. unfold deselect_kind. rewrite Hk.
  destruct (is_selected w Hinv id Hsel Hk) as (p & Hp & Hid).
  destruct (is_heap w Hinv id p Hid) as (_ & s & Hs & Hsid & Htests).
  destruct (current_scenario_id_run w Hinv Hb) as (cur & Hcur & Hcase). rewrite Hp in Hcase.
  destruct Hcase as (id' & -> & Hid' & Hsel').
  assert (id' = id) as ->.
  { destruct (is_heap w Hinv id' p Hid') as (_ & s' & Hs' & <- & _). congruence. }
  destruct (forM_tests_step (fun test_id => deselect (S fuel) test_id "scenario is deselecting")
    (test_sequence s) (w <| m_cs_borrow := Writing |> <| m_current_scenario := None |>)) as (w3 & Hrun3 & Hst3).
  { intros n w0 Hn. destruct (deselect_test_run fuel n "scenario is deselecting" w0) as (w2 & ? & ? & _);
      [by apply Htests|by exists w2]. }
  exists (put_cs Unborrowed w3). split.
  - unfold deselect_scenario. unfold mbind at 1, M_bind at 1. rewrite Hcur.
    rewrite bool_decide_eq_false_2 by (intros ?; done).
    unfold with_current_scenario_mut, borrow_mut. rewrite Hb.
    unfold deref, put_cs, gets, modify, unwrap, mbind, M_bind. simpl in *. rewrite Hp. simpl. rewrite Hs. simpl.
    by rewrite Hrun3.
  - destruct Hst3 as [[] [] Hd3 Hif3 Hi3]. split; [by split|by split|done|done|].
    intros [Hs' Ha']. destruct Hi3; [by split|]. by split.
Qed.

Lemma inv_tests_deselect w id i : un_kind id <> UnitKind.Test -> inv_tests w ->
  inv_tests (w <| m_selected ::= fun s => s ∖ {[ id ]} |> <| m_io := i |>).
Proof.
  intros Hk [Hs Ha]. split; simpl; [set_solver|]. intros n Hn Hkn. specialize (Ha n Hn Hkn).
  assert (n <> id) by congruence. set_solver.
Qed.

Lemma inv_scenarios_taken w w' id i : un_kind id = UnitKind.Scenario ->
  inv_scenarios w -> id ∈ m_selected w -> id ∉ m_active w ->
  same_scenarios (w <| m_current_scenario := None |>) w' ->
  inv_scenarios (w' <| m_selected ::= fun s => s ∖ {[ id ]} |> <| m_io := i |>).
Proof.
  intros Hk Hinv Hsel Hna [Hs Hh Hc Hb Hkind]. simpl in *.
  assert (forall n, n ∈ m_selected w -> un_kind n = UnitKind.Scenario -> n = id) as Huniq
    by (intros n Hn Hkn; by eapply (selected_scenario_unique w)).
  split; simpl.
  - rewrite Hs, Hh. apply Hinv.
  - by rewrite Hc.
  - intros n [Hn Hne]%elem_of_difference Hkn. apply Hkind in Hn; [|done].
    specialize (Huniq n Hn Hkn). set_solver.
  - intros n Hn Hkn. apply Hkind in Hn; [|done]. pose proof (is_active w Hinv n Hn Hkn) as Hns.
    by rewrite (Huniq n) in Hn.
Qed.

Lemma same_jigs_deselect w w' id i : un_kind id <> UnitKind.Jig -> same_jigs w w' ->
  same_jigs w (w' <| m_selected ::= fun s => s ∖ {[ id ]} |> <| m_io := i |>).
Proof.
  intros Hk [Hj Hc Hb Hkind]. split; simpl; try done. intros n Hkn. simpl.
  assert (n <> id) by congruence. destruct (Hkind n Hkn). set_solver.
Qed.

Lemma deselect_scenario_run fuel id reason w :
  un_kind id = UnitKind.Scenario -> inv_scenarios w -> inv_tests w -> m_cs_borrow w = Unborrowed ->
  exists w', deselect (S (S fuel)) id reason w = Done (tt, w') /\ scenario_step w w' /\
    id ∉ m_selected w' /\ id ∉ m_active w' /\
    (id ∈ m_selected w -> m_current_scenario w' = None).
Proof.
  intros Hk Hinv Hit Hb.
  destruct (deactivate_run id "unit is being deselcted" w) as (w1 & Hrun & Hd & Hdt).
  { split; [|congruence]. intros _. split; [done|]. intros p. by apply inv_scenarios_heap. }
  assert (id ∉ m_active w1) as Hna by (apply Hdt; unfold deactivates; by rewrite Hk).
  destruct (deactivated_frames id w w1 Hd) as (_ & Hfj & Hft).
  specialize (Hfj ltac:(congruence)). specialize (Hft ltac:(congruence)).
  pose proof (deactivated_scenario id w w1 Hd Hinv) as Hinv1.
  pose proof (same_tests_inv w w1 Hft Hit) as Hit1.
  assert (m_cs_borrow w1 = Unborrowed) as Hb1 by (by rewrite (de_cs_borrow _ _ _ Hd)).
  destruct (decide (id ∈ m_selected w1)) as [Hsel|Hsel].
  - destruct (deselect_current_scenario fuel id w1 Hk Hinv1 Hb1 Hsel) as (w2 & Hrun2 & [Hs2 Hj2 Hd2 Hif2 Hi2]).
    destruct (deselect_selected (S fuel) id reason w w1 w2 Hrun Hsel Hrun2) as (i & Hres).
    eexists. split; [exact Hres|]. split; [split|]; simpl.
    + by eapply inv_scenarios_taken.
    + apply inv_tests_deselect; [congruence|]. apply Hi2. by destruct Hit1.
    + apply same_jigs_deselect; [congruence|]. transitivity w1; [done|]. by destruct Hj2.
    + rewrite (ss_scenarios _ _ Hs2). apply Hd.
    + rewrite (ss_heap _ _ Hs2). apply Hd.
    + rewrite (ss_borrow _ _ Hs2). apply Hd.
    + rewrite Hd2. apply Hd.
    + rewrite Hif2. apply Hd.
    + split_and!; [set_solver| |intros _; by rewrite (ss_current _ _ Hs2)].
      intros Hact. apply Hna. by apply (ss_kind _ _ Hs2).
  - exists w1. split; [by apply deselect_unselected|]. split; [by split; try done; apply Hd|].
    split_and!; try done. rewrite (de_selected _ _ _ Hd) in Hsel. done.
Qed.

(** What every operation on the selection leaves loaded. *)
Record same_loaded w w' : Prop := {
  sl_scenarios : m_scenarios w' = m_scenarios w;
  sl_heap : m_heap w' = m_heap w;
  sl_jigs : m_jigs w' = m_jigs w;
  sl_tests : te_desc <$> m_tests w' = te_desc <$> m_tests w;
  sl_interfaces : if_desc <$> m_interfaces w' = if_desc <$> m_interfaces w;
}.

#[export] Instance same_loaded_preorder : PreOrder same_loaded.
Proof. split; [by split|]. intros w1 w2 w3 [] []. split; congruence. Qed.

Lemma scenario_step_loaded w w' : scenario_step w w' -> same_loaded w w'.
Proof. intros []. split; try done. by destruct sc_jigs0. Qed.

Lemma tests_step_loaded w w' : tests_step w w' -> same_loaded w w'.
Proof. intros [[] [] ? ? ?]. by split. Qed.

Lemma deactivated_loaded id w w' : deactivated id w w' -> same_loaded w w'.
Proof. intros []. by split. Qed.

Lemma deactivated_wf id w w' : deactivated id w w' -> mgr_wf w -> mgr_wf w'.
Proof.
  intros Hd [Hs Hj [Hts Hta] Hcs Hcj]. split.
  - by eapply deactivated_scenario.
  - by eapply deactivated_jig.
  - split; intros n; rewrite (de_selected _ _ _ Hd).
    + intros Hn Hkn. apply (fmap_loaded _ _ _ n (de_tests _ _ _ Hd)). auto.
    + intros Hn Hkn. apply Hta; [|done].
      destruct (de_active _ _ _ Hd) as [Hact|Hact]; rewrite Hact in Hn; set_solver.
  - by rewrite (de_cs_borrow _ _ _ Hd).
  - by rewrite (de_cj_borrow _ _ _ Hd).
Qed.

(** Letting the current jig go deselects its scenario. *)
Lemma deselect_current_jig fuel id w : un_kind id = UnitKind.Jig -> mgr_wf w -> id ∈ m_selected w ->
  exists w', deselect_kind (deselect (S (S fuel))) id w = Done (Ok tt, w') /\
    scenario_step (w <| m_current_jig := None |>) w'.
Proof.
  intros Hk [Hs Hj Ht Hcs Hcj] Hsel. unfold deselect_kind. rewrite Hk.
  destruct (ij_selected w Hj id Hsel Hk) as (j & Hcur & Hid).
  destruct (ij_current w Hj j Hcur) as [Hloaded _].
  destruct (ij_loaded w Hj _ j Hloaded) as (_ & _ & Hdefault).
  set (w1 := w <| m_cj_borrow := Writing |>).
  assert (exists w2, (match jd_default_scenario (jg_desc j) with
    | Some scenario_id => deselect (S (S fuel)) scenario_id "jig is deselecting" | None => mret tt end) w1
    = Done (tt, w2) /\ scenario_step w1 w2) as (w2 & Hrun & Hst).
  { assert (inv_scenarios w1) as Hs1 by (by destruct Hs). assert (inv_tests w1) as Ht1 by (by destruct Ht).
    destruct (jd_default_scenario (jg_desc j)) as [n|].
    - destruct (deselect_scenario_run fuel n "jig is deselecting" w1) as (w2 & Hrun & Hst & _); auto.
      by exists w2.
    - exists w1. by split; [|split]. }
  exists (w2 <| m_current_jig := None |> <| m_cj_borrow := Unborrowed |>). split.
  - unfold deselect_jig, with_current_jig_mut, borrow_mut. rewrite Hcj.
    unfold put_cj at 1. fold w1. unfold gets at 1. unfold mbind at 1, M_bind at 1.
    change (m_current_jig w1) with (m_current_jig w). rewrite Hcur.
    rewrite bool_decide_eq_false_2 by (intros ?; done).
    unfold mbind at 1, M_bind at 1. by rewrite Hrun.
  - destruct Hst as [[] [] [Hjs Hjc Hjb Hjk] Hl Hh Hb Hd Hif]. simpl in *. by split; [split|split|split|..].
Qed.

Lemma inv_jigs_taken w w' id i : un_kind id = UnitKind.Jig ->
  inv_jigs w -> id ∈ m_selected w -> id ∉ m_active w ->
  same_jigs (w <| m_current_jig := None |>) w' ->
  inv_jigs (w' <| m_selected ::= fun s => s ∖ {[ id ]} |> <| m_io := i |>).
Proof.
  intros Hk Hinv Hsel Hna [Hj Hc Hb Hkind]. simpl in *.
  assert (forall n, n ∈ m_selected w -> un_kind n = UnitKind.Jig -> n = id) as Huniq.
  { intros n Hn Hkn. destruct (ij_selected w Hinv n Hn Hkn) as (j & Hcur & <-).
    destruct (ij_selected w Hinv id Hsel Hk) as (j' & Hcur' & <-). congruence. }
  split; simpl.
  - rewrite Hj. apply Hinv.
  - by rewrite Hc.
  - intros n [Hn Hne]%elem_of_difference Hkn. apply Hkind in Hn; [|done].
    specialize (Huniq n Hn Hkn). set_solver.
  - intros n Hn Hkn. apply Hkind in Hn; [|done]. pose proof (ij_active w Hinv n Hn Hkn) as Hns.
    by rewrite (Huniq n) in Hn.
Qed.

Lemma inv_scenarios_deselect w id i : un_kind id <> UnitKind.Scenario -> inv_scenarios w ->
  inv_scenarios (w <| m_selected ::= fun s => s ∖ {[ id ]} |> <| m_io := i |>).
Proof.
  intros Hk [Hh Hc Hs Ha]. split; simpl; try done.
  - intros p Hp. destruct (Hc p Hp) as (n & Hn & Hsel). exists n. split; [done|].
    destruct (Hh n p Hn) as (Hkn & _). assert (n <> id) by congruence. set_solver.
  - intros n Hn. apply Hs. set_solver.
  - intros n Hn Hkn. specialize (Ha n Hn Hkn). assert (n <> id) by congruence. set_solver.
Qed.

Lemma deselect_jig_run fuel id reason w : un_kind id = UnitKind.Jig -> mgr_wf w ->
  exists w', deselect (S (S (S fuel))) id reason w = Done (tt, w') /\ mgr_wf w' /\ same_loaded w w' /\
    id ∉ m_selected w' /\ id ∉ m_active w' /\ (id ∈ m_selected w -> m_current_jig w' = None).
Proof.
  intros Hk Hwf.
  destruct (deactivate_run id "unit is being deselcted" w) as (w1 & Hrun & Hd & Hdt).
  { split; [congruence|]. intros _. apply (mw_cj _ Hwf). }
  assert (id ∉ m_active w1) as Hna by (apply Hdt; unfold deactivates; by rewrite Hk).
  assert (mgr_wf w1) as Hwf1 by (by eapply deactivated_wf).
  destruct (decide (id ∈ m_selected w1)) as [Hsel|Hsel].
  - destruct (deselect_current_jig fuel id w1 Hk Hwf1 Hsel) as (w2 & Hrun2 & Hst).
    destruct (deselect_selected (S (S fuel)) id reason w w1 w2 Hrun Hsel Hrun2) as (i & Hres).
    eexists. split; [exact Hres|]. destruct Hwf1 as [Hs1 Hj1 Ht1 Hcs1 Hcj1].
    pose proof (scenario_step_loaded _ _ Hst) as Hl.
    destruct Hst as [Hs2 Ht2 Hj2 Hl2 Hh2 Hb2 Hd2 Hif2]. simpl in *. split_and!; simpl.
    + split; simpl.
      * apply inv_scenarios_deselect; [congruence|done].
      * by eapply inv_jigs_taken.
      * apply inv_tests_deselect; [congruence|done].
      * by rewrite Hb2.
      * by rewrite (sj_borrow _ _ Hj2).
    + transitivity w1; [by eapply deactivated_loaded|]. by destruct Hl.
    + set_solver.
    + intros Hact. apply Hna. by apply (sj_kind _ _ Hj2).
    + intros _. by rewrite (sj_current _ _ Hj2).
  - exists w1. split; [by apply deselect_unselected|]. split_and!; try done.
    + by eapply deactivated_loaded.
    + rewrite (de_selected _ _ _ Hd) in Hsel. done.
Qed.

Lemma tests_step_wf w w' : tests_step w w' -> mgr_wf w -> mgr_wf w'.
Proof.
  intros [Hs Hj Hd _ Hi] []. split; [by eapply same_scenarios_inv|by eapply same_jigs_inv|auto|..].
  - by rewrite (ss_borrow _ _ Hs).
  - by rewrite (sj_borrow _ _ Hj).
Qed.

Lemma scenario_step_wf w w' : scenario_step w w' -> mgr_wf w -> mgr_wf w'.
Proof.
  intros [Hs Ht Hj Hl Hh Hb Hd _] []. split; [done|by eapply same_jigs_inv|done|by rewrite Hb|].
  by rewrite (sj_borrow _ _ Hj).
Qed.

Lemma same_wf w w' : same_scenarios w w' -> same_jigs w w' -> same_tests w w' -> mgr_wf w -> mgr_wf w'.
Proof.
  intros Hs Hj Ht [Hsi Hji Hti Hcs Hcj].
  split; [by eapply same_scenarios_inv|by eapply same_jigs_inv|by eapply same_tests_inv|..].
  - by rewrite (ss_borrow _ _ Hs).
  - by rewrite (sj_borrow _ _ Hj).
Qed.

Definition process_kind (k : UnitKind) : bool :=
  match k with
  | UnitKind.Interface | UnitKind.Logger | UnitKind.Trigger | UnitKind.Internal => true
  | _ => false
  end.

(** The other kinds: whatever happens to them, the invariant is not about them. *)
Lemma other_kind_frames w w' id (f : gset UnitName -> gset UnitName) (g : gset UnitName -> gset UnitName) :
  process_kind (un_kind id) = true ->
  m_selected w' = f (m_selected w) -> m_active w' = g (m_active w) ->
  (forall n s, n <> id -> n ∈ f s <-> n ∈ s) -> (forall n s, n <> id -> n ∈ g s <-> n ∈ s) ->
  forall k, process_kind k = false -> same_kind k w w'.
Proof.
  intros Hk Hs Ha Hf Hg k Hk' n Hn. assert (n <> id) by congruence. rewrite Hs, Ha. auto.
Qed.

Lemma deselect_other_run fuel id reason w : process_kind (un_kind id) = true -> mgr_wf w ->
  exists w', deselect (S fuel) id reason w = Done (tt, w') /\ mgr_wf w' /\ same_loaded w w'.
Proof.
  intros Hk Hwf.
  destruct (deactivate_run id "unit is being deselcted" w) as (w1 & Hrun & Hd & _).
  { split; intros Hid; by rewrite Hid in Hk. }
  assert (mgr_wf w1) as Hwf1 by (by eapply deactivated_wf).
  pose proof (deactivated_loaded _ _ _ Hd) as Hl.
  destruct (decide (id ∈ m_selected w1)) as [Hsel|Hsel];
    [|exists w1; split_and!; [by apply deselect_unselected|done|done]].
  assert (exists r, deselect_kind (deselect fuel) id w1 = Done (r, w1)) as [r Hr].
  { unfold deselect_kind, deselect_plain, gets, mbind, M_bind. destruct (un_kind id); try done; by eexists. }
  destruct r as [[]|e].
  - destruct (deselect_selected fuel id reason w w1 w1 Hrun Hsel Hr) as (i & Hres).
    eexists. split; [exact Hres|]. split; [|transitivity w1; [done|by split]].
    assert (forall k, process_kind k = false -> same_kind k w1
      (w1 <| m_selected ::= fun s => s ∖ {[ id ]} |> <| m_io := i |>)) as Hsk.
    { eapply (other_kind_frames _ _ id (fun s => s ∖ {[ id ]}) (fun s => s)); try done; set_solver. }
    apply (same_wf w1); [split|split|split|]; simpl; try done; by apply Hsk.
  - exists w1. split_and!; [|done|done].
    change (deselect (S fuel) id reason) with
      (deactivate id "unit is being deselcted";; selected ← gets m_selected;
       if bool_decide (id ∉ selected) then mret tt
       else res ← deselect_kind (deselect fuel) id;
        match res with
        | Ok _ => modify (fun w => w <| m_selected ::= fun s => s ∖ {[ id ]} |>);;
                  broadcast_status (new_deselected id reason)
        | Err _ => mret tt
        end).
    unfold mbind at 1, M_bind at 1. rewrite Hrun. unfold gets at 1. unfold mbind at 1, M_bind at 1.
    rewrite bool_decide_eq_false_2 by (intros ?; done). unfold mbind at 1, M_bind at 1. by rewrite Hr.
Qed.

(** Deselecting any unit keeps the invariant. *)
Lemma deselect_wf fuel id reason w : 3 <= fuel -> mgr_wf w ->
  exists w', deselect fuel id reason w = Done (tt, w') /\ mgr_wf w' /\ same_loaded w w' /\
    (process_kind (un_kind id) = false -> id ∉ m_selected w').
Proof.
  intros Hfuel Hwf. destruct fuel as [|[|[|fuel]]]; try lia.
  destruct (un_kind id) eqn:Hk;
    try (destruct (deselect_other_run (S (S fuel)) id reason w) as (w' & ? & ? & ?);
         [by rewrite Hk|done|by exists w']).
  - destruct (deselect_jig_run fuel id reason w Hk Hwf) as (w' & Hrun & Hwf' & Hl & Hno & _). by exists w'.
  - destruct Hwf as [Hs Hj Ht Hcs Hcj].
    destruct (deselect_scenario_run (S fuel) id reason w Hk Hs Ht Hcs) as (w' & Hrun & Hst & Hno & _).
    exists w'. split_and!; [done|by eapply scenario_step_wf|by apply scenario_step_loaded|done].
  - destruct (deselect_test_run (S (S fuel)) id reason w Hk) as (w' & Hrun & Hst & Hno).
    exists w'. split_and!; [done|by eapply tests_step_wf|by apply tests_step_loaded|intros _; apply Hno, Hwf].
Qed.

(** ** Selecting *)

Definition select_kind (desel : UnitName -> string -> MM unit) (sel : UnitName -> MM unit)
    (id : UnitName) : MM (result UnitSelectError unit) :=
  match un_kind id with
  | UnitKind.Interface => select_plain m_interfaces id
  | UnitKind.Jig => select_jig desel sel id
  | UnitKind.Logger => select_plain m_loggers id
  | UnitKind.Scenario => select_scenario desel sel id
  | UnitKind.Test => select_test id
  | UnitKind.Trigger => select_plain m_triggers id
  | UnitKind.Internal => mret (Ok tt)
  end.

Lemma select_selected fuel id w : id ∈ m_selected w -> select (S fuel) id w = Done (tt, w).
Proof. intros Hs. simpl. unfold gets, mbind, M_bind. by rewrite bool_decide_eq_true_2. Qed.

Lemma select_unselected fuel id w r w1 : id ∉ m_selected w ->
  select_kind (deselect fuel) (select fuel) id w = Done (r, w1) ->
  exists i, select (S fuel) id w = Done (tt,
    (if is_ok r then w1 <| m_selected ::= fun s => {[ id ]} ∪ s |> else w1) <| m_io := i |>).
Proof.
  intros Hs Hk.
  assert (select (S fuel) id w = (res ← select_kind (deselect fuel) (select fuel) id;
    match res with
    | Ok _ => modify (fun w => w <| m_selected ::= fun s => {[ id ]} ∪ s |>);;
              broadcast_status (new_selected id)
    | Err e => broadcast_status (new_select_failed id (UnitSelectError_fmt e))
    end) w) as ->.
  { simpl. unfold gets at 1. unfold mbind at 1, M_bind at 1. by rewrite bool_decide_eq_false_2. }
  unfold mbind at 1, M_bind at 1. rewrite Hk. destruct r as [[]|e]; eexists; reflexivity.
Qed.

(** Only the outputs differ. *)
Lemma same_io w i : same_scenarios w (w <| m_io := i |>) /\ same_jigs w (w <| m_io := i |>) /\
  same_tests w (w <| m_io := i |>).
Proof. by repeat split. Qed.

Lemma tests_step_io w i : tests_step w (w <| m_io := i |>).
Proof. destruct (same_io w i) as (? & ? & Ht). split; [done|done|done|done|by apply same_tests_inv]. Qed.

Lemma select_test_run fuel id w : un_kind id = UnitKind.Test ->
  exists w', select (S fuel) id w = Done (tt, w') /\ tests_step w w'.
Proof.
  intros Hk. destruct (decide (id ∈ m_selected w)) as [Hs|Hs].
  { exists w. split; [by apply select_selected|done]. }
  assert (exists r, select_kind (deselect fuel) (select fuel) id w = Done (r, w) /\
    (is_ok r = true -> is_Some (m_tests w !! id))) as (r & Hrun & Hok).
  { unfold select_kind, select_test, gets, mbind, M_bind. rewrite Hk. simpl. eexists. split; [done|].
    destruct (m_tests w !! id); [by eexists|done]. }
  destruct (select_unselected fuel id w r w Hs Hrun) as (i & Hres). eexists. split; [exact Hres|].
  destruct (is_ok r) eqn:Hr; [|apply tests_step_io].
  assert (forall k, UnitKind.Test <> k ->
    same_kind k w (w <| m_selected ::= fun s => {[ id ]} ∪ s |> <| m_io := i |>)) as Hsk.
  { intros k Hne. eapply (same_kind_select _ _ id (fun s => {[ id ]} ∪ s)); [done|done|set_solver|congruence]. }
  split; simpl; [by split; try done; apply Hsk|by split; try done; apply Hsk|done|done|].
  intros [Hts Hta]. split; simpl.
  - intros n Hn Hkn. destruct (decide (n = id)) as [->|]; [auto|apply Hts; [set_solver|done]].
  - intros n Hn Hkn. specialize (Hta n Hn Hkn). set_solver.
Qed.

(** Making a loaded scenario the current one, when none is. *)
Lemma inv_scenarios_set w w' id p i : un_kind id = UnitKind.Scenario ->
  inv_scenarios w -> m_current_scenario w = None -> m_scenarios w !! id = Some p ->
  same_scenarios (w <| m_current_scenario := Some p |>) w' ->
  inv_scenarios (w' <| m_selected ::= fun s => {[ id ]} ∪ s |> <| m_io := i |>).
Proof.
  intros Hk Hinv Hnone Hid [Hs Hh Hc Hb Hkind]. simpl in *.
  assert (forall n, un_kind n = UnitKind.Scenario -> n ∉ m_selected w) as Hno.
  { intros n Hkn Hn. destruct (is_selected w Hinv n Hn Hkn) as (q & Hq & _). congruence. }
  split; simpl.
  - rewrite Hs, Hh. apply Hinv.
  - rewrite Hc, Hs. intros q [= <-]. exists id. split; [done|set_solver].
  - rewrite Hc, Hs. intros n Hn Hkn. destruct (decide (n = id)) as [->|]; [by exists p|].
    assert (n ∈ m_selected w') as Hn' by set_solver. apply Hkind in Hn'; [|done]. by destruct (Hno n Hkn).
  - intros n Hn Hkn. apply Hkind in Hn; [|done]. by destruct (Hno n Hkn (is_active w Hinv n Hn Hkn)).
Qed.

Lemma inv_tests_select w id i : un_kind id <> UnitKind.Test -> inv_tests w ->
  inv_tests (w <| m_selected ::= fun s => {[ id ]} ∪ s |> <| m_io := i |>).
Proof.
  intros Hk [Hs Ha]. split; simpl.
  - intros n Hn Hkn. assert (n <> id) by congruence. apply Hs; [set_solver|done].
  - intros n Hn Hkn. specialize (Ha n Hn Hkn). set_solver.
Qed.

Lemma same_jigs_select w w' id i : un_kind id <> UnitKind.Jig -> same_jigs w w' ->
  same_jigs w (w' <| m_selected ::= fun s => {[ id ]} ∪ s |> <| m_io := i |>).
Proof.
  intros Hk [Hj Hc Hb Hkind]. split; simpl; try done. intros n Hkn. simpl.
  assert (n <> id) by congruence. destruct (Hkind n Hkn). set_solver.
Qed.

Lemma scenario_step_refl w : inv_scenarios w -> inv_tests w -> scenario_step w w.
Proof. by split. Qed.

(** Out with the old scenario. *)
Lemma deselect_old_scenario fuel w : inv_scenarios w -> inv_tests w -> m_cs_borrow w = Unborrowed ->
  exists cur w', current_scenario_id w = Done (cur, w) /\
    (forall id, cur = Some id -> id ∈ m_selected w) /\
    (match cur with
     | Some old_id => deselect (S (S fuel)) old_id "switching to a new scenario"
     | None => mret tt
     end) w = Done (tt, w') /\ scenario_step w w' /\ m_current_scenario w' = None.
Proof.
  intros Hs Ht Hb. destruct (current_scenario_id_run w Hs Hb) as (cur & Hcur & Hcase).
  destruct (m_current_scenario w) as [p|] eqn:Hp.
  - destruct Hcase as (id & -> & Hid & Hsel). destruct (is_heap w Hs id p Hid) as (Hk & _).
    destruct (deselect_scenario_run fuel id "switching to a new scenario" w Hk Hs Ht Hb)
      as (w' & Hrun & Hst & _ & _ & Hnone).
    exists (Some id), w'. split_and!; auto. by intros n [= <-].
  - subst cur. exists None, w. split_and!; try done.
Qed.

Lemma select_scenario_run fuel id w :
  un_kind id = UnitKind.Scenario -> inv_scenarios w -> inv_tests w -> m_cs_borrow w = Unborrowed ->
  exists w', select (S (S (S fuel))) id w = Done (tt, w') /\ scenario_step w w' /\
    (is_Some (m_scenarios w !! id) -> id ∈ m_selected w').
Proof.
  intros Hk Hs Ht Hb. destruct (decide (id ∈ m_selected w)) as [Hsel|Hsel].
  { exists w. split_and!; [by apply select_selected|by apply scenario_step_refl|done]. }
  destruct (m_scenarios w !! id) as [p|] eqn:Hid.
  2: { destruct (select_unselected (S (S fuel)) id w (Err SelectUnitNotFound) w Hsel) as (i & Hres).
       { unfold select_kind, select_scenario, gets, mbind, M_bind. by rewrite Hk, Hid. }
       eexists. split; [exact Hres|]. destruct (same_io w i) as (Hss & Hsj & Hst).
       split; [|by intros [? ?]]. split; simpl; try done; [by eapply same_scenarios_inv|by eapply same_tests_inv]. }
  destruct (deselect_old_scenario fuel w Hs Ht Hb) as (cur & w1 & Hcur & Hold & Hdes & Hst1 & Hnone).
  destruct Hst1 as [Hs1 Ht1 Hj1 Hl1 Hh1 Hb1 Hd1 Hif1]. rewrite <- Hl1 in Hid.
  destruct (is_heap w1 Hs1 id p Hid) as (_ & s & Hheap & Hsid & Htests).
  destruct (forM_tests_step (select (S (S fuel))) (test_sequence s) (w1 <| m_current_scenario := Some p |>))
    as (w2 & Hrun2 & [Hs2 Hj2 Hd2 Hif2 Hi2]).
  { intros n w0 Hn. apply select_test_run. by apply Htests. }
  destruct (select_unselected (S (S fuel)) id w (Ok tt) w2 Hsel) as (i & Hres).
  { unfold select_kind, select_scenario. rewrite Hk. unfold gets at 1. unfold mbind at 1, M_bind at 1.
    rewrite <- Hl1, Hid. unfold mbind at 1, M_bind at 1. rewrite Hcur.
    rewrite bool_decide_eq_false_2 by (intros Heq; by apply Hsel, Hold).
    unfold mbind at 1, M_bind at 1. rewrite Hdes.
    assert (with_current_scenario_mut (modify (fun w => w <| m_current_scenario := Some p |>)) w1 =
      Done (tt, w1 <| m_current_scenario := Some p |>)) as Hset.
    { unfold with_current_scenario_mut, borrow_mut. rewrite Hb1, Hb. unfold put_cs, modify. simpl.
      rewrite Hb in Hb1. destruct w1. simpl in *. by subst. }
    unfold mbind at 1, M_bind at 1. rewrite Hset.
    unfold deref, gets, unwrap, mbind, M_bind. simpl in *. rewrite Hheap. simpl. by rewrite Hrun2. }
  eexists. split; [exact Hres|]. split; [split|]; simpl.
  - by eapply inv_scenarios_set.
  - apply inv_tests_select; [congruence|]. apply Hi2. by destruct Ht1.
  - apply same_jigs_select; [congruence|]. transitivity w1; [done|]. by destruct Hj2.
  - rewrite (ss_scenarios _ _ Hs2). done.
  - rewrite (ss_heap _ _ Hs2). done.
  - rewrite (ss_borrow _ _ Hs2). done.
  - by rewrite Hd2.
  - by rewrite Hif2.
  - intros _. set_solver.
Qed.

(** Making a loaded jig the current one, when none is. *)
Lemma inv_jigs_set w w' id j i : un_kind id = UnitKind.Jig ->
  inv_jigs w -> m_current_jig w = None -> m_jigs w !! id = Some j ->
  same_jigs (w <| m_current_jig := Some j |>) w' ->
  inv_jigs (w' <| m_selected ::= fun s => {[ id ]} ∪ s |> <| m_io := i |>).
Proof.
  intros Hk Hinv Hnone Hid [Hj Hc Hb Hkind]. simpl in *.
  destruct (ij_loaded w Hinv id j Hid) as (Hjid & _).
  assert (forall n, un_kind n = UnitKind.Jig -> n ∉ m_selected w) as Hno.
  { intros n Hkn Hn. destruct (ij_selected w Hinv n Hn Hkn) as (q & Hq & _). congruence. }
  split; simpl.
  - rewrite Hj. apply Hinv.
  - rewrite Hc, Hj. intros q [= <-]. rewrite Hjid. split; [done|set_solver].
  - rewrite Hc. intros n Hn Hkn. destruct (decide (n = id)) as [->|]; [by exists j|].
    assert (n ∈ m_selected w') as Hn' by set_solver. apply Hkind in Hn'; [|done]. by destruct (Hno n Hkn).
  - intros n Hn Hkn. apply Hkind in Hn; [|done]. by destruct (Hno n Hkn (ij_active w Hinv n Hn Hkn)).
Qed.

Lemma inv_scenarios_select w id i : un_kind id <> UnitKind.Scenario -> inv_scenarios w ->
  inv_scenarios (w <| m_selected ::= fun s => {[ id ]} ∪ s |> <| m_io := i |>).
Proof.
  intros Hk [Hh Hc Hs Ha]. split; simpl; try done.
  - intros p Hp. destruct (Hc p Hp) as (n & Hn & Hsel). exists n. split; [done|set_solver].
  - intros n Hn Hkn. assert (n <> id) by congruence. apply Hs; [set_solver|done].
  - intros n Hn Hkn. specialize (Ha n Hn Hkn). set_solver.
Qed.

Lemma current_jig_id_run w : m_cj_borrow w = Unborrowed ->
  current_jig_id w = Done (jg_id <$> m_current_jig w, w).
Proof.
  intros Hb. unfold current_jig_id, with_current_jig, borrow. rewrite Hb.
  unfold gets, mbind, M_bind. simpl. unfold put_cj. destruct w. simpl in *. by subst.
Qed.

(** Out with the old jig. *)
Lemma deselect_old_jig fuel w : mgr_wf w ->
  exists w', (match jg_id <$> m_current_jig w with
     | Some old_id => deselect (S (S (S fuel))) old_id "switching to a new jig"
     | None => mret tt
     end) w = Done (tt, w') /\ mgr_wf w' /\ same_loaded w w' /\ m_current_jig w' = None.
Proof.
  intros Hwf. destruct (m_current_jig w) as [j|] eqn:Hj; simpl; [|by exists w].
  destruct (ij_current w (mw_jigs w Hwf) j Hj) as [Hl Hsel].
  destruct (ij_loaded w (mw_jigs w Hwf) _ j Hl) as (_ & Hk & _).
  destruct (deselect_jig_run fuel (jg_id j) "switching to a new jig" w Hk Hwf)
    as (w' & Hrun & Hwf' & Hsl & _ & _ & Hnone). exists w'. auto.
Qed.

(** In with its default scenario. *)
Lemma select_default fuel j w : mgr_wf w -> m_jigs w !! jg_id j = Some j ->
  exists w', (match jd_default_scenario (jg_desc j) with
     | Some scenario_name => select (S (S (S fuel))) scenario_name
     | None => mret tt
     end) (w <| m_current_jig := Some j |>) = Done (tt, w') /\
     scenario_step (w <| m_current_jig := Some j |>) w'.
Proof.
  intros [Hs Hj Ht Hcs Hcj] Hl. destruct (ij_loaded w Hj _ j Hl) as (_ & _ & Hdef).
  assert (inv_scenarios (w <| m_current_jig := Some j |>)) as Hs1 by (by destruct Hs).
  assert (inv_tests (w <| m_current_jig := Some j |>)) as Ht1 by (by destruct Ht).
  destruct (jd_default_scenario (jg_desc j)) as [n|].
  - destruct (select_scenario_run fuel n (w <| m_current_jig := Some j |>)) as (w' & ? & ? & _); auto.
    by exists w'.
  - eexists. split; [done|]. by apply scenario_step_refl.
Qed.

Lemma select_jig_run fuel id w : un_kind id = UnitKind.Jig -> mgr_wf w ->
  exists w', select (S (S (S (S fuel)))) id w = Done (tt, w') /\ mgr_wf w' /\ same_loaded w w'.
Proof.
  intros Hk Hwf. destruct (decide (id ∈ m_selected w)) as [Hsel|Hsel].
  { exists w. split; [by apply select_selected|done]. }
  destruct (m_jigs w !! id) as [j|] eqn:Hid.
  2: { destruct (select_unselected (S (S (S fuel))) id w (Err SelectUnitNotFound) w Hsel) as (i & Hres).
       { unfold select_kind, select_jig, gets, mbind, M_bind. by rewrite Hk, Hid. }
       eexists. split; [exact Hres|]. destruct (same_io w i) as (Hss & Hsj & Hst).
       split; [by eapply same_wf|done]. }
  destruct (ij_loaded w (mw_jigs w Hwf) id j Hid) as (Hjid & _).
  destruct (deselect_old_jig fuel w Hwf) as (w1 & Hdes & Hwf1 & Hl1 & Hnone).
  assert (m_jigs w1 !! id = Some j) as Hid1 by (by rewrite (sl_jigs _ _ Hl1)).
  destruct (select_default fuel j w1 Hwf1) as (w2 & Hrun2 & Hst2); [by rewrite Hjid|].
  destruct (select_unselected (S (S (S fuel))) id w (Ok tt) w2 Hsel) as (i & Hres).
  { unfold select_kind, select_jig. rewrite Hk. unfold gets at 1. unfold mbind at 1, M_bind at 1.
    rewrite Hid. unfold mbind at 1, M_bind at 1. rewrite current_jig_id_run by apply Hwf.
    rewrite bool_decide_eq_false_2.
    2: { destruct (m_current_jig w) as [j'|] eqn:Hc; [|done]. simpl. intros [= <-].
         by destruct (ij_current w (mw_jigs w Hwf) j' Hc). }
    unfold mbind at 1, M_bind at 1. rewrite Hdes.
    assert (with_current_jig_mut (modify (fun w => w <| m_current_jig := Some j |>)) w1 =
      Done (tt, w1 <| m_current_jig := Some j |>)) as Hset.
    { unfold with_current_jig_mut, borrow_mut. rewrite (mw_cj _ Hwf1). unfold put_cj, modify. simpl.
      pose proof (mw_cj _ Hwf1). destruct w1. simpl in *. by subst. }
    unfold mbind at 1, M_bind at 1. rewrite Hset. unfold mbind at 1, M_bind at 1. by rewrite Hrun2. }
  eexists. split; [exact Hres|]. pose proof (scenario_step_loaded _ _ Hst2) as Hl2.
  destruct Hst2 as [Hs2 Ht2 Hj2 Hls2 Hh2 Hb2 Hd2 Hif2]. simpl in *.
  split; [|transitivity w1; [done|by destruct Hl2]]. split; simpl.
  - apply inv_scenarios_select; [congruence|done].
  - eapply inv_jigs_set; [done|apply Hwf1|done|exact Hid1|done].
  - apply inv_tests_select; [congruence|done].
  - rewrite Hb2. apply Hwf1.
  - rewrite (sj_borrow _ _ Hj2). apply Hwf1.
Qed.

Lemma select_other_run fuel id w : process_kind (un_kind id) = true -> mgr_wf w ->
  exists w', select (S fuel) id w = Done (tt, w') /\ mgr_wf w' /\ same_loaded w w'.
Proof.
  intros Hk Hwf. destruct (decide (id ∈ m_selected w)) as [Hsel|Hsel].
  { exists w. split; [by apply select_selected|done]. }
  assert (exists r, select_kind (deselect fuel) (select fuel) id w = Done (r, w)) as [r Hr].
  { unfold select_kind, select_plain, gets, mbind, M_bind. destruct (un_kind id); try done; by eexists. }
  destruct (select_unselected fuel id w r w Hsel Hr) as (i & Hres). eexists. split; [exact Hres|].
  destruct (same_io w i) as (Hss & Hsj & Hst).
  destruct (is_ok r); [|split; [by eapply same_wf|done]].
  assert (forall k, process_kind k = false -> same_kind k w
    (w <| m_selected ::= fun s => {[ id ]} ∪ s |> <| m_io := i |>)) as Hsk.
  { eapply (other_kind_frames _ _ id (fun s => {[ id ]} ∪ s) (fun s => s)); try done; set_solver. }
  split; [|by split]. apply (same_wf w); [split|split|split|]; simpl; try done; by apply Hsk.
Qed.

(** Selecting any unit keeps the invariant. *)
Lemma select_wf fuel id w : 4 <= fuel -> mgr_wf w ->
  exists w', select fuel id w = Done (tt, w') /\ mgr_wf w' /\ same_loaded w w'.
Proof.
  intros Hfuel Hwf. destruct fuel as [|[|[|[|fuel]]]]; try lia.
  destruct (un_kind id) eqn:Hk; try (apply select_other_run; by rewrite ?Hk).
  - by apply select_jig_run.
  - destruct Hwf as [Hs Hj Ht Hcs Hcj].
    destruct (select_scenario_run (S fuel) id w Hk Hs Ht Hcs) as (w' & Hrun & Hst & _).
    exists w'. split_and!; [done|by eapply scenario_step_wf|by apply scenario_step_loaded].
  - destruct (select_test_run (S (S (S fuel))) id w Hk) as (w' & Hrun & Hst).
    exists w'. split_and!; [done|by eapply tests_step_wf|by apply tests_step_loaded].
Qed.

(** ** Activating *)

(** The loaded units stay loaded, under the same descriptions. *)
Record same_units w w' : Prop := {
  su_scenarios : m_scenarios w' = m_scenarios w;
  su_jigs : m_jigs w' = m_jigs w;
  su_tests : te_desc <$> m_tests w' = te_desc <$> m_tests w;
  su_interfaces : if_desc <$> m_interfaces w' = if_desc <$> m_interfaces w;
}.

#[export] Instance same_units_preorder : PreOrder same_units.
Proof. split; [by split|]. intros w1 w2 w3 [] []. split; congruence. Qed.

Lemma same_loaded_units w w' : same_loaded w w' -> same_units w w'.
Proof. intros []. by split. Qed.

(** Scenarios that can be advanced without a panic. *)
Definition scenarios_ok w : Prop :=
  forall p s, m_heap w !! p = Some s -> sc_wf s /\ no_time_limit s.

(** What the steps of the manager keep: the loaded units, and scenarios that can
    be advanced. *)
Definition keeps w w' : Prop := mgr_wf w' /\ same_units w w' /\ (scenarios_ok w -> scenarios_ok w').

Lemma keeps_loaded w w' : mgr_wf w' -> same_loaded w w' -> keeps w w'.
Proof.
  intros Hwf Hl. split; [done|]. split; [by apply same_loaded_units|].
  intros Hok p s. rewrite (sl_heap _ _ Hl). apply Hok.
Qed.

Lemma keeps_refl w : mgr_wf w -> keeps w w.
Proof. by split. Qed.

Lemma keeps_trans w1 w2 w3 : keeps w1 w2 -> keeps w2 w3 -> keeps w1 w3.
Proof. intros (_ & Hu1 & Ho1) (Hwf & Hu2 & Ho2). split; [done|]. split; [by transitivity w2|auto]. Qed.

Lemma keeps_io w i : mgr_wf w -> keeps w (w <| m_io := i |>).
Proof.
  intros Hwf. apply keeps_loaded; [|done]. destruct (same_io w i) as (? & ? & ?). by eapply same_wf.
Qed.

Lemma io_run {A} (m : M IO A) w : io_total m -> exists a i, io m w = Done (a, w <| m_io := i |>).
Proof. intros Hm. destruct (Hm (m_io w)) as (a & i & Hi). exists a, i. unfold io, zoom. by rewrite Hi. Qed.

(** A scenario that changes in the heap, but not in what it runs. *)
Lemma keeps_heap w p s s' i : mgr_wf w -> m_heap w !! p = Some s -> agree s s' ->
  (sc_wf s -> no_time_limit s -> sc_wf s') ->
  keeps w (w <| m_heap ::= <[p := s']> |> <| m_io := i |>).
Proof.
  intros [[Hh Hc Hsel Hact] Hj Ht Hcs Hcj] Hs Ha Hwf. split; [split; simpl; try done|].
  - split; simpl; try done. intros id q Hq. destruct (Hh id q Hq) as (Hk & s0 & Hs0 & Hid & Htests).
    split; [done|]. destruct (decide (q = p)) as [->|Hne].
    + exists s'. rewrite lookup_insert_eq. assert (s0 = s) as -> by congruence. split_and!; [done| |].
      * unfold sc_id. by rewrite (ag_description _ _ Ha).
      * by rewrite (agree_test_sequence _ _ Ha).
    + exists s0. by rewrite lookup_insert_ne.
  - by destruct Hj.
  - by destruct Ht.
  - split; [by split|]. intros Hok q s0. simpl. destruct (decide (q = p)) as [->|Hne].
    + rewrite lookup_insert_eq. intros [= <-]. destruct (Hok p s Hs) as [Hw Hl].
      split; [auto|by eapply agree_no_time_limit].
    + rewrite lookup_insert_ne by done. apply Hok.
Qed.

Definition activate_kind (id : UnitName) : MM (result UnitActivateError unit) :=
  match un_kind id with
  | UnitKind.Interface => activate_interface id
  | UnitKind.Jig => activate_jig id
  | UnitKind.Logger => activate_logger id
  | UnitKind.Scenario => activate_scenario id
  | UnitKind.Test => activate_test id
  | UnitKind.Trigger => activate_trigger id
  | UnitKind.Internal => mret (Ok tt)
  end.

Lemma interface_activate_run i io : exists i' r io',
  interface_activate i io = Done ((i', r), io') /\ if_desc i' = if_desc i.
Proof.
  unfold interface_activate, start_child, io_send, emit, ask, gets, modify, mbind, M_bind. simpl.
  destruct (env_start _ _ _ _); by eexists _, _, _.
Qed.

(** A step that changes units, but neither what is selected nor what is active. *)
Definition inert w w' : Prop := m_selected w' = m_selected w /\ m_active w' = m_active w.

Lemma inert_same_kind w w' k : inert w w' -> same_kind k w w'.
Proof. intros [Hs Ha] n _. by rewrite Hs, Ha. Qed.

Lemma activate_interface_run id w : mgr_wf w ->
  exists r w', activate_interface id w = Done (r, w') /\ keeps w w' /\ inert w w'.
Proof.
  intros Hwf. unfold activate_interface, gets, io, zoom, mbind, M_bind.
  destruct (m_interfaces w !! id) as [i|] eqn:Hi; [|eexists _, w; split_and!; [done|by apply keeps_refl|done]].
  destruct (interface_activate_run i (m_io w)) as (i' & r & io' & -> & Hdesc).
  eexists _, _. split; [done|]. split; [|done]. apply keeps_loaded.
  - apply (same_wf w); [split|split|split|]; simpl; try done; by apply inert_same_kind.
  - split; simpl; try done. by eapply fmap_insert_same.
Qed.

Lemma test_activate_run t io : exists t' r io',
  test_activate t io = Done ((t', r), io') /\ te_desc t' = te_desc t.
Proof.
  unfold test_activate, start_child, io_send, emit, ask, gets, modify, mbind, M_bind. simpl.
  destruct (env_start _ _ _ _); by eexists _, _, _.
Qed.

Lemma activate_test_run id w : mgr_wf w ->
  exists r w', activate_test id w = Done (r, w') /\ keeps w w' /\ inert w w'.
Proof.
  intros Hwf. unfold activate_test, gets, io, zoom, mbind, M_bind.
  destruct (m_tests w !! id) as [t|] eqn:Hi; [|eexists _, w; split_and!; [done|by apply keeps_refl|done]].
  destruct (test_activate_run t (m_io w)) as (t' & r & io' & -> & Hdesc).
  eexists _, _. split; [done|]. split; [|done]. apply keeps_loaded.
  - apply (same_wf w); [split|split|split|]; simpl; try done; try by apply inert_same_kind.
    by eapply fmap_insert_same.
  - split; simpl; try done. by eapply fmap_insert_same.
Qed.

Lemma activate_process_run id w : mgr_wf w ->
  (exists r w', activate_logger id w = Done (r, w') /\ keeps w w' /\ inert w w') /\
  (exists r w', activate_trigger id w = Done (r, w') /\ keeps w w' /\ inert w w').
Proof.
  intros Hwf. split.
  - unfold activate_logger, gets, io, zoom, mbind, M_bind.
    destruct (m_loggers w !! id) as [t|] eqn:Hi; [|eexists _, w; split_and!; [done|by apply keeps_refl|done]].
    destruct (logger_activate_total t (m_io w)) as ([t' r] & io' & ->).
    eexists _, _. split; [done|]. split; [|done]. apply keeps_loaded; [|by split].
    apply (same_wf w); [split|split|split|]; simpl; try done; by apply inert_same_kind.
  - unfold activate_trigger, gets, io, zoom, mbind, M_bind.
    destruct (m_triggers w !! id) as [t|] eqn:Hi; [|eexists _, w; split_and!; [done|by apply keeps_refl|done]].
    destruct (trigger_activate_total t (m_io w)) as ([t' r] & io' & ->).
    eexists _, _. split; [done|]. split; [|done]. apply keeps_loaded; [|by split].
    apply (same_wf w); [split|split|split|]; simpl; try done; by apply inert_same_kind.
Qed.

End manager.
