(* ===== verification/ManagerSafety.v ===== *)
(** * The manager's operations are safe

    Every operation of the manager ends normally and keeps the invariant of
    [ManagerProps], when its request comes from a loaded unit: what it sends
    to the interfaces, what it activates, loads and unloads, and the requests
    it serves.  The exceptions are panics of the code, shown as such. *)

From S2P Require Import Prelude Str Path Unit Foreign Config Events Env Samples Descriptions Interface Trigger Logger Jig Test Scenario ScenarioProps ScenarioTheorems Manager ManagerProps.

Section manager.
Context `{Libraries} `{DependyLib} `{Env} `{!EnvLaws} `{!DependyLaws}.
Context (depth program_lines : nat) (depth_enough : 4 <= depth).
Implicit Types w : Manager.

(** ** Talking to interfaces *)

(** Interfaces with a format that is implemented. *)
Definition text_interfaces w : Prop :=
  forall id i, m_interfaces w !! id = Some i -> id_format (if_desc i) = Text.

(** Nothing changed but the interfaces that were talked to. *)
Record talked w w' : Prop := {
  ta_scenarios : same_scenarios w w';
  ta_jigs : same_jigs w w';
  ta_tests : same_tests w w';
  ta_interfaces : if_desc <$> m_interfaces w' = if_desc <$> m_interfaces w;
}.

#[export] Instance talked_preorder : PreOrder talked.
Proof.
  split; [by split|]. intros w1 w2 w3 [] [].
  split; [by transitivity w2|by transitivity w2|by transitivity w2|congruence].
Qed.

(** What every operation keeps. *)
Record steady w w' : Prop := {
  st_wf : mgr_wf w -> mgr_wf w';
  st_units : same_units w w';
  st_ok : scenarios_ok w -> scenarios_ok w';
}.

#[export] Instance steady_preorder : PreOrder steady.
Proof. split; [by split|]. intros w1 w2 w3 [] []. split; [auto|by transitivity w2|auto]. Qed.

Lemma keeps_steady w w' : keeps w w' -> steady w w'.
Proof. intros (Hwf & Hu & Hok). by split. Qed.

Lemma talked_steady w w' : talked w w' -> steady w w'.
Proof.
  intros [Hs Hj Ht Hi]. split.
  - by apply same_wf.
  - destruct Hs, Hj, Ht. by split.
  - intros Hok p s. rewrite (ss_heap _ _ Hs). apply Hok.
Qed.

Lemma talked_io w i : talked w (w <| m_io := i |>).
Proof. by repeat split. Qed.

Lemma same_units_interfaces w w' : same_units w w' -> text_interfaces w -> text_interfaces w'.
Proof.
  intros Hu Ht id i Hi. pose proof (su_interfaces _ _ Hu) as Hd.
  apply (f_equal (fun m => m !! id)) in Hd. rewrite !lookup_fmap, Hi in Hd. simpl in Hd.
  destruct (m_interfaces w !! id) as [i0|] eqn:Hi0; [|done]. simpl in Hd.
  injection Hd as ->. by eapply Ht.
Qed.

Lemma talked_interfaces w w' : talked w w' -> text_interfaces w -> text_interfaces w'.
Proof. intros Ht. apply same_units_interfaces, talked_steady, Ht. Qed.

Lemma same_units_loaded w w' id : same_units w w' ->
  is_Some (m_interfaces w !! id) -> is_Some (m_interfaces w' !! id).
Proof. intros Hu. by apply (fmap_loaded _ _ _ id (su_interfaces _ _ Hu)). Qed.

Lemma rt_io_inert {A} (m : M IO A) w : io_total m -> runs_to talked w (io m) (fun _ w' => inert w w').
Proof.
  intros Hm. destruct (io_run m w Hm) as (a & i & Hrun). exists a, (w <| m_io := i |>).
  split_and!; [done|apply talked_io|done].
Qed.

Lemma rt_io {A} (m : M IO A) w : io_total m -> runs_to talked w (io m) (fun _ _ => True).
Proof. intros Hm. eapply rt_conseq; [by apply rt_io_inert|done|done]. Qed.

Lemma rt_steady {A} w (m : MM A) Q : runs_to talked w m Q -> runs_to steady w m Q.
Proof. intros Hm. eapply rt_conseq; [exact Hm|apply talked_steady|done]. Qed.

Lemma write_chunks_total n chunks : io_total (write_chunks n chunks).
Proof.
  induction chunks as [|c chunks IH]; simpl; [apply io_total_ret|].
  apply io_total_bind; [apply io_total_ask|]. intros [[]|e]; [|apply io_total_ret].
  by apply io_total_bind; [apply io_total_emit|].
Qed.

Lemma interface_output_total i msg : id_format (if_desc i) = Text ->
  io_total (interface_output_message i msg).
Proof.
  intros Hf. unfold interface_output_message. rewrite Hf. unfold text_write.
  destruct (if_process i); [apply write_chunks_total|apply io_total_ret].
Qed.

Lemma output_messages_total i messages : id_format (if_desc i) = Text ->
  io_total (output_messages i messages).
Proof.
  intros Hf. induction messages as [|msg messages IH]; simpl; [apply io_total_ret|].
  apply io_total_bind; [by apply interface_output_total|]. intros [[]|e]; [done|apply io_total_ret].
Qed.

Lemma deactivate_talked id reason w : process_kind (un_kind id) = true ->
  runs_to talked w (deactivate id reason) (fun _ _ => True).
Proof.
  intros Hk. destruct (deactivate_run id reason w) as (w' & Hrun & Hd & _).
  { split; intros Hid; by rewrite Hid in Hk. }
  exists tt, w'. split_and!; [done| |done].
  destruct (deactivated_frames id w w' Hd) as (Hs & Hj & Ht).
  split; [apply Hs|apply Hj|apply Ht|apply Hd]; intros Hid; by rewrite Hid in Hk.
Qed.

(** The receiver of a message is loaded, if it is an interface. *)
Definition receiver_loaded w (id : UnitName) : Prop :=
  un_kind id = UnitKind.Interface -> is_Some (m_interfaces w !! id).

Lemma send_messages_talked id messages w : text_interfaces w -> receiver_loaded w id ->
  runs_to talked w (send_messages_to id messages) (fun _ _ => True).
Proof.
  intros Htext Hloaded. unfold send_messages_to.
  destruct (decide (un_kind id = UnitKind.Interface)) as [Hk|Hk].
  - rewrite Hk. destruct (Hloaded Hk) as [i Hi]. rt_bind (fun _ _ => True).
    + rt_bind (fun o _ => o = Some i); [by rt_gets|]. intros o w1 _ ->. simpl.
      rt_bind (fun a _ => a = i); [by rt_ret|]. intros a w2 _ ->.
      apply rt_io, output_messages_total. by eapply Htext.
    + intros [e|] w1 _ _; [apply deactivate_talked; by rewrite Hk|by rt_ret].
  - rt_bind (fun o _ => o = None); [destruct (un_kind id); try done; by rt_ret|].
    intros o w1 _ ->. by rt_ret.
Qed.

Lemma deref_bind {A} p s w (k : Scenario -> MM A) : m_heap w !! p = Some s ->
  (deref p ≫= k) w = k s w.
Proof. intros Hs. unfold deref, gets, unwrap, mbind, M_bind. by rewrite Hs. Qed.

Lemma rt_deref {A} (R : relation Manager) p s w (k : Scenario -> MM A) Q : m_heap w !! p = Some s ->
  runs_to R w (k s) Q -> runs_to R w (deref p ≫= k) Q.
Proof.
  intros Hs (a & w' & Hrun & HR & HQ). exists a, w'. by rewrite (deref_bind p s).
Qed.

(** A map is iterated in some order, each key once. *)
Lemma env_order_keys {A} (m : gmap UnitName A) n :
  NoDup (env_order n (map_to_list m).*1) /\
  forall k, k ∈ env_order n (map_to_list m).*1 <-> is_Some (m !! k).
Proof.
  assert (env_order n (map_to_list m).*1 ≡ₚ (map_to_list m).*1) as Hperm by apply env_order_perm.
  split; [rewrite Hperm; apply NoDup_fst_map_to_list|].
  intros k. rewrite Hperm, list_elem_of_fmap. split.
  - intros ([k' v] & -> & Hkv%elem_of_map_to_list). by exists v.
  - intros [v Hv]. exists (k, v). by rewrite elem_of_map_to_list.
Qed.

Lemma rt_iter_map {A} (m : gmap UnitName A) w :
  runs_to talked w (io (iter_map m)) (fun l _ => (forall k v, (k, v) ∈ l <-> m !! k = Some v)).
Proof.
  unfold iter_map, io, zoom, ask. eexists _, _. split_and!; [done|apply talked_io|].
  destruct (env_order_keys m (io_tick (m_io w))) as [_ Hkeys].
  intros k v. rewrite list_elem_of_omap. split.
  - intros (k' & _ & Hk'). destruct (m !! k') eqn:Hv; [|done]. by injection Hk' as -> ->.
  - intros Hv. exists k. rewrite Hv. split; [by apply Hkeys|done].
Qed.

Lemma broadcast_messages_talked messages w : text_interfaces w ->
  runs_to talked w (broadcast_messages messages) (fun _ _ => True).
Proof.
  intros Htext. unfold broadcast_messages.
  rt_bind (fun m _ => m = m_interfaces w); [by rt_gets|]. intros m w1 Hw1 ->.
  rt_bind _; [apply rt_iter_map|]. intros l w2 Hw2 Hl. rt_forM.
  intros id w3 Hid Hw3. apply list_elem_of_fmap in Hid as ([k i] & -> & Hki). simpl.
  assert (talked w w3) as Hw by (transitivity w1; [done|by transitivity w2]).
  apply send_messages_talked; [by eapply talked_interfaces|]. intros _.
  apply (same_units_loaded w); [by apply talked_steady|]. exists i. by apply Hl.
Qed.

(** ** Borrowed cells *)

Lemma rt_with_scenario {A} (m : MM A) w Q : m_cs_borrow w = Unborrowed ->
  runs_to talked (put_cs (Reading 1) w) m (fun a w' => Q a (put_cs Unborrowed w')) ->
  runs_to talked w (with_current_scenario m) Q.
Proof.
  intros Hb (a & w' & Hrun & Ht & HQ). exists a, (put_cs Unborrowed w').
  unfold with_current_scenario, borrow. rewrite Hb, Hrun. split_and!; [done| |done].
  destruct Ht as [[] [] [] ?]. by split; [split|split|split|].
Qed.

Lemma rt_with_jig {A} (m : MM A) w Q : m_cj_borrow w = Unborrowed ->
  runs_to talked (put_cj (Reading 1) w) m (fun a w' => Q a (put_cj Unborrowed w')) ->
  runs_to talked w (with_current_jig m) Q.
Proof.
  intros Hb (a & w' & Hrun & Ht & HQ). exists a, (put_cj Unborrowed w').
  unfold with_current_jig, borrow. rewrite Hb, Hrun. split_and!; [done| |done].
  destruct Ht as [[] [] [] ?]. by split; [split|split|split|].
Qed.

Lemma current_heap w p : mgr_wf w -> m_current_scenario w = Some p -> is_Some (m_heap w !! p).
Proof. intros Hwf. apply inv_scenarios_heap, Hwf. Qed.

Lemma loaded_heap w id p : mgr_wf w -> m_scenarios w !! id = Some p -> is_Some (m_heap w !! p).
Proof. intros Hwf Hp. destruct (is_heap w (mw_scenarios w Hwf) id p Hp) as (_ & s & Hs & _). by exists s. Qed.

Lemma rt_current_id w : mgr_wf w ->
  runs_to talked w current_scenario_id (fun cur w' => w' = w /\
    match m_current_scenario w with
    | None => cur = None
    | Some p => exists id, cur = Some id /\ m_scenarios w !! id = Some p /\ id ∈ m_selected w
    end).
Proof.
  intros Hwf. destruct (current_scenario_id_run w) as (cur & Hrun & Hcase); [apply Hwf|apply Hwf|].
  by exists cur, w.
Qed.

(** ** Broadcasts *)

Lemma broadcast_selected_jig_talked w : mgr_wf w -> text_interfaces w ->
  runs_to talked w broadcast_selected_jig (fun _ _ => True).
Proof.
  intros Hwf Htext. apply rt_with_jig; [apply Hwf|]. apply rt_gets_bind.
  destruct (m_current_jig _); [by apply broadcast_messages_talked|by rt_ret].
Qed.

Lemma scenario_list_talked w : runs_to talked w scenario_list (fun _ _ => True).
Proof. apply rt_gets_bind. rt_bind _; [apply rt_iter_map|]. intros l w' _ _. by rt_ret. Qed.

Lemma broadcast_scenario_list_talked w : text_interfaces w ->
  runs_to talked w broadcast_scenario_list (fun _ _ => True).
Proof.
  intros Htext. rt_bind _; [apply scenario_list_talked|]. intros l w' Ht _.
  apply broadcast_messages_talked. by eapply talked_interfaces.
Qed.

Lemma broadcast_selected_scenario_talked w : mgr_wf w -> text_interfaces w ->
  runs_to talked w broadcast_selected_scenario (fun _ _ => True).
Proof.
  intros Hwf Htext. apply rt_with_scenario; [apply Hwf|]. apply rt_gets_bind. simpl.
  destruct (m_current_scenario w) as [p|] eqn:Hp; [|by rt_ret].
  destruct (current_heap w p Hwf Hp) as [s Hs].
  eapply rt_deref; [exact Hs|]. by apply broadcast_messages_talked.
Qed.

Lemma broadcast_named_talked id w : mgr_wf w -> text_interfaces w ->
  runs_to talked w (broadcast_jig_named id) (fun _ _ => True) /\
  runs_to talked w (broadcast_scenario_named id) (fun _ _ => True) /\
  runs_to talked w (broadcast_test_named id) (fun _ _ => True).
Proof.
  intros Hwf Htext. split_and!; unfold broadcast_scenario_named, get_scenario_named; apply rt_gets_bind.
  - destruct (m_jigs w !! id); [by apply broadcast_messages_talked|by rt_ret].
  - destruct (m_scenarios w !! id) as [p|] eqn:Hp; [|by rt_ret].
    destruct (loaded_heap w id p Hwf Hp) as [s Hs].
    rt_bind _; [by apply broadcast_scenario_list_talked|]. intros _ w1 Ht _.
    eapply rt_deref; [by rewrite (ss_heap _ _ (ta_scenarios _ _ Ht))|].
    apply broadcast_messages_talked. by eapply talked_interfaces.
  - destruct (m_tests w !! id); [by apply broadcast_messages_talked|by rt_ret].
Qed.

(** ** Answers *)

Lemma describe_scenarios_run l w : (forall id p, (id, p) ∈ l -> is_Some (m_heap w !! p)) ->
  exists messages, describe_scenarios l w = Done (messages, w).
Proof.
  induction l as [|[id p] l IH]; intros Hl; simpl; [by eexists|].
  destruct (Hl id p ltac:(left)) as [s Hs]. destruct IH as [ms Hms]; [intros id' p' Hin; apply (Hl id'); by right|].
  unfold deref, gets, unwrap, mbind, M_bind. rewrite Hs. simpl. rewrite Hms. by eexists.
Qed.

Lemma send_jig_talked id w : mgr_wf w -> text_interfaces w -> receiver_loaded w id ->
  runs_to talked w (send_jig_to id) (fun _ _ => True).
Proof.
  intros Hwf Htext Hl. unfold send_jig_to. rt_bind (fun _ _ => True).
  - apply rt_with_jig; [apply Hwf|]. apply rt_gets_bind. by rt_ret.
  - intros ms w1 Ht _. apply send_messages_talked; [by eapply talked_interfaces|].
    intros Hk. apply (same_units_loaded w); [by apply talked_steady|auto].
Qed.

Lemma send_scenarios_talked id w : mgr_wf w -> text_interfaces w -> receiver_loaded w id ->
  runs_to talked w (send_scenarios_to id) (fun _ _ => True).
Proof.
  intros Hwf Htext Hl. unfold send_scenarios_to. rt_bind _; [apply scenario_list_talked|].
  intros names w1 Ht1 _. apply rt_gets_bind. rt_bind _; [apply rt_iter_map|].
  intros l w2 Ht2 Hl2. assert (talked w w2) as Ht by (by transitivity w1).
  assert (mgr_wf w2) as Hwf2 by (by apply talked_steady in Ht as [? _ _]; auto).
  destruct (describe_scenarios_run l w2) as [ms Hms].
  { intros k p Hk%Hl2. apply (loaded_heap w2 k); [done|].
    by rewrite (ss_scenarios _ _ (ta_scenarios _ _ Ht2)). }
  rt_bind (fun _ w' => w' = w2); [by exists ms, w2|]. intros ? ? _ ->.
  apply send_messages_talked; [by eapply talked_interfaces|].
  intros Hk. apply (same_units_loaded w); [by apply talked_steady|auto].
Qed.

Lemma send_scenario_talked id name w : inv_scenarios w -> text_interfaces w -> receiver_loaded w id ->
  runs_to talked w (send_scenario_to id name) (fun _ _ => True).
Proof.
  intros Hinv Htext Hl. unfold send_scenario_to, get_scenario_named. apply rt_gets_bind.
  rt_bind (fun _ _ => True).
  - destruct (m_scenarios w !! name) as [p|] eqn:Hp; [|by rt_ret].
    destruct (is_heap w Hinv name p Hp) as (_ & s & Hs & _). eapply rt_deref; [exact Hs|].
    rt_bind _; [apply rt_iter_map|]. intros l w1 _ _. by rt_ret.
  - intros ms w1 Ht _. apply send_messages_talked; [by eapply talked_interfaces|].
    intros Hk. apply (same_units_loaded w); [by apply talked_steady|auto].
Qed.

Lemma log_talked id txt w :
  runs_to talked w (manager_log_info id txt) (fun _ _ => True) /\
  runs_to talked w (manager_log_error id txt) (fun _ _ => True).
Proof. split; apply rt_io; (apply io_total_bind; [apply io_total_ask|intros; apply io_total_emit]). Qed.

Lemma send_tests_talked id name w : mgr_wf w -> text_interfaces w -> receiver_loaded w id ->
  runs_to talked w (send_tests_to id name) (fun _ _ => True).
Proof.
  intros Hwf Htext Hl. unfold send_tests_to. rt_bind (fun _ w' => w' = w).
  - destruct name; [by rt_ret|]. eapply rt_conseq; [by apply rt_current_id|done|]. by intros ? ? _ [-> _].
  - intros [n|] ? _ ->; [|apply log_talked]. apply rt_gets_bind.
    destruct (m_scenarios w !! n) as [p|] eqn:Hp; [|apply log_talked].
    destruct (loaded_heap w n p Hwf Hp) as [s Hs]. eapply rt_deref; [exact Hs|].
    by apply send_messages_talked.
Qed.

(** ** Selecting and activating *)

Lemma loaded_steady w w' : mgr_wf w' -> same_loaded w w' -> steady w w'.
Proof. intros. by apply keeps_steady, keeps_loaded. Qed.

Lemma deactivate_steady id reason w : mgr_wf w ->
  runs_to steady w (deactivate id reason) (fun _ w' => mgr_wf w').
Proof.
  intros Hwf. destruct (deactivate_run id reason w) as (w' & Hrun & Hd & _).
  { split; [|intros _; apply Hwf]. intros _. split; [apply Hwf|]. intros p. by apply current_heap. }
  assert (mgr_wf w') as Hwf' by (by eapply deactivated_wf).
  exists tt, w'. split_and!; [done| |done]. apply loaded_steady; [done|by eapply deactivated_loaded].
Qed.

Lemma deselect_steady id reason w : mgr_wf w ->
  runs_to steady w (deselect depth id reason) (fun _ w' => mgr_wf w' /\ same_loaded w w' /\
    (process_kind (un_kind id) = false -> id ∉ m_selected w')).
Proof.
  intros Hwf. destruct (deselect_wf depth id reason w) as (w' & Hrun & Hwf' & Hl & Hno); [lia|done|].
  exists tt, w'. split_and!; try done. by apply loaded_steady.
Qed.

Lemma select_steady id w : mgr_wf w ->
  runs_to steady w (select depth id) (fun _ w' => mgr_wf w' /\ same_loaded w w').
Proof.
  intros Hwf. destruct (select_wf depth id w) as (w' & Hrun & Hwf' & Hl); [done|done|].
  exists tt, w'. split_and!; try done. by apply loaded_steady.
Qed.

(** A step on the current scenario, while its cell is borrowed. *)
Lemma with_scenario_heap {A} (m : MM A) w a p s i : m_cs_borrow w = Unborrowed ->
  m (put_cs (Reading 1) w) =
    Done (a, put_cs (Reading 1) w <| m_heap ::= <[p := s]> |> <| m_io := i |>) ->
  with_current_scenario m w = Done (a, w <| m_heap ::= <[p := s]> |> <| m_io := i |>).
Proof.
  intros Hb Hrun. unfold with_current_scenario, borrow. rewrite Hb, Hrun. unfold put_cs.
  destruct w. simpl in *. by subst.
Qed.

Lemma talked_keeps w w' : mgr_wf w -> talked w w' -> keeps w w'.
Proof. intros Hwf [? ?]%talked_steady. by split; [auto|]. Qed.

Lemma activate_jig_run id w : mgr_wf w ->
  runs_to keeps w (activate_jig id) (fun _ w' => inert w w').
Proof.
  intros Hwf. eapply rt_conseq; [|by intros w'; apply talked_keeps|by intros ? ? _ Hi; apply Hi].
  apply rt_with_jig; [apply Hwf|]. apply rt_gets_bind.
  destruct (m_current_jig _) as [j|]; [|by rt_ret]. case_bool_decide; [by rt_ret|].
  eapply rt_conseq; [apply rt_io_inert, jig_activate_total|done|done].
Qed.

(** The state a scenario runs on. *)
Definition scw (s : Scenario) (i : IO) : ScW := mkScW s (io_cfg i) (io_tick i) (io_out i).

Lemma on_scenario_run {A} p (m : M ScW A) w s a sw : m_heap w !! p = Some s ->
  m (scw s (m_io w)) = Done (a, sw) ->
  on_scenario p m w = Done (a, w <| m_heap ::= <[p := w_sc sw]> |>
                                 <| m_io := mkIO (w_cfg sw) (w_tick sw) (w_out sw) |>).
Proof.
  intros Hs Hm. unfold scw in Hm. unfold on_scenario, deref, gets, unwrap, mbind, M_bind.
  rewrite Hs. simpl. by rewrite Hm.
Qed.

(** Activating the current scenario, while its cell is borrowed. *)
Lemma activate_current_scenario p s w : m_heap w !! p = Some s -> m_cs_borrow w = Unborrowed ->
  exists s' i log, agree s s' /\ (sc_static s -> sc_wf s') /\ sc_state s' = ScenarioState.Idle /\
    io_out i = io_out (m_io w) ++ [Broadcast (Event.Log log); Send (mkCtrl (sc_id s) (Ctrl.AdvanceScenario 0))] /\
    with_current_scenario (manager_log_info (sc_id s) "scenario starting";; on_scenario p scenario_activate) w
      = Done (Ok tt, w <| m_heap ::= <[p := s']> |> <| m_io := i |>).
Proof.
  intros Hs Hb. set (w1 := put_cs (Reading 1) w).
  set (log := new_info (env_time (io_tick (m_io w))) (sc_id s) "scenario starting").
  set (i := mkIO (io_cfg (m_io w)) (S (io_tick (m_io w))) (io_out (m_io w) ++ [Broadcast (Event.Log log)])).
  assert (io (log_info (sc_id s) "scenario starting") w1 = Done (tt, w1 <| m_io := i |>)) as Hlog by done.
  destruct (scenario_activate_spec (scw s i))
    as (sw & Hact & Hag & Hidle & _ & Hout & Hok).
  exists (w_sc sw), (mkIO (w_cfg sw) (w_tick sw) (w_out sw)), log.
  split_and!; [done|intros Hst; by apply Hok|done|simpl; rewrite Hout; simpl; by rewrite <- app_assoc|]. apply with_scenario_heap; [done|]. fold w1.
  unfold manager_log_info. unfold mbind at 1, M_bind at 1. rewrite Hlog.
  by rewrite (on_scenario_run p scenario_activate (w1 <| m_io := i |>) s (Ok tt) sw).
Qed.

Lemma activate_scenario_current w p s : mgr_wf w -> m_current_scenario w = Some p -> m_heap w !! p = Some s ->
  activate_scenario (sc_id s) w =
  with_current_scenario (manager_log_info (sc_id s) "scenario starting";; on_scenario p scenario_activate) w.
Proof.
  intros Hwf Hp Hs. unfold activate_scenario, with_current_scenario, borrow. rewrite (mw_cs w Hwf).
  unfold gets at 1. unfold mbind at 1, M_bind at 1. simpl. rewrite Hp. rewrite (deref_bind p s) by done.
  by rewrite bool_decide_eq_false_2 by (intros ?; done).
Qed.

Lemma activate_scenario_run id w : mgr_wf w ->
  runs_to keeps w (activate_scenario id) (fun _ w' => inert w w').
Proof.
  intros Hwf. destruct (m_current_scenario w) as [p|] eqn:Hp.
  - destruct (current_heap w p Hwf Hp) as [s Hs]. destruct (decide (sc_id s = id)) as [<-|Hid].
    + destruct (activate_current_scenario p s w Hs (mw_cs w Hwf)) as (s' & i & log & Hag & Hok & _ & _ & Hrun).
      eexists _, _. split_and!; [|eapply keeps_heap; [done|exact Hs|exact Hag|]|done].
      * rewrite <- Hrun. by apply activate_scenario_current.
      * intros [Hst _ _ _] _. by apply Hok.
    + unfold activate_scenario. eapply rt_conseq; [|by intros w'; apply talked_keeps|by intros ? ? _ Hi; apply Hi].
      apply rt_with_scenario; [apply Hwf|]. apply rt_gets_bind. simpl. rewrite Hp.
      eapply rt_deref; [exact Hs|]. rewrite bool_decide_eq_true_2 by done. by rt_ret.
  - unfold activate_scenario. eapply rt_conseq; [|by intros w'; apply talked_keeps|by intros ? ? _ Hi; apply Hi].
    apply rt_with_scenario; [apply Hwf|]. apply rt_gets_bind. simpl. rewrite Hp. by rt_ret.
Qed.

Lemma activate_kind_run id w : mgr_wf w ->
  runs_to keeps w (activate_kind id) (fun _ w' => inert w w').
Proof.
  intros Hwf. unfold activate_kind. destruct (un_kind id).
  - by apply activate_interface_run.
  - by apply activate_jig_run.
  - by apply activate_process_run.
  - by apply activate_scenario_run.
  - by apply activate_test_run.
  - by apply activate_process_run.
  - eexists _, w. split_and!; [done|by apply keeps_refl|done].
Qed.

(** A selected unit becomes active. *)
Lemma keeps_active w id i : mgr_wf w -> id ∈ m_selected w ->
  keeps w (w <| m_active ::= fun a => {[ id ]} ∪ a |> <| m_io := i |>).
Proof.
  intros [[] [] [] ? ?] Hsel. apply keeps_loaded; [|done].
  split; [split|split|split|..]; simpl; try done.
  all: intros n Hn Hk; destruct (decide (n = id)) as [->|]; [done|]; set_solver.
Qed.

Lemma activate_steady id w : mgr_wf w ->
  runs_to steady w (activate depth id) (fun _ w' => mgr_wf w').
Proof.
  intros Hwf. unfold activate. rt_bind _; [by apply select_steady|].
  intros _ w1 _ [Hwf1 _]. apply rt_gets_bind. case_bool_decide; [by rt_ret|].
  apply rt_gets_bind. case_bool_decide as Hsel; [by rt_ret|].
  destruct (activate_kind_run id w1 Hwf1) as (r & w2 & Hrun & Hk & [Hs _]).
  rt_bind (fun _ w' => w' = w2); [by exists r, w2; split_and!; [|apply keeps_steady|]|].
  intros r' ? _ ->. pose proof Hk as (Hwf2 & _ & _). rewrite <- Hs in Hsel.
  destruct r'.
  - eexists tt, _. split; [reflexivity|].
    pose proof (keeps_active w2 id (m_io w2 <| io_out ::= fun os => os ++ [Broadcast (Event.Status (new_active id))] |>)
      Hwf2 Hsel) as Hk2. split; [by apply keeps_steady|apply Hk2].
  - eexists tt, _. split; [reflexivity|].
    split; [apply keeps_steady, keeps_io, Hwf2|by apply (keeps_io w2 _ Hwf2)].
Qed.

Lemma first_key_run {A} (units : Manager -> gmap UnitName A) w : units w <> ∅ ->
  runs_to talked w (first_key units) (fun k _ => exists id v, k = Some id /\ units w !! id = Some v).
Proof.
  intros Hne. unfold first_key. apply rt_gets_bind. rt_bind _; [apply rt_iter_map|].
  intros l w1 _ Hl. rt_ret. destruct (map_choose _ Hne) as (id & v & Hid).
  apply Hl in Hid. destruct l as [|[k v'] l]; [by apply not_elem_of_nil in Hid|].
  exists k, v'. split; [done|]. apply Hl. by left.
Qed.

(** Choosing the defaults after a rescan. *)
Lemma refresh_defaults_steady w : mgr_wf w ->
  runs_to steady w (refresh_defaults depth) (fun _ w' => mgr_wf w').
Proof.
  intros Hwf. unfold refresh_defaults.
  rt_bind (fun _ w' => w' = w); [exists (jg_id <$> m_current_jig w), w; split_and!;
    [by apply current_jig_id_run, Hwf|done|done]|]. intros jig ? _ ->. apply rt_gets_bind.
  rt_bind (fun _ w' => mgr_wf w').
  { destruct (_ && _) eqn:Hb; simpl; [|by rt_ret]. apply andb_true_iff in Hb as [_ Hb].
    apply negb_true_iff, bool_decide_eq_false in Hb.
    rt_bind _; [by apply rt_steady, first_key_run|]. intros k w1 [Hst _ _] (id & v & -> & _).
    rt_bind (fun a w' => w' = w1); [by rt_ret|]. intros a ? _ ->. apply activate_steady. auto. }
  intros _ w1 _ Hwf1. rt_bind (fun _ w' => w' = w1).
  { eapply rt_steady, rt_conseq; [by apply rt_current_id|done|]. by intros ? ? _ [-> _]. }
  intros scenario ? _ ->. apply rt_gets_bind.
  destruct (_ && _) eqn:Hb; simpl; [|by rt_ret]. apply andb_true_iff in Hb as [_ Hb].
  apply negb_true_iff, bool_decide_eq_false in Hb.
  rt_bind _; [by apply rt_steady, first_key_run|]. intros k w2 [Hst _ _] (id & v & -> & _).
  rt_bind (fun a w' => w' = w2); [by rt_ret|]. intros a ? _ ->.
  eapply rt_conseq; [apply select_steady; auto|done|by intros ? ? _ [? _]].
Qed.

(** ** Unloading *)

(** Tests are loaded under their names. *)
Definition tests_named w : Prop :=
  forall id t, m_tests w !! id = Some t -> td_id (te_desc t) = id /\ un_kind id = UnitKind.Test.

Record mgr_inv w : Prop := {
  mi_wf : mgr_wf w;
  mi_text : text_interfaces w;
  mi_named : tests_named w;
  mi_ok : scenarios_ok w;
}.

Definition preserves w w' : Prop := mgr_inv w -> mgr_inv w'.

#[export] Instance preserves_preorder : PreOrder preserves.
Proof. split; unfold preserves; red; auto. Qed.

Lemma same_units_named w w' : same_units w w' -> tests_named w -> tests_named w'.
Proof.
  intros Hu Hn id t Ht. pose proof (su_tests _ _ Hu) as Hd.
  apply (f_equal (fun m => m !! id)) in Hd. rewrite !lookup_fmap, Ht in Hd. simpl in Hd.
  destruct (m_tests w !! id) as [t0|] eqn:Ht0; [|done]. simpl in Hd. injection Hd as ->. by apply Hn.
Qed.

Lemma steady_preserves w w' : steady w w' -> preserves w w'.
Proof.
  intros [Hwf Hu Hok] []. split; [auto|by eapply same_units_interfaces|by eapply same_units_named|auto].
Qed.

Lemma rt_preserves {A} w (m : MM A) Q : runs_to steady w m Q -> runs_to preserves w m Q.
Proof. intros Hm. eapply rt_conseq; [exact Hm|apply steady_preserves|done]. Qed.

Lemma rt_preserves_units {A} w (m : MM A) Q : runs_to steady w m Q ->
  runs_to preserves w m (fun a w' => Q a w' /\ same_units w w').
Proof.
  intros (a & w' & Hrun & Hst & HQ). exists a, w'.
  split_and!; [done|by apply steady_preserves|done|apply Hst].
Qed.

(** The loaded scenarios and tests, which the library keeps track of. *)
Definition loaded w : gset UnitName := dom (m_scenarios w) ∪ dom (m_tests w).

Lemma same_units_loaded_set w w' : same_units w w' -> loaded w' = loaded w.
Proof.
  intros [Hs _ Ht _]. unfold loaded. rewrite Hs. f_equal.
  apply (f_equal (fun m => dom m)) in Ht. by rewrite !dom_fmap_L in Ht.
Qed.

Lemma loaded_kind w id : mgr_inv w -> id ∈ loaded w ->
  un_kind id = UnitKind.Scenario \/ un_kind id = UnitKind.Test.
Proof.
  intros Hinv [[p Hp]%elem_of_dom|[t Ht]%elem_of_dom]%elem_of_union.
  - left. by apply (is_heap w (mw_scenarios w (mi_wf w Hinv)) id p Hp).
  - right. by apply (mi_named w Hinv) in Ht as [_ ?].
Qed.

(** Nothing of the invariant is about a unit of another kind. *)
Ltac other_fields := intros [[[Fh Fc Fs Fa] [Gl Gc Gs Ga] [Tl Ta] Bs Bj] Xt Xn Xo]; split; [split; [split|split|split|..]|..]; simpl; try done.

Definition removed (id : UnitName) (remove : Manager -> Manager) : Prop :=
  forall w, mgr_inv w -> (process_kind (un_kind id) = false -> id ∉ m_selected w) -> mgr_inv (remove w).

Lemma remove_interface id : removed id (fun w => w <| m_interfaces ::= delete id |>).
Proof.
  intros w Hinv _. pose proof (mi_text w Hinv) as Ht. revert Hinv. other_fields.
  intros n i. simpl. intros [_ Hi]%lookup_delete_Some. by eapply Ht.
Qed.

Lemma remove_process id :
  removed id (fun w => w <| m_loggers ::= delete id |>) /\
  removed id (fun w => w <| m_triggers ::= delete id |>).
Proof. split; intros w Hinv _; revert Hinv; other_fields. Qed.

Lemma remove_jig id : un_kind id = UnitKind.Jig -> removed id (fun w => w <| m_jigs ::= delete id |>).
Proof.
  intros Hk w Hinv Hno. assert (id ∉ m_selected w) as Hid by (apply Hno; by rewrite Hk).
  pose proof (mi_wf w Hinv) as [Hs Hj Ht _ _].
  revert Hinv. other_fields.
  - intros n j [_ Hn]%lookup_delete_Some. by apply (ij_loaded w Hj).
  - intros j Hc. destruct (ij_current w Hj j Hc) as [Hl Hsel]. split; [|done].
    rewrite lookup_delete_ne; [done|]. intros ->. done.
Qed.

Lemma remove_scenario id : un_kind id = UnitKind.Scenario ->
  removed id (fun w => w <| m_scenarios ::= delete id |>).
Proof.
  intros Hk w Hinv Hno. assert (id ∉ m_selected w) as Hid by (apply Hno; by rewrite Hk).
  pose proof (mi_wf w Hinv) as [Hs Hj Ht _ _].
  revert Hinv. other_fields.
  - intros n p [_ Hp]%lookup_delete_Some. by apply (is_heap w Hs).
  - intros p Hp. destruct (is_current w Hs p Hp) as (n & Hn & Hsel). exists n. split; [|done].
    rewrite lookup_delete_ne; [done|]. intros <-. done.
  - intros n Hn Hkn. destruct (is_selected w Hs n Hn Hkn) as (p & Hp & Hl). exists p. split; [done|].
    rewrite lookup_delete_ne; [done|]. intros <-. done.
Qed.

Lemma remove_test id : un_kind id = UnitKind.Test -> removed id (fun w => w <| m_tests ::= delete id |>).
Proof.
  intros Hk w Hinv Hno. assert (id ∉ m_selected w) as Hid by (apply Hno; by rewrite Hk).
  pose proof (mi_wf w Hinv) as [Hs Hj Ht _ _].
  pose proof (mi_named w Hinv) as Hnamed. revert Hinv. other_fields.
  - intros n Hn Hkn. rewrite lookup_delete_ne; [by apply (it_selected w Ht)|]. intros <-. done.
  - intros n t. simpl. intros [_ Hn]%lookup_delete_Some. by apply Hnamed.
Qed.

Lemma unload_unit_run id reason remove w : removed id remove -> mgr_inv w ->
  runs_to preserves w (unload_unit depth id reason remove)
    (fun _ w' => mgr_inv w' /\ exists w2, w' = remove w2 /\ loaded w2 = loaded w).
Proof.
  intros Hrem Hinv. unfold unload_unit.
  rt_bind _; [apply rt_preserves_units, deactivate_steady, Hinv|]. intros ? w1 Hp1 [Hwf1 Hu1].
  rt_bind _; [by apply rt_preserves_units, deselect_steady|]. intros ? w2 Hp2 [(Hwf2 & _ & Hno) Hu2].
  assert (mgr_inv w2) as Hinv2 by auto. assert (mgr_inv (remove w2)) as Hr by auto.
  apply rt_modify; [by intros _|]. split; [done|]. exists w2. split; [done|].
  apply same_units_loaded_set. by transitivity w1.
Qed.

(** After it is unloaded a unit is not loaded any more. *)
Lemma unload_run id w : mgr_inv w ->
  runs_to preserves w (unload depth id) (fun _ w' => mgr_inv w' /\ loaded w' = loaded w ∖ {[ id ]}).
Proof.
  intros Hinv. unfold unload. rt_bind _; [apply rt_preserves_units, deselect_steady, Hinv|].
  intros ? w1 Hp1 [_ Hu1]. specialize (Hp1 Hinv). rewrite <- (same_units_loaded_set _ _ Hu1).
  assert (process_kind (un_kind id) = true \/ un_kind id = UnitKind.Jig ->
    loaded w1 = loaded w1 ∖ {[ id ]}) as Hother.
  { intros Hk. symmetry. apply difference_disjoint_L, disjoint_singleton_r. intros Hin.
    destruct (loaded_kind w1 id Hp1 Hin) as [Hk'|Hk']; rewrite Hk' in Hk; by destruct Hk. }
  destruct (un_kind id) eqn:Hk.
  1-3, 6: eapply rt_conseq; [apply unload_unit_run with (w := w1); [|done]|done|].
  - apply remove_interface.
  - intros ? w' _ (Hinv' & w2 & -> & Hl). split; [done|]. rewrite <- Hother by auto. exact Hl.
  - by apply remove_jig.
  - intros ? w' _ (Hinv' & w2 & -> & Hl). split; [done|]. rewrite <- Hother by auto. exact Hl.
  - apply remove_process.
  - intros ? w' _ (Hinv' & w2 & -> & Hl). split; [done|]. rewrite <- Hother by auto. exact Hl.
  - apply remove_process.
  - intros ? w' _ (Hinv' & w2 & -> & Hl). split; [done|]. rewrite <- Hother by auto. exact Hl.
  - rt_bind _; [apply unload_unit_run; [by apply remove_scenario|done]|].
    intros ? w2 _ (Hinv2 & w3 & -> & Hl).
    eapply rt_conseq; [apply rt_preserves_units, rt_steady, broadcast_scenario_list_talked, Hinv2|done|].
    intros ? w' Hp [_ Hu]. split; [by apply Hp|]. rewrite (same_units_loaded_set _ _ Hu), <- Hl.
    unfold loaded. simpl. rewrite dom_delete_L.
    assert (id ∉ dom (m_tests w3)) as Hnt; [|set_solver].
    intros [t Ht]%elem_of_dom. apply (mi_named _ Hinv2) in Ht as [_ Ht]. congruence.
  - eapply rt_conseq; [apply unload_unit_run with (w := w1); [by apply remove_test|done]|done|].
    intros ? w' _ (Hinv' & w2 & -> & Hl). split; [done|]. rewrite <- Hl.
    unfold loaded. simpl. rewrite dom_delete_L.
    assert (id ∉ dom (m_scenarios w2)) as Hns; [|set_solver].
    intros [p Hp]%elem_of_dom. pose proof (mw_scenarios _ (mi_wf _ Hinv')) as Hs.
    destruct (is_heap _ Hs id p Hp) as (Hk' & _). congruence.
  - rt_ret. split; [done|]. rewrite <- Hother; auto.
Qed.

(** ** Loading *)

(** What is not loaded is not selected. *)
Lemma unknown_unselected id w : mgr_wf w ->
  match un_kind id with
  | UnitKind.Jig => m_jigs w !! id = None
  | UnitKind.Scenario => m_scenarios w !! id = None
  | UnitKind.Test => m_tests w !! id = None
  | _ => True
  end -> process_kind (un_kind id) = false -> id ∉ m_selected w.
Proof.
  intros [Hs Hj Ht _ _] Hnone Hk Hin. destruct (un_kind id) eqn:Hkind; try done.
  - destruct (ij_selected w Hj id Hin Hkind) as (j & Hc & <-).
    destruct (ij_current w Hj j Hc) as [Hl _]. congruence.
  - destruct (is_selected w Hs id Hin Hkind) as (p & _ & Hl). congruence.
  - destruct (it_selected w Ht id Hin Hkind) as [? ?]. congruence.
Qed.

Definition known_kind (id : UnitName) (known : Manager -> bool) : Prop :=
  forall w, known w = false ->
  match un_kind id with
  | UnitKind.Jig => m_jigs w !! id = None
  | UnitKind.Scenario => m_scenarios w !! id = None
  | UnitKind.Test => m_tests w !! id = None
  | _ => True
  end.

Lemma load_macro_run id known load w : known_kind id known -> mgr_inv w ->
  (forall w', mgr_inv w' -> same_units w w' -> (process_kind (un_kind id) = false -> id ∉ m_selected w') ->
     runs_to preserves w' load (fun _ w'' => mgr_inv w'' /\ loaded w'' ⊆ {[ id ]} ∪ loaded w')) ->
  runs_to preserves w (load_macro depth id known load)
    (fun _ w' => mgr_inv w' /\ loaded w' ⊆ {[ id ]} ∪ loaded w).
Proof.
  intros Hknown Hinv Hload. unfold load_macro. apply rt_gets_bind.
  rt_bind (fun _ w' => mgr_inv w' /\ same_units w w' /\ (process_kind (un_kind id) = false -> id ∉ m_selected w')).
  { destruct (known w) eqn:Hk; simpl.
    - eapply rt_conseq; [apply rt_preserves, deselect_steady, Hinv|done|].
      intros _ w' Hp (_ & Hl & Hno). split_and!; [by apply Hp|by apply same_loaded_units|done].
    - rt_ret. split_and!; [done|done|]. apply unknown_unselected; [apply Hinv|by apply Hknown]. }
  intros _ w1 _ (Hinv1 & Hu1 & Hno1). rt_bind _; [by apply Hload|]. intros r w2 _ [Hinv2 Hl2].
  rewrite (same_units_loaded_set _ _ Hu1) in Hl2.
  assert (forall i, mgr_inv (w2 <| m_io := i |>)) as Hio
    by (intros i; eapply steady_preserves; [apply talked_steady, talked_io|done]).
  destruct r; (eexists _, _; split; [reflexivity|]; split; [by intros _; apply Hio|split; [apply Hio|done]]).
Qed.

Lemma store_run {A} id (r : result UnitIncompatibleReason A) put w : mgr_inv w ->
  (forall a, r = Ok a -> mgr_inv (put a w) /\ loaded (put a w) ⊆ {[ id ]} ∪ loaded w) ->
  runs_to preserves w (store r put) (fun _ w' => mgr_inv w' /\ loaded w' ⊆ {[ id ]} ∪ loaded w).
Proof.
  intros Hinv Hput. destruct r as [a|e]; [|rt_ret; split; [done|set_solver]].
  eexists _, _. split; [reflexivity|]. specialize (Hput a eq_refl) as [? ?]. by split; [intros _|].
Qed.

Lemma load_interface_run d w : mgr_inv w -> un_kind (id_id d) = UnitKind.Interface ->
  id_format d = Text ->
  runs_to preserves w (load_interface depth d)
    (fun _ w' => mgr_inv w' /\ loaded w' ⊆ {[ id_id d ]} ∪ loaded w).
Proof.
  intros Hinv Hkind Hformat. apply load_macro_run; [intros w0 _; by rewrite Hkind|done|].
  intros w1 Hinv1 _ _. apply rt_gets_bind. apply store_run; [done|]. intros i Hi.
  assert (if_desc i = d) as Hdesc.
  { unfold interface_load in Hi. destruct (interface_is_compatible _ _); simpl in Hi; [|done].
    by injection Hi as <-. }
  split; [|unfold loaded; simpl; set_solver].
  pose proof (mi_text w1 Hinv1) as Ht. revert Hinv1. other_fields.
  intros n j. simpl. intros [[<- <-]|[_ Hn]]%lookup_insert_Some; [by rewrite Hdesc|by eapply Ht].
Qed.

Lemma load_logger_run d w : mgr_inv w -> un_kind (ld_id d) = UnitKind.Logger ->
  runs_to preserves w (load_logger depth d)
    (fun _ w' => mgr_inv w' /\ loaded w' ⊆ {[ ld_id d ]} ∪ loaded w).
Proof.
  intros Hinv Hkind. apply load_macro_run; [intros w0 _; by rewrite Hkind|done|].
  intros w1 Hinv1 _ _. apply rt_gets_bind. apply store_run; [done|]. intros l _.
  split; [|unfold loaded; simpl; set_solver]. revert Hinv1. other_fields.
Qed.

Lemma load_trigger_run d w : mgr_inv w -> un_kind (rd_id d) = UnitKind.Trigger ->
  runs_to preserves w (load_trigger depth d)
    (fun _ w' => mgr_inv w' /\ loaded w' ⊆ {[ rd_id d ]} ∪ loaded w).
Proof.
  intros Hinv Hkind. apply load_macro_run; [intros w0 _; by rewrite Hkind|done|].
  intros w1 Hinv1 _ _. apply rt_gets_bind. apply store_run; [done|]. intros l _.
  split; [|unfold loaded; simpl; set_solver]. revert Hinv1. other_fields.
Qed.

Lemma load_test_run d w : mgr_inv w -> un_kind (td_id d) = UnitKind.Test ->
  runs_to preserves w (load_test depth d)
    (fun _ w' => mgr_inv w' /\ loaded w' ⊆ {[ td_id d ]} ∪ loaded w).
Proof.
  intros Hinv Hkind. apply load_macro_run; [|done|].
  { intros w0. unfold known_in. rewrite Hkind, bool_decide_eq_false. apply eq_None_not_Some. }
  intros w1 Hinv1 _ _. apply store_run; [done|]. intros t [= <-].
  split; [|unfold loaded; simpl; rewrite dom_insert_L; set_solver].
  pose proof (mi_named w1 Hinv1) as Hn. pose proof (mi_wf w1 Hinv1) as [Hs Hj Ht _ _].
  revert Hinv1. other_fields.
  - intros n Hn1 Hn2. apply lookup_insert_is_Some'. right. by apply (it_selected w1 Ht).
  - intros n t. simpl. intros [[<- <-]|[_ Hin]]%lookup_insert_Some; [done|by apply Hn].
Qed.

(** The test program of a jig, if any, has its output read to the end. *)
Definition probe_ends (d : JigDescription) : Prop :=
  jd_test_program d = None \/
  forall pid, exists text, read_to_error program_lines pid 0 "" = Done text.

Lemma jig_load_total d : probe_ends d -> io_total (jig_load program_lines d).
Proof.
  intros Hends. unfold jig_load. apply io_total_bind; [|intros; apply io_total_ret].
  unfold jig_is_compatible. apply io_total_bind.
  { destruct (jd_test_file d); [|apply io_total_ret]. apply io_total_bind; [apply io_total_ask|intros; apply io_total_ret]. }
  intros [[]|e]; [|apply io_total_ret]. destruct (jd_test_program d) as [cmd|] eqn:Hp; [|apply io_total_ret].
  destruct Hends as [|Hends]; [congruence|]. apply io_total_bind; [apply io_total_gets|]. intros cfg.
  apply io_total_bind; [|intros [pid|e]; [|apply io_total_ret]].
  - unfold start_child. apply io_total_bind; [apply io_total_gets|intros ?].
    apply io_total_bind; [apply io_total_gets|intros ?]. apply io_total_bind; [apply io_total_ask|intros [|]].
    + apply io_total_bind; [apply io_total_emit|intros; apply io_total_ret].
    + apply io_total_ret.
  - destruct (Hends pid) as [text Ht]. rewrite Ht. apply io_total_ret.
Qed.

Lemma jig_load_desc fuel d i j i' : jig_load fuel d i = Done (Ok j, i') -> jg_desc j = d.
Proof.
  unfold jig_load. intros (r & i1 & _ & Hr)%bind_Done. destruct r; [|done]. by injection Hr as <- _.
Qed.

Lemma load_jig_run d w : mgr_inv w -> un_kind (jd_id d) = UnitKind.Jig ->
  (forall n, jd_default_scenario d = Some n -> un_kind n = UnitKind.Scenario) -> probe_ends d ->
  runs_to preserves w (load_jig depth program_lines d)
    (fun _ w' => mgr_inv w' /\ loaded w' ⊆ {[ jd_id d ]} ∪ loaded w).
Proof.
  intros Hinv Hkind Hdef Hends. apply load_macro_run; [|done|].
  { intros w0. unfold known_in. rewrite Hkind, bool_decide_eq_false. apply eq_None_not_Some. }
  intros w1 Hinv1 _ Hno. rewrite Hkind in Hno. specialize (Hno eq_refl).
  destruct (jig_load_total d Hends (m_io w1)) as (r & i & Hload).
  assert (mgr_inv (w1 <| m_io := i |>)) as Hinv2
    by (eapply steady_preserves; [apply talked_steady, talked_io|done]).
  rt_bind (fun r' w' => r' = r /\ w' = w1 <| m_io := i |>).
  { exists r, (w1 <| m_io := i |>). unfold io, zoom. rewrite Hload. split; [done|]. split; [by intros _|done]. }
  intros ? ? _ [-> ->]. change (loaded w1) with (loaded (w1 <| m_io := i |>)).
  apply store_run; [done|]. intros j ->. apply jig_load_desc in Hload.
  split; [|unfold loaded; simpl; set_solver].
  pose proof (mi_wf w1 Hinv1) as [Hs Hj Ht _ _]. revert Hinv2. other_fields.
  - intros n j'. intros [[<- <-]|[_ Hin]]%lookup_insert_Some; [|by apply (ij_loaded w1 Hj)].
    unfold jg_id. by rewrite Hload.
  - intros j' Hc. destruct (ij_current w1 Hj j' Hc) as [Hl Hsel]. split; [|done].
    rewrite lookup_insert_ne; [done|]. intros Heq. by rewrite Heq in Hno.
Qed.

(** What a description must say for its scenario to be run safely: it has a test
    to run, its numbers fit, and its time limit does not meet that of a test. *)
Record scenario_loadable w (d : ScenarioDescription) : Prop := {
  ld_kind : un_kind (sd_id d) = UnitKind.Scenario;
  ld_count c : sd_stop_after_failure_count d = Some c -> (0 <= c)%Z;
  ld_tests : exists n, n ∈ sd_tests d /\ n ∉ sd_assumptions d;
  ld_size : (Z.of_nat (size (m_tests w)) + 501 <= u32_max)%Z;
  ld_time : sd_timeout d = None \/
    forall id t, m_tests w !! id = Some t -> td_timeout (te_desc t) = None;
}.

Lemma same_units_lookup w w' id t : same_units w w' -> m_tests w' !! id = Some t ->
  exists t0, m_tests w !! id = Some t0 /\ te_desc t0 = te_desc t.
Proof.
  intros Hu Ht. pose proof (su_tests _ _ Hu) as Hd.
  apply (f_equal (fun m => m !! id)) in Hd. rewrite !lookup_fmap, Ht in Hd. simpl in Hd.
  destruct (m_tests w !! id) as [t0|]; [|done]. exists t0. simpl in Hd. split; [done|congruence].
Qed.

Lemma loadable_units w w' d : same_units w w' -> scenario_loadable w d -> scenario_loadable w' d.
Proof.
  intros Hu [Hk Hc Ht Hsz Htime]. split; try done.
  - assert (size (m_tests w') = size (m_tests w)) as ->; [|done].
    rewrite <- (map_size_fmap te_desc (m_tests w')), (su_tests _ _ Hu). apply map_size_fmap.
  - destruct Htime as [|Htime]; [by left|right]. intros id t Hl.
    destruct (same_units_lookup w w' id t Hu Hl) as (t0 & Ht0 & <-). by eapply Htime.
Qed.

Lemma get_test_named_Some w id t : get_test_named w id = Some t <->
  exists t0, m_tests w !! id = Some t0 /\ t = mkTestRc (te_desc t0).
Proof.
  unfold get_test_named. destruct (m_tests w !! id) as [t0|]; simpl; [|by split; [|intros (? & ? & ?)]].
  split; [intros [= <-]; by exists t0|by intros (t1 & [= <-] & ->)].
Qed.

(** A scenario built from the loaded tests is well-formed. *)
Lemma loaded_scenario_ok w d s : mgr_inv w -> scenario_loadable w d ->
  loaded_scenario d (get_test_named w) s ->
  sc_wf s /\ no_time_limit s /\ sc_id s = sd_id d /\ forall n, n ∈ test_sequence s -> un_kind n = UnitKind.Test.
Proof.
  intros Hinv [Hk Hc (n0 & Hn0 & Hna) Hsz Htime] [Hdesc Hseq Hnd Hnamed Hwf].
  assert (forall n, n ∈ test_sequence s -> exists t, m_tests w !! n = Some t) as Hin.
  { intros n (t & -> & Ht%Hseq)%list_elem_of_fmap.
    apply get_test_named_Some in Ht as (t0 & Ht0 & _). by exists t0. }
  split_and!.
  - apply Hwf.
    + intros Hnil. specialize (Hnamed n0 Hn0 Hna). rewrite Hnil in Hnamed. by apply not_elem_of_nil in Hnamed.
    + enough (length (test_sequence s) <= size (m_tests w)) by lia.
      rewrite <- (size_list_to_set (C:=gset UnitName)) by done. rewrite <- (size_dom (D:=gset UnitName)).
      apply subseteq_size. intros n Hn%elem_of_list_to_set. apply elem_of_dom. by apply Hin.
  - destruct Htime as [Htime|Htime]; [left; by rewrite Hdesc|right]. intros t Ht%Hseq.
    apply get_test_named_Some in Ht as (t0 & Ht0 & ->). by eapply Htime.
  - unfold sc_id. by rewrite Hdesc.
  - intros n Hn. destruct (Hin n Hn) as [t Ht]. by apply (mi_named w Hinv) in Ht as [_ ?].
Qed.

(** Putting a scenario behind a pointer of its own. *)
Lemma store_scenario_inv w id s p i : mgr_inv w -> un_kind id = UnitKind.Scenario ->
  id ∉ m_selected w -> m_heap w !! p = None -> sc_wf s -> no_time_limit s -> sc_id s = id ->
  (forall n, n ∈ test_sequence s -> un_kind n = UnitKind.Test) ->
  mgr_inv (w <| m_io := i |> <| m_heap ::= <[p := s]> |> <| m_scenarios ::= <[id := p]> |>).
Proof.
  intros Hinv Hk Hno Hp Hwf Hlim Hid Htests. pose proof (mi_wf w Hinv) as [Hs _ _ _ _].
  pose proof (mi_ok w Hinv) as Hok. revert Hinv. other_fields.
  - intros n q. intros [[<- <-]|[_ Hn]]%lookup_insert_Some.
    + split; [done|]. exists s. by rewrite lookup_insert_eq.
    + destruct (is_heap w Hs n q Hn) as (Hkn & s0 & Hs0 & Hrest). split; [done|]. exists s0.
      rewrite lookup_insert_ne; [done|]. intros ->. congruence.
  - intros q Hq. destruct (is_current w Hs q Hq) as (n & Hn & Hsel). exists n. split; [|done].
    rewrite lookup_insert_ne; [done|]. intros ->. done.
  - intros n Hn Hkn. destruct (is_selected w Hs n Hn Hkn) as (q & Hq & Hl). exists q. split; [done|].
    rewrite lookup_insert_ne; [done|]. intros ->. done.
  - intros q s0. simpl. intros [[<- <-]|[_ Hq]]%lookup_insert_Some; [done|by eapply Hok].
Qed.

Lemma load_scenario_run d w : mgr_inv w -> scenario_loadable w d ->
  runs_to preserves w (load_scenario depth d)
    (fun _ w' => mgr_inv w' /\ loaded w' ⊆ {[ sd_id d ]} ∪ loaded w).
Proof.
  intros Hinv Hloadable. pose proof (ld_kind _ _ Hloadable) as Hkind. apply load_macro_run; [|done|].
  { intros w0. unfold known_in. rewrite Hkind, bool_decide_eq_false. apply eq_None_not_Some. }
  intros w1 Hinv1 Hu Hno. rewrite Hkind in Hno. specialize (Hno eq_refl).
  apply (loadable_units _ _ _ Hu) in Hloadable. clear w Hinv Hu. apply rt_gets_bind.
  rt_bind (fun l w' => (forall k v, (k, v) ∈ l <-> m_tests w1 !! k = Some v) /\ exists i, w' = w1 <| m_io := i |>).
  { destruct (rt_iter_map (m_tests w1) w1) as (l & w' & Hrun & Ht & Hl).
    assert (exists i, w' = w1 <| m_io := i |>) as [i ->].
    { unfold io, zoom, iter_map, ask in Hrun. injection Hrun as _ <-. by eexists. }
    eexists l, _. split; [exact Hrun|]. split; [by apply steady_preserves, talked_steady|].
    split; [done|by eexists]. }
  intros l w2 _ [Hl [i ->]].
  rt_bind (fun _ w' => exists i', w' = w1 <| m_io := i' |>).
  { eexists _, _. split; [reflexivity|].
    split; [by apply steady_preserves, talked_steady|by eexists]. }
  intros now w3 _ [i' ->]. set (w2 := w1 <| m_io := i' |>).
  assert (mgr_inv w2) as Hinv2 by (eapply steady_preserves; [apply talked_steady, talked_io|done]).
  destruct (scenario_load_run d (jig_is_loaded w2) ((fun '(n, t) => (n, mkTestRc (te_desc t))) <$> l)
    (get_test_named w2) now) as (r & Hrun & Hr); [| |by apply (ld_count _ _ Hloadable)|].
  { intros n t ([n' t'] & [= -> ->] & Hin)%list_elem_of_fmap. apply Hl in Hin.
    by apply (mi_named w1 Hinv1) in Hin as [? _]. }
  { intros n t. rewrite get_test_named_Some, list_elem_of_fmap. split.
    - intros (t0 & Ht0 & ->). exists (n, t0). split; [done|by apply Hl].
    - intros ([n' t'] & [= -> ->] & Hin). exists t'. split; [by apply Hl|done]. }
  rt_bind (fun a w' => a = w2 /\ w' = w2); [by exists w2, w2|]. intros ? ? _ [-> ->].
  rt_bind (fun a w' => a = r /\ w' = w2).
  { exists r, w2. unfold liftO. by rewrite Hrun. }
  intros ? ? _ [-> ->]. change (loaded w1) with (loaded w2). apply store_run; [done|]. intros s ->. specialize (Hr s eq_refl).
  destruct (loaded_scenario_ok w1 d s Hinv1 Hloadable Hr) as (Hwf & Hlim & Hid & Htests).
  split; [|unfold loaded; simpl; rewrite dom_insert_L; set_solver].
  apply store_scenario_inv; try done. apply not_elem_of_dom, is_fresh.
Qed.

(** ** Requests *)

(** The requests that are answered to their sender. *)
Definition answered (c : ManagerControlMessageContents) : bool :=
  match c with
  | Ctrl.Scenarios | Ctrl.Tests _ | Ctrl.Jig | Ctrl.InitialGreeting => true
  | _ => false
  end.

(** When a request is served without a panic: an answer has a receiver, and a
    scenario is finished once it was deactivated. *)
Record request_ok w (msg : ManagerControlMessage) : Prop := {
  rq_sender : answered (cm_contents msg) = true -> receiver_loaded w (cm_sender msg);
  rq_finished code text : cm_contents msg = Ctrl.ScenarioFinished code text ->
    exists id, id ∈ m_selected w /\ un_kind id = UnitKind.Scenario /\ id ∉ m_active w;
}.

Definition event_ok w (e : UnitEvent) : Prop :=
  match e with Event.ManagerRequest msg => request_ok w msg | _ => True end.

Lemma receiver_talked w w' id : talked w w' -> receiver_loaded w id -> receiver_loaded w' id.
Proof. intros Ht Hl Hk. apply (same_units_loaded w); [by apply talked_steady|auto]. Qed.

Lemma talked_wf w w' : talked w w' -> mgr_wf w -> mgr_wf w'.
Proof. intros Ht. apply talked_steady, Ht. Qed.

Lemma send_hello_talked id w : text_interfaces w -> receiver_loaded w id ->
  runs_to talked w (send_hello_to id) (fun _ _ => True).
Proof. apply send_messages_talked. Qed.

Lemma greeting_talked id w : mgr_wf w -> text_interfaces w -> receiver_loaded w id ->
  runs_to talked w (manager_request depth (mkCtrl id Ctrl.InitialGreeting)) (fun _ _ => True).
Proof.
  intros Hwf Htext Hl. simpl.
  rt_bind _; [by apply send_hello_talked|]. intros ? w1 Ht1 _.
  rt_bind _; [apply send_jig_talked; eauto using talked_wf, talked_interfaces, receiver_talked|]. intros ? w2 Ht2 _.
  assert (talked w w2) as Ht by (by transitivity w1).
  rt_bind _; [apply send_scenarios_talked; eauto using talked_wf, talked_interfaces, receiver_talked|].
  intros ? w3 Ht3 _. clear Ht1 Ht2. assert (talked w w3) as Hw3 by (by transitivity w2).
  pose proof (talked_wf _ _ Hw3 Hwf) as Hwf3. apply rt_with_scenario; [apply Hwf3|].
  apply rt_gets_bind. simpl. destruct (m_current_scenario w3) as [p|] eqn:Hp; [|by rt_ret].
  destruct (current_heap w3 p Hwf3 Hp) as [s Hs]. eapply rt_deref; [exact Hs|].
  apply send_scenario_talked.
  - destruct (mw_scenarios w3 Hwf3). by split.
  - exact (talked_interfaces _ _ Hw3 Htext).
  - exact (receiver_talked _ _ _ Hw3 Hl).
Qed.

(** An [AdvanceScenario] advances the current scenario, and does nothing else. *)
Lemma advance_request_done id code w p s sw : mgr_inv w -> m_current_scenario w = Some p -> m_heap w !! p = Some s ->
  advance id code (scw s (m_io w)) = Done (tt, sw) ->
  manager_request depth (mkCtrl id (Ctrl.AdvanceScenario code)) w = Done (tt, w <| m_heap ::= <[p := w_sc sw]> |>
    <| m_io := mkIO (w_cfg sw) (w_tick sw) (w_out sw) |>).
Proof.
  intros Hinv Hp Hs Hrun. simpl. apply with_scenario_heap; [apply Hinv|].
  transitivity (on_scenario p (advance id code) (put_cs (Reading 1) w)).
  - unfold gets, mbind, M_bind. cbn [m_current_scenario put_cs set_with]. by rewrite Hp.
  - by rewrite (on_scenario_run p (advance id code) (put_cs (Reading 1) w) s tt _ Hs Hrun).
Qed.

Lemma advance_request_step id code w p s : mgr_inv w -> m_current_scenario w = Some p -> m_heap w !! p = Some s ->
  exists s' tick os, advanced s s' os /\
    manager_request depth (mkCtrl id (Ctrl.AdvanceScenario code)) w = Done (tt, w <| m_heap ::= <[p := s']> |>
      <| m_io := mkIO (io_cfg (m_io w)) tick (io_out (m_io w) ++ os) |>) /\ records code s s'.
Proof.
  intros Hinv Hp Hs. destruct (mi_ok w Hinv p s Hs) as [Hsw Hlim].
  destruct (advance_run_records (scw s (m_io w)) id code Hsw Hlim) as (s' & tick & os & Ha & Hrun & Hrecs).
  exists s', tick, os. split_and!; [exact Ha| |exact Hrecs].
  exact (advance_request_done id code w p s _ Hinv Hp Hs Hrun).
Qed.

Lemma advance_request_run id code w : mgr_inv w ->
  runs_to steady w (manager_request depth (mkCtrl id (Ctrl.AdvanceScenario code))) (fun _ _ => True).
Proof.
  intros Hinv. pose proof (mi_wf w Hinv) as Hwf.
  destruct (m_current_scenario w) as [p|] eqn:Hp.
  - destruct (current_heap w p Hwf Hp) as [s Hs]. destruct (mi_ok w Hinv p s Hs) as [Hsw Hlim].
    destruct (advance_request_step id code w p s Hinv Hp Hs) as (s' & tick & os & Ha & Hrun & _).
    destruct (advanced_inv _ _ _ Ha Hsw) as (Hag & Hsw' & _).
    assert (keeps w (w <| m_heap ::= <[p := s']> |> <| m_io := mkIO (io_cfg (m_io w)) tick (io_out (m_io w) ++ os) |>))
      as Hk by (by eapply keeps_heap).
    eexists tt, _. split_and!; [exact Hrun|exact (keeps_steady _ _ Hk)|done].
  - simpl. apply rt_steady, rt_with_scenario; [apply Hwf|]. apply rt_gets_bind. simpl. rewrite Hp. by rt_ret.
Qed.

Lemma deactivate_inactive id reason w : id ∉ m_active w -> deactivate id reason w = Done (tt, w).
Proof. intros Hid. unfold deactivate, gets, mbind, M_bind. by rewrite bool_decide_eq_true_2. Qed.

Lemma finished_request_run id code text w : mgr_inv w ->
  (exists n, n ∈ m_selected w /\ un_kind n = UnitKind.Scenario /\ n ∉ m_active w) ->
  runs_to talked w (manager_request depth (mkCtrl id (Ctrl.ScenarioFinished code text))) (fun _ _ => True).
Proof.
  intros Hinv (n & Hsel & Hk & Hna). pose proof (mi_wf w Hinv) as Hwf. simpl.
  destruct (is_selected w (mw_scenarios w Hwf) n Hsel Hk) as (p & Hp & Hl).
  destruct (is_heap w (mw_scenarios w Hwf) n p Hl) as (_ & s & Hs & Hid & _).
  rt_bind (fun _ _ => True).
  - apply rt_with_scenario; [apply Hwf|]. apply rt_gets_bind. simpl. rewrite Hp. simpl.
    rt_bind (fun a w' => a = p /\ w' = put_cs (Reading 1) w); [by rt_ret|]. intros ? ? _ [-> ->].
    eapply rt_deref; [exact Hs|]. rewrite Hid.
    exists tt, (put_cs (Reading 1) w). split_and!; [by apply deactivate_inactive|done|done].
  - intros ? w1 Ht _. apply broadcast_messages_talked. eapply talked_interfaces; [exact Ht|apply Hinv].
Qed.

(** Reading the current scenario. *)
Lemma with_scenario_read {A} (m : MM A) w a : m_cs_borrow w = Unborrowed ->
  m (put_cs (Reading 1) w) = Done (a, put_cs (Reading 1) w) -> with_current_scenario m w = Done (a, w).
Proof.
  intros Hb Hrun. unfold with_current_scenario, borrow. rewrite Hb, Hrun. unfold put_cs.
  destruct w. simpl in *. by subst.
Qed.

(** Is the current scenario running? *)
Definition running_now w : bool :=
  match p ← m_current_scenario w; m_heap w !! p with Some s => is_running s | None => false end.

Definition is_busy : MM bool :=
  with_current_scenario (
    c ← gets m_current_scenario;
    match c with
    | None => mret false
    | Some p => s ← deref p; mret (is_running s)
    end).

Lemma is_busy_run w : mgr_wf w -> is_busy w = Done (running_now w, w).
Proof.
  intros Hwf. unfold is_busy, running_now. apply with_scenario_read; [apply Hwf|].
  unfold gets, mbind, M_bind. cbn [m_current_scenario put_cs set_with].
  destruct (m_current_scenario w) as [p|] eqn:Hp; [|done].
  destruct (current_heap w p Hwf Hp) as [s Hs]. simpl. rewrite Hs. by apply (deref_bind p s).
Qed.

Lemma start_request_run id name w : mgr_inv w ->
  runs_to steady w (manager_request depth (mkCtrl id (Ctrl.StartScenario name))) (fun _ _ => True).
Proof.
  intros Hinv. pose proof (mi_wf w Hinv) as Hwf. simpl.
  rt_bind (fun _ w' => w' = w).
  { exists (running_now w), w. split; [by apply is_busy_run|done]. }
  intros busy ? _ ->. destruct busy; [apply rt_steady, log_talked|].
  rt_bind (fun _ w' => mgr_wf w').
  { destruct name as [n|].
    - rt_bind _; [by apply select_steady|]. intros ? w1 _ [Hwf1 _]. by rt_ret.
    - apply rt_steady. eapply rt_conseq; [by apply rt_current_id|done|]. by intros ? ? _ [-> _]. }
  intros [n|] w1 Hst1 Hwf1; [|apply rt_steady, log_talked].
  rt_bind _; [by apply activate_steady|]. intros ? w2 Hst2 Hwf2.
  apply rt_steady, broadcast_messages_talked. eapply same_units_interfaces; [|apply Hinv].
  transitivity w1; [apply Hst1|apply Hst2].
Qed.

Lemma scenario_request_run id name w : mgr_inv w ->
  runs_to steady w (manager_request depth (mkCtrl id (Ctrl.Scenario name))) (fun _ _ => True).
Proof.
  intros Hinv. pose proof (mi_wf w Hinv) as Hwf. simpl. apply rt_gets_bind.
  destruct (m_scenarios w !! name); [|apply rt_steady, log_talked].
  rt_bind _; [by apply select_steady|]. intros ? w1 Hst1 [Hwf1 _].
  apply rt_steady, broadcast_selected_scenario_talked; [done|].
  eapply same_units_interfaces; [apply Hst1|apply Hinv].
Qed.

(** Every request is served without a panic. *)
Lemma manager_request_run msg w : mgr_inv w -> request_ok w msg ->
  runs_to steady w (manager_request depth msg) (fun _ _ => True).
Proof.
  intros Hinv [Hsender Hfinished]. destruct msg as [id c]. simpl in *.
  pose proof (mi_wf w Hinv) as Hwf. pose proof (mi_text w Hinv) as Htext.
  assert (forall m : MM unit, runs_to steady w m (fun _ w' => mgr_wf w') ->
    runs_to steady w m (fun _ _ => True)) as Hsteady.
  { intros m Hm. by eapply rt_conseq; [exact Hm|done|done]. }
  destruct c; simpl in Hsender.
  - apply rt_steady, send_jig_talked; auto.
  - apply rt_steady, send_scenarios_talked; auto.
  - apply scenario_request_run, Hinv.
  - apply rt_steady, send_tests_talked; auto.
  - apply rt_steady, log_talked.
  - apply rt_steady, greeting_talked; auto.
  - by apply advance_request_run.
  - apply rt_steady, rt_io, io_total_emit.
  - apply rt_steady, log_talked.
  - apply rt_steady, log_talked.
  - apply rt_steady, log_talked.
  - apply start_request_run, Hinv.
  - by apply Hsteady, activate_steady.
  - by apply Hsteady, deactivate_steady.
  - by apply rt_steady, broadcast_messages_talked.
  - by apply rt_steady, broadcast_messages_talked.
  - apply rt_steady, finished_request_run; [done|]. by eapply Hfinished.
  - by apply rt_steady, broadcast_messages_talked.
  - apply rt_steady. rt_bind _; [apply log_talked|]. intros ? w1 _ _. apply rt_io, io_total_emit.
Qed.

(** ** Events *)

Lemma status_message_run msg w : mgr_wf w -> text_interfaces w ->
  runs_to talked w (status_message msg) (fun _ _ => True).
Proof.
  intros Hwf Htext. unfold status_message. destruct (se_status msg); try by rt_ret.
  - destruct (broadcast_named_talked (se_name msg) w Hwf Htext) as (Hj & Hs & Ht).
    destruct (un_kind (se_name msg)); auto; by rt_ret.
  - destruct (un_kind (se_name msg)); try by rt_ret.
    + by apply broadcast_selected_jig_talked.
    + by apply broadcast_selected_scenario_talked.
Qed.

Lemma output_log_total {A} (output : A -> ManagerStatusMessage -> M IO (result ForeignError unit)) what log l :
  (forall id u, (id, u) ∈ l -> io_total (output u (Status.Log log))) -> io_total (output_log output what log l).
Proof.
  induction l as [|[id u] l IH]; intros Hl; simpl; [apply io_total_ret|].
  apply io_total_bind; [apply (Hl id); by left|]. intros r.
  apply io_total_bind; [apply IH; intros id' u' Hin; apply (Hl id'); by right|].
  intros rest. apply io_total_ret.
Qed.

Lemma logger_output_total l msg : io_total (logger_output_message l msg).
Proof.
  unfold logger_output_message. repeat (case_match; try apply io_total_ret).
  all: unfold tsv_write, logger_json_write; repeat (case_match; try apply io_total_ret);
    apply write_chunks_total.
Qed.

Lemma log_event_run log w : mgr_inv w ->
  runs_to steady w (process_message depth (Event.Log log)) (fun _ _ => True).
Proof.
  intros Hinv. simpl. apply rt_gets_bind. rt_bind _; [apply rt_steady, rt_iter_map|].
  intros li w1 Hst1 Hli. rt_bind (fun _ _ => True).
  { apply rt_steady, rt_io, output_log_total. intros id i Hin%Hli. apply interface_output_total.
    eapply (mi_text w Hinv), Hin. }
  intros bad_interfaces w2 Hst2 _. apply rt_gets_bind. rt_bind _; [apply rt_steady, rt_iter_map|].
  intros ll w3 Hst3 _. rt_bind (fun _ _ => True).
  { apply rt_steady, rt_io, output_log_total. intros id l _. apply logger_output_total. }
  intros bad_loggers w4 Hst4 _. rt_forM. intros [id reason] w5 _ Hst5.
  eapply rt_conseq; [apply deactivate_steady|done|done].
  apply Hst5, Hst4, Hst3, Hst2, Hst1, Hinv.
Qed.

Lemma process_message_run e w : mgr_inv w -> event_ok w e ->
  runs_to steady w (process_message depth e) (fun _ _ => True).
Proof.
  intros Hinv Hok. destruct e; try by rt_ret.
  all: try (by apply manager_request_run).
  all: try (by apply log_event_run).
  apply rt_steady, status_message_run; apply Hinv.
Qed.

End manager.
