(* ===== verification/ManagerFrames.v ===== *)
(** * What the manager's operations leave alone

    A frame is a relation on the manager that holds across every small change
    an operation makes: an output, a unit that changes but keeps its
    description, a selection, a borrow.  Each operation is walked through once;
    what it keeps is then read off by choosing a frame. *)

From S2P Require Import Prelude Str Path Unit Foreign Config Events Env Samples Descriptions.
From S2P Require Import Interface Trigger Logger Jig Test Scenario ScenarioProps ScenarioTheorems Manager ManagerProps ManagerSafety.

Section frames.
Context `{Libraries} `{DependyLib} `{Env}.
Implicit Types w : Manager.

(** ** Outputs that only grow *)

(** More was put out, and every output is of the kind [P]: unheard outputs start
    no test and finish no scenario, silent ones do not advance it either. *)
Definition grows_by (P : Out -> Prop) (i i' : IO) : Prop := exists os, io_out i' = io_out i ++ os /\ Forall P os.

#[export] Instance grows_preorder P : PreOrder (grows_by P).
Proof.
  split; [intros i; exists []; by rewrite app_nil_r|]. intros i1 i2 i3 (os1 & Hi1 & S1) (os2 & Hi2 & S2).
  exists (os1 ++ os2). rewrite Hi2, Hi1, app_assoc. split; [done|by apply Forall_app].
Qed.

Abbreviation grows := (grows_by silent).
Abbreviation grows_loudly := (grows_by unheard).

Lemma grows_loud i i' : grows i i' -> grows_loudly i i'.
Proof. intros (os & Ho & Hs). exists os. split; [done|by apply silent_unheard]. Qed.

(** ** The units' own operations *)

Lemma frames_emit (P : Out -> Prop) o : P o -> frames (grows_by P) (emit o).
Proof. intros Ho i ? ? [= _ <-]. exists [o]. split; [done|by constructor]. Qed.
Lemma frames_ask P {A} (f : nat -> A) : frames (grows_by P) (ask f).
Proof. intros i ? ? [= _ <-]. exists []. simpl. by rewrite app_nil_r. Qed.
Lemma frames_cfg P (f : Config -> Config) : frames (grows_by P) (modify (fun i : IO => i <| io_cfg ::= f |>)).
Proof. apply frames_modify. intros i. exists []. simpl. by rewrite app_nil_r. Qed.

Ltac walk_io := walk ltac:(first
  [ apply frames_emit; by repeat split | apply frames_ask | apply frames_cfg
  | progress unfold io_send, io_broadcast, terminate_child, start_child, log_info, log_error, iter_map ]).

Lemma write_chunks_grows n chunks : frames grows (write_chunks n chunks).
Proof. induction chunks as [|c chunks IH]; simpl; walk_io. Qed.

Lemma interface_output_grows i msg : frames grows (interface_output_message i msg).
Proof. unfold interface_output_message, text_write. walk ltac:(apply write_chunks_grows). Qed.
Lemma output_messages_grows i msgs : frames grows (output_messages i msgs).
Proof. induction msgs as [|m msgs IH]; simpl; walk ltac:(apply interface_output_grows). Qed.
Lemma logger_output_grows l msg : frames grows (logger_output_message l msg).
Proof.
  unfold logger_output_message, tsv_write, logger_json_write. walk ltac:(apply write_chunks_grows).
Qed.
Lemma output_log_grows {A} (output : A -> ManagerStatusMessage -> M IO (result ForeignError unit)) what log l :
  (forall u m, frames grows (output u m)) -> frames grows (output_log output what log l).
Proof. intros Ho. induction l as [|[id u] l IH]; simpl; walk ltac:(apply Ho). Qed.

(** What such an operation does to its unit: the description stays. *)
Record keeps_desc (P : Out -> Prop) {A B D} (desc : A -> D) (f : A -> M IO (A * B)) : Prop := {
  kd_grows a : frames (grows_by P) (f a);
  kd_desc a : yields (fun r => desc r.1 = desc a) (f a);
}.

Lemma interface_activate_desc : keeps_desc unheard if_desc interface_activate.
Proof. split; intros i; unfold interface_activate; [walk_io|walk_yields]. Qed.
Lemma interface_deactivate_desc : keeps_desc silent if_desc interface_deactivate.
Proof. split; intros i; unfold interface_deactivate; [walk_io|walk_yields]. Qed.
Lemma trigger_activate_desc : keeps_desc unheard tr_desc trigger_activate.
Proof. split; intros i; unfold trigger_activate; [walk_io|walk_yields]. Qed.
Lemma trigger_deactivate_desc : keeps_desc silent tr_desc trigger_deactivate.
Proof. split; intros i; unfold trigger_deactivate; [walk_io|walk_yields]. Qed.
Lemma logger_activate_desc : keeps_desc unheard lg_desc logger_activate.
Proof. split; intros i; unfold logger_activate; [walk_io|walk_yields]. Qed.
Lemma logger_deactivate_desc : keeps_desc silent lg_desc logger_deactivate.
Proof. split; intros i; unfold logger_deactivate; [walk_io|walk_yields]. Qed.
Lemma test_activate_desc : keeps_desc unheard te_desc test_activate.
Proof. split; intros i; unfold test_activate; [walk_io|walk_yields]. Qed.
Lemma test_deactivate_desc : keeps_desc silent te_desc test_deactivate.
Proof.
  split; intros t; unfold test_deactivate, send_finished_once; [walk_io|].
  destruct (te_program t); [|walk_yields]. destruct (te_is_daemon t), (te_result t).
  all: intros i a i' (t' & i1 & Hrun & (? & i2 & _ & [= <- _])%bind_Done)%bind_Done; simpl.
  all: (by injection Hrun as <- _) || (apply bind_Done in Hrun as (? & i3 & _ & [= <- _]); done).
Qed.
Lemma jig_activate_grows j : frames grows (jig_activate j).
Proof. unfold jig_activate. walk_io. Qed.

(** ** Frames of the manager *)

(** A relation that holds across the changes of every operation. *)
Class Frame (R : relation Manager) : Prop := {
  frame_preorder :: PreOrder R;
  frame_io w i : grows (m_io w) i -> R w (w <| m_io := i |>);
  frame_selected w f : R w (w <| m_selected ::= f |>);
  frame_inactive w id : R w (w <| m_active ::= fun a => a ∖ {[ id ]} |>);
  frame_cs w b : R w (put_cs b w);
  frame_cj w b : R w (put_cj b w);
  frame_interface w id i i' : m_interfaces w !! id = Some i -> if_desc i' = if_desc i ->
    R w (w <| m_interfaces ::= <[id := i']> |>);
  frame_logger w id l l' : m_loggers w !! id = Some l -> lg_desc l' = lg_desc l ->
    R w (w <| m_loggers ::= <[id := l']> |>);
  frame_test w id t t' : m_tests w !! id = Some t -> te_desc t' = te_desc t ->
    R w (w <| m_tests ::= <[id := t']> |>);
  frame_trigger w id t t' : m_triggers w !! id = Some t -> tr_desc t' = tr_desc t ->
    R w (w <| m_triggers ::= <[id := t']> |>);
}.

(** ... across an activation, which starts commands, *)
Class FrameActivate (R : relation Manager) : Prop := {
  frame_activate :: Frame R;
  frame_loud w i : grows_loudly (m_io w) i -> R w (w <| m_io := i |>);
  frame_active w id : R w (w <| m_active ::= fun a => {[ id ]} ∪ a |>);
}.

(** ... across the choice of the current scenario and jig, *)
Class FrameCurrent (R : relation Manager) : Prop := {
  frame_current :: Frame R;
  frame_scenario w c : R w (w <| m_current_scenario := c |>);
  frame_jig w c : R w (w <| m_current_jig := c |>);
}.

(** ... and across all of these and the start of a scenario. *)
Class FrameHeap (R : relation Manager) : Prop := {
  frame_heap_current :: FrameCurrent R;
  frame_heap_activate :: FrameActivate R;
  frame_heap w p s s' : m_heap w !! p = Some s -> sc_description s' = sc_description s ->
    R w (w <| m_heap ::= <[p := s']> |>);
}.

Section frame.
Context (R : relation Manager) `{!Frame R}.

Lemma frames_world {A} (G : relation IO) (m : M IO A) : (forall w i, G (m_io w) i -> R w (w <| m_io := i |>)) ->
  frames G m -> frames R (io m).
Proof.
  intros HG Hm w a w'. unfold io, zoom. destruct (m (m_io w)) as [[a' i]| |] eqn:Hrun; [|done|done].
  intros [= _ <-]. apply HG. by eapply Hm.
Qed.

Lemma frames_io {A} (m : M IO A) : frames grows m -> frames R (io m).
Proof. apply frames_world, frame_io. Qed.

Lemma frames_borrow {A} cell put (m : MM A) : (forall w b, R w (put b w)) -> frames R m ->
  frames R (borrow cell put m).
Proof.
  intros Hput Hm w a w'. unfold borrow. destruct (cell w); [| |done].
  all: destruct (m _) as [[a' w1]| |] eqn:Hrun; [|done|done]; intros [= _ <-].
  all: apply Hm in Hrun; etransitivity; [apply Hput|]; etransitivity; [exact Hrun|apply Hput].
Qed.

Lemma frames_borrow_mut {A} cell put (m : MM A) : (forall w b, R w (put b w)) -> frames R m ->
  frames R (borrow_mut cell put m).
Proof.
  intros Hput Hm w a w'. unfold borrow_mut. destruct (cell w); [|done..].
  destruct (m _) as [[a' w1]| |] eqn:Hrun; [|done|done]; intros [= _ <-].
  apply Hm in Hrun. etransitivity; [apply Hput|]. etransitivity; [exact Hrun|apply Hput].
Qed.

(** The operation of one unit: look it up, run it, put it back. *)
Lemma frames_unit {A B D E} (units : Manager -> gmap UnitName A)
    (put : UnitName -> A -> Manager -> Manager) P (desc : A -> D) (f : A -> M IO (A * result E B)) id none :
  (forall w i, units (w <| m_io := i |>) = units w) ->
  (forall w i, grows_by P (m_io w) i -> R w (w <| m_io := i |>)) ->
  (forall w a a', units w !! id = Some a -> desc a' = desc a -> R w (put id a' w)) ->
  keeps_desc P desc f ->
  frames R (o ← gets (fun w => units w !! id);
    match o with
    | None => mret (Err none)
    | Some a => '(a', r) ← io (f a); modify (put id a');; mret r
    end).
Proof.
  intros Hio Hworld Hput [Hgrows Hdesc] w r w'. unfold gets. unfold mbind at 1, M_bind at 1.
  destruct (units w !! id) as [a|] eqn:Ha; [|by intros [= _ <-]].
  intros ([a' b] & w1 & Hrun & Hrest)%bind_Done. injection Hrest as _ <-.
  unfold io, zoom in Hrun. destruct (f a (m_io w)) as [[[a1 b1] i]| |] eqn:Hf; [|done|done].
  injection Hrun as -> -> <-. etransitivity; [apply Hworld; by eapply Hgrows|].
  eapply Hput; [etransitivity; [exact (f_equal (lookup id) (Hio w i))|exact Ha]|]. exact (Hdesc a _ _ _ Hf).
Qed.

Lemma frames_status e : frames R (broadcast_status e).
Proof. apply frames_io, frames_emit. by repeat split. Qed.
Lemma frames_log_info id txt : frames R (manager_log_info id txt).
Proof. apply frames_io. walk_io. Qed.
Lemma frames_log_error id txt : frames R (manager_log_error id txt).
Proof. apply frames_io. walk_io. Qed.
Lemma frames_iter {A} (m : gmap UnitName A) : frames R (io (iter_map m)).
Proof. apply frames_io. walk_io. Qed.
Lemma frames_scenario_read {A} (m : MM A) : frames R m -> frames R (with_current_scenario m).
Proof. apply frames_borrow, frame_cs. Qed.
Lemma frames_scenario_write {A} (m : MM A) : frames R m -> frames R (with_current_scenario_mut m).
Proof. apply frames_borrow_mut, frame_cs. Qed.
Lemma frames_jig_read {A} (m : MM A) : frames R m -> frames R (with_current_jig m).
Proof. apply frames_borrow, frame_cj. Qed.
Lemma frames_jig_write {A} (m : MM A) : frames R m -> frames R (with_current_jig_mut m).
Proof. apply frames_borrow_mut, frame_cj. Qed.
Lemma frames_deref p : frames R (deref p).
Proof. unfold deref. walk fail. Qed.
Lemma frames_select f : frames R (modify (fun w => w <| m_selected ::= f |>)).
Proof. apply frames_modify. intros w. apply frame_selected. Qed.
Lemma frames_inactive id : frames R (modify (fun w => w <| m_active ::= fun a => a ∖ {[ id ]} |>)).
Proof. apply frames_modify. intros w. apply frame_inactive. Qed.

End frame.
End frames.

#[export] Hint Resolve frames_status frames_log_info frames_log_error frames_iter frames_deref frames_select
  frames_inactive : frames.

(** The steps of a manager's operation. *)
Ltac walk_manager leaf :=
  walk ltac:(first
    [ leaf
    | apply frames_scenario_read; [typeclasses eauto|]
    | apply frames_scenario_write; [typeclasses eauto|]
    | apply frames_jig_read; [typeclasses eauto|]
    | apply frames_jig_write; [typeclasses eauto|] ]).

Abbreviation grows := (grows_by silent).
Abbreviation grows_loudly := (grows_by unheard).

Section operations.
Context `{Libraries} `{DependyLib} `{Env}.
Context (R : relation Manager).
Implicit Types w : Manager.

Ltac by_unit units put P desc d := unshelve eapply (frames_unit _ units put P desc);
  [done|first [apply frame_io | apply frame_loud]| |exact d]; intros w a a'.

Section frame.
Context `{!Frame R}.


Lemma frames_deactivate_interface id : frames R (deactivate_interface id).
Proof.
  by_unit m_interfaces (fun id i w => w <| m_interfaces ::= <[id := i]> |>) silent if_desc interface_deactivate_desc.
  apply frame_interface.
Qed.
Lemma frames_deactivate_trigger id : frames R (deactivate_trigger id).
Proof.
  by_unit m_triggers (fun id i w => w <| m_triggers ::= <[id := i]> |>) silent tr_desc trigger_deactivate_desc.
  apply frame_trigger.
Qed.
Lemma frames_deactivate_logger id : frames R (deactivate_logger id).
Proof.
  by_unit m_loggers (fun id i w => w <| m_loggers ::= <[id := i]> |>) silent lg_desc logger_deactivate_desc.
  apply frame_logger.
Qed.
Lemma frames_deactivate_test id : frames R (deactivate_test id).
Proof.
  by_unit m_tests (fun id i w => w <| m_tests ::= <[id := i]> |>) silent te_desc test_deactivate_desc.
  apply frame_test.
Qed.
Lemma frames_deactivate id reason : frames R (deactivate id reason).
Proof.
  unfold deactivate, deactivate_scenario, deactivate_jig.
  walk_manager ltac:(first [ apply frames_deactivate_interface | apply frames_deactivate_trigger
    | apply frames_deactivate_logger | apply frames_deactivate_test ]).
Qed.

(** Messages to interfaces. *)
Lemma frames_send_messages id messages : frames R (send_messages_to id messages).
Proof.
  unfold send_messages_to.
  walk_manager ltac:(first [apply frames_deactivate | apply frames_io, output_messages_grows; typeclasses eauto]).
Qed.

Lemma frames_broadcast_messages messages : frames R (broadcast_messages messages).
Proof. unfold broadcast_messages. walk_manager ltac:(apply frames_send_messages). Qed.

Lemma frames_describe_scenarios l : frames R (describe_scenarios l).
Proof. induction l as [|[n p] l IH]; simpl; walk_manager fail. Qed.

Lemma frames_current_scenario_id : frames R current_scenario_id.
Proof. unfold current_scenario_id. walk_manager fail. Qed.
Lemma frames_current_jig_id : frames R current_jig_id.
Proof. unfold current_jig_id. walk_manager fail. Qed.

Ltac walk_talk := walk_manager ltac:(first
  [ apply frames_send_messages | apply frames_broadcast_messages | apply frames_describe_scenarios
  | apply frames_current_scenario_id | apply frames_deactivate
  | progress unfold broadcast_message, broadcast_skipped, broadcast_finished, get_scenario_named, scenario_list,
      broadcast_scenario_list ]).

Lemma frames_broadcast_selected_scenario : frames R broadcast_selected_scenario.
Proof. unfold broadcast_selected_scenario. walk_talk. Qed.
Lemma frames_broadcast_scenario_list : frames R broadcast_scenario_list.
Proof. walk_talk. Qed.
Lemma frames_send_jig id : frames R (send_jig_to id).
Proof. unfold send_jig_to. walk_talk. Qed.
Lemma frames_send_scenarios id : frames R (send_scenarios_to id).
Proof. unfold send_scenarios_to. walk_talk. Qed.
Lemma frames_send_scenario id name : frames R (send_scenario_to id name).
Proof. unfold send_scenario_to. walk_talk. Qed.
Lemma frames_send_tests id name : frames R (send_tests_to id name).
Proof. unfold send_tests_to. walk_talk. Qed.

Lemma frames_status_message msg : frames R (status_message msg).
Proof.
  unfold status_message, broadcast_jig_named, broadcast_scenario_named, broadcast_test_named, broadcast_selected_jig.
  walk_manager ltac:(first [apply frames_broadcast_selected_scenario | progress walk_talk]).
Qed.

(** The requests that neither choose nor run a scenario, a jig or a test. *)
Definition plain_request (c : ManagerControlMessageContents) : bool :=
  match c with
  | Ctrl.Scenario _ | Ctrl.StartScenario _ | Ctrl.AdvanceScenario _ => false
  | Ctrl.StartTest _ => false
  | _ => true
  end.

Lemma frames_select_test fuel id : un_kind id = UnitKind.Test -> frames R (select fuel id).
Proof.
  intros Hk. destruct fuel; cbn [select]; [walk_manager fail|]. rewrite Hk. unfold select_test. walk_manager fail.
Qed.

Ltac walk_request := walk_manager ltac:(first
  [ apply frames_send_messages | apply frames_broadcast_messages | apply frames_deactivate
  | apply frames_send_jig | apply frames_send_scenarios | apply frames_send_scenario | apply frames_send_tests
  | apply frames_io, frames_emit; [typeclasses eauto|by repeat split]
  | progress unfold send_hello_to, broadcast_message, broadcast_skipped, broadcast_finished ]).

Lemma frames_plain_request depth msg : plain_request (cm_contents msg) = true ->
  frames R (manager_request depth msg).
Proof.
  intros Hp. unfold manager_request. destruct (cm_contents msg) eqn:Hc; try done.
  all: walk_request.
Qed.

(** The events with a plain request, or none. *)
Definition plain_event (e : UnitEvent) : bool :=
  match e with Event.ManagerRequest msg => plain_request (cm_contents msg) | _ => true end.

Lemma frames_plain_event depth e : plain_event e = true -> frames R (process_message depth e).
Proof.
  destruct e; simpl; intros Hp; try (apply frames_ret; typeclasses eauto).
  - apply frames_status_message.
  - walk_manager ltac:(first [ apply frames_deactivate
      | apply frames_io, output_log_grows; [typeclasses eauto|intros; apply interface_output_grows]
      | apply frames_io, output_log_grows; [typeclasses eauto|intros; apply logger_output_grows] ]).
  - by apply frames_plain_request.
Qed.

End frame.

Section activating.
Context `{!FrameActivate R}.

Lemma frames_activated id : frames R (modify (fun w => w <| m_active ::= fun a => {[ id ]} ∪ a |>)).
Proof. apply frames_modify. intros w. apply frame_active. Qed.
#[local] Hint Resolve frames_activated : frames.

Lemma frames_activate_interface id : frames R (activate_interface id).
Proof.
  by_unit m_interfaces (fun id i w => w <| m_interfaces ::= <[id := i]> |>) unheard if_desc interface_activate_desc.
  apply frame_interface.
Qed.
Lemma frames_activate_trigger id : frames R (activate_trigger id).
Proof.
  by_unit m_triggers (fun id i w => w <| m_triggers ::= <[id := i]> |>) unheard tr_desc trigger_activate_desc.
  apply frame_trigger.
Qed.
Lemma frames_activate_logger id : frames R (activate_logger id).
Proof.
  by_unit m_loggers (fun id i w => w <| m_loggers ::= <[id := i]> |>) unheard lg_desc logger_activate_desc.
  apply frame_logger.
Qed.
Lemma frames_activate_test id : frames R (activate_test id).
Proof.
  by_unit m_tests (fun id i w => w <| m_tests ::= <[id := i]> |>) unheard te_desc test_activate_desc.
  apply frame_test.
Qed.

Lemma frames_activate_test_unit depth id : un_kind id = UnitKind.Test -> frames R (activate depth id).
Proof.
  intros Hk. unfold activate. rewrite Hk.
  walk_manager ltac:(first [by apply frames_select_test | apply frames_activate_test]).
Qed.

End activating.

Section current.
Context `{!FrameCurrent R}.

Lemma frames_take_scenario c : frames R (modify (fun w => w <| m_current_scenario := c |>)).
Proof. apply frames_modify. intros w. apply frame_scenario. Qed.
Lemma frames_take_jig c : frames R (modify (fun w => w <| m_current_jig := c |>)).
Proof. apply frames_modify. intros w. apply frame_jig. Qed.

Lemma frames_deselect fuel id reason : frames R (deselect fuel id reason).
Proof.
  revert id reason. induction fuel as [|fuel IH]; intros id reason; cbn [deselect]; [walk_manager fail|].
  unfold deselect_plain, deselect_jig, deselect_scenario.
  walk_manager ltac:(first [ apply IH | apply frames_deactivate | apply frames_current_scenario_id
    | apply frames_take_scenario | apply frames_take_jig ]).
Qed.

Lemma frames_select_unit fuel id : frames R (select fuel id).
Proof.
  revert id. induction fuel as [|fuel IH]; intros id; cbn [select]; [walk_manager fail|].
  unfold select_plain, select_test, select_jig, select_scenario.
  walk_manager ltac:(first [ apply IH | apply frames_deselect | apply frames_current_scenario_id
    | apply frames_current_jig_id | apply frames_take_scenario | apply frames_take_jig ]).
Qed.

End current.

Section heap.
Context `{!FrameHeap R}.

Lemma frames_on_scenario {A} p (m : M ScW A) :
  (forall s i a sw, m (scw s i) = Done (a, sw) -> sc_description (w_sc sw) = sc_description s /\
     grows_loudly i (mkIO (w_cfg sw) (w_tick sw) (w_out sw))) ->
  frames R (on_scenario p m).
Proof.
  intros Hm w a w' (s & w1 & Hs & Hrun)%bind_Done.
  assert (w1 = w /\ m_heap w !! p = Some s) as [-> Hp].
  { unfold deref in Hs. apply bind_Done in Hs as (o & w2 & [= <- <-] & Hu).
    destruct (m_heap w !! p); simpl in Hu; [|done]. by injection Hu as <- <-. }
  fold (scw s (m_io w)) in Hrun. destruct (m (scw s (m_io w))) as [[a' sw]| |] eqn:Hsw; [|done|done].
  injection Hrun as _ <-. destruct (Hm _ _ _ _ Hsw) as [Hd Hg].
  transitivity (w <| m_heap ::= <[p := w_sc sw]> |>); [by eapply frame_heap|].
  exact (frame_loud (R:=R) (w <| m_heap ::= <[p := w_sc sw]> |>) _ Hg).
Qed.

Lemma frames_activate_scenario id : frames R (activate_scenario id).
Proof.
  unfold activate_scenario. walk_manager ltac:(apply frames_on_scenario). intros s i r sw.
  unfold scenario_activate. intros [= _ <-]. split; [done|]. eexists. split; [reflexivity|]. by repeat constructor.
Qed.

Lemma frames_activate_unit depth id : frames R (activate depth id).
Proof.
  unfold activate, activate_jig.
  walk_manager ltac:(first [ apply frames_select_unit | apply frames_activate_interface | apply frames_activate_trigger
    | apply frames_activate_logger | apply frames_activate_test | apply frames_activate_scenario
    | apply frames_io, jig_activate_grows; typeclasses eauto | apply frames_activated ]).
Qed.

Lemma frames_refresh_defaults depth : frames R (refresh_defaults depth).
Proof.
  unfold refresh_defaults, first_key.
  walk_manager ltac:(first [ apply frames_select_unit | apply frames_activate_unit
    | apply frames_current_scenario_id | apply frames_current_jig_id ]).
Qed.

End heap.
End operations.
