(* ===== verification/Reload.v ===== *)
(** * What a rescan loads

    The description that a unit is loaded with, and how the operations of the
    manager change it: only loading and unloading do. *)

From S2P Require Import Prelude Str Path Unit Foreign Config Events Env Samples Descriptions.
From S2P Require Import Interface Trigger Logger Jig Test Scenario ScenarioProps ScenarioTheorems Manager ManagerProps ManagerSafety.
From S2P Require Import ManagerFrames.

Section manager.
Context `{Libraries} `{DependyLib} `{Env}.
Context (depth program_lines : nat).
Implicit Types w : Manager.

(** ** Descriptions of all kinds *)

Inductive Description :=
  | DInterface (d : InterfaceDescription)
  | DJig (d : JigDescription)
  | DLogger (d : LoggerDescription)
  | DScenario (d : ScenarioDescription)
  | DTest (d : TestDescription)
  | DTrigger (d : TriggerDescription).

(** The scenario behind the name. *)
Definition scenario_named (w : Manager) (id : UnitName) : option Scenario :=
  p ← m_scenarios w !! id; m_heap w !! p.

(** What the unit of a name is loaded with. *)
Definition loaded_as (w : Manager) (id : UnitName) : option Description :=
  match un_kind id with
  | UnitKind.Interface => (fun i => DInterface (if_desc i)) <$> m_interfaces w !! id
  | UnitKind.Jig => (fun j => DJig (jg_desc j)) <$> m_jigs w !! id
  | UnitKind.Logger => (fun l => DLogger (lg_desc l)) <$> m_loggers w !! id
  | UnitKind.Scenario => (fun s => DScenario (sc_description s)) <$> scenario_named w id
  | UnitKind.Test => (fun t => DTest (te_desc t)) <$> m_tests w !! id
  | UnitKind.Trigger => (fun t => DTrigger (tr_desc t)) <$> m_triggers w !! id
  | UnitKind.Internal => None
  end.

(** Every scenario is behind its pointer. *)
Definition heap_closed w : Prop := forall id p, m_scenarios w !! id = Some p -> is_Some (m_heap w !! p).

(** The unit [id] is now loaded with [o], the others as they were. *)
Record changed (id : UnitName) (o : option Description) w w' : Prop := {
  ch_closed : heap_closed w -> heap_closed w';
  ch_loaded : heap_closed w -> forall n, loaded_as w' n = if decide (n = id) then o else loaded_as w n;
}.

(** All units are loaded as they were. *)
Record same_descs w w' : Prop := {
  sm_closed : heap_closed w -> heap_closed w';
  sm_loaded n : loaded_as w' n = loaded_as w n;
}.

#[export] Instance same_descs_preorder : PreOrder same_descs.
Proof.
  split; [by split|]. intros w1 w2 w3 [C1 L1] [C2 L2]. split; [auto|]. intros n. by rewrite L2, L1.
Qed.

(** Replacing an entry of a map by one that looks the same. *)
Lemma lookup_fmap_insert_same {A B} (f : A -> B) (m : gmap UnitName A) id x y n :
  m !! id = Some x -> f y = f x -> f <$> <[id := y]> m !! n = f <$> m !! n.
Proof. intros Hx Hf. rewrite lookup_insert. case_decide; [subst; by rewrite Hx; simpl; rewrite Hf|done]. Qed.

Ltac same_others := unfold loaded_as, scenario_named; intros ?; simpl; destruct (un_kind _); try done.

#[export] Instance same_descs_frame : Frame same_descs.
Proof.
  split; try (by split); [exact _|..]; intros w id a a' Ha Hd; split; try done; same_others.
  all: eapply lookup_fmap_insert_same; [exact Ha|]; by rewrite Hd.
Qed.

#[export] Instance same_descs_activate : FrameActivate same_descs.
Proof. split; [exact _|by split..]. Qed.

#[export] Instance same_descs_current : FrameCurrent same_descs.
Proof. split; [exact _|by split..]. Qed.

#[export] Instance same_descs_heap : FrameHeap same_descs.
Proof.
  split; [exact _|exact _|]. intros w p s s' Hs Hd. split.
  - intros Hc id q Hq%Hc. apply lookup_insert_is_Some'. by right.
  - same_others. destruct (m_scenarios w !! n) as [q|]; [|done]. simpl. rewrite lookup_insert.
    case_decide; [subst q; rewrite Hs; simpl; by rewrite Hd|done].
Qed.

Lemma changed_same id o w1 w2 w3 : changed id o w1 w2 -> same_descs w2 w3 -> changed id o w1 w3.
Proof. intros [C1 L1] [C2 L2]. split; [auto|]. intros Hc n. by rewrite L2, L1. Qed.
Lemma same_changed id o w1 w2 w3 : same_descs w1 w2 -> changed id o w2 w3 -> changed id o w1 w3.
Proof. intros [C1 L1] [C2 L2]. split; [auto|]. intros Hc n. rewrite L2 by auto. by rewrite L1. Qed.

Lemma frames_same_changed {A B} id o (m : MM A) (k : A -> MM B) :
  frames same_descs m -> (forall a, frames (changed id o) (k a)) -> frames (changed id o) (m ≫= k).
Proof. intros Hm Hk w b w' (a & w1 & Hrun & Hrest)%bind_Done. eapply same_changed; [by eapply Hm|by eapply Hk]. Qed.
Lemma frames_changed_same {A B} id o (m : MM A) (k : A -> MM B) :
  frames (changed id o) m -> (forall a, frames same_descs (k a)) -> frames (changed id o) (m ≫= k).
Proof. intros Hm Hk w b w' (a & w1 & Hrun & Hrest)%bind_Done. eapply changed_same; [by eapply Hm|by eapply Hk]. Qed.

(** Whatever the outside world does, no unit changes. *)
Lemma io_Done {A} (m : M IO A) w a w' : io m w = Done (a, w') -> exists i, w' = w <| m_io := i |>.
Proof. unfold io, zoom. destruct (m (m_io w)) as [[a' i]| |]; [|done|done]. intros [= _ <-]. by exists i. Qed.

Lemma same_descs_io {A} (m : M IO A) : frames same_descs (io m).
Proof. by intros w a w' [i ->]%io_Done. Qed.

(** ** Unloading *)

Lemma unload_unit_changes id reason remove : (forall w, changed id None w (remove w)) ->
  frames (changed id None) (unload_unit depth id reason remove).
Proof.
  intros Hr. unfold unload_unit. apply frames_same_changed; [apply frames_deactivate; exact _|intros ?].
  apply frames_same_changed; [apply frames_deselect; exact _|intros ?]. by apply frames_modify.
Qed.

Ltac removes := intros w; split; [done|]; unfold loaded_as, scenario_named; intros _ n; simpl;
  destruct (un_kind n) eqn:?; case_decide; subst; try congruence;
  rewrite ?lookup_delete_eq, ?lookup_delete_ne by done; done.

Lemma unload_changes id : frames (changed id None) (unload depth id).
Proof.
  unfold unload. apply frames_same_changed; [apply frames_deselect; exact _|intros ?].
  destruct (un_kind id) eqn:Hk; try by (apply unload_unit_changes; removes).
  - apply frames_changed_same.
    + apply unload_unit_changes. intros w. split; [intros Hc n p; simpl; intros [_ Hp]%lookup_delete_Some; by eapply Hc|].
      unfold loaded_as, scenario_named. intros _ n. simpl. destruct (un_kind n) eqn:?; case_decide; subst; try congruence.
      * by rewrite lookup_delete_eq.
      * by rewrite lookup_delete_ne.
    + intros ?. apply frames_broadcast_scenario_list; exact _.
  - intros w ? ? [= _ <-]. split; [done|]. intros _ n. case_decide; [|done]. subst. unfold loaded_as. by rewrite Hk.
Qed.

(** ** Loading *)

(** Loading [id] from the description [d]: it is loaded with it, or everything is
    as before. *)
Definition loads_as {E A} id d (r : result E A) w w' : Prop :=
  match r with Ok _ => changed id (Some d) w w' | Err _ => same_descs w w' end.

Definition gives {E A} id d (m : MM (result E A)) : Prop :=
  forall w r w', m w = Done (r, w') -> loads_as id d r w w'.

Lemma gives_bind {E A B} id d (m : MM A) (k : A -> MM (result E B)) :
  frames same_descs m -> (forall a, gives id d (k a)) -> gives id d (m ≫= k).
Proof.
  intros Hm Hk w r w' (a & w1 & Hrun & Hrest)%bind_Done. apply Hm in Hrun. apply Hk in Hrest.
  destruct r; simpl in *; [by eapply same_changed|by transitivity w1].
Qed.

Lemma load_macro_gives id d known load : gives id d load -> gives id d (load_macro depth id known load).
Proof.
  intros Hload. unfold load_macro. apply gives_bind; [walk_manager fail|intros b].
  apply gives_bind; [walk_manager ltac:(apply frames_deselect; exact _)|intros ?].
  intros w r w' (r0 & w1 & Hrun & Hrest)%bind_Done. apply Hload in Hrun. destruct r0; simpl in Hrun.
  - apply bind_Done in Hrest as (? & w2 & Hb & [= <- <-]). eapply changed_same; [exact Hrun|].
    revert Hb. apply frames_status; exact _.
  - apply bind_Done in Hrest as (? & w2 & Hb & [= <- <-]). simpl. etransitivity; [exact Hrun|].
    revert Hb. apply frames_status; exact _.
Qed.

Lemma store_gives {A} id d (r : result UnitIncompatibleReason A) put :
  (forall a w, r = Ok a -> changed id (Some d) w (put a w)) -> gives id d (store r put).
Proof.
  intros Hput w r' w'. destruct r; [|by intros [= <- <-]]. intros [= <- <-]. by apply Hput.
Qed.

Ltac inserts := split; [done|]; unfold loaded_as, scenario_named; intros _ n; simpl;
  destruct (un_kind n) eqn:?; case_decide; subst; try congruence;
  rewrite ?lookup_insert_eq, ?lookup_insert_ne by done; done.

Lemma gives_gets {E A B} id d (f : Manager -> A) (k : A -> MM (result E B)) :
  (forall w, gives id d (k (f w))) -> gives id d (gets f ≫= k).
Proof. intros Hk w r w' Hrun. by apply (Hk w). Qed.

Lemma load_interface_gives d : un_kind (id_id d) = UnitKind.Interface ->
  gives (id_id d) (DInterface d) (load_interface depth d).
Proof.
  intros Hk. apply load_macro_gives, gives_gets. intros w0. apply store_gives. intros i w Hi.
  assert (if_desc i = d) as <-.
  { unfold interface_load in Hi. by destruct (interface_is_compatible _ _); [injection Hi as <-|]. }
  inserts.
Qed.

Lemma load_logger_gives d : un_kind (ld_id d) = UnitKind.Logger ->
  gives (ld_id d) (DLogger d) (load_logger depth d).
Proof.
  intros Hk. apply load_macro_gives, gives_gets. intros w0. apply store_gives. intros l w Hl.
  assert (lg_desc l = d) as <-.
  { unfold logger_load in Hl. by destruct (logger_is_compatible _ _); [injection Hl as <-|]. }
  inserts.
Qed.

Lemma load_trigger_gives d : un_kind (rd_id d) = UnitKind.Trigger ->
  gives (rd_id d) (DTrigger d) (load_trigger depth d).
Proof.
  intros Hk. apply load_macro_gives, gives_gets. intros w0. apply store_gives. intros t w Ht.
  assert (tr_desc t = d) as <-.
  { unfold trigger_load in Ht. by destruct (trigger_is_compatible _ _); [injection Ht as <-|]. }
  inserts.
Qed.

Lemma load_test_gives d : un_kind (td_id d) = UnitKind.Test ->
  gives (td_id d) (DTest d) (load_test depth d).
Proof. intros Hk. apply load_macro_gives, store_gives. intros t w [= <-]. inserts. Qed.

Lemma load_jig_gives d : un_kind (jd_id d) = UnitKind.Jig ->
  gives (jd_id d) (DJig d) (load_jig depth program_lines d).
Proof.
  intros Hk. apply load_macro_gives. intros w r w' (r0 & w1 & Hrun & Hstore)%bind_Done.
  assert (forall j, r0 = Ok j -> jg_desc j = d) as Hdesc.
  { intros j ->. unfold io, zoom in Hrun. destruct (jig_load _ _ _) as [[r1 i]| |] eqn:Hj; [|done..].
    injection Hrun as -> _. by eapply jig_load_desc. }
  apply same_descs_io in Hrun. revert Hstore. intros Hstore%(store_gives (jd_id d) (DJig d)).
  - destruct r; simpl in *; [by eapply same_changed|by etransitivity].
  - intros j w2 ->. pose proof (Hdesc j eq_refl) as <-. inserts.
Qed.

Lemma scenario_load_desc desc jigs tests get now s :
  scenario_load desc jigs tests get now = Done (Ok s) -> sc_description s = desc.
Proof.
  unfold scenario_load. destruct (scenario_is_compatible _ _ _) as [[order graph]|e]; [|done].
  unfold scenario_new. by destruct (checkout_tests _ _) as [[[seq ts] states]| |]; [intros [= <-]| |].
Qed.

(** A fresh pointer is no one's. *)
Lemma store_scenario_changes id s w : un_kind id = UnitKind.Scenario ->
  let p := fresh (dom (m_heap w)) in
  changed id (Some (DScenario (sc_description s))) w
    (w <| m_heap ::= <[p := s]> |> <| m_scenarios ::= <[id := p]> |>).
Proof.
  intros Hk p. assert (m_heap w !! p = None) as Hp by (apply not_elem_of_dom, is_fresh). split.
  - intros Hc n q. simpl. intros [[<- <-]|[_ Hq%Hc]]%lookup_insert_Some; apply lookup_insert_is_Some'; [by left|by right].
  - intros Hc n. unfold loaded_as, scenario_named. simpl.
    destruct (un_kind n) eqn:?; case_decide; subst; try congruence.
    + rewrite lookup_insert_eq. simpl. by rewrite lookup_insert_eq.
    + rewrite lookup_insert_ne by done. destruct (m_scenarios w !! n) as [q|] eqn:Hq; [|done]. simpl.
      rewrite lookup_insert_ne; [done|]. intros <-. apply Hc in Hq as [? ?]. congruence.
Qed.

Lemma load_scenario_gives d : un_kind (sd_id d) = UnitKind.Scenario ->
  gives (sd_id d) (DScenario d) (load_scenario depth d).
Proof.
  intros Hk. apply load_macro_gives, gives_gets. intros w0.
  apply gives_bind; [apply same_descs_io|intros l]. apply gives_bind; [apply same_descs_io|intros now].
  intros w r w' Hrun. unfold get in Hrun. apply bind_Done in Hrun as (? & ? & [= <- <-] & Hrun).
  unfold liftO in Hrun. apply bind_Done in Hrun as (r0 & w1 & Hload & Hstore).
  destruct (scenario_load _ _ _ _ _) as [r1| |] eqn:Hl; [|done..]. injection Hload as <- <-.
  revert Hstore. apply (store_gives (sd_id d)). intros s w1 ->. apply scenario_load_desc in Hl as <-.
  by apply store_scenario_changes.
Qed.

(** ** Messages *)

(** A scenario keeps its description while it runs. *)
Definition same_description (sw sw' : ScW) : Prop := sc_description (w_sc sw') = sc_description (w_sc sw).

#[export] Instance same_description_preorder : PreOrder same_description.
Proof. split; [done|]. intros s1 s2 s3 E1 E2. unfold same_description in *. congruence. Qed.

Lemma frames_now : frames same_description instant_now.
Proof. by intros s a s' [= _ <-]. Qed.

Ltac walk_sc leaf := walk ltac:(first
  [ leaf | apply frames_now | apply frames_modify; done | progress unfold sc_get, sc_modify, send ]).

Lemma frames_next fuel current : frames same_description (find_next_state fuel current).
Proof.
  revert current. induction fuel as [|fuel IH]; intros current; simpl; [walk_sc fail|].
  walk_sc ltac:(first [apply IH | progress unfold is_state_okay, scenario_timed_out]).
Qed.

Lemma frames_advance id code : frames same_description (advance id code).
Proof.
  unfold advance, record_result, add_failure.
  walk_sc ltac:(first [apply frames_next | progress unfold enter_state, run_support_cmd, make_timeout, finish_scenario]).
Qed.

Lemma same_descs_on_scenario {A} p (m : ScM A) : frames same_description m -> frames same_descs (on_scenario p m).
Proof.
  intros Hm w a w' (s & w1 & Hs & Hrun)%bind_Done.
  assert (w1 = w /\ m_heap w !! p = Some s) as [-> Hp].
  { unfold deref in Hs. apply bind_Done in Hs as (o & w2 & [= <- <-] & Hu).
    destruct (m_heap w !! p); simpl in Hu; [|done]. by injection Hu as <- <-. }
  destruct (m _) as [[a' sw]| |] eqn:Hsw; [|done|done]. injection Hrun as _ <-. apply Hm in Hsw.
  transitivity (w <| m_heap ::= <[p := w_sc sw]> |>); [by eapply frame_heap|done].
Qed.

(** No message changes what a unit is loaded with. *)
Lemma same_descs_message e : frames same_descs (process_message depth e).
Proof.
  destruct (plain_event e) eqn:Hp; [by apply frames_plain_event; [exact _|]|]. destruct e as [| | | |msg| | |]; try done.
  simpl in Hp. simpl. unfold manager_request. destruct (cm_contents _); try done.
  all: walk_manager ltac:(first [ apply frames_select_unit; exact _ | apply frames_activate_unit; exact _
    | apply frames_broadcast_selected_scenario; exact _ | apply frames_broadcast_messages; exact _
    | apply frames_current_scenario_id; exact _ | apply same_descs_on_scenario, frames_advance
    | progress unfold get_scenario_named, broadcast_message ]).
Qed.

End manager.
