(* ===== verification/ManagerTheorems.v ===== *)
(** * What the manager guarantees, and where it stops

    The operations that the library calls on the manager are the steps of a
    machine.  From a new manager on, every step that meets its condition ends
    normally, at most one scenario and one jig are selected, and what is active
    is selected.  Outside the conditions the code panics, or goes on with a
    unit that is active but not selected; each case is a theorem. *)

From S2P Require Import Prelude Str Path Unit Foreign Config Events Env Samples Descriptions Interface Trigger Logger Jig Test Scenario ScenarioProps ScenarioTheorems Manager ManagerProps ManagerSafety.

Section manager.
Context `{Libraries} `{DependyLib} `{Env}.
Context (depth program_lines : nat).
Implicit Types w : Manager.

(** ** The machine *)

Inductive ManagerOp :=
  | OpLoadInterface (d : InterfaceDescription)
  | OpLoadLogger (d : LoggerDescription)
  | OpLoadTrigger (d : TriggerDescription)
  | OpLoadTest (d : TestDescription)
  | OpLoadJig (d : JigDescription)
  | OpLoadScenario (d : ScenarioDescription)
  | OpUnload (id : UnitName)
  | OpSelect (id : UnitName)
  | OpActivate (id : UnitName)
  | OpDeselect (id : UnitName) (reason : string)
  | OpDeactivate (id : UnitName) (reason : string)
  | OpRefresh
  | OpMessage (e : UnitEvent).

Definition discard {A} (m : MM A) : MM unit := m ≫= fun _ => mret tt.

Definition run_op (op : ManagerOp) : MM unit :=
  match op with
  | OpLoadInterface d => discard (load_interface depth d)
  | OpLoadLogger d => discard (load_logger depth d)
  | OpLoadTrigger d => discard (load_trigger depth d)
  | OpLoadTest d => discard (load_test depth d)
  | OpLoadJig d => discard (load_jig depth program_lines d)
  | OpLoadScenario d => discard (load_scenario depth d)
  | OpUnload id => unload depth id
  | OpSelect id => select depth id
  | OpActivate id => activate depth id
  | OpDeselect id reason => deselect depth id reason
  | OpDeactivate id reason => deactivate id reason
  | OpRefresh => refresh_defaults depth
  | OpMessage e => process_message depth e
  end.

(** The condition of a step: descriptions name units of their kinds, interfaces
    speak text, test programs end, scenarios can be run, requests are served. *)
Definition op_ok w (op : ManagerOp) : Prop :=
  match op with
  | OpLoadInterface d => un_kind (id_id d) = UnitKind.Interface /\ id_format d = Text
  | OpLoadLogger d => un_kind (ld_id d) = UnitKind.Logger
  | OpLoadTrigger d => un_kind (rd_id d) = UnitKind.Trigger
  | OpLoadTest d => un_kind (td_id d) = UnitKind.Test
  | OpLoadJig d =>
    un_kind (jd_id d) = UnitKind.Jig /\
    (forall n, jd_default_scenario d = Some n -> un_kind n = UnitKind.Scenario) /\
    probe_ends program_lines d
  | OpLoadScenario d => scenario_loadable w d
  | OpMessage e => event_ok w e
  | _ => True
  end.

Inductive reachable : Manager -> Prop :=
  | reach_new i : reachable (manager_new i)
  | reach_op w op w' : reachable w -> op_ok w op -> run_op op w = Done (tt, w') -> reachable w'.

Section safe.
Context `{!EnvLaws} `{!DependyLaws} (depth_enough : 4 <= depth).

Lemma manager_new_inv i : mgr_inv (manager_new i).
Proof.
  by split; [split; [split|split|split|..]|..].
Qed.

Lemma rt_discard {A} w (m : MM A) P :
  runs_to preserves w m (fun _ w' => mgr_inv w' /\ P w') -> runs_to preserves w (discard m) (fun _ w' => mgr_inv w').
Proof. intros Hm. unfold discard. rt_bind _; [exact Hm|]. intros ? w' _ [Hw' _]. by rt_ret. Qed.

Lemma rt_steady_inv {A} w (m : MM A) Q : mgr_inv w ->
  runs_to steady w m Q -> runs_to preserves w m (fun _ w' => mgr_inv w').
Proof. intros Hinv Hm. eapply rt_conseq; [apply rt_preserves, Hm|done|]. intros ? ? Hp _. by apply Hp. Qed.

Lemma run_op_inv w op : mgr_inv w -> op_ok w op ->
  exists w', run_op op w = Done (tt, w') /\ mgr_inv w'.
Proof.
  intros Hinv Hok. pose proof (mi_wf w Hinv) as Hwf.
  enough (runs_to preserves w (run_op op) (fun _ w' => mgr_inv w')) as ([] & w' & Hrun & _ & Hw')
    by (by exists w').
  destruct op; simpl in Hok |- *.
  - destruct Hok. eapply rt_discard; by apply load_interface_run.
  - eapply rt_discard; by apply load_logger_run.
  - eapply rt_discard; by apply load_trigger_run.
  - eapply rt_discard; by apply load_test_run.
  - destruct Hok as (? & ? & ?). eapply rt_discard; by apply load_jig_run.
  - eapply rt_discard; by apply load_scenario_run.
  - eapply rt_conseq; [by apply unload_run|done|by intros ? ? _ [? _]].
  - eapply rt_steady_inv; [done|by apply select_steady].
  - eapply rt_steady_inv; [done|by apply activate_steady].
  - eapply rt_steady_inv; [done|by apply deselect_steady].
  - eapply rt_steady_inv; [done|by apply deactivate_steady].
  - eapply rt_steady_inv; [done|by apply refresh_defaults_steady].
  - eapply rt_steady_inv; [done|by apply process_message_run].
Qed.

Lemma reachable_inv w : reachable w -> mgr_inv w.
Proof.
  induction 1 as [i|w op w' _ IH Hok Hrun]; [apply manager_new_inv|].
  destruct (run_op_inv w op IH Hok) as (w1 & Hrun1 & Hinv). rewrite Hrun in Hrun1. by injection Hrun1 as ->.
Qed.

(** (C14) The manager never panics on its operations: after any sequence of
    operations that meet their conditions, the next one that does ends
    normally, within four nested calls of [select] and [deselect], and the
    manager is still well-formed, with every loaded scenario ready to be
    advanced. *)
Theorem manager_never_panics w op : reachable w -> op_ok w op ->
  exists w', run_op op w = Done (tt, w') /\ reachable w' /\ mgr_wf w' /\ scenarios_ok w'.
Proof.
  intros Hr Hok. destruct (run_op_inv w op (reachable_inv w Hr) Hok) as (w' & Hrun & Hinv).
  exists w'. split_and!; [done|by eapply reach_op|apply Hinv|apply Hinv].
Qed.

Lemma selected_jig_unique w id1 id2 : inv_jigs w ->
  id1 ∈ m_selected w -> id2 ∈ m_selected w -> un_kind id1 = UnitKind.Jig -> un_kind id2 = UnitKind.Jig ->
  id1 = id2.
Proof.
  intros Hinv H1' H2' Hk1 Hk2.
  destruct (ij_selected w Hinv id1 H1' Hk1) as (j & Hj & <-).
  destruct (ij_selected w Hinv id2 H2' Hk2) as (j' & Hj' & <-). congruence.
Qed.

(** (C17) At every point of a run at most one scenario and at most one jig are
    selected; a jig, scenario or test that is active is selected, and one that
    is selected is loaded. *)
Theorem selection_exclusive w id1 id2 : reachable w ->
  un_kind id1 = un_kind id2 ->
  un_kind id1 = UnitKind.Jig \/ un_kind id1 = UnitKind.Scenario \/ un_kind id1 = UnitKind.Test ->
  (id1 ∈ m_active w -> id1 ∈ m_selected w) /\
  (id1 ∈ m_selected w ->
     is_Some (m_jigs w !! id1) \/ is_Some (m_scenarios w !! id1) \/ is_Some (m_tests w !! id1)) /\
  (un_kind id1 <> UnitKind.Test -> id1 ∈ m_selected w -> id2 ∈ m_selected w -> id1 = id2).
Proof.
  intros Hr Hk Hkind. destruct (mi_wf w (reachable_inv w Hr)) as [Hs Hj Ht _ _].
  destruct Hkind as [Hk1|[Hk1|Hk1]]; (split_and!; [intros Ha|intros Hsel|intros Hne Hs1 Hs2]); try done.
  - by apply Hj.
  - left. destruct (ij_selected w Hj id1 Hsel Hk1) as (j & Hc & <-).
    destruct (ij_current w Hj j Hc) as [Hl _]. by exists j.
  - eapply selected_jig_unique; [exact Hj|done..|congruence].
  - by apply Hs.
  - right; left. destruct (is_selected w Hs id1 Hsel Hk1) as (p & _ & Hl). by exists p.
  - eapply selected_scenario_unique; [exact Hs|done..|congruence].
  - by apply Ht.
  - right; right. by apply Ht.
Qed.

(** Selecting a loaded scenario switches to it: it becomes the current
    scenario, and no other scenario stays selected or active. *)
Theorem select_scenario_switches w id p : reachable w -> un_kind id = UnitKind.Scenario ->
  m_scenarios w !! id = Some p ->
  exists w', select depth id w = Done (tt, w') /\ m_current_scenario w' = Some p /\
    id ∈ m_selected w' /\
    forall other, un_kind other = UnitKind.Scenario -> other <> id ->
      other ∉ m_selected w' /\ other ∉ m_active w'.
Proof.
  intros Hr Hk Hp. destruct (mi_wf w (reachable_inv w Hr)) as [Hs Hj Ht Hcs Hcj].
  destruct depth as [|[|[|[|fuel]]]] eqn:Hd; try lia.
  destruct (select_scenario_run (S fuel) id w Hk Hs Ht Hcs) as (w' & Hrun & Hst & Hin).
  assert (id ∈ m_selected w') as Hsel by (apply Hin; by exists p).
  pose proof (sc_inv _ _ Hst) as Hs'. exists w'. split; [done|].
  destruct (is_selected w' Hs' id Hsel Hk) as (q & Hq & Hl).
  rewrite (sc_loaded _ _ Hst), Hp in Hl. injection Hl as <-. split_and!; [done|done|].
  assert (forall other, un_kind other = UnitKind.Scenario -> other <> id -> other ∉ m_selected w') as Hno.
  { intros other Hko Hne Hso. apply Hne. by eapply (selected_scenario_unique w'). }
  intros other Hko Hne. split; [by apply Hno|]. intros Ha. by apply (Hno other), Hs'.
Qed.
End safe.

(** ** Where it stops *)

(** (C39) The end of a scenario that is still active stops the manager: the
    handler keeps the cell of the current scenario borrowed while it
    deactivates the scenario, which borrows it again for writing.  This is the
    case when the scenario was started again before its end was handled. *)
Theorem scenario_finished_panics w sender code text p s :
  m_cs_borrow w = Unborrowed -> m_current_scenario w = Some p -> m_heap w !! p = Some s ->
  un_kind (sc_id s) = UnitKind.Scenario -> sc_id s ∈ m_active w ->
  process_message depth (Event.ManagerRequest (mkCtrl sender (Ctrl.ScenarioFinished code text))) w
    = Panic "already borrowed: BorrowMutError".
Proof.
  intros Hb Hp Hs Hk Ha. cbv beta iota delta [process_message manager_request cm_sender cm_contents].
  unfold mbind at 1, M_bind at 1.
  unfold with_current_scenario, borrow. rewrite Hb. set (inner := _ ≫= _).
  assert (inner (put_cs (Reading 1) w) = Panic "already borrowed: BorrowMutError") as ->; [|done].
  transitivity ((deref p ≫= fun s => deactivate (sc_id s) text) (put_cs (Reading 1) w)).
  { unfold inner, gets. unfold mbind at 1, M_bind at 1. cbn [m_current_scenario put_cs set_with].
    by rewrite Hp. }
  rewrite (deref_bind p s) by done. unfold deactivate, gets, mbind, M_bind.
  rewrite bool_decide_eq_false_2 by (simpl; intros Hna; by apply Hna).
  by rewrite Hk.
Qed.

(** A request from an interface that is no longer loaded stops the
    manager, when it asks for the jig, the scenarios or a greeting. *)
Theorem unloaded_interface_panics w sender c :
  un_kind sender = UnitKind.Interface -> m_interfaces w !! sender = None ->
  m_cj_borrow w = Unborrowed -> c = Ctrl.Jig \/ c = Ctrl.InitialGreeting ->
  process_message depth (Event.ManagerRequest (mkCtrl sender c)) w
    = Panic "Unable to find Interface in the library".
Proof.
  intros Hk Hno Hb Hc.
  assert (forall ms w', m_interfaces w' !! sender = None ->
    send_messages_to sender ms w' = Panic "Unable to find Interface in the library") as Hsend.
  { intros ms w' Hn. unfold send_messages_to, gets, mbind, M_bind. by rewrite Hk, Hn. }
  destruct Hc as [->| ->]; cbv beta iota delta [process_message manager_request cm_sender cm_contents].
  - unfold send_jig_to. unfold mbind at 1, M_bind at 1. unfold with_current_jig, borrow. rewrite Hb.
    unfold gets at 1. unfold mbind at 1, M_bind at 1. apply Hsend. done.
  - unfold send_hello_to. unfold mbind at 1, M_bind at 1. by rewrite Hsend.
Qed.

Lemma output_log_panics {A} (output : A -> ManagerStatusMessage -> M IO (result ForeignError unit))
    what log msg l id u : (id, u) ∈ l -> (forall i, output u (Status.Log log) i = Panic msg) ->
  (forall id' u', (id', u') ∈ l ->
     io_total (output u' (Status.Log log)) \/ forall i, output u' (Status.Log log) i = Panic msg) ->
  forall i, output_log output what log l i = Panic msg.
Proof.
  intros Hin Hu Hall. induction l as [|[id' u'] l IH]; [by apply not_elem_of_nil in Hin|].
  intros i. simpl. unfold mbind at 1, M_bind at 1.
  destruct (Hall id' u') as [Ht|Hp]; [by left|..]; [|by rewrite Hp].
  destruct (Ht i) as (r & i1 & Hi). rewrite Hi. unfold mbind at 1, M_bind at 1.
  apply elem_of_cons in Hin as [[= -> ->]|Hin]; [by rewrite Hu in Hi|].
  rewrite IH; [done|done|]. intros id2 u2 H2. apply (Hall id2). by right.
Qed.

(** An interface whose format is JSON stops the manager at the first log
    entry: writing to it is not implemented. *)
Theorem json_interface_stops_manager `{!EnvLaws} w id i log :
  m_interfaces w !! id = Some i -> id_format (if_desc i) = JSON ->
  process_message depth (Event.Log log) w = Panic "not yet implemented".
Proof.
  intros Hi Hf. cbv beta iota delta [process_message].
  destruct (rt_iter_map (m_interfaces w) w) as (l & w1 & Hrun & _ & Hl).
  rewrite gets_step, (bind_step _ _ _ _ _ Hrun). apply bind_panics. unfold io, zoom.
  rewrite (output_log_panics _ _ _ "not yet implemented" l id i); [done|by apply Hl|..].
  - intros io0. unfold interface_output_message. by rewrite Hf.
  - intros id' i' _. destruct (id_format (if_desc i')) eqn:Hf'.
    + left. by apply interface_output_total.
    + right. intros io0. unfold interface_output_message. by rewrite Hf'.
Qed.

(** The process of an interface that does not stop well is forgotten. *)
Lemma deactivate_failed w id reason i pid : un_kind id = UnitKind.Interface ->
  m_interfaces w !! id = Some i -> if_process i = Some pid -> id ∈ m_active w ->
  (forall n, env_terminate n (if_id i) <> Ok 0%Z) ->
  exists io', deactivate id reason w =
    Done (tt, w <| m_interfaces ::= <[id := i <| if_process := None |>]> |> <| m_io := io' |>).
Proof.
  intros Hk Hi Hp Ha Ht. unfold deactivate, gets. unfold mbind at 1, M_bind at 1.
  rewrite bool_decide_eq_false_2 by (intros Hna; by apply Hna). rewrite Hk.
  unfold deactivate_interface, io, zoom, gets, interface_deactivate, terminate_child, emit, ask, modify, mbind, M_bind.
  rewrite Hi. cbn -[set_with]. rewrite Hp. cbn -[set_with].
  destruct (env_terminate _ _) as [z|e] eqn:Hz; [|by eexists].
  destruct (Z.eqb_spec z 0) as [->|Hne]; [by apply Ht in Hz|by eexists].
Qed.

(** (C40) An interface whose process does not stop with 0 leaves the selection
    but stays active, although its process is gone; after that, activating it
    starts nothing. *)
Theorem failed_stop_leaves_active w id reason i pid : 1 <= depth ->
  un_kind id = UnitKind.Interface -> m_interfaces w !! id = Some i -> if_process i = Some pid ->
  id ∈ m_selected w -> id ∈ m_active w -> (forall n, env_terminate n (if_id i) <> Ok 0%Z) ->
  exists w' w'' i', deselect depth id reason w = Done (tt, w') /\
    id ∉ m_selected w' /\ id ∈ m_active w' /\
    activate depth id w' = Done (tt, w'') /\
    m_interfaces w'' !! id = Some i' /\ if_process i' = None.
Proof.
  intros Hd Hk Hi Hp Hs Ha Ht. destruct depth as [|fuel]; [lia|].
  destruct (deactivate_failed w id "unit is being deselcted" i pid Hk Hi Hp Ha Ht) as (io' & Hdea).
  destruct (deselect_selected fuel id reason w _
    (w <| m_interfaces ::= <[id := i <| if_process := None |>]> |> <| m_io := io' |>) Hdea) as (io2 & Hdes); [done| |].
  { unfold deselect_kind. rewrite Hk. unfold deselect_plain, gets, mbind, M_bind. simpl.
    by rewrite lookup_insert_eq. }
  revert Hdes. match goal with |- _ = Done (_, ?x) -> _ => set (w' := x) end. intros Hdes.
  assert (m_interfaces w' !! id = Some (i <| if_process := None |>)) as Hi'
    by (subst w'; simpl; by rewrite lookup_insert_eq).
  destruct (select_unselected fuel id w' (Ok tt) w') as (io3 & Hsel).
  { subst w'. simpl. set_solver. }
  { unfold select_kind. rewrite Hk. unfold select_plain, gets, mbind, M_bind. by rewrite Hi'. }
  eexists w', _, (i <| if_process := None |>). split; [exact Hdes|].
  split; [subst w'; simpl; set_solver|]. split; [exact Ha|]. split; [|split; [|done]].
  - unfold activate. rewrite (bind_step _ _ _ _ _ Hsel).
    by rewrite gets_step, bool_decide_eq_true_2 by exact Ha.
  - exact Hi'.
Qed.
End manager.

Module SampleManager.

#[export] Instance libs : Libraries := sample_libraries.
#[export] Existing Instance sample_dependy.
#[export] Existing Instance sample_dependy_laws.
#[export] Existing Instance sample_env.

Definition laws : @EnvLaws sample_env := env_with_laws _ _.
#[export] Existing Instance laws.

Definition a : UnitName := mkName "a" UnitKind.Test.
Definition s1 : UnitName := mkName "s1" UnitKind.Scenario.
Definition s2 : UnitName := mkName "s2" UnitKind.Scenario.
Definition gui : UnitName := mkName "gui" UnitKind.Interface.

Definition test_desc : TestDescription :=
  mkTestDescription a "" "" [] [] [] [] None None None Simple None "true" None None None "/units".
Definition scenario_desc (n : UnitName) : ScenarioDescription :=
  mkScenarioDescription n "" "" [] [a] [] None None "/units" None None None None None None None.
Definition gui_desc (format : InterfaceFormat) : InterfaceDescription :=
  mkInterfaceDescription gui "" "" [] "./gui" format None "/units".

(** The state after some operations. *)
Definition after (op : ManagerOp) (w : Manager) : Manager :=
  match run_op 4 0 op w with Done (_, w') => w' | _ => w end.

Lemma reach_after w op : reachable 4 0 w -> op_ok 0 w op -> reachable 4 0 (after op w).
Proof.
  intros Hr Hok.
  destruct (run_op_inv 4 0 ltac:(lia) w op (reachable_inv 4 0 ltac:(lia) w Hr) Hok) as (w' & Hrun & _).
  unfold after. rewrite Hrun. by eapply reach_op.
Qed.

Definition w0 : Manager := manager_new (mkIO config_new 0 []).
Definition w1 : Manager := after (OpLoadTest test_desc) w0.
Definition w2 : Manager := after (OpLoadScenario (scenario_desc s1)) w1.
Definition w3 : Manager := after (OpLoadScenario (scenario_desc s2)) w2.
Definition w4 : Manager := after (OpActivate s1) w3.

Lemma w1_scenario n : un_kind n = UnitKind.Scenario -> op_ok 0 w1 (OpLoadScenario (scenario_desc n)).
Proof.
  intros Hk. split; [done|done| | |by left].
  - exists a. split; [by left|]. apply not_elem_of_nil.
  - apply Z.leb_le. vm_compute. reflexivity.
Qed.

Lemma w1_reachable : reachable 4 0 w1.
Proof. apply reach_after; [apply reach_new|done]. Qed.

Lemma w3_reachable : reachable 4 0 w3.
Proof.
  apply reach_after; [apply reach_after; [apply w1_reachable|by apply w1_scenario]|].
  split; [done|done| | |by left].
  - exists a. split; [by left|]. apply not_elem_of_nil.
  - apply Z.leb_le. vm_compute. reflexivity.
Qed.

Lemma w4_reachable : reachable 4 0 w4.
Proof. by apply reach_after; [apply w3_reachable|]. Qed.

Lemma manager_never_panics_witness :
  exists w', run_op 4 0 (OpMessage (Event.ManagerRequest (mkCtrl s1 (Ctrl.AdvanceScenario 0)))) w4 = Done (tt, w').
Proof.
  destruct (manager_never_panics 4 0 ltac:(lia) w4
    (OpMessage (Event.ManagerRequest (mkCtrl s1 (Ctrl.AdvanceScenario 0))))) as (w' & Hrun & _).
  - apply w4_reachable.
  - split; [done|]. intros code text Hc. discriminate Hc.
  - exact (ex_intro _ w' Hrun).
Defined.

Lemma selection_exclusive_witness : s1 ∈ m_selected w4 /\ (s2 ∈ m_selected w4 -> s1 = s2).
Proof.
  assert (s1 ∈ m_selected w4) as Hs by (refine (bool_decide_eq_true_1 (s1 ∈ m_selected w4) _); vm_compute; reflexivity).
  destruct (selection_exclusive 4 0 ltac:(lia) w4 s1 s2) as (_ & _ & Huniq).
  - apply w4_reachable.
  - reflexivity.
  - right; left; reflexivity.
  - split; [exact Hs|]. intros H2. apply Huniq; [discriminate|exact Hs|exact H2].
Defined.

Lemma select_scenario_switches_witness :
  exists w', select 4 s2 w4 = Done (tt, w') /\ s1 ∉ m_selected w'.
Proof.
  assert (exists p, m_scenarios w4 !! s2 = Some p) as [p Hp].
  { refine (bool_decide_eq_true_1 (is_Some (m_scenarios w4 !! s2)) _). vm_compute. reflexivity. }
  destruct (select_scenario_switches 4 0 ltac:(lia) w4 s2 p) as (w' & Hrun & _ & _ & Hother).
  - apply w4_reachable.
  - reflexivity.
  - exact Hp.
  - exists w'. split; [exact Hrun|]. apply Hother; [reflexivity|discriminate].
Defined.

(** The scenario was started, and is still active. *)
Lemma scenario_finished_panics_witness :
  process_message 4 (Event.ManagerRequest (mkCtrl s1 (Ctrl.ScenarioFinished 200 "done"))) w4
    = Panic "already borrowed: BorrowMutError".
Proof.
  pose proof (mi_wf _ (reachable_inv 4 0 ltac:(lia) w4 w4_reachable)) as [Hs _ _ Hcs _].
  assert (s1 ∈ m_selected w4) as Hsel
    by (refine (bool_decide_eq_true_1 (s1 ∈ m_selected w4) _); vm_compute; reflexivity).
  assert (s1 ∈ m_active w4) as Hact
    by (refine (bool_decide_eq_true_1 (s1 ∈ m_active w4) _); vm_compute; reflexivity).
  destruct (is_selected w4 Hs s1 Hsel eq_refl) as (p & Hp & Hl).
  destruct (is_heap w4 Hs s1 p Hl) as (_ & s & Hheap & Hid & _).
  apply (scenario_finished_panics 4 w4 s1 200 "done" p s Hcs Hp Hheap).
  - rewrite Hid. reflexivity.
  - rewrite Hid. exact Hact.
Defined.

Lemma unloaded_interface_panics_witness :
  process_message 4 (Event.ManagerRequest (mkCtrl gui Ctrl.Jig)) w4
    = Panic "Unable to find Interface in the library".
Proof.
  apply (unloaded_interface_panics 4 w4 gui Ctrl.Jig); [reflexivity|vm_compute; reflexivity|vm_compute; reflexivity|].
  left. reflexivity.
Defined.

Definition w_gui (format : InterfaceFormat) : Manager :=
  w0 <| m_interfaces := {[ gui := mkInterface (gui_desc format) (Some 0) 5 ]} |>
     <| m_selected := {[ gui ]} |> <| m_active := {[ gui ]} |>.

Lemma json_interface_stops_manager_witness :
  process_message 4 (Event.Log (new_info None gui "hello")) (w_gui JSON) = Panic "not yet implemented".
Proof.
  apply (json_interface_stops_manager 4 (w_gui JSON) gui (mkInterface (gui_desc JSON) (Some 0) 5));
    [vm_compute; reflexivity|reflexivity].
Defined.

(** A process that returns 1 when it is stopped. *)
Lemma failed_stop_leaves_active_witness : exists w' : Manager,
  @deselect libs (env_with (fun _ => true) 1) 4 gui "test" (w_gui Text) = Done (tt, w') /\ gui ∈ m_active w'.
Proof.
  destruct (@failed_stop_leaves_active libs (env_with (fun _ => true) 1) 4 (w_gui Text) gui "test"
    (mkInterface (gui_desc Text) (Some 0) 5) 0) as (w' & w'' & i' & Hrun & _ & Ha & _).
  - lia.
  - reflexivity.
  - vm_compute. reflexivity.
  - reflexivity.
  - apply elem_of_singleton. reflexivity.
  - apply elem_of_singleton. reflexivity.
  - intros n Hn. discriminate Hn.
  - exact (ex_intro _ w' (conj Hrun Ha)).
Defined.

End SampleManager.
