(* ===== verification/Session.v ===== *)
(** * The manager runs the current scenario

    While a scenario is current the manager handles its [AdvanceScenario]
    messages by steps of the scenario's machine, and every other message leaves
    the scenario alone, but for the requests that choose another one. *)

From S2P Require Import Prelude Str Path Unit Foreign Config Events Env Samples Descriptions Interface Trigger Logger Jig Test Scenario ScenarioProps ScenarioTheorems Manager ManagerProps ManagerSafety ManagerFrames ManagerTheorems.

Section session.
Context `{Libraries} `{DependyLib} `{Env} `{!EnvLaws} `{!DependyLaws}.
Context (depth program_lines : nat) (depth_enough : 4 <= depth).
Implicit Types w : Manager.

(** The scenario is still current and as it was; no test was started and no end
    announced. *)
Record stutters w w' : Prop := {
  su_current : m_current_scenario w' = m_current_scenario w;
  su_heap : m_heap w' = m_heap w;
  su_io : grows_loudly (m_io w) (m_io w');
}.

#[export] Instance stutters_preorder : PreOrder stutters.
Proof.
  split; [by split|]. intros w1 w2 w3 [C1 H1' I1] [C2 H2' I2]. split; [congruence|congruence|by transitivity (m_io w2)].
Qed.

#[export] Instance stutters_frame : Frame stutters.
Proof. split; [exact _|..]; intros; split; try done. by apply grows_loud. Qed.

#[export] Instance stutters_activate : FrameActivate stutters.
Proof. split; [exact _|..]; intros; by split. Qed.

(** The messages of a session: all but those that choose a scenario or a jig; a
    scenario may be asked to start while one runs. *)
Definition session_event w (e : UnitEvent) : bool :=
  match e with
  | Event.ManagerRequest msg =>
    match cm_contents msg with
    | Ctrl.AdvanceScenario _ => true
    | Ctrl.StartScenario _ => running_now w
    | Ctrl.StartTest n => bool_decide (un_kind n = UnitKind.Test)
    | c => plain_request c
    end
  | _ => true
  end.

Definition advance_message (e : UnitEvent) : bool :=
  match e with
  | Event.ManagerRequest msg => match cm_contents msg with Ctrl.AdvanceScenario _ => true | _ => false end
  | _ => false
  end.

Definition advance_count (es : list UnitEvent) : nat := length (filter (fun e => advance_message e = true) es).

(** The messages are handled one after the other. *)
Inductive session : Manager -> list UnitEvent -> Manager -> Prop :=
  | session_nil w : session w [] w
  | session_cons w e w1 es w2 : event_ok w e -> session_event w e = true ->
      process_message depth e w = Done (tt, w1) -> session w1 es w2 -> session w (e :: es) w2.

(** Any other message than an [AdvanceScenario] stutters. *)
Lemma session_stutters w e w' : mgr_inv w -> session_event w e = true -> advance_message e = false ->
  process_message depth e w = Done (tt, w') -> stutters w w'.
Proof.
  intros Hinv Hs Ha Hrun. destruct (plain_event e) eqn:Hp; [by apply (frames_plain_event stutters depth e Hp w tt)|].
  destruct e as [| | | | | | |]; try done. simpl in Hs, Ha, Hp, Hrun. unfold manager_request in Hrun.
  destruct (cm_contents _) eqn:Hc; try done; try (simpl in *; congruence).
  2: { revert Hrun. apply (frames_activate_test_unit stutters). by apply bool_decide_eq_true in Hs. }
  fold is_busy in Hrun. rewrite (bind_step _ _ _ _ _ (is_busy_run w (mi_wf w Hinv))), Hs in Hrun.
  revert Hrun. apply (frames_log_error stutters); exact _.
Qed.

(** The same tests started and the same ends announced. *)
Definition tells_as (os os' : list Out) : Prop := started os' = started os /\ finishes os' = finishes os.

Lemma tells_unheard os : Forall unheard os -> tells_as [] os.
Proof. intros [Hs Hf]%unheard_out. by split. Qed.

Lemma tells_app os1 os2 os1' os2' : tells_as os1 os1' -> tells_as os2 os2' -> tells_as (os1 ++ os2) (os1' ++ os2').
Proof.
  intros [S1 F1] [S2 F2]. unfold tells_as. rewrite !started_app, !finishes_app. by rewrite S1, S2, F1, F2.
Qed.

(** What a session does to the scenario: it ran some steps. *)
Record ran p s n w w' : Prop := {
  rn_current : m_current_scenario w' = Some p;
  rn_state : exists s' os os', m_heap w' !! p = Some s' /\ runs s n s' os /\
    io_out (m_io w') = io_out (m_io w) ++ os' /\ tells_as os os';
}.

Lemma manager_message_inv e w w' : mgr_inv w -> event_ok w e -> process_message depth e w = Done (tt, w') -> mgr_inv w'.
Proof.
  intros Hinv Hok Hrun. destruct (process_message_run depth depth_enough e w Hinv Hok) as ([] & w1 & Hrun1 & Hst & _).
  rewrite Hrun in Hrun1. injection Hrun1 as ->. by apply (steady_preserves _ _ Hst).
Qed.

(** One message is a step of the scenario or none. *)
Lemma message_ran w e w' p s : mgr_inv w -> session_event w e = true ->
  m_current_scenario w = Some p -> m_heap w !! p = Some s -> process_message depth e w = Done (tt, w') ->
  ran p s (if advance_message e then 1 else 0) w w'.
Proof.
  intros Hinv Hev Hp Hs Hrun. destruct (advance_message e) eqn:Ha.
  - assert (exists id code, e = Event.ManagerRequest (mkCtrl id (Ctrl.AdvanceScenario code))) as (id & code & ->).
    { destruct e as [| | | | | | |]; try done. match goal with m : ManagerControlMessage |- _ => destruct m as [id []] end.
      all: try done. by eexists _, _. }
    destruct (advance_request_step depth id code w p s Hinv Hp Hs) as (s' & tick & os & Hadv & Hreq & _).
    simpl in Hrun. simpl in Hreq. rewrite Hrun in Hreq. injection Hreq as ->.
    split; [done|]. exists s', (os ++ []), os. simpl. rewrite lookup_insert_eq. split_and!; [done| |done|].
    + econstructor; [exact Hadv|constructor].
    + by rewrite app_nil_r.
  - apply session_stutters in Hrun as [C Hh (os & Ho & Hsil)]; [|done..]. split; [by rewrite C|].
    exists s, [], os. rewrite Hh. split_and!; [done|constructor|done|by apply tells_unheard].
Qed.

Lemma runs_trans s n s1 os1 m s2 os2 : runs s n s1 os1 -> runs s1 m s2 os2 -> runs s (n + m) s2 (os1 ++ os2).
Proof.
  induction 1 as [|s s1 n s3 os os3 Ha Hr IH]; intros H2'; [done|]. simpl. rewrite <- app_assoc.
  econstructor; [done|by apply IH].
Qed.

Lemma session_ran w es w' : session w es w' -> mgr_inv w -> forall p s,
  m_current_scenario w = Some p -> m_heap w !! p = Some s -> ran p s (advance_count es) w w'.
Proof.
  induction 1 as [w|w e w1 es w2 Hok Hev Hrun Hses IH]; intros Hinv p s Hp Hs.
  { split; [done|]. exists s, [], []. rewrite app_nil_r. by split_and!; [|constructor| |]. }
  destruct (message_ran w e w1 p s Hinv Hev Hp Hs Hrun) as [C1 (s1 & os1 & os1' & Hs1 & R1 & O1 & T1)].
  destruct (IH (manager_message_inv _ _ _ Hinv Hok Hrun) p s1 C1 Hs1) as [C2 (s2 & os2 & os2' & Hs2 & R2 & O2 & T2)].
  split; [done|]. exists s2, (os1 ++ os2), (os1' ++ os2'). split_and!; [done| | |by apply tells_app].
  - assert (advance_count (e :: es) = (if advance_message e then 1 else 0) + advance_count es) as ->; [|by eapply runs_trans].
    unfold advance_count. rewrite filter_cons. by destruct (advance_message e).
  - by rewrite O2, O1, app_assoc.
Qed.

(** (C11) The manager runs the machine of the current scenario: take a session,
    messages among which none chooses a scenario or a jig, none asks a scenario to
    start while none runs, none asks something to start that is not a test, and
    each can be served ([event_ok]).  Whatever messages of units, interfaces and
    loggers come in between, the scenario makes one step for each
    [AdvanceScenario] and none for any other message.  What the manager tells of
    it is what its steps tell: the tests it asks to start and the ends it
    announces.  From the idle state each test is started at most once, in the
    order of the sequence, and enough messages finish it. *)
Theorem manager_runs_scenario w es w' p s : reachable depth program_lines w -> session w es w' ->
  m_current_scenario w = Some p -> m_heap w !! p = Some s ->
  exists s' os os', m_current_scenario w' = Some p /\ m_heap w' !! p = Some s' /\
    runs s (advance_count es) s' os /\ io_out (m_io w') = io_out (m_io w) ++ os' /\
    started os' = started os /\ finishes os' = finishes os /\
    (sc_state s = ScenarioState.Idle ->
       started os' `sublist_of` test_sequence s /\ NoDup (started os') /\
       (length (sc_test_sequence s) + 3 <= advance_count es -> sc_state s' = ScenarioState.ScenarioFinished)).
Proof.
  intros Hr Hses Hp Hs. pose proof (reachable_inv depth program_lines depth_enough w Hr) as Hinv.
  destruct (mi_ok w Hinv p s Hs) as [Hwf _].
  destruct (session_ran w es w' Hses Hinv p s Hp Hs) as [C (s' & os & os' & Hs' & R & O & St & F)].
  exists s', os, os'. split_and!; try done. intros Hidle.
  pose proof (runs_started _ _ _ _ R Hwf) as Hsub. rewrite Hidle in Hsub. simpl in Hsub. rewrite drop_0 in Hsub.
  assert (started os' `sublist_of` test_sequence s) as Hsub'
    by (rewrite St; etrans; [exact Hsub|apply sublist_take]).
  split_and!; [done| |by intros; eapply runs_finish].
  eapply sublist_NoDup; [|exact Hsub']. apply (st_nodup _ (wf_static _ Hwf)).
Qed.

(** ** A test that can be selected *)

(** The test fits: it is selected, and nothing is sent. *)
Lemma select_fitting w id t : un_kind id = UnitKind.Test -> m_tests w !! id = Some t ->
  is_ok (test_select t (jig_is_loaded w)) = true -> exists w1 os,
  select depth id w = Done (tt, w1) /\ id ∈ m_selected w1 /\ m_tests w1 = m_tests w /\ m_active w1 = m_active w /\
  m_io w1 = mkIO (io_cfg (m_io w)) (io_tick (m_io w)) (io_out (m_io w) ++ os) /\
  sent_msgs os = [] /\ Forall silent os.
Proof.
  intros Hk Hl Hfit. destruct depth as [|n]; [lia|]. cbn [select]. rewrite gets_step. case_bool_decide as Hsel.
  - exists w, []. rewrite app_nil_r. split_and!; try done. by destruct (m_io w).
  - rewrite Hk. destruct (test_select t (jig_is_loaded w)) as [[]|] eqn:He; [|done].
    eexists _, [Broadcast (Event.Status (new_selected id))].
    split; [unfold select_test, gets, mbind, M_bind; rewrite Hl, He; reflexivity|].
    split_and!; try done; [simpl; set_solver|by repeat constructor].
Qed.

(** Activating a test starts its command, or tells that it could not and
    advances the scenario. *)
Lemma test_activate_answers t i : exists t' r tick os,
  test_activate t i = Done ((t', r), mkIO (io_cfg i) tick (io_out i ++ os)) /\ te_desc t' = te_desc t /\
  Forall unheard os /\ tokens os = 1 /\ owned (te_id t) os /\
  (r = Ok tt /\ is_Some (te_program t') /\ te_result t' = None /\
     cm_contents <$> sent_msgs os = [Ctrl.TestStarted] /\
     (exists dir, Spawn (te_id t) (td_exec_start (te_desc t)) (td_timeout (te_desc t)) dir ∈ os) \/
   is_ok r = false /\ exists text, sent_msgs os = mkCtrl (te_id t) <$>
     [Ctrl.TestStarted; Ctrl.LogError text; Ctrl.TestFinished (-3) text; Ctrl.AdvanceScenario (-3)]).
Proof.
  unfold test_activate, start_child, io_send, emit, ask, gets, modify, mbind, M_bind. simpl.
  destruct (env_start _ _ _ _) as [[]|e] eqn:He.
  - eexists _, _, _, [Send _; Spawn _ _ _ _]. split; [simpl; rewrite <- app_assoc; reflexivity|]. simpl.
    split_and!; [done|by repeat constructor|done|by repeat (constructor; try (intros ? [= <-]))|].
    left. split_and!; [done|by eexists|done|done|]. eexists. right. by left.
  - eexists _, _, _, [Send _; Send _; Send _; Send _]. split; [simpl; rewrite <- !app_assoc; reflexivity|]. simpl.
    split_and!; [done|by repeat constructor|done|by repeat constructor|].
    right. split; [done|]. by eexists.
Qed.

(** What a request to start a test does, in full. *)
Record start_answered w id t w' t' os : Prop := {
  sa_test : m_tests w' !! id = Some t';
  sa_desc : te_desc t' = te_desc t;
  sa_out : io_out (m_io w') = io_out (m_io w) ++ os;
  sa_active : m_active w' ⊆ {[ id ]} ∪ m_active w;
  sa_unheard : Forall unheard os;
  sa_tokens : tokens os = 1;
  sa_owned : owned id os;
  sa_answer :
    id ∈ m_active w' /\ is_Some (te_program t') /\ te_result t' = None /\
      cm_contents <$> sent_msgs os = [Ctrl.TestStarted] /\
      (exists dir, Spawn id (td_exec_start (te_desc t)) (td_timeout (te_desc t)) dir ∈ os) \/
    id ∉ m_active w' /\ exists text, sent_msgs os = mkCtrl id <$>
      [Ctrl.TestStarted; Ctrl.LogError text; Ctrl.TestFinished (-3) text; Ctrl.AdvanceScenario (-3)];
}.

Lemma start_test_step w id t sender : mgr_inv w ->
  m_tests w !! id = Some t -> is_ok (test_select t (jig_is_loaded w)) = true -> id ∉ m_active w ->
  exists w' t' os, process_message depth (Event.ManagerRequest (mkCtrl sender (Ctrl.StartTest id))) w = Done (tt, w') /\
    start_answered w id t w' t' os.
Proof.
  intros Hinv Hl Hfit Ha. destruct (mi_named w Hinv id t Hl) as [Hid Hk].
  destruct (select_fitting w id t Hk Hl Hfit) as (w1 & os1 & Hsel & Hin & Ht1 & Ha1 & Hio1 & Hos1 & Hs1).
  pose proof (silent_tokens _ Hs1) as Htok1. pose proof (silent_owned id _ Hs1) as Hown1. apply silent_unheard in Hs1.
  unfold process_message, manager_request. cbn [cm_contents]. unfold activate.
  rewrite (bind_step _ _ _ _ _ Hsel), gets_step, bool_decide_eq_false_2 by (rewrite Ha1; auto).
  rewrite gets_step, bool_decide_eq_false_2 by auto. rewrite Hk. unfold activate_test.
  destruct (test_activate_answers t (m_io w1)) as (t' & r & tick & os2 & Hrun & Hd & Hu2 & Htok2 & Hown2 & Hans).
  rewrite <- Ht1 in Hl. unfold gets, mbind, M_bind. rewrite Hl. unfold io at 1, zoom at 1. rewrite Hrun. simpl.
  rewrite Hio1. simpl. unfold te_id in *. rewrite Hid in *.
  assert (forall o, unheard o -> token_of o = 0 -> owner_of o = None -> Forall unheard (os1 ++ os2 ++ [o]) /\
    tokens (os1 ++ os2 ++ [o]) = 1 /\ owned id (os1 ++ os2 ++ [o])) as Hos.
  { intros o Ho1 Ho2 Ho3. rewrite !tokens_app, Htok1, Htok2. unfold tokens, owned in *. simpl. rewrite Ho2.
    rewrite !Forall_app, !Forall_singleton. split_and!; try done. intros n. by rewrite Ho3. }
  destruct Hans as [(-> & Hp & Hres & Hm & dir & Hspawn)|(Hno & text & Hm)].
  - destruct (Hos (Broadcast (Event.Status (new_active id)))) as (? & ? & ?); [by split|done|done|].
    eexists _, t', (os1 ++ os2 ++ [_]). split; [reflexivity|].
    split; simpl; [by rewrite lookup_insert_eq|done|by rewrite !app_assoc|by rewrite Ha1|done|done|done|].
    left. split_and!; [set_solver|done|done| |exists dir; set_solver].
    rewrite !sent_msgs_app, Hos1. simpl. by rewrite app_nil_r.
  - destruct r as [|e]; [done|].
    set (o := Broadcast (Event.Status (new_active_failed id ("unable to activate: " +:+ UnitActivateError_fmt e)))).
    destruct (Hos o) as (? & ? & ?); [by split|done|done|].
    eexists _, t', (os1 ++ os2 ++ [_]). split; [reflexivity|].
    split; simpl; [by rewrite lookup_insert_eq|done|by rewrite !app_assoc|rewrite Ha1; set_solver|done|done|done|].
    right. split; [by rewrite Ha1|]. exists text. rewrite !sent_msgs_app, Hos1. simpl. by rewrite app_nil_r.
Qed.

(** (C20) A request to start a test is answered: when the test is loaded, fits the
    loaded jigs and is not active, either its command is started and the test is
    active, with an empty result cell and [TestStarted] as all that was sent, as
    the threads of an activation begin; or the scenario is advanced once, with
    code -3, after one [TestFinished] with that code, and the test is not
    active. *)
Theorem start_test_answered w id t sender : reachable depth program_lines w ->
  m_tests w !! id = Some t -> is_ok (test_select t (jig_is_loaded w)) = true -> id ∉ m_active w ->
  exists w' t' os, process_message depth (Event.ManagerRequest (mkCtrl sender (Ctrl.StartTest id))) w = Done (tt, w') /\
    m_tests w' !! id = Some t' /\ te_desc t' = te_desc t /\ io_out (m_io w') = io_out (m_io w) ++ os /\
    (id ∈ m_active w' /\ is_Some (te_program t') /\ te_result t' = None /\
       cm_contents <$> sent_msgs os = [Ctrl.TestStarted] /\
       (exists dir, Spawn id (td_exec_start (te_desc t)) (td_timeout (te_desc t)) dir ∈ os) \/
     id ∉ m_active w' /\ exists text, sent_msgs os = mkCtrl id <$>
       [Ctrl.TestStarted; Ctrl.LogError text; Ctrl.TestFinished (-3) text; Ctrl.AdvanceScenario (-3)]).
Proof.
  intros Hr Hl Hfit Ha. pose proof (reachable_inv depth program_lines depth_enough w Hr) as Hinv.
  destruct (start_test_step w id t sender Hinv Hl Hfit Ha) as (w' & t' & os & Hrun & []). by exists w', t', os.
Qed.

(** ** A test that can not be selected *)

(** The manager is asked to start it, but it is not loaded or its jig is not. *)
Definition unselectable w (id : UnitName) : Prop :=
  un_kind id = UnitKind.Test /\ id ∉ m_selected w /\
  forall t, m_tests w !! id = Some t -> is_ok (test_select t (jig_is_loaded w)) = false.

(** The manager with another world. *)
Definition with_outputs (os : list Out) w : Manager := w <| m_io ::= fun i => i <| io_out ::= fun o => o ++ os |> |>.

Lemma select_unselectable w id : unselectable w id -> exists text,
  select depth id w = Done (tt, with_outputs [Broadcast (Event.Status (new_select_failed id text))] w).
Proof.
  intros (Hk & Hsel & Ht). destruct depth as [|n]; [lia|]. cbn [select]. rewrite gets_step.
  rewrite bool_decide_eq_false_2 by auto. rewrite Hk. unfold select_test.
  destruct (m_tests w !! id) as [t|] eqn:Hl.
  - specialize (Ht t eq_refl). destruct (test_select t (jig_is_loaded w)) as [|e] eqn:He; [done|].
    exists (UnitSelectError_fmt e). unfold gets, mbind, M_bind. rewrite Hl, He. reflexivity.
  - eexists. unfold gets, mbind, M_bind. rewrite Hl. reflexivity.
Qed.

(** (C38) A test that can not be selected leaves its scenario waiting: when its
    jig is not loaded, the request to start it only broadcasts that it could not
    be selected.  Nothing advances the scenario, stopping the test does nothing,
    and since the scenario counts as running it can not be started again. *)
Theorem unselectable_test_stalls w id sender name : reachable depth program_lines w ->
  unselectable w id -> id ∉ m_active w -> running_now w = true ->
  exists text, let w1 := with_outputs [Broadcast (Event.Status (new_select_failed id text))] w in
    process_message depth (Event.ManagerRequest (mkCtrl sender (Ctrl.StartTest id))) w = Done (tt, w1) /\
    process_message depth (Event.ManagerRequest (mkCtrl sender (Ctrl.StopTest id))) w1 = Done (tt, w1) /\
    process_message depth (Event.ManagerRequest (mkCtrl sender (Ctrl.StartScenario name))) w1 =
      manager_log_error sender "unable to start scenario: scenario not idle" w1.
Proof.
  intros Hr Hu Ha Hrun. pose proof (mi_wf w (reachable_inv depth program_lines depth_enough w Hr)) as Hwf.
  destruct (select_unselectable w id Hu) as [text Hsel]. exists text. intros w1.
  split_and!; unfold process_message, manager_request; cbn [cm_contents cm_sender].
  - unfold activate. rewrite (bind_step _ _ _ _ _ Hsel). fold w1. rewrite gets_step.
    rewrite bool_decide_eq_false_2 by auto. rewrite gets_step. rewrite bool_decide_eq_true_2; [done|apply Hu].
  - by apply deactivate_inactive.
  - fold is_busy. rewrite (bind_step _ _ _ _ _ (is_busy_run w1 (talked_wf _ _ (talked_io w _) Hwf))).
    change (running_now w1) with (running_now w). by rewrite Hrun.
Qed.

End session.

Module SampleSession.
Import SampleManager.

Definition advance_event (id : UnitName) (code : Z) : UnitEvent :=
  Event.ManagerRequest (mkCtrl id (Ctrl.AdvanceScenario code)).

Definition told (e : UnitEvent) (w : Manager) : Manager := after (OpMessage e) w.

Lemma told_reachable w e : reachable 4 0 w -> event_ok w e -> reachable 4 0 (told e w).
Proof. intros Hr Hok. by apply (reach_after w (OpMessage e)). Qed.

(** Messages that are always served make a session. *)
Lemma session_exists es w : reachable 4 0 w ->
  Forall (fun e => forall w, event_ok w e /\ session_event w e = true) es -> exists w', session 4 w es w'.
Proof.
  intros Hr Hes. revert w Hr. induction Hes as [|e es He _ IH]; intros w Hr; [by eexists; constructor|].
  destruct (He w) as [Hok Hev]. destruct (IH _ (told_reachable w e Hr Hok)) as [w' Hses]. exists w'.
  destruct (run_op_inv 4 0 ltac:(lia) w (OpMessage e) (reachable_inv 4 0 ltac:(lia) w Hr) Hok) as (w1 & Hrun & _).
  unfold told, after in Hses. rewrite Hrun in Hses. by econstructor.
Qed.

(** The scenario starts its test, the test says so, and then passes. *)
Definition messages : list UnitEvent :=
  [advance_event s1 0; Event.ManagerRequest (mkCtrl a Ctrl.TestStarted); advance_event a 0;
   advance_event a 0; advance_event a 0].

Lemma advance_ok w id code : event_ok w (advance_event id code).
Proof. by split. Qed.

Lemma messages_session : exists w', session 4 w4 messages w'.
Proof.
  apply session_exists; [apply w4_reachable|].
  repeat apply Forall_cons_2; try apply Forall_nil_2; intros w; (split; [|done]); by split.
Qed.

(** The current scenario, its state and its tests. *)
Lemma current_state w st seq :
  (p ← m_current_scenario w; s ← m_heap w !! p; Some (sc_state s, test_sequence s)) = Some (st, seq) ->
  exists p s, m_current_scenario w = Some p /\ m_heap w !! p = Some s /\ sc_state s = st /\ test_sequence s = seq.
Proof.
  destruct (m_current_scenario w) as [p|]; [|done]. simpl. destruct (m_heap w !! p) as [s|] eqn:Hs; [|done].
  intros [= <- <-]. by exists p, s.
Qed.

Lemma manager_runs_scenario_witness : exists w' os', session 4 w4 messages w' /\
  io_out (m_io w') = io_out (m_io w4) ++ os' /\ started os' `sublist_of` [a] /\ NoDup (started os').
Proof.
  destruct messages_session as [w' Hses].
  destruct (current_state w4 ScenarioState.Idle [a]) as (p & s & Hp & Hs & Hidle & Hseq); [vm_compute; reflexivity|].
  destruct (manager_runs_scenario 4 0 ltac:(lia) w4 messages w' p s w4_reachable Hses Hp Hs)
    as (s' & os & os' & _ & _ & _ & Hout & _ & _ & Hrest).
  destruct (Hrest Hidle) as (Hsub & Hnd & _). rewrite Hseq in Hsub.
  exact (ex_intro _ w' (ex_intro _ os' (conj Hses (conj Hout (conj Hsub Hnd))))).
Defined.

(** The scenario has asked for its test. *)
Definition w5 : Manager := told (advance_event s1 0) w4.

Lemma start_test_answered_witness : exists w',
  process_message 4 (Event.ManagerRequest (mkCtrl s1 (Ctrl.StartTest a))) w5 = Done (tt, w') /\
  (a ∈ m_active w' \/ a ∉ m_active w').
Proof.
  assert (exists t, m_tests w5 !! a = Some t /\ is_ok (test_select t (jig_is_loaded w5)) = true) as (t & Ht & Hfit)
    by (eexists; split; vm_compute; reflexivity).
  destruct (start_test_answered 4 0 ltac:(lia) w5 a t s1) as (w' & t' & os & Hrun & _ & _ & _ & Hans).
  - apply told_reachable; [apply w4_reachable|apply advance_ok].
  - exact Ht.
  - exact Hfit.
  - refine (bool_decide_eq_true_1 (a ∉ m_active w5) _). vm_compute. reflexivity.
  - refine (ex_intro _ w' (conj Hrun _)). destruct Hans as [[Hin _]|[Hno _]]; [left; exact Hin|right; exact Hno].
Defined.

(** A test for a jig that is not there. *)
Definition picky_desc : TestDescription :=
  mkTestDescription a "" "" [mkName "bench" UnitKind.Jig] [] [] [] None None None Simple None "true" None None None "/units".

Definition v1 : Manager := after (OpLoadTest picky_desc) w0.
Definition v2 : Manager := after (OpLoadScenario (scenario_desc s1)) v1.
Definition v3 : Manager := after (OpActivate s1) v2.
Definition v4 : Manager := told (advance_event s1 0) v3.

Lemma v4_reachable : reachable 4 0 v4.
Proof.
  apply told_reachable; [|apply advance_ok]. apply reach_after; [|done].
  apply reach_after; [by apply reach_after; [apply reach_new|]|]. split; [done|done| | |by left].
  - exists a. split; [by left|]. apply not_elem_of_nil.
  - apply Z.leb_le. vm_compute. reflexivity.
Qed.

Lemma unselectable_test_stalls_witness : exists w1,
  process_message 4 (Event.ManagerRequest (mkCtrl s1 (Ctrl.StartTest a))) v4 = Done (tt, w1) /\
  m_heap w1 = m_heap v4.
Proof.
  destruct (unselectable_test_stalls 4 0 ltac:(lia) v4 a s1 None v4_reachable) as [text [Hrun _]].
  - split; [reflexivity|]. split.
    + refine (bool_decide_eq_true_1 (a ∉ m_selected v4) _). vm_compute. reflexivity.
    + assert (exists t, m_tests v4 !! a = Some t /\ is_ok (test_select t (jig_is_loaded v4)) = false) as (t & Ht & Hno)
        by (eexists; split; vm_compute; reflexivity).
      intros t' Ht'. rewrite Ht in Ht'. injection Ht' as <-. exact Hno.
  - refine (bool_decide_eq_true_1 (a ∉ m_active v4) _). vm_compute. reflexivity.
  - vm_compute. reflexivity.
  - exact (ex_intro _ _ (conj Hrun eq_refl)).
Defined.

End SampleSession.
