(* ===== verification/System.v ===== *)
(** * A scenario and its tests, running together

    The manager, the messages on their way to it and the threads of the commands
    that were started are one machine.  While a scenario runs exactly one thing
    is under way that will advance it: a message, or a command that sends the
    message when it ends.  So the scenario is never advanced for two tests at
    once, and when nothing is under way any more it has finished. *)

From S2P Require Import Prelude Str Path Unit Foreign Config Events Env Samples Descriptions Interface Trigger Logger Jig Test Scenario ScenarioProps ScenarioTheorems Manager ManagerProps ManagerSafety ManagerFrames ManagerTheorems Session.

Section threads.
Context `{Libraries}.

(** The threads of a support command: two log what it prints, and one waits for
    its end. *)
Fixpoint support_log (msg : string -> ManagerControlMessageContents)
    (lines : list (result ForeignError string)) : Thread :=
  match lines with
  | Ok line :: lines => Tell (msg line) :: support_log msg lines
  | _ => []
  end.

Definition support_waiter (testname cmd : string) (code : Z) : Thread :=
  [Tell (Ctrl.AdvanceScenario code); Tell (Ctrl.Log (testname +:+ ": finished [" +:+ cmd +:+ "]"))].

Definition support_threads (testname cmd : string) (b : Behaviour) : list Thread :=
  [support_log Ctrl.Log (b_stdout b); support_log Ctrl.LogError (b_stderr b);
   support_waiter testname cmd (b_code b)].

(** How often an action asks for a test to be started: never, as it turns out. *)
Fixpoint asks_start (a : Action) : nat :=
  match a with
  | Tell (Ctrl.StartTest _) => 1
  | Fork body => list_sum (map asks_start body)
  | _ => 0
  end.

Lemma support_log_pending f msg lines : (forall l, f (Tell (msg l)) = 0) -> list_sum (map f (support_log msg lines)) = 0.
Proof. intros Hf. induction lines as [|[l|e] lines IH]; simpl; [done| |done]. by rewrite Hf, IH. Qed.

Lemma support_pending testname cmd b :
  pending advances (support_threads testname cmd b) = 1 /\ pending asks_start (support_threads testname cmd b) = 0.
Proof. unfold pending, support_threads. simpl. by rewrite !support_log_pending. Qed.

Lemma daemon_wait_asks r lines code : list_sum (map asks_start (daemon_wait r lines code)) = 0.
Proof.
  induction lines as [|[l|e] lines IH]; [done| |done]. simpl. destruct (is_match r l); [|done].
  simpl. unfold log_output. by rewrite log_lines_pending.
Qed.

Lemma spawned_asks desc b : pending asks_start (spawned desc b) = 0.
Proof.
  unfold spawned, pending. destruct (td_test_type desc); simpl; unfold log_output, log_error_output;
    rewrite ?log_lines_pending by done; [done|].
  destruct (td_test_daemon_ready desc) as [r|]; simpl; [by rewrite daemon_wait_asks|].
  unfold log_output. by rewrite log_lines_pending.
Qed.

End threads.

Section system.
Context `{Libraries} `{DependyLib} `{Env} `{!EnvLaws} `{!DependyLaws}.
Context (depth program_lines : nat) (depth_enough : 4 <= depth).
Implicit Types w : Manager.

(** ** The machine *)

(** The manager, the events on their way to it in any order, and the threads. *)
Record System := mkSystem {
  sy_manager : Manager;
  sy_flight : list UnitEvent;
  sy_threads : list (UnitName * Thread);
}.

(** What the manager sends and broadcasts comes back to it. *)
Definition event_of (o : Out) : option UnitEvent :=
  match o with
  | Send m => Some (Event.ManagerRequest m)
  | Broadcast e => Some e
  | _ => None
  end.

(** The threads of the commands that were started, of tests and of scenarios, and
    what the commands of the tests did. *)
Inductive spawns w : list Out -> list (UnitName * Thread) -> list (UnitName * Behaviour) -> Prop :=
  | spawns_nil : spawns w [] [] []
  | spawns_test id cmd timeout dir t b os ths bs :
      m_tests w !! id = Some t -> spawns w os ths bs ->
      spawns w (Spawn id cmd timeout dir :: os) ((pair id <$> spawned (te_desc t) b) ++ ths) ((id, b) :: bs)
  | spawns_support id cmd timeout dir testname b os ths bs :
      un_kind id = UnitKind.Scenario -> spawns w os ths bs ->
      spawns w (Spawn id cmd timeout dir :: os) ((pair id <$> support_threads testname cmd b) ++ ths) bs
  | spawns_other o os ths bs : owner_of o = None -> spawns w os ths bs -> spawns w (o :: os) ths bs.

(** What an action of a thread sends: the report of a test goes out only once. *)
Inductive action_sends (id : UnitName) : Action -> list UnitEvent -> Prop :=
  | sends_tell c : action_sends id (Tell c) [Event.ManagerRequest (mkCtrl id c)]
  | sends_finish code text :
      action_sends id (FinishOnce code) [Event.ManagerRequest (mkCtrl id (Ctrl.TestFinished code text))]
  | sends_nothing a : (forall c, a <> Tell c) -> action_sends id a [].

Definition action_forks (a : Action) : list Thread := match a with Fork body => [body] | _ => [] end.

(** What the rest of the program and its units may send meanwhile.  To the
    manager a request to rescan is as any other event; what the library does
    with it is in Live. *)
Definition foreign (e : UnitEvent) : bool :=
  match e with
  | Event.ManagerRequest (mkCtrl _ (Ctrl.StartScenario _)) => true
  | _ => plain_event e
  end.

(** What others announce through the manager's world. *)
Definition announcement (o : Out) : bool :=
  match o with Broadcast (Event.ManagerRequest _) => false | Broadcast _ => true | _ => false end.

(** The steps, with the number of [AdvanceScenario] messages handled and the
    commands of tests that were started. *)
Inductive sys_step : System -> nat -> list (UnitName * Behaviour) -> System -> Prop :=
  | sys_deliver w flight ths i e w' os ths' bs :
      flight !! i = Some e -> event_ok w e -> session_event w e = true ->
      process_message depth e w = Done (tt, w') -> io_out (m_io w') = io_out (m_io w) ++ os -> spawns w' os ths' bs ->
      sys_step (mkSystem w flight ths) (if advance_message e then 1 else 0) bs
        (mkSystem w' (delete i flight ++ omap event_of os) (ths ++ ths'))
  | sys_thread w flight ths i id a rest es :
      ths !! i = Some (id, a :: rest) -> action_sends id a es ->
      sys_step (mkSystem w flight ths) 0 []
        (mkSystem w (flight ++ es) (<[i := (id, rest)]> ths ++ (pair id <$> action_forks a)))
  | sys_talk w flight ths i os : io_out i = io_out (m_io w) ++ os -> Forall (fun o => announcement o = true) os ->
      sys_step (mkSystem w flight ths) 0 [] (mkSystem (w <| m_io := i |>) (flight ++ omap event_of os) ths)
  | sys_foreign w flight ths e : foreign e = true ->
      sys_step (mkSystem w flight ths) 0 [] (mkSystem w (flight ++ [e]) ths).

Inductive sys_run : System -> nat -> list (UnitName * Behaviour) -> System -> Prop :=
  | sys_nil S : sys_run S 0 [] S
  | sys_snoc S n bs S1 m bs1 S2 : sys_run S n bs S1 -> sys_step S1 m bs1 S2 -> sys_run S (n + m) (bs ++ bs1) S2.

(** ** What is under way *)

Definition start_request (e : UnitEvent) : option UnitName :=
  match e with Event.ManagerRequest (mkCtrl _ (Ctrl.StartTest n)) => Some n | _ => None end.

Definition event_token (e : UnitEvent) : nat :=
  match e with
  | Event.ManagerRequest (mkCtrl _ (Ctrl.AdvanceScenario _)) | Event.ManagerRequest (mkCtrl _ (Ctrl.StartTest _)) => 1
  | _ => 0
  end.

Definition flight_tokens (es : list UnitEvent) : nat := list_sum (event_token <$> es).
Definition thread_tokens (ths : list (UnitName * Thread)) : nat := pending advances ths.*2.

Definition under_way (S : System) : nat := flight_tokens (sy_flight S) + thread_tokens (sy_threads S).

Lemma flight_tokens_cons e es : flight_tokens (e :: es) = event_token e + flight_tokens es.
Proof. done. Qed.
Lemma flight_tokens_app es1 es2 : flight_tokens (es1 ++ es2) = flight_tokens es1 + flight_tokens es2.
Proof. unfold flight_tokens. by rewrite fmap_app, list_sum_app. Qed.

Lemma flight_tokens_delete es i e : es !! i = Some e -> flight_tokens es = event_token e + flight_tokens (delete i es).
Proof.
  intros Hi. apply delete_Permutation in Hi. unfold flight_tokens.
  assert (event_token <$> es ≡ₚ event_token e :: (event_token <$> delete i es)) as -> by (by rewrite Hi at 1).
  done.
Qed.

Lemma thread_tokens_app f (ths1 ths2 : list (UnitName * Thread)) :
  pending f (ths1 ++ ths2).*2 = pending f ths1.*2 + pending f ths2.*2.
Proof. by rewrite fmap_app, pending_app. Qed.

Lemma pending_pair f (id : UnitName) (ts : list Thread) : pending f (pair id <$> ts).*2 = pending f ts.
Proof. by rewrite <- list_fmap_compose, list_fmap_id. Qed.

Lemma no_token_no_start es : flight_tokens es = 0 -> forall e, e ∈ es -> start_request e = None.
Proof. clear depth_enough.
  induction es as [|e es IH]; intros Hz e' Hin; [by apply not_elem_of_nil in Hin|].
  rewrite flight_tokens_cons in Hz. apply elem_of_cons in Hin as [->|Hin]; [|apply IH; [|done]; lia].
  assert (event_token e = 0) as He by lia. by destruct e as [| | | | | |[? []]|].
Qed.

Lemma event_none o os : event_of o = None -> omap event_of (o :: os) = omap event_of os.
Proof. intros Ho. simpl. by rewrite Ho. Qed.

(** What is counted of outputs: the commands that are started, and the messages. *)
Lemma tokens_flight os : tokens os = flight_tokens (omap event_of os) + length (omap owner_of os).
Proof.
  induction os as [|o os IH]; [done|]. rewrite tokens_cons, IH.
  destruct o as [[? []]|[| | | | | |[? []]|]| | |]; first [reflexivity|apply plus_n_Sm].
Qed.

(** The outputs of a step are messages and threads of the same weight. *)
Lemma spawns_tokens w os ths bs : spawns w os ths bs ->
  flight_tokens (omap event_of os) + thread_tokens ths = tokens os /\ pending asks_start ths.*2 = 0.
Proof. clear depth_enough.
  unfold thread_tokens. induction 1 as [|id cmd timeout dir t b os ths bs Ht _ [IH1 IH2]
    |id cmd timeout dir testname b os ths bs Hk _ [IH1 IH2]|o os ths bs Ho _ [IH1 IH2]]; [done|..].
  - rewrite !thread_tokens_app, !pending_pair, (proj1 (spawned_pending _ b)), spawned_asks, IH2.
    split; [|done]. rewrite tokens_cons, <- IH1, event_none by done. cbn [token_of request_of]. lia.
  - destruct (support_pending testname cmd b) as [Ha Hs]. rewrite !thread_tokens_app, !pending_pair, Ha, Hs, IH2.
    split; [|done]. rewrite tokens_cons, <- IH1, event_none by done. cbn [token_of request_of]. lia.
  - split; [|done]. rewrite tokens_cons, <- IH1.
    destruct o as [[? []]|[| | | | | |[? []]|]| | |]; done.
Qed.

(** ** What the manager keeps *)

(** The scenario, the jigs and the descriptions of the tests. *)
Record same_run w w' : Prop := {
  sr_current : m_current_scenario w' = m_current_scenario w;
  sr_heap : m_heap w' = m_heap w;
  sr_jigs : m_jigs w' = m_jigs w;
  sr_tests : te_desc <$> m_tests w' = te_desc <$> m_tests w;
}.

#[export] Instance same_run_preorder : PreOrder same_run.
Proof. split; [by split|]. intros w1 w2 w3 [] []. split; congruence. Qed.
#[export] Instance same_run_frame : Frame same_run.
Proof. split; [exact _|..]; intros; split; try done. by eapply fmap_insert_same. Qed.
#[export] Instance same_run_activate : FrameActivate same_run.
Proof. split; [exact _|by split..]. Qed.

(** Nothing is activated and nothing will advance the scenario. *)
Record calm_run w w' : Prop := {
  cl_active : m_active w' ⊆ m_active w;
  cl_out : grows (m_io w) (m_io w');
}.

#[export] Instance calm_run_preorder : PreOrder calm_run.
Proof.
  clear depth_enough depth program_lines. split; [by split|]. intros w1 w2 w3 [A1 O1] [A2 O2]. split; [set_solver|by transitivity (m_io w2)].
Qed.
#[export] Instance calm_run_frame : Frame calm_run.
Proof. clear depth_enough depth program_lines. split; [exact _|..]; intros; split; try done. simpl. set_solver. Qed.

Lemma calm_event w e w' : mgr_inv w -> session_event w e = true -> event_token e = 0 ->
  process_message depth e w = Done (tt, w') -> same_run w w' /\ calm_run w w'.
Proof.
  intros Hinv Hev He Hrun. destruct (plain_event e) eqn:Hp.
  { split; revert Hrun; [by apply (frames_plain_event same_run)|by apply (frames_plain_event calm_run)]. }
  assert (exists id name, e = Event.ManagerRequest (mkCtrl id (Ctrl.StartScenario name))) as (id & name & ->).
  { destruct e as [| | | | | | |]; try done. match goal with m : ManagerControlMessage |- _ => destruct m as [id []] end.
    all: try done. by eexists _, _. }
  unfold process_message, manager_request in Hrun. cbn [cm_contents cm_sender] in Hrun. simpl in Hev.
  fold is_busy in Hrun. rewrite (bind_step _ _ _ _ _ (is_busy_run w (mi_wf w Hinv))), Hev in Hrun.
  split; revert Hrun; [by apply (frames_log_error same_run)|by apply (frames_log_error calm_run)].
Qed.

(** ** The invariant *)

(** The tests of the scenario are loaded and fit the loaded jigs. *)
Definition tests_fit s w : Prop := forall id, id ∈ test_sequence s ->
  exists t, m_tests w !! id = Some t /\ is_ok (test_select t (jig_is_loaded w)) = true.

Lemma test_select_desc t t' loaded : te_desc t' = te_desc t -> test_select t' loaded = test_select t loaded.
Proof. unfold test_select. by intros ->. Qed.

Lemma same_run_fit s w w' : same_run w w' -> tests_fit s w -> tests_fit s w'.
Proof.
  intros [_ _ Hj Ht] Hfit id Hid. destruct (Hfit id Hid) as (t & Hl & Hs).
  assert (te_desc <$> m_tests w' !! id = Some (te_desc t)) as Hl' by (rewrite <- lookup_fmap, Ht, lookup_fmap, Hl; done).
  apply fmap_Some in Hl' as (t' & Hl' & Hd). exists t'. split; [done|].
  rewrite (test_select_desc t t') by done. unfold jig_is_loaded in *. by rewrite Hj.
Qed.

Definition awaited s : nat := match sc_state s with ScenarioState.ScenarioFinished => 0 | _ => 1 end.

Record system_inv p s n (S : System) : Prop := {
  iv_mgr : mgr_inv (sy_manager S);
  iv_current : m_current_scenario (sy_manager S) = Some p;
  iv_heap : m_heap (sy_manager S) !! p = Some s;
  iv_fit : tests_fit s (sy_manager S);
  iv_later j id : next_pos s (sc_state s) <= j -> test_sequence s !! j = Some id -> id ∉ m_active (sy_manager S);
  iv_start e id : e ∈ sy_flight S -> start_request e = Some id ->
    id ∉ m_active (sy_manager S) /\ exists i, sc_state s = ScenarioState.Running i /\ test_sequence s !! i = Some id;
  iv_threads : pending asks_start (sy_threads S).*2 = 0;
  iv_under_way : under_way S = awaited s;
  iv_count : n <= rank s (sc_state s);
}.

(** A delivered event makes room for what the manager put out. *)
Lemma deliver_under_way w flight ths i e w' os ths' bs : flight !! i = Some e -> spawns w' os ths' bs ->
  under_way (mkSystem w' (delete i flight ++ omap event_of os) (ths ++ ths')) + event_token e =
    under_way (mkSystem w flight ths) + tokens os.
Proof. clear depth_enough.
  intros Hi Hsp. destruct (spawns_tokens _ _ _ _ Hsp) as [<- _]. unfold under_way, thread_tokens. simpl.
  rewrite flight_tokens_app, thread_tokens_app, (flight_tokens_delete flight i e Hi). lia.
Qed.

(** The requests to start a test that are in flight after a delivery. *)
Lemma deliver_starts (es : list UnitEvent) os e id : e ∈ es ++ omap event_of os -> start_request e = Some id ->
  e ∈ es \/ id ∈ started os.
Proof.
  intros [Hin|Hin]%elem_of_app He; [by left|right].
  apply list_elem_of_omap in Hin as (o & Ho & Heq). apply list_elem_of_omap. exists o. split; [done|].
  destruct o as [[? []]|[| | | | | |[? []]|]| | |]; try done; by injection Heq as <-.
Qed.

Lemma elem_of_delete {A} (l : list A) i x : x ∈ delete i l -> x ∈ l.
Proof. intros Hin. eapply elem_of_submseteq; [exact Hin|]. apply sublist_submseteq, sublist_delete. Qed.

(** ** The steps keep it *)

Section deliver.
Context p s n w flight ths i e w' os ths' bs
  (Hinv : system_inv p s n (mkSystem w flight ths)) (He : flight !! i = Some e) (Hok : event_ok w e)
  (Hev : session_event w e = true) (Hrun : process_message depth e w = Done (tt, w'))
  (Hout : io_out (m_io w') = io_out (m_io w) ++ os) (Hsp : spawns w' os ths' bs).
#[local] Abbreviation S' := (mkSystem w' (delete i flight ++ omap event_of os) (ths ++ ths')).

Lemma deliver_threads : pending asks_start (ths ++ ths').*2 = 0.
Proof.
  rewrite thread_tokens_app, (proj2 (spawns_tokens _ _ _ _ Hsp)). pose proof (iv_threads _ _ _ _ Hinv) as Ht. simpl in Ht. lia.
Qed.

Lemma deliver_mgr : mgr_inv w'.
Proof. exact (manager_message_inv depth depth_enough _ _ _ (iv_mgr _ _ _ _ Hinv) Hok Hrun). Qed.

(** Any message but those that advance the scenario. *)
Lemma deliver_calm : event_token e = 0 -> system_inv p s n S'.
Proof.
  intros Htok. destruct (calm_event w e w' (iv_mgr _ _ _ _ Hinv) Hev Htok Hrun) as [Hsame [Hact (os1 & Ho1 & Hsil)]].
  rewrite Hout in Ho1. apply app_inv_head in Ho1 as <-. pose proof (deliver_under_way w flight ths i e w' os ths' bs He Hsp) as Hu.
  rewrite Htok, (silent_tokens _ Hsil) in Hu. destruct Hinv as [Im Ic Ih If Il Is It Iu In]. simpl in *.
  split; simpl; try done.
  - apply deliver_mgr.
  - by rewrite (sr_current _ _ Hsame).
  - by rewrite (sr_heap _ _ Hsame).
  - by eapply same_run_fit.
  - intros j id Hj Hid Hin. by apply (Il j id Hj Hid), Hact.
  - intros e' id Hin Hst. destruct (deliver_starts _ _ _ _ Hin Hst) as [Hin'|Hin'].
    + destruct (Is e' id (elem_of_delete _ _ _ Hin') Hst) as [Hno Hi]. split; [|done]. intros Ha. by apply Hno, Hact.
    + destruct (silent_out _ Hsil) as [Hz _]. rewrite Hz in Hin'. by apply not_elem_of_nil in Hin'.
  - apply deliver_threads.
  - lia.
Qed.

(** The last thing under way arrives. *)
Lemma deliver_last : event_token e = 1 -> awaited s = 1 /\ flight_tokens (delete i flight) = 0 /\
  under_way S' = tokens os /\ forall e' id, e' ∈ delete i flight -> start_request e' <> Some id.
Proof. clear depth_enough.
  intros Htok. pose proof (iv_under_way _ _ _ _ Hinv) as Hu.
  pose proof (deliver_under_way w flight ths i e w' os ths' bs He Hsp) as Hd. rewrite Htok in Hd.
  unfold under_way in Hu. simpl in Hu. rewrite (flight_tokens_delete flight i e He), Htok in Hu.
  assert (awaited s = 1) as Ha by (unfold awaited in *; destruct (sc_state s); lia).
  assert (flight_tokens (delete i flight) = 0) as Hz by lia. split_and!; [done|done| |].
  - unfold under_way in *. simpl in *. rewrite (flight_tokens_delete flight i e He), Htok in Hd. lia.
  - intros e' id Hin. by rewrite (no_token_no_start _ Hz e' Hin).
Qed.

(** The request to start a test. *)
Lemma deliver_start id0 : start_request e = Some id0 -> system_inv p s n S'.
Proof.
  intros Hst. assert (exists sender, e = Event.ManagerRequest (mkCtrl sender (Ctrl.StartTest id0))) as [sender Heq].
  { destruct e as [| | | | | |[? []]|]; try done. injection Hst as ->. by eexists. }
  destruct deliver_last as (Haw & Hz & Hu & Hnone); [by rewrite Heq|]. pose proof deliver_mgr as Hm'.
  pose proof deliver_threads as Hth. destruct Hinv as [Im Ic Ih If Il Is It Iu In]. simpl in *.
  destruct (Is e id0 (list_elem_of_lookup_2 _ _ _ He) Hst) as (Hna & k & Hk & Hid).
  destruct (If id0 (list_elem_of_lookup_2 _ _ _ Hid)) as (t & Ht & Hfit).
  destruct (start_test_step depth depth_enough w id0 t sender Im Ht Hfit Hna) as (w1 & t' & os1 & Hrun1 & Hsa).
  rewrite Heq in Hrun. rewrite Hrun in Hrun1. injection Hrun1 as <-.
  destruct Hsa as [_ _ Ho Ha Hun Htk _ _]. rewrite Hout in Ho. apply app_inv_head in Ho as <-.
  assert (same_run w w') as Hsame.
  { revert Hrun. apply (frames_activate_test_unit same_run). by destruct (mi_named w Im id0 t Ht). }
  split; simpl; try done.
  - by rewrite (sr_current _ _ Hsame).
  - by rewrite (sr_heap _ _ Hsame).
  - by eapply same_run_fit.
  - intros j id Hj Hjd Hin%Ha. apply elem_of_union in Hin as [->%elem_of_singleton|Hin]; [|by apply (Il j id)].
    pose proof (st_nodup _ (wf_static _ (proj1 (mi_ok w Im p s Ih)))) as Hnd. rewrite Hk in Hj. simpl in Hj.
    pose proof (NoDup_lookup _ _ _ _ Hnd Hid Hjd). lia.
  - intros e' id Hin Hse. exfalso. destruct (deliver_starts _ _ _ _ Hin Hse) as [Hin'|Hin']; [by eapply Hnone|].
    destruct (unheard_out _ Hun) as [Hzz _]. rewrite Hzz in Hin'. by apply not_elem_of_nil in Hin'.
  - lia.
Qed.

(** The scenario makes a step. *)
Lemma deliver_advance : advance_message e = true -> exists s',
  agree s s' /\ system_inv p s' (n + 1) S'.
Proof.
  intros Hadv. assert (exists id code, e = Event.ManagerRequest (mkCtrl id (Ctrl.AdvanceScenario code))) as (id0 & code & Heq).
  { destruct e as [| | | | | |[? []]|]; try done. by eexists _, _. }
  destruct deliver_last as (Haw & Hz & Hu & Hnone); [by rewrite Heq|]. pose proof deliver_mgr as Hm'.
  pose proof deliver_threads as Hth. destruct Hinv as [Im Ic Ih If Il Is It Iu In]. simpl in *.
  destruct (mi_ok w Im p s Ih) as [Hwf _].
  destruct (advance_request_step depth id0 code w p s Im Ic Ih) as (s' & tick & os1 & Ha & Hrun1 & _).
  rewrite Heq in Hrun. simpl in Hrun, Hrun1. rewrite Hrun in Hrun1. injection Hrun1 as Hw'.
  assert (os1 = os) as -> by (rewrite Hw' in Hout; simpl in Hout; by apply app_inv_head in Hout).
  destruct (advanced_inv _ _ _ Ha Hwf) as (Hag & Hwf' & Hpos & Hrank & _).
  destruct (advanced_tokens _ _ _ Ha Hwf) as [Hidle Htok].
  destruct (advanced_outputs _ _ _ Ha Hwf) as (_ & Hst & _).
  pose proof (agree_test_sequence _ _ Hag) as Hseq.
  assert (m_active w' = m_active w) as Hact by by rewrite Hw'.
  exists s'. split; [done|]. split; simpl; try done.
  - by rewrite Hw'.
  - rewrite Hw'. simpl. by rewrite lookup_insert_eq.
  - intros id. rewrite Hseq. rewrite Hw'. apply If.
  - intros j id Hj Hid. rewrite Hact. rewrite Hseq in Hid. apply (Il j); [|done].
    rewrite (agree_next_pos s s') in Hj by done. pose proof (pos_next_pos s (sc_state s')). lia.
  - intros e' id Hin Hse. destruct (deliver_starts _ _ _ _ Hin Hse) as [Hin'|Hin']; [by destruct (Hnone _ _ Hin' Hse)|].
    rewrite Hst in Hin'. rewrite Hact, Hseq. destruct (sc_state s') as [| |k| | |]; try by apply not_elem_of_nil in Hin'.
    destruct (sc_test_sequence s' !! k) as [t|] eqn:Ht; simpl in Hin'; [|by apply not_elem_of_nil in Hin'].
    apply list_elem_of_singleton in Hin' as ->. apply sequence_lookup in Ht. rewrite Hseq in Ht.
    split; [|by exists k]. by apply (Il k).
  - rewrite Hu, Htok. unfold awaited. by destruct (sc_state s').
  - rewrite (agree_rank s s') by done. specialize (Hrank ltac:(intros Hf; unfold awaited in Haw; by rewrite Hf in Haw)). lia.
Qed.
End deliver.

(** What a thread's action sends and forks. *)
Lemma action_weight id a es : action_sends id a es -> asks_start a = 0 ->
  flight_tokens es + pending advances (action_forks a) = advances a /\
  pending asks_start (action_forks a) = 0 /\ forall e, e ∈ es -> start_request e = None.
Proof. clear depth_enough.
  intros Hs Ha. assert (pending asks_start (action_forks a) = 0) as Hf.
  { destruct a; try done. unfold pending. simpl in *. lia. }
  split_and!; [|done|].
  - destruct Hs as [c|code text|a Hno]; [|done|].
    + simpl. unfold flight_tokens. simpl. destruct c; simpl in *; done.
    + destruct a as [|c| | |body]; try done; first [by destruct (Hno c) | unfold pending; simpl; lia].
  - destruct Hs as [c|code text|a' Hno]; intros e He; [|by apply list_elem_of_singleton in He as ->|by apply not_elem_of_nil in He].
    apply list_elem_of_singleton in He as ->. by destruct c.
Qed.

Lemma thread_step_inv p s n w flight ths i id a rest es : system_inv p s n (mkSystem w flight ths) ->
  ths !! i = Some (id, a :: rest) -> action_sends id a es ->
  system_inv p s n (mkSystem w (flight ++ es) (<[i := (id, rest)]> ths ++ (pair id <$> action_forks a))).
Proof.
  intros [Im Ic Ih If Il Is It Iu In] Hi Hs. simpl in *.
  assert (ths.*2 !! i = Some (a :: rest)) as Hi2 by (by rewrite list_lookup_fmap, Hi).
  assert (forall f, pending f (<[i := (id, rest)]> ths ++ (pair id <$> action_forks a)).*2 + f a =
    pending f ths.*2 + pending f (action_forks a)) as Hp.
  { intros f. rewrite thread_tokens_app, pending_pair, list_fmap_insert, (pending_insert f _ _ _ _ Hi2). simpl. lia. }
  pose proof (pending_insert asks_start _ _ _ _ Hi2) as Ha.
  destruct (action_weight id a es Hs) as (Ht & Hf & Hno); [lia|].
  split; simpl; try done.
  - intros e id' [Hin|Hin]%elem_of_app He; [by eapply Is|]. rewrite (Hno e Hin) in He. done.
  - specialize (Hp asks_start). lia.
  - rewrite <- Iu. unfold under_way, thread_tokens in *. simpl in *. rewrite flight_tokens_app. specialize (Hp advances). lia.
Qed.

Lemma foreign_inv p s n w flight ths e : system_inv p s n (mkSystem w flight ths) -> foreign e = true ->
  system_inv p s n (mkSystem w (flight ++ [e]) ths).
Proof.
  intros [Im Ic Ih If Il Is It Iu In] He. simpl in *.
  assert (event_token e = 0 /\ start_request e = None) as [Ht Hst] by (by destruct e as [| | | | | |[? []]|]).
  split; simpl; try done.
  - intros e' id [Hin|Hin%list_elem_of_singleton]%elem_of_app He'; [by eapply Is|congruence].
  - rewrite <- Iu. unfold under_way in *. simpl. rewrite flight_tokens_app, flight_tokens_cons, Ht. unfold flight_tokens at 2. simpl. lia.
Qed.

Lemma announcement_silent os : Forall (fun o => announcement o = true) os -> Forall silent os.
Proof. intros Ho. eapply Forall_impl; [exact Ho|]. intros [|[]| | |]; try done. Qed.

Lemma talk_inv p s n w flight ths i os : system_inv p s n (mkSystem w flight ths) ->
  io_out i = io_out (m_io w) ++ os -> Forall (fun o => announcement o = true) os ->
  system_inv p s n (mkSystem (w <| m_io := i |>) (flight ++ omap event_of os) ths).
Proof.
  intros [Im Ic Ih If Il Is It Iu In] Ho Hos%announcement_silent. simpl in *.
  pose proof (silent_tokens _ Hos) as Htok. destruct (silent_out _ Hos) as [Hst _].
  pose proof (tokens_flight os) as Htf. rewrite Htok in Htf.
  split; simpl; try done.
  - by apply (steady_preserves _ _ (talked_steady _ _ (talked_io w i))).
  - intros e id Hin He. destruct (deliver_starts _ _ _ _ Hin He) as [?|Hin']; [by eapply Is|].
    rewrite Hst in Hin'. by apply not_elem_of_nil in Hin'.
  - rewrite <- Iu. unfold under_way in *. simpl in *. rewrite flight_tokens_app. lia.
Qed.

Lemma sys_step_inv p s n S m bs S' : system_inv p s n S -> sys_step S m bs S' ->
  exists s', agree s s' /\ system_inv p s' (n + m) S'.
Proof.
  intros Hinv Hstep. destruct Hstep as [w flight ths i e w' os ths' bs He Hok Hev Hrun Hout Hsp
    |w flight ths i id a rest es Hi Hs|w flight ths i os Ho Hos|w flight ths e He].
  - destruct (advance_message e) eqn:Ha; [by eapply deliver_advance|]. rewrite Nat.add_0_r. exists s. split; [done|].
    destruct (start_request e) as [id|] eqn:Hst; [by eapply deliver_start|].
    eapply deliver_calm; try done. by destruct e as [| | | | | |[? []]|].
  - rewrite Nat.add_0_r. exists s. split; [done|by eapply thread_step_inv].
  - rewrite Nat.add_0_r. exists s. split; [done|by apply talk_inv].
  - rewrite Nat.add_0_r. exists s. split; [done|by apply foreign_inv].
Qed.

Lemma sys_run_inv p s S n bs S' : system_inv p s 0 S -> sys_run S n bs S' ->
  exists s', agree s s' /\ system_inv p s' n S'.
Proof.
  intros Hinv. induction 1 as [S|S n bs S1 m bs1 S2 _ IH Hstep]; [by exists s|].
  destruct (IH Hinv) as (s1 & Hag1 & Hinv1). destruct (sys_step_inv p s1 n S1 m bs1 S2 Hinv1 Hstep) as (s2 & Hag2 & Hinv2).
  exists s2. split; [by transitivity s1|done].
Qed.

(** ** Running to the end *)

(** Nothing that threads will do concerns a scenario: those of earlier runs may
    still log what their commands print. *)
Definition calm_threads (ths : list (UnitName * Thread)) : Prop :=
  thread_tokens ths = 0 /\ pending asks_start ths.*2 = 0.

(** A scenario was just activated: it is idle, the message that advances it is on
    its way, its tests are loaded, fit and are not active, and nothing else that
    concerns it is under way. *)
Record begins p s (S : System) : Prop := {
  bg_inv : mgr_inv (sy_manager S);
  bg_current : m_current_scenario (sy_manager S) = Some p;
  bg_heap : m_heap (sy_manager S) !! p = Some s;
  bg_idle : sc_state s = ScenarioState.Idle;
  bg_fit : tests_fit s (sy_manager S);
  bg_inactive id : id ∈ test_sequence s -> id ∉ m_active (sy_manager S);
  bg_flight : flight_tokens (sy_flight S) = 1;
  bg_starts e : e ∈ sy_flight S -> start_request e = None;
  bg_threads : calm_threads (sy_threads S);
}.

Lemma begins_perm p s w f f' ths : f ≡ₚ f' -> begins p s (mkSystem w f ths) -> begins p s (mkSystem w f' ths).
Proof.
  intros Hf [Hi Hc Hh Hid Hfit Ha Hfl Hst Ht]. split; try done; simpl in *.
  - rewrite <- Hfl. unfold flight_tokens. by rewrite Hf.
  - intros e. rewrite <- Hf. apply Hst.
Qed.

Lemma begins_inv p s S : begins p s S -> system_inv p s 0 S.
Proof.
  clear depth_enough. intros [Hr Hc Hh Hi Hf Ha Hfl Hst [Ht Hask]]. destruct S as [w flight ths]. simpl in *.
  split; simpl; try done.
  - intros j n _ Hn. by apply Ha, (list_elem_of_lookup_2 _ j).
  - intros e n He. by rewrite (Hst e He).
  - unfold under_way, awaited. simpl. by rewrite Hi, Hfl, Ht.
  - lia.
Qed.

(** Nothing is under way any more. *)
Lemma rest_finished S s : under_way S = awaited s -> sy_flight S = [] -> Forall (fun t => t.2 = []) (sy_threads S) ->
  sc_state s = ScenarioState.ScenarioFinished.
Proof.
  intros Hu Hf Ht. assert (under_way S = 0) as Hz; [|rewrite Hu in Hz; unfold awaited in Hz; by destruct (sc_state s)].
  unfold under_way. rewrite Hf. unfold thread_tokens, pending. clear -Ht.
  induction Ht as [|[id t] ths Ht _ IH]; [done|]. simpl in *. by subst t.
Qed.


End system.

Module SampleSystem.
Import SampleManager SampleSession.

(** The scenario [s1] was activated. *)
Definition S0 : System := mkSystem w4 [advance_event s1 0] [].

(** Its first step asks for the test to be started. *)
Definition S1 : System := mkSystem w5 [Event.ManagerRequest (mkCtrl s1 (Ctrl.StartTest a))] [].

Lemma a_fits : exists t, m_tests w4 !! a = Some t /\ is_ok (test_select t (jig_is_loaded w4)) = true.
Proof. eexists. split; vm_compute; reflexivity. Qed.

Lemma a_inactive : a ∉ m_active w4.
Proof. refine (bool_decide_eq_true_1 _ _). vm_compute. reflexivity. Qed.

(** A scenario of the one test [a] that starts. *)
Lemma begins_one w id code p s : reachable 4 0 w -> m_current_scenario w = Some p -> m_heap w !! p = Some s ->
  sc_state s = ScenarioState.Idle -> test_sequence s = [a] ->
  (exists t, m_tests w !! a = Some t /\ is_ok (test_select t (jig_is_loaded w)) = true) -> a ∉ m_active w ->
  begins p s (mkSystem w [advance_event id code] []).
Proof.
  intros Hr%(reachable_inv 4 0 ltac:(lia)) Hp Hs Hidle Hseq Hfit Ha.
  split; try done; intros i Hi; [rewrite Hseq in Hi..|]; by apply list_elem_of_singleton in Hi as ->.
Qed.

Lemma S0_begins : exists p s, begins p s S0.
Proof.
  destruct (current_state w4 ScenarioState.Idle [a]) as (p & s & Hp & Hs & Hidle & Hseq); [vm_compute; reflexivity|].
  exists p, s. exact (begins_one w4 s1 0 p s w4_reachable Hp Hs Hidle Hseq a_fits a_inactive).
Qed.

(** The message is told to any manager, and its answer sent. *)
Lemma told_step w id code os : reachable 4 0 w ->
  io_out (m_io (told (advance_event id code) w)) = io_out (m_io w) ++ os -> spawns (told (advance_event id code) w) os [] [] ->
  sys_run 4 (mkSystem w [advance_event id code] []) 1 [] (mkSystem (told (advance_event id code) w) (omap event_of os) []).
Proof.
  intros Hr. destruct (run_op_inv 4 0 ltac:(lia) w (OpMessage (advance_event id code))
    (reachable_inv 4 0 ltac:(lia) w Hr)) as (w' & Hrun & _); [by split|].
  assert (told (advance_event id code) w = w') as -> by (unfold told, after; by rewrite Hrun).
  intros Hout Hsp. apply (sys_snoc 4 _ 0 [] (mkSystem w [advance_event id code] []) 1 []); [constructor|].
  by apply (sys_deliver 4 w [advance_event id code] [] 0 (advance_event id code) w' os [] []).
Qed.

Lemma w5_out : io_out (m_io w5) = io_out (m_io w4) ++ [Send (mkCtrl s1 (Ctrl.StartTest a))].
Proof. vm_compute. reflexivity. Qed.

Lemma S0_run : sys_run 4 S0 1 [] S1.
Proof.
  refine (told_step w4 s1 0 _ w4_reachable w5_out _). apply spawns_other; [reflexivity|constructor].
Qed.


End SampleSystem.
