(* ===== verification/Earned.v ===== *)
(** * Success is earned

    When the manager announces that a scenario ended with success, the command of
    each of its tests did what it had to: the code of a test goes from the end of
    its command over the messages into the scenario, and nothing else lets a test
    pass. *)

From S2P Require Import Prelude Str Path Unit Foreign Config Events Env Samples Descriptions Interface Trigger Logger Jig Test Scenario ScenarioProps ScenarioTheorems Manager ManagerProps ManagerSafety ManagerFrames ManagerTheorems Session System.

(** ** What a test has to do *)

Section threads.
Context `{Libraries}.

(** A daemon says that it is ready: a line that can be read matches, and so can
    all before it. *)
Definition says_ready (r : Regex) (lines : list (result ForeignError string)) : Prop :=
  exists before line after, lines = (Ok <$> before) ++ Ok line :: after /\ is_match r line = true.

Definition succeeds (desc : TestDescription) (b : Behaviour) : Prop :=
  match td_test_type desc with
  | Simple => b_code b = 0%Z
  | Daemon => match td_test_daemon_ready desc with Some r => says_ready r (b_stdout b) | None => True end
  end.

(** The codes with which an action will advance the scenario. *)
Fixpoint codes_of (a : Action) : list Z :=
  match a with
  | Tell (Ctrl.AdvanceScenario code) => [code]
  | Fork body => concat (map codes_of body)
  | _ => []
  end.

Definition thread_codes (th : Thread) : list Z := concat (map codes_of th).

Lemma codes_advances : forall a, length (codes_of a) = advances a.
Proof.
  fix IH 1. intros [line|c|code| |body]; [reflexivity|by destruct c|reflexivity..|]. simpl.
  induction body as [|a body IHb]; [reflexivity|]. simpl. by rewrite length_app, IH, IHb.
Qed.

Lemma thread_codes_advances th : length (thread_codes th) = list_sum (map advances th).
Proof. induction th as [|a th IH]; [done|]. unfold thread_codes in *. simpl. by rewrite length_app, codes_advances, IH. Qed.

Lemma log_lines_codes msg lines : (forall l, codes_of (Tell (msg l)) = []) -> thread_codes (log_lines msg lines) = [].
Proof.
  intros Hm. induction lines as [|[l|e] lines IH]; [done| |done]. unfold thread_codes in *.
  cbn [log_lines map concat]. by rewrite Hm, IH.
Qed.

Lemma daemon_ready_codes rest code : thread_codes (daemon_ready rest code) = [0%Z].
Proof.
  unfold thread_codes, daemon_ready. cbn [map concat]. change (codes_of (Fork ?b)) with (thread_codes b).
  unfold log_output. by rewrite log_lines_codes.
Qed.

(** All that was read before the line was not it. *)
Lemma says_ready_cons r line lines : is_match r line = false -> says_ready r (Ok line :: lines) <-> says_ready r lines.
Proof.
  intros Hm. split.
  - intros (before & l & after & Heq & Hl). destruct before as [|x before]; simpl in Heq; [injection Heq as -> ->; congruence|].
    injection Heq as _ ->. by exists before, l, after.
  - intros (before & l & after & -> & Hl). by exists (line :: before), l, after.
Qed.

Lemma daemon_wait_codes r lines code c : c ∈ thread_codes (daemon_wait r lines code) -> c = 0%Z <-> says_ready r lines.
Proof.
  induction lines as [|[line|e] lines IH].
  - intros ->%list_elem_of_singleton. split; [done|]. intros (before & l & after & Heq & _). destruct before; simpl in Heq; discriminate.
  - unfold thread_codes. cbn [daemon_wait map concat codes_of app]. destruct (is_match r line) eqn:Hm.
    + intros Hc. change (c ∈ thread_codes (daemon_ready lines code)) in Hc. rewrite daemon_ready_codes in Hc.
      apply list_elem_of_singleton in Hc as ->. split; [|done]. intros _. by exists [], line, lines.
    + intros Hc. rewrite says_ready_cons by done. by apply IH.
  - intros ->%list_elem_of_singleton. split; [done|]. intros (before & l & after & Heq & _). destruct before; simpl in Heq; discriminate.
Qed.

(** An activation advances the scenario with 0 exactly when its command
    succeeds. *)
Lemma spawned_codes desc b th c : th ∈ spawned desc b -> c ∈ thread_codes th -> c = 0%Z <-> succeeds desc b.
Proof.
  unfold spawned, succeeds. destruct (td_test_type desc); intros Hth Hc.
  - repeat (apply elem_of_cons in Hth as [->|Hth]); [..|by apply not_elem_of_nil in Hth].
    1,2: unfold log_output, log_error_output in Hc; rewrite log_lines_codes in Hc by done; by apply not_elem_of_nil in Hc.
    unfold simple_waiter, thread_codes in Hc. simpl in Hc. by apply list_elem_of_singleton in Hc as ->.
  - apply list_elem_of_singleton in Hth as ->. unfold daemon_main, thread_codes in Hc. cbn [map concat] in Hc.
    change (codes_of (Fork ?b)) with (thread_codes b) in Hc. unfold log_error_output in Hc. rewrite log_lines_codes in Hc by done.
    destruct (td_test_daemon_ready desc) as [r|]; [by eapply daemon_wait_codes|].
    change (c ∈ thread_codes (daemon_ready (b_stdout b) (b_code b))) in Hc. rewrite daemon_ready_codes in Hc.
    by apply list_elem_of_singleton in Hc as ->.
Qed.
End threads.

Section earned.
Context `{Libraries} `{DependyLib} `{Env} `{!EnvLaws} `{!DependyLaws}.
Implicit Types w : Manager.

(** ** The codes that are under way *)

Definition advance_code (e : UnitEvent) : option Z :=
  match e with Event.ManagerRequest (mkCtrl _ (Ctrl.AdvanceScenario code)) => Some code | _ => None end.

Definition flight_codes (es : list UnitEvent) : list Z := omap advance_code es.
Definition threads_codes (ths : list (UnitName * Thread)) : list Z := ths ≫= fun t => thread_codes t.2.
Definition sys_codes (S : System) : list Z := flight_codes (sy_flight S) ++ threads_codes (sy_threads S).

Lemma flight_codes_app es1 es2 : flight_codes (es1 ++ es2) = flight_codes es1 ++ flight_codes es2.
Proof. apply omap_app. Qed.
Lemma threads_codes_app ths1 ths2 : threads_codes (ths1 ++ ths2) = threads_codes ths1 ++ threads_codes ths2.
Proof. apply bind_app. Qed.

Lemma elem_of_sent_msgs m os : m ∈ sent_msgs os -> Send m ∈ os.
Proof. unfold sent_msgs. intros (o & Ho & Hs)%list_elem_of_omap. destruct o; simplify_eq/=. done. Qed.

(** Codes and requests to start a test are what is counted. *)
Lemma flight_tokens_codes es : flight_tokens es = length (flight_codes es) + length (omap start_request es).
Proof.
  induction es as [|e es IH]; [done|]. rewrite flight_tokens_cons, IH. unfold flight_codes.
  destruct e as [| | | | | |[? []]|]; first [reflexivity|apply plus_n_Sm].
Qed.

Lemma thread_tokens_codes ths : thread_tokens ths = length (threads_codes ths).
Proof.
  induction ths as [|[id th] ths IH]; [done|]. change (thread_tokens ((id, th) :: ths)) with (list_sum (map advances th) + thread_tokens ths).
  change (threads_codes ((id, th) :: ths)) with (thread_codes th ++ threads_codes ths).
  by rewrite length_app, thread_codes_advances, IH.
Qed.

Lemma started_requests os : omap start_request (omap event_of os) = started os.
Proof.
  unfold started. induction os as [|o os IH]; [done|].
  destruct o as [[? []]|[| | | | | |[? []]|]| | |]; first [exact IH|exact (f_equal (cons _) IH)].
Qed.

Lemma no_tokens_no_codes w os ths bs : spawns w os ths bs -> tokens os = 0 ->
  flight_codes (omap event_of os) = [] /\ threads_codes ths = [].
Proof.
  intros Hsp Hz. destruct (spawns_tokens _ _ _ _ Hsp) as [Ht _]. rewrite Hz, flight_tokens_codes, thread_tokens_codes in Ht.
  split; apply nil_length_inv; lia.
Qed.

(** ** What was done *)

(** The result of a test is deserved: its command was started and did what it had
    to; or it did not, or it could not be started. *)
Definition deserved w0 (os : list Out) (bs : list (UnitName * Behaviour)) (id : UnitName) (ok : bool) : Prop :=
  exists t, m_tests w0 !! id = Some t /\
    if ok then exists b, (id, b) ∈ bs /\ succeeds (te_desc t) b
    else (exists b, (id, b) ∈ bs /\ ~ succeeds (te_desc t) b) \/
         exists text, Send (mkCtrl id (Ctrl.TestFinished (-3) text)) ∈ os.

Lemma deserved_app w0 os os1 bs bs1 id ok : deserved w0 os bs id ok -> deserved w0 (os ++ os1) (bs ++ bs1) id ok.
Proof.
  intros (t & Ht & Hok). exists t. split; [done|]. destruct ok.
  - destruct Hok as (b & ? & ?). exists b. rewrite elem_of_app. tauto.
  - destruct Hok as [(b & ? & ?)|[text ?]]; [left; exists b|right; exists text]; rewrite elem_of_app; tauto.
Qed.

(** The threads of one test. *)
Lemma spawns_codes w os ths bs id t c : spawns w os ths bs -> owned id os -> un_kind id = UnitKind.Test ->
  m_tests w !! id = Some t -> c ∈ threads_codes ths -> exists b, (id, b) ∈ bs /\ (c = 0%Z <-> succeeds (te_desc t) b).
Proof.
  intros Hsp Hown Hk Ht. induction Hsp as [|id' cmd timeout dir t' b os ths bs Ht' _ IH
    |id' cmd timeout dir testname b os ths bs Hk' _ IH|o os ths bs Ho _ IH]; [by intros ?%not_elem_of_nil|..].
  all: apply Forall_cons in Hown as [Ho1 Hown].
  - rewrite (Ho1 id' eq_refl) in *. rewrite Ht in Ht'. injection Ht' as <-. rewrite threads_codes_app.
    intros [Hz|Hz]%elem_of_app.
    + apply list_elem_of_bind in Hz as (th & Hz & Hin). apply list_elem_of_fmap in Hin as (th' & -> & Hin).
      exists b. split; [by left|]. by eapply spawned_codes.
    + destruct (IH Hown Hz) as (b' & Hin & Hs). exists b'. split; [by right|done].
  - rewrite (Ho1 id' eq_refl) in *. congruence.
  - by apply IH.
Qed.

(** The books of a run that began with the manager [w0] and put out [os]: every
    recorded result was deserved, a code on its way is that of the running test,
    and the end is announced when the scenario has finished. *)
Record earned s w0 os bs (S : System) : Prop := {
  ea_tests : te_desc <$> m_tests (sy_manager S) = te_desc <$> m_tests w0;
  ea_results id r : sc_test_states s !! id = Some r -> r = TestState.Pass \/ is_fail r = true ->
    deserved w0 os bs id (negb (is_fail r));
  ea_codes i id c : sc_state s = ScenarioState.Running i -> test_sequence s !! i = Some id ->
    c ∈ sys_codes S -> deserved w0 os bs id (c =? 0)%Z;
  ea_out : io_out (m_io (sy_manager S)) = io_out (m_io w0) ++ os;
  ea_finishes : finishes os = match sc_state s with ScenarioState.ScenarioFinished => [finish_code s] | _ => [] end;
}.

(** Steps that leave the scenario alone and bring no new code on its way. *)
Lemma earned_quiet s w0 os0 bs bs1 S S' os : earned s w0 os0 bs S ->
  te_desc <$> m_tests (sy_manager S') = te_desc <$> m_tests (sy_manager S) ->
  io_out (m_io (sy_manager S')) = io_out (m_io (sy_manager S)) ++ os -> finishes os = [] ->
  (forall c, c ∈ sys_codes S' -> c ∈ sys_codes S) -> earned s w0 (os0 ++ os) (bs ++ bs1) S'.
Proof.
  intros [Et Er Ec Eo Ef] Ht Ho Hf Hc. split.
  - by rewrite Ht.
  - intros id r Hr Hpf. by apply deserved_app, Er.
  - intros i id c Hi Hid Hin. apply deserved_app. eapply Ec; [done|done|by apply Hc].
  - by rewrite Ho, Eo, app_assoc.
  - by rewrite finishes_app, Ef, Hf, app_nil_r.
Qed.

Lemma elem_of_codes_delete es i c : c ∈ flight_codes (delete i es) -> c ∈ flight_codes es.
Proof.
  unfold flight_codes. intros (e & He & Hc)%list_elem_of_omap. apply list_elem_of_omap. exists e.
  split; [by eapply elem_of_delete|done].
Qed.

(** What a thread does next was counted. *)
Lemma thread_step_codes w flight ths i id a rest es c : ths !! i = Some (id, a :: rest) -> action_sends id a es ->
  c ∈ sys_codes (mkSystem w (flight ++ es) (<[i := (id, rest)]> ths ++ (pair id <$> action_forks a))) ->
  c ∈ sys_codes (mkSystem w flight ths).
Proof.
  intros Hi Hs. unfold sys_codes. simpl. rewrite flight_codes_app, threads_codes_app, !elem_of_app.
  assert (forall c, c ∈ codes_of a \/ c ∈ thread_codes rest -> c ∈ threads_codes ths) as Hth.
  { intros c0 Hc. apply list_elem_of_bind. exists (id, a :: rest). split; [|by eapply list_elem_of_lookup_2].
    unfold thread_codes. simpl. by apply elem_of_app. }
  intros [[Hc|Hc]|[Hc|Hc]].
  - by left.
  - right. apply Hth. left. destruct Hs as [m|code text|a' _]; [destruct m|..]; simpl in Hc |- *; try by apply not_elem_of_nil in Hc.
    done.
  - right. apply list_elem_of_bind in Hc as (t & Hc & Ht). apply list_elem_of_lookup in Ht as [k Hk].
    destruct (decide (k = i)) as [->|Hne].
    + rewrite list_lookup_insert_eq in Hk by (by eapply lookup_lt_Some). injection Hk as <-. apply Hth. by right.
    + rewrite list_lookup_insert_ne in Hk by done. apply list_elem_of_bind. exists t.
      split; [done|by eapply list_elem_of_lookup_2].
  - right. apply Hth. left. destruct a as [| | | |body]; simpl in Hc; try by apply not_elem_of_nil in Hc.
    by rewrite app_nil_r in Hc.
Qed.

Context (depth program_lines : nat) (depth_enough : 4 <= depth).

(** A test that was started sends no code itself, but for the -3 that it could not
    be. *)
Lemma started_codes id w' t' cmd timeout os c :
  id ∈ m_active w' /\ is_Some (te_program t') /\ te_result t' = None /\
    cm_contents <$> sent_msgs os = [Ctrl.TestStarted] /\
    (exists dir, Spawn id cmd timeout dir ∈ os) \/
  id ∉ m_active w' /\ (exists text, sent_msgs os = mkCtrl id <$>
    [Ctrl.TestStarted; Ctrl.LogError text; Ctrl.TestFinished (-3) text; Ctrl.AdvanceScenario (-3)]) ->
  tokens os = 1 -> c ∈ flight_codes (omap event_of os) ->
  c = (-3)%Z /\ exists text, Send (mkCtrl id (Ctrl.TestFinished (-3) text)) ∈ os.
Proof.
  clear depth_enough. rewrite tokens_flight, flight_tokens_codes. intros Hans Htk Hc.
  destruct Hans as [(_ & _ & _ & _ & dir & Hspawn)|(_ & text & Hm)].
  - assert (id ∈ omap owner_of os) as Hin by (apply list_elem_of_omap; by eexists).
    apply list_elem_of_lookup in Hc as [? Hc%lookup_lt_Some], Hin as [? Hin%lookup_lt_Some]. lia.
  - split; [|exists text; apply elem_of_sent_msgs; rewrite Hm; simpl; set_solver].
    assert ((-3)%Z ∈ flight_codes (omap event_of os)) as Hin.
    { apply list_elem_of_omap. exists (Event.ManagerRequest (mkCtrl id (Ctrl.AdvanceScenario (-3)))). split; [|done].
      apply list_elem_of_omap. exists (Send (mkCtrl id (Ctrl.AdvanceScenario (-3)))). split; [|done].
      apply elem_of_sent_msgs. rewrite Hm. simpl. set_solver. }
    destruct (flight_codes (omap event_of os)) as [|c1 [|c2 l]]; simpl in Htk; [by apply not_elem_of_nil in Hc| |lia].
    apply list_elem_of_singleton in Hc, Hin. congruence.
Qed.

Lemma result_of_is_fail c : is_fail (result_of c) = negb (c =? 0)%Z.
Proof. unfold result_of. by destruct (c =? 0)%Z. Qed.

(** ** Messages *)

Section deliver.
Context p s n w0 os0 bs0 w flight ths i e w' os ths' bs
  (Hinv : system_inv p s n (mkSystem w flight ths)) (Hea : earned s w0 os0 bs0 (mkSystem w flight ths))
  (He : flight !! i = Some e) (Hok : event_ok w e)
  (Hev : session_event w e = true) (Hrun : process_message depth e w = Done (tt, w'))
  (Hout : io_out (m_io w') = io_out (m_io w) ++ os) (Hsp : spawns w' os ths' bs).
#[local] Abbreviation S' := (mkSystem w' (delete i flight ++ omap event_of os) (ths ++ ths')).

Lemma elem_of_new_codes c : c ∈ sys_codes S' ->
  (c ∈ flight_codes (delete i flight) \/ c ∈ threads_codes ths) \/
  (c ∈ flight_codes (omap event_of os) \/ c ∈ threads_codes ths').
Proof. unfold sys_codes. simpl. rewrite flight_codes_app, threads_codes_app, !elem_of_app. tauto. Qed.

Lemma earned_calm : event_token e = 0 -> earned s w0 (os0 ++ os) (bs0 ++ bs) S'.
Proof.
  intros Htok. destruct (calm_event depth w e w' (iv_mgr _ _ _ _ Hinv) Hev Htok Hrun) as [Hsame [_ (os1 & Ho1 & Hsil)]].
  rewrite Hout in Ho1. apply app_inv_head in Ho1 as <-.
  destruct (no_tokens_no_codes _ _ _ _ Hsp (silent_tokens _ Hsil)) as [Hf Ht].
  apply (earned_quiet s w0 os0 bs0 bs (mkSystem w flight ths) S' os Hea); [apply Hsame|done|by apply silent_out|].
  intros c [[Hc|Hc]|[Hc|Hc]]%elem_of_new_codes; unfold sys_codes; simpl; rewrite elem_of_app.
  - left. by eapply elem_of_codes_delete.
  - by right.
  - rewrite Hf in Hc. by apply not_elem_of_nil in Hc.
  - rewrite Ht in Hc. by apply not_elem_of_nil in Hc.
Qed.

(** When the last thing under way arrives no code is left. *)
Lemma last_codes c : event_token e = 1 -> c ∈ flight_codes (delete i flight) \/ c ∈ threads_codes ths -> False.
Proof.
  clear Hea Hok Hev Hrun Hout depth_enough.
  intros Htok. pose proof (iv_under_way _ _ _ _ Hinv) as Hu. unfold under_way in Hu. simpl in Hu.
  rewrite (flight_tokens_delete flight i e He), Htok, flight_tokens_codes, thread_tokens_codes in Hu.
  assert (awaited s <= 1) by (unfold awaited; destruct (sc_state s); lia).
  destruct (flight_codes (delete i flight)) eqn:Hf; [|simpl in Hu; lia].
  destruct (threads_codes ths) eqn:Ht; [|simpl in Hu; lia].
  by intros [?%not_elem_of_nil|?%not_elem_of_nil].
Qed.

(** The request to start a test: the only new code is that of its command. *)
Lemma earned_start id0 : start_request e = Some id0 -> earned s w0 (os0 ++ os) (bs0 ++ bs) S'.
Proof.
  intros Hst. assert (exists sender, e = Event.ManagerRequest (mkCtrl sender (Ctrl.StartTest id0))) as [sender Heq].
  { destruct e as [| | | | | |[? []]|]; try done. injection Hst as ->. by eexists. }
  assert (event_token e = 1) as Htok by by rewrite Heq.
  pose proof Hinv as [Im _ _ If _ Is _ _ _]. simpl in *.
  destruct (Is e id0 (list_elem_of_lookup_2 _ _ _ He) Hst) as (Hna & k & Hk & Hid).
  destruct (If id0 (list_elem_of_lookup_2 _ _ _ Hid)) as (t & Ht & Hfit). destruct (mi_named w Im id0 t Ht) as [_ Hkind].
  destruct (start_test_step depth depth_enough w id0 t sender Im Ht Hfit Hna) as (w1 & t' & os1 & Hrun1 & Hsa).
  rewrite Heq in Hrun. rewrite Hrun in Hrun1. injection Hrun1 as <-.
  destruct Hsa as [Ht' Hd Ho _ Hun Htk Hown Hans]. rewrite Hout in Ho. apply app_inv_head in Ho as <-.
  assert (same_run w w') as Hsame by (revert Hrun; by apply (frames_activate_test_unit same_run)).
  destruct Hea as [Et Er Ec Eo Ef]. simpl in *.
  assert (exists t0, m_tests w0 !! id0 = Some t0 /\ te_desc t0 = te_desc t') as (t0 & Ht0 & Hd0).
  { assert (te_desc <$> m_tests w0 !! id0 = Some (te_desc t')) as Hl
      by (rewrite <- lookup_fmap, <- Et, lookup_fmap, Ht; simpl; by rewrite Hd).
    apply fmap_Some in Hl as (t0 & ? & ?). by exists t0. }
  split; simpl.
  - by rewrite (sr_tests _ _ Hsame), Et.
  - intros id r Hr Hpf. by apply deserved_app, Er.
  - intros k' id c Hk' Hn Hz. rewrite Hk in Hk'. injection Hk' as <-. rewrite Hid in Hn. injection Hn as <-.
    exists t0. split; [done|]. apply elem_of_new_codes in Hz as [Hz|[Hz|Hz]]; [by destruct (last_codes c Htok Hz)|..].
    + destruct (started_codes id0 w' t' _ _ os c Hans Htk Hz) as (-> & text & Hin). right. exists text. apply elem_of_app. by right.
    + destruct (spawns_codes w' os ths' bs id0 t' c Hsp Hown Hkind Ht' Hz) as (b & Hb & Hs). rewrite <- Hd0 in Hs.
      destruct (Z.eqb_spec c 0) as [Hc|Hc]; [exists b|left; exists b]; rewrite elem_of_app; tauto.
  - by rewrite Hout, Eo, app_assoc.
  - by rewrite finishes_app, Ef, (proj2 (unheard_out _ Hun)), Hk.
Qed.

(** A step of the scenario: it records the code that arrived, and asks for a
    test at most, so no code is on its way. *)
Lemma earned_advance s' : advance_message e = true -> m_heap w' !! p = Some s' -> earned s' w0 (os0 ++ os) (bs0 ++ bs) S'.
Proof.
  intros Hadv Hs'. assert (exists id code, e = Event.ManagerRequest (mkCtrl id (Ctrl.AdvanceScenario code))) as (id0 & code & Heq).
  { destruct e as [| | | | | |[? []]|]; try done. by eexists _, _. }
  assert (event_token e = 1) as Htok by by rewrite Heq.
  pose proof Hinv as [Im Ic Ih _ _ _ _ Iu _]. simpl in *. destruct (mi_ok w Im p s Ih) as [Hwf _].
  destruct (advance_request_step depth id0 code w p s Im Ic Ih) as (s1 & tick & os1 & Ha & Hrun1 & Hrecs).
  rewrite Heq in Hrun. simpl in Hrun, Hrun1. rewrite Hrun in Hrun1. injection Hrun1 as Hw'.
  assert (os1 = os) as -> by (rewrite Hw' in Hout; simpl in Hout; by apply app_inv_head in Hout).
  assert (s1 = s') as -> by (rewrite Hw' in Hs'; simpl in Hs'; rewrite lookup_insert_eq in Hs'; congruence).
  destruct (advanced_tokens _ _ _ Ha Hwf) as [_ Htk]. destruct (advanced_outputs _ _ _ Ha Hwf) as (_ & Hst & Hfin).
  destruct (advanced_inv _ _ _ Ha Hwf) as (_ & Hwf' & _).
  destruct Hea as [Et Er Ec Eo Ef]. simpl in *. split; simpl.
  - by rewrite Hw'.
  - intros id r Hr Hpf. destruct (Hrecs id r Hr Hpf) as [Hr0|(-> & k & Hk & Hn)]; [by apply deserved_app, Er|].
    apply deserved_app. rewrite result_of_is_fail, negb_involutive. apply (Ec k); [done|done|].
    unfold sys_codes. simpl. apply elem_of_app. left. apply list_elem_of_omap. exists e.
    split; [by eapply list_elem_of_lookup_2|by rewrite Heq].
  - intros k id c Hk Hn Hz. exfalso. rewrite Hk in Htk, Hst. apply list_lookup_fmap_Some in Hn as (t & -> & Ht).
    rewrite Ht in Hst. simpl in Hst. destruct (spawns_tokens _ _ _ _ Hsp) as [Hsum _].
    rewrite Htk, flight_tokens_codes, thread_tokens_codes, started_requests, Hst in Hsum. simpl in Hsum.
    apply elem_of_new_codes in Hz as [Hz|[Hz|Hz]]; [by apply (last_codes c Htok)|..];
      apply list_elem_of_lookup in Hz as [? Hz%lookup_lt_Some]; lia.
  - by rewrite Hout, Eo, app_assoc.
  - rewrite finishes_app, Ef, Hfin. assert (awaited s = 1) as Haw.
    { unfold under_way in Iu. simpl in Iu. rewrite (flight_tokens_delete flight i e He), Htok in Iu.
      unfold awaited in *. destruct (sc_state s); lia. }
    unfold awaited in Haw. by destruct (sc_state s).
Qed.
End deliver.
(** ** Runs *)

Lemma earned_step p s n w0 os bs S m bs1 S' : system_inv p s n S -> earned s w0 os bs S -> sys_step depth S m bs1 S' ->
  exists s' os', agree s s' /\ system_inv p s' (n + m) S' /\ earned s' w0 os' (bs ++ bs1) S'.
Proof.
  intros Hinv Hea Hstep. destruct (sys_step_inv depth depth_enough p s n S m bs1 S' Hinv Hstep) as (s' & Hag & Hinv').
  exists s'. enough (exists os', earned s' w0 os' (bs ++ bs1) S') as [os' Hos'] by (exists os'; by split_and!).
  assert (m_heap (sy_manager S') = m_heap (sy_manager S) -> s' = s) as Hsame.
  { intros Hh. pose proof (iv_heap _ _ _ _ Hinv) as Hs. pose proof (iv_heap _ _ _ _ Hinv') as Hs'. rewrite Hh in Hs'. congruence. }
  destruct Hstep as [w flight ths i e w' os1 ths' bs1 He Hok Hev Hrun Hout Hsp
    |w flight ths i id a rest es Hi Hs|w flight ths i os1 Ho Hos|w flight ths e He]; simpl in *.
  - exists (os ++ os1). destruct (advance_message e) eqn:Ha; [eapply earned_advance; try done; apply (iv_heap _ _ _ _ Hinv')|].
    rewrite Hsame.
    + destruct (start_request e) as [id|] eqn:Hst; [by eapply earned_start|].
      eapply earned_calm; try done. by destruct e as [| | | | | |[? []]|].
    + apply (session_stutters depth w e w' (iv_mgr _ _ _ _ Hinv) Hev Ha Hrun).
  - rewrite Hsame by done. eexists. eapply earned_quiet; [done|done|symmetry; apply app_nil_r|done|].
    intros c. by eapply thread_step_codes.
  - rewrite Hsame by done. apply announcement_silent in Hos. exists (os ++ os1).
    eapply earned_quiet; [done|done|exact Ho|by apply silent_out|]. intros c.
    unfold sys_codes. simpl. rewrite flight_codes_app, !elem_of_app. intros [[?|Hc]|?]; [by left| |by right].
    pose proof (tokens_flight os1) as Htok. rewrite (silent_tokens _ Hos), flight_tokens_codes in Htok.
    apply list_elem_of_lookup in Hc as [? Hc%lookup_lt_Some]. lia.
  - rewrite Hsame by done. eexists. eapply earned_quiet; [done|done|symmetry; apply app_nil_r|done|]. intros c.
    unfold sys_codes. simpl. rewrite flight_codes_app, !elem_of_app. intros [[?|Hc]|?]; [by left| |by right].
    by destruct e as [| | | | | |[? []]|]; try by apply not_elem_of_nil in Hc.
Qed.

Lemma earned_run p s S n bs S' : system_inv p s 0 S -> earned s (sy_manager S) [] [] S -> sys_run depth S n bs S' ->
  exists s' os, agree s s' /\ system_inv p s' n S' /\ earned s' (sy_manager S) os bs S'.
Proof.
  intros Hinv Hea Hrun. induction Hrun as [S|S n bs S1 m bs1 S2 _ IH Hstep]; [by exists s, []|].
  destruct (IH Hinv Hea) as (s1 & os & Hag1 & Hinv1 & Hea1).
  destruct (earned_step p s1 n _ os bs S1 m bs1 S2 Hinv1 Hea1 Hstep) as (s2 & os2 & Hag2 & Hinv2 & Hea2).
  exists s2, os2. split_and!; [by transitivity s1|done|done].
Qed.

Lemma begins_earned p s S : begins p s S -> earned s (sy_manager S) [] [] S.
Proof.
  intros Hb. pose proof (begins_inv p s S Hb) as Hinv. destruct Hb as [_ _ _ Hidle _ _ _ _ _].
  destruct (mi_ok _ (iv_mgr _ _ _ _ Hinv) p s (iv_heap _ _ _ _ Hinv)) as [[Hs _ _ Hd] _]. split.
  - done.
  - intros id r Hid Hpf. exfalso. assert (id ∈ test_sequence s) as [i Hi]%list_elem_of_lookup.
    { apply elem_of_dom_2 in Hid. rewrite (st_states _ Hs) in Hid. by apply elem_of_list_to_set in Hid. }
    assert (state_at s i = Some TestState.Pending) as Hp.
    { apply (dy_pending _ _ Hd). rewrite Hidle. simpl. split; [lia|by eapply lookup_lt_Some]. }
    unfold state_at in Hp. rewrite Hi in Hp. simpl in Hp. rewrite Hid in Hp. injection Hp as ->. by destruct Hpf.
  - intros i id c Hi. congruence.
  - by rewrite app_nil_r.
  - by rewrite Hidle.
Qed.

(** The announced result is earned: the end is announced once, when the scenario
    has finished; success only when every test deserved it, and another code only
    when something failed. *)
Lemma result_earned p s S n bs S' os : begins p s S -> sys_run depth S n bs S' ->
  io_out (m_io (sy_manager S')) = io_out (m_io (sy_manager S)) ++ os ->
  exists s', m_heap (sy_manager S') !! p = Some s' /\
    finishes os = match sc_state s' with ScenarioState.ScenarioFinished => [finish_code s'] | _ => [] end /\
    (sd_timeout (sc_description s) = None -> sd_stop_after_failure_count (sc_description s) <> Some 0%Z ->
       200%Z ∈ finishes os -> forall id, id ∈ test_sequence s -> deserved (sy_manager S) os bs id true) /\
    forall code, code ∈ finishes os -> code <> 200%Z ->
      is_fail (sc_exec_start_state s') = true \/
      exists id, id ∈ test_sequence s /\ deserved (sy_manager S) os bs id false.
Proof.
  intros Hb Hrun Hout. destruct (earned_run p s S n bs S' (begins_inv _ _ _ Hb)
    (begins_earned _ _ _ Hb) Hrun) as (s' & os' & Hag & Hinv & [_ Er _ Eo Ef]).
  rewrite Hout in Eo. apply app_inv_head in Eo as <-. exists s'.
  destruct (mi_ok _ (iv_mgr _ _ _ _ Hinv) p s' (iv_heap _ _ _ _ Hinv)) as [Hwf _].
  rewrite <- (agree_test_sequence _ _ Hag). split_and!; [apply Hinv|done|..].
  - intros Ht Hc H200 id Hid. rewrite Ef in H200. destruct (sc_state s') eqn:Hst; try by apply not_elem_of_nil in H200.
    apply list_elem_of_singleton in H200. apply (Er id TestState.Pass); [|by left].
    apply (success_passed s' Hwf Hst); [by rewrite (ag_description _ _ Hag)..|done|done].
  - intros code Hin Hne. rewrite Ef in Hin. destruct (sc_state s') eqn:Hst; try by apply not_elem_of_nil in Hin.
    apply list_elem_of_singleton in Hin as ->. destruct Hwf as [Hs _ _ Hd].
    destruct (failures_failed s' _ Hs Hd) as [?|(id & r & Hid & Hr & Hfail)]; [|by left|right].
    + intros Hz. apply Hne. unfold finish_code. by rewrite Hz.
    + exists id. split; [done|]. specialize (Er id r Hr (or_intror Hfail)). by rewrite Hfail in Er.
Qed.
End earned.

(** ** A scenario of one test that passes *)

Module SampleEarned.
Import SampleManager SampleSession SampleSystem.

Definition start_event : UnitEvent := Event.ManagerRequest (mkCtrl s1 (Ctrl.StartTest a)).
Definition w6 : Manager := told start_event w5.
Definition w7 : Manager := told (advance_event a 0) w6.

(** The command of the test prints nothing and ends with 0. *)
Definition quick : Behaviour := mkBehaviour [] [] 0.
Definition log_threads : list (UnitName * Thread) := [(a, []); (a, [])].

Definition started_out : list Out :=
  [Send (mkCtrl a Ctrl.TestStarted); Spawn a "true" None "/units"; Broadcast (Event.Status (new_active a))].
Definition ended_out : list Out :=
  (fun c => Send (mkCtrl s1 c)) <$>
    [Ctrl.StopTest a; Ctrl.StopTest a; Ctrl.StopTest s1; Ctrl.ScenarioFinished 200 "all tests passed"].

Lemma w6_out : io_out (m_io w6) = io_out (m_io w5) ++ started_out.
Proof. vm_compute. reflexivity. Qed.
Lemma w7_out : io_out (m_io w7) = io_out (m_io w6) ++ ended_out.
Proof. vm_compute. reflexivity. Qed.

Lemma w5_reachable : reachable 4 0 w5.
Proof. apply told_reachable; [apply w4_reachable|by split]. Qed.
Lemma w6_reachable : reachable 4 0 w6.
Proof. apply told_reachable; [apply w5_reachable|by split]. Qed.

Lemma told_deliver w flight ths i e os ths' bs : reachable 4 0 w -> flight !! i = Some e -> event_ok w e ->
  session_event w e = true -> io_out (m_io (told e w)) = io_out (m_io w) ++ os -> spawns (told e w) os ths' bs ->
  sys_step 4 (mkSystem w flight ths) (if advance_message e then 1 else 0) bs
    (mkSystem (told e w) (delete i flight ++ omap event_of os) (ths ++ ths')).
Proof.
  intros Hr Hi Hok Hev. destruct (run_op_inv 4 0 ltac:(lia) w (OpMessage e) (reachable_inv 4 0 ltac:(lia) w Hr) Hok)
    as (w' & Hrun & _).
  assert (told e w = w') as -> by (unfold told, after; by rewrite Hrun).
  intros Hout Hsp. by apply (sys_deliver 4 w flight ths i e w' os ths' bs).
Qed.

Definition told_started : UnitEvent := Event.ManagerRequest (mkCtrl a Ctrl.TestStarted).
Definition now_active : UnitEvent := Event.Status (new_active a).

(** The test was started; its waiter sends the code; the scenario ends. *)
Definition S2 : System :=
  mkSystem w6 [told_started; now_active] ((pair a <$> spawned (test_desc) quick) ++ []).
Definition S3 : System := mkSystem w6 [told_started; now_active] (log_threads ++ [(a, [Tell (Ctrl.AdvanceScenario 0)])]).
Definition S4 : System := mkSystem w6 [told_started; now_active; advance_event a 0] (log_threads ++ [(a, [])]).
Definition S5 : System := mkSystem w7 ([told_started; now_active] ++ omap event_of ended_out) (log_threads ++ [(a, [])] ++ []).

Lemma S1_S2 : sys_step 4 S1 0 [(a, quick)] S2.
Proof.
  refine (told_deliver w5 [start_event] [] 0 start_event started_out _ [(a, quick)] w5_reachable _ _ _ w6_out _);
    [done|by split|by vm_compute|].
  apply spawns_other; [done|]. assert (exists t, m_tests w6 !! a = Some t /\ te_desc t = test_desc) as (t & Ht & <-)
    by (eexists; split; vm_compute; reflexivity).
  apply (spawns_test _ a "true" None "/units" t quick _ [] []); [exact Ht|]. apply spawns_other; [done|constructor].
Qed.

Lemma S2_S3 : sys_step 4 S2 0 [] S3.
Proof.
  apply (sys_thread 4 w6 [told_started; now_active] (sy_threads S2) 2 a (FinishOnce 0) [Tell (Ctrl.AdvanceScenario 0)] []); [done|].
  by apply sends_nothing.
Qed.

Lemma S3_S4 : sys_step 4 S3 0 [] S4.
Proof.
  apply (sys_thread 4 w6 [told_started; now_active] (sy_threads S3) 2 a (Tell (Ctrl.AdvanceScenario 0)) [] [advance_event a 0]); [done|].
  apply sends_tell.
Qed.

Lemma S4_S5 : sys_step 4 S4 1 [] S5.
Proof.
  refine (told_deliver w6 [told_started; now_active; advance_event a 0] (log_threads ++ [(a, [])]) 2 (advance_event a 0)
    ended_out [] [] w6_reachable _ _ _ w7_out _); [done|by split|by vm_compute|].
  repeat (apply spawns_other; [done|]). constructor.
Qed.

Lemma S0_S5 : sys_run 4 S0 2 [(a, quick)] S5.
Proof.
  pose proof (sys_snoc 4 _ _ _ _ _ _ _ S0_run S1_S2) as R2. pose proof (sys_snoc 4 _ _ _ _ _ _ _ R2 S2_S3) as R3.
  pose proof (sys_snoc 4 _ _ _ _ _ _ _ R3 S3_S4) as R4. exact (sys_snoc 4 _ _ _ _ _ _ _ R4 S4_S5).
Qed.

Lemma current_description w p s d : m_current_scenario w = Some p -> m_heap w !! p = Some s ->
  (p ← m_current_scenario w; s ← m_heap w !! p; Some (sc_description s)) = Some d -> sc_description s = d.
Proof. intros ->. simpl. intros ->. by intros [= <-]. Qed.

Lemma w4_description : (p ← m_current_scenario w4; s ← m_heap w4 !! p; Some (sc_description s)) = Some (scenario_desc s1).
Proof. vm_compute. reflexivity. Qed.

Lemma quick_success : deserved w4 [] [(a, quick)] a true.
Proof.
  destruct (current_state w4 ScenarioState.Idle [a]) as (p & s & Hp & Hs & Hidle & Hseq); [vm_compute; reflexivity|].
  destruct (result_earned 4 ltac:(lia) p s S0 2 [(a, quick)] S5
    ([Send (mkCtrl s1 (Ctrl.StartTest a))] ++ started_out ++ ended_out)) as (s' & _ & _ & Hall & _).
  - exact (begins_one w4 s1 0 p s w4_reachable Hp Hs Hidle Hseq a_fits a_inactive).
  - exact S0_S5.
  - change (io_out (m_io w7) = io_out (m_io w4) ++ [Send (mkCtrl s1 (Ctrl.StartTest a))] ++ started_out ++ ended_out).
    rewrite w7_out, w6_out, w5_out, <- !app_assoc. reflexivity.
  - pose proof (current_description w4 p s (scenario_desc s1) Hp Hs w4_description) as Hd.
    apply Hall; rewrite ?Hd; [reflexivity|discriminate| |].
    + apply list_elem_of_here.
    + rewrite Hseq. apply list_elem_of_here.
Qed.

End SampleEarned.
