(* ===== verification/SystemStart.v ===== *)
(** * The start of a scenario

    What the operator's request to start the scenario leads to: a state in which
    the scenario and its tests begin to run (System.begins). *)

From S2P Require Import Prelude Str Path Unit Foreign Config Events Env Samples Descriptions Interface Trigger Logger Jig Test Scenario ScenarioProps ScenarioTheorems Manager ManagerProps ManagerSafety ManagerFrames ManagerTheorems Session System.

Section start.
Context `{Libraries} `{DependyLib} `{Env} `{!EnvLaws} `{!DependyLaws}.
Context (depth : nat) (depth_enough : 4 <= depth).
Implicit Types w : Manager.

(** The activation of the current scenario, in full. *)
Lemma current_kind w p s : mgr_wf w -> m_current_scenario w = Some p -> m_heap w !! p = Some s ->
  un_kind (sc_id s) = UnitKind.Scenario /\ sc_id s ∈ m_selected w.
Proof.
  intros Hwf Hp Hs. destruct (is_current w (mw_scenarios w Hwf) p Hp) as (id & Hid & Hsel).
  destruct (is_heap w (mw_scenarios w Hwf) id p Hid) as (Hk & s0 & Hs0 & Heq & _).
  rewrite Hs in Hs0. injection Hs0 as <-. by subst id.
Qed.

Lemma activate_current w p s : mgr_inv w -> m_current_scenario w = Some p -> m_heap w !! p = Some s ->
  sc_id s ∉ m_active w -> exists s' i log, agree s s' /\ sc_state s' = ScenarioState.Idle /\
    io_out i = io_out (m_io w) ++ [Broadcast (Event.Log log); Send (mkCtrl (sc_id s) (Ctrl.AdvanceScenario 0));
                                   Broadcast (Event.Status (new_active (sc_id s)))] /\
    activate depth (sc_id s) w =
      Done (tt, w <| m_heap ::= <[p := s']> |> <| m_active ::= fun a => {[ sc_id s ]} ∪ a |> <| m_io := i |>).
Proof.
  intros Hinv Hp Hs Ha. pose proof (mi_wf w Hinv) as Hwf.
  destruct (current_kind w p s Hwf Hp Hs) as [Hk Hsel].
  destruct (activate_current_scenario p s w Hs (mw_cs w Hwf)) as (s' & i & log & Hag & _ & Hidle & Hout & Hrun).
  rewrite <- (activate_scenario_current w p s Hwf Hp Hs) in Hrun.
  eexists s', (i <| io_out ::= fun os => os ++ _ |>), log. split_and!; [done|done|simpl; by rewrite Hout, <- app_assoc|].
  unfold activate. destruct depth as [|n]; [lia|]. rewrite (bind_step _ _ _ _ _ (select_selected n _ w Hsel)), gets_step.
  rewrite bool_decide_eq_false_2, gets_step, bool_decide_eq_false_2 by auto. rewrite Hk.
  rewrite (bind_step _ _ _ _ _ Hrun). reflexivity.
Qed.

(** Silent outputs are messages that concern no scenario. *)
Lemma silent_flight os : Forall silent os -> flight_tokens (omap event_of os) = 0.
Proof.
  induction 1 as [|o os [_ Ho] _ IH]; [done|].
  assert (omap event_of (o :: os) = match event_of o with Some e => e :: omap event_of os | None => omap event_of os end)
    as -> by done.
  destruct (event_of o) as [e|] eqn:He; [|done].
  rewrite flight_tokens_cons, IH. destruct o as [[? []]|[| | | | | |[? []]|]| | |]; simpl in *; simplify_eq; done.
Qed.

(** The scenario that a request means: the current one, or the one it names. *)
Definition meant (name : option UnitName) : MM (option UnitName) :=
  match name with
  | Some scenario_name => select depth scenario_name;; mret (Some scenario_name)
  | None => current_scenario_id
  end.

Lemma meant_current w p s name : mgr_wf w -> m_current_scenario w = Some p -> m_heap w !! p = Some s ->
  name = None \/ name = Some (sc_id s) -> meant name w = Done (Some (sc_id s), w).
Proof.
  intros Hwf Hp Hs [->| ->].
  - destruct (rt_current_id w Hwf) as (cur & w' & Hrun & _ & -> & Hcur). rewrite Hp in Hcur.
    destruct Hcur as (id & -> & Hid & _). simpl. rewrite Hrun.
    destruct (is_heap w (mw_scenarios w Hwf) id p Hid) as (_ & s0 & Hs0 & <- & _). congruence.
  - destruct (current_kind w p s Hwf Hp Hs) as [_ Hsel]. simpl. destruct depth as [|n]; [lia|].
    by rewrite (bind_step _ _ _ _ _ (select_selected n _ w Hsel)).
Qed.

(** The current scenario can be started: it is not running and not active, it is
    the one that is meant, and its tests are loaded, fit the loaded jigs and are
    not active. *)
Record startable p s (name : option UnitName) w : Prop := {
  sb_current : m_current_scenario w = Some p;
  sb_heap : m_heap w !! p = Some s;
  sb_rests : is_running s = false;
  sb_name : name = None \/ name = Some (sc_id s);
  sb_inactive : sc_id s ∉ m_active w;
  sb_fit : tests_fit s w;
  sb_tests id : id ∈ test_sequence s -> id ∉ m_active w;
}.

(** The request to start the current scenario starts it: when it is not
    running and not active, and its tests are loaded, fit the loaded jigs and are
    not active, then the request - without a name, or with its own - makes the
    scenario active and idle, and of what the manager sends and broadcasts only
    the message that advances it concerns a scenario or a test.  When no other
    message or thread does, this is the state from which the scenario and its
    tests run to the end together. *)
Lemma start_request_begins w p s name sender flight ths : mgr_inv w ->
  let e := Event.ManagerRequest (mkCtrl sender (Ctrl.StartScenario name)) in event_ok w e ->
  startable p s name w -> flight_tokens flight = 0 -> calm_threads ths ->
  exists w' s' os, process_message depth e w = Done (tt, w') /\ io_out (m_io w') = io_out (m_io w) ++ os /\
    agree s s' /\ Send (mkCtrl (sc_id s) (Ctrl.AdvanceScenario 0)) ∈ os /\
    begins p s' (mkSystem w' (flight ++ omap event_of os) ths).
Proof.
  intros Hinv e Hok [Hp Hs Hidle Hname Ha Hfit Htests] Hfl Hths. pose proof (mi_wf w Hinv) as Hwf.
  destruct (activate_current w p s Hinv Hp Hs Ha) as (s' & i & log & Hag & Hst & Hout & Hact).
  destruct (run_op_inv depth 0 depth_enough w (OpMessage e) Hinv Hok) as (w' & Hrun & _).
  pose proof Hrun as Hmsg. cbn [run_op] in Hmsg. unfold e, process_message, manager_request in Hmsg. cbn [cm_contents cm_sender] in Hmsg.
  fold is_busy in Hmsg. rewrite (bind_step _ _ _ _ _ (is_busy_run w Hwf)) in Hmsg.
  assert (running_now w = false) as Hbusy by (unfold running_now; by rewrite Hp; simpl; rewrite Hs).
  rewrite Hbusy in Hmsg.
  fold (meant name) in Hmsg. rewrite (bind_step _ _ _ _ _ (meant_current w p s name Hwf Hp Hs Hname)) in Hmsg.
  rewrite (bind_step _ _ _ _ _ Hact) in Hmsg.
  set (w2 := w <| m_heap ::= <[p := s']> |> <| m_active ::= fun a => {[ sc_id s ]} ∪ a |> <| m_io := i |>) in Hmsg.
  pose proof (frames_broadcast_messages same_run _ _ _ _ Hmsg) as Hsame.
  pose proof (frames_broadcast_messages calm_run _ _ _ _ Hmsg) as [Hact' (os & Hos & Hsilent)].
  set (os0 := [Broadcast (Event.Log log); Send (mkCtrl (sc_id s) (Ctrl.AdvanceScenario 0));
    Broadcast (Event.Status (new_active (sc_id s)))]) in Hout.
  exists w', s', (os0 ++ os). split_and!; [exact Hrun| |done|by right; left|].
  { rewrite Hos. unfold w2. simpl. by rewrite Hout, <- app_assoc. }
  pose proof (silent_flight os Hsilent) as Hflight.
  split; cbn [sy_manager sy_flight sy_threads].
  - exact (manager_message_inv depth depth_enough e w w' Hinv Hok Hrun).
  - by rewrite (sr_current _ _ Hsame).
  - rewrite (sr_heap _ _ Hsame). unfold w2. simpl. apply lookup_insert_eq.
  - done.
  - intros id. rewrite (agree_test_sequence s s' Hag). intros Hid.
    exact (same_run_fit s w2 w' Hsame Hfit id Hid).
  - intros id. rewrite (agree_test_sequence s s' Hag). intros Hid Hin. apply Hact' in Hin. unfold w2 in Hin. simpl in Hin.
    apply elem_of_union in Hin as [->%elem_of_singleton|Hin]; [|by apply (Htests id)].
    destruct (Hfit _ Hid) as (t & Ht & _). apply (mi_named w Hinv) in Ht as [_ Ht].
    destruct (current_kind w p s Hwf Hp Hs). congruence.
  - rewrite omap_app, !flight_tokens_app, Hflight, Hfl. done.
  - intros e' He'. rewrite omap_app in He'. apply elem_of_app in He' as [He'|[He'|He']%elem_of_app];
      [exact (no_token_no_start _ Hfl e' He')| |exact (no_token_no_start _ Hflight e' He')].
    simpl in He'. repeat (apply elem_of_cons in He' as [->|He']; [done|]). by apply not_elem_of_nil in He'.
  - done.
Qed.

End start.

(** ** The scenario of the samples, started by an operator *)

Module SampleStart.
Import SampleManager SampleSession SampleSystem.

(** The scenario is selected, and not active yet. *)
Definition w3s : Manager := after (OpSelect s1) w3.

Lemma w3s_reachable : reachable 4 0 w3s.
Proof. by apply reach_after; [apply w3_reachable|]. Qed.

Lemma w3s_active : m_active w3s = ∅.
Proof. refine (bool_decide_eq_true_1 (m_active w3s = ∅) _). vm_compute. reflexivity. Qed.

Lemma w3s_fit : exists t, m_tests w3s !! a = Some t /\ is_ok (test_select t (jig_is_loaded w3s)) = true.
Proof. eexists. split; vm_compute; reflexivity. Qed.

Definition keyboard : UnitName := internal "terminal".

Lemma start_request_begins_witness : exists w' s' p os,
  process_message 4 (Event.ManagerRequest (mkCtrl keyboard (Ctrl.StartScenario None))) w3s = Done (tt, w') /\
  begins p s' (mkSystem w' (omap event_of os) []).
Proof.
  destruct (current_state w3s ScenarioState.Idle [a]) as (p & s & Hp & Hs & Hidle & Hseq); [vm_compute; reflexivity|].
  destruct (start_request_begins 4 ltac:(lia) w3s p s None keyboard [] []) as (w' & s' & os & Hrun & _ & _ & _ & Hb).
  - exact (reachable_inv 4 0 ltac:(lia) w3s w3s_reachable).
  - split; discriminate.
  - split.
    + exact Hp.
    + exact Hs.
    + unfold is_running. rewrite Hidle. reflexivity.
    + left. reflexivity.
    + rewrite w3s_active. apply not_elem_of_empty.
    + intros id Hid. rewrite Hseq in Hid. apply list_elem_of_singleton in Hid as ->. exact w3s_fit.
    + intros id _. rewrite w3s_active. apply not_elem_of_empty.
  - reflexivity.
  - split; reflexivity.
  - exact (ex_intro _ w' (ex_intro _ s' (ex_intro _ p (ex_intro _ os (conj Hrun Hb))))).
Defined.

End SampleStart.
