(* ===== verification/Cleanup.v ===== *)
(** * What a scenario started is stopped

    At its end a scenario asks for itself and for each of its tests to be stopped.
    These requests reach the manager like all others, so the run of System has an
    invariant: once the scenario has finished, each of them is not active any
    more, or the request to stop it is on its way. *)

From S2P Require Import Prelude Str Path Unit Foreign Config Events Env Samples Descriptions Interface Trigger Logger Jig Test Scenario ScenarioProps ScenarioTheorems Manager ManagerProps ManagerSafety ManagerFrames ManagerTheorems Session System SystemStart Earned.

Section cleanup.
Context `{Libraries} `{DependyLib} `{Env} `{!EnvLaws} `{!DependyLaws}.
Context (depth : nat) (depth_enough : 4 <= depth).
Implicit Types w : Manager.

Definition stop_request (e : UnitEvent) : option UnitName :=
  match e with Event.ManagerRequest (mkCtrl _ (Ctrl.StopTest n)) => Some n | _ => None end.

(** The units of a run: the scenario and its tests. *)
Definition of_run s (id : UnitName) : Prop := id = sc_id s \/ id ∈ test_sequence s.

Definition stopped w (flight : list UnitEvent) (id : UnitName) : Prop :=
  id ∉ m_active w \/ exists e, e ∈ flight /\ stop_request e = Some id.

Definition stops s (S : System) : Prop :=
  sc_state s = ScenarioState.ScenarioFinished -> forall id, of_run s id -> stopped (sy_manager S) (sy_flight S) id.

Lemma agree_of_run s s' id : agree s s' -> of_run s' id <-> of_run s id.
Proof.
  intros Hag. unfold of_run, sc_id. by rewrite (ag_description _ _ Hag), (agree_test_sequence _ _ Hag).
Qed.

(** ** Steps *)

Lemma stopped_mono w w' flight flight' id : m_active w' ⊆ m_active w -> flight ⊆ flight' ->
  stopped w flight id -> stopped w' flight' id.
Proof. intros Ha Hf [Hno|(e & He & Hst)]; [left; set_solver|right; exists e; split; [by apply Hf|done]]. Qed.

(** The request is handled. *)
Lemma stop_handled p s w e id w' : mgr_inv w -> m_current_scenario w = Some p -> m_heap w !! p = Some s ->
  tests_fit s w -> of_run s id -> stop_request e = Some id -> process_message depth e w = Done (tt, w') ->
  id ∉ m_active w'.
Proof.
  intros Hinv Hp Hs Hfit Hid Hst Hrun. pose proof (mi_wf w Hinv) as Hwf. destruct (current_kind w p s Hwf Hp Hs) as [Hk _].
  assert (exists sender, e = Event.ManagerRequest (mkCtrl sender (Ctrl.StopTest id))) as [sender ->].
  { destruct e as [| | | | | |[? []]|]; try done. injection Hst as ->. by eexists. }
  assert (deactivates id w /\ un_kind id <> UnitKind.Jig) as [Hd Hj].
  { unfold deactivates. destruct Hid as [->|Hid]; [by rewrite Hk|]. destruct (Hfit id Hid) as (t & Ht & _).
    destruct (mi_named w Hinv id t Ht) as [_ ->]. by rewrite Ht. }
  destruct (deactivate_run id "controller requested test stop" w) as (w1 & Hrun1 & _ & Hno).
  { split; [|done]. intros _. split; [by apply mw_cs|]. intros q Hq. rewrite Hp in Hq. injection Hq as <-. by rewrite Hs. }
  assert (w' = w1) as -> by (simpl in Hrun; unfold manager_request in Hrun; simpl in Hrun; congruence). by apply Hno.
Qed.

Lemma elem_of_delete_ne {A} (l : list A) i x y : l !! i = Some y -> x ∈ l -> x = y \/ x ∈ delete i l.
Proof. intros Hi Hx. apply delete_Permutation in Hi. rewrite Hi in Hx. by apply elem_of_cons in Hx. Qed.

(** A message is delivered. *)
Lemma stops_deliver p s n w flight ths i e w' os ths' bs s' :
  system_inv p s n (mkSystem w flight ths) -> stops s (mkSystem w flight ths) -> flight !! i = Some e ->
  event_ok w e -> session_event w e = true -> process_message depth e w = Done (tt, w') ->
  io_out (m_io w') = io_out (m_io w) ++ os -> spawns w' os ths' bs -> m_heap w' !! p = Some s' ->
  stops s' (mkSystem w' (delete i flight ++ omap event_of os) (ths ++ ths')).
Proof.
  intros Hinv Hstops He Hok Hev Hrun Hout Hsp Hs' Hfin id Hid. cbn [sy_manager sy_flight] in *.
  pose proof Hinv as [Im Ic Ih If _ Is _ _ _]. cbn [sy_manager sy_flight sy_threads] in *.
  destruct (event_token e) as [|k] eqn:Htok.
  - destruct (calm_event depth w e w' Im Hev Htok Hrun) as [Hsame [Hact _]].
    rewrite (sr_heap _ _ Hsame), Ih in Hs'. injection Hs' as ->.
    destruct (Hstops Hfin id Hid) as [Hno|(e' & He' & Hst)]; [left; set_solver|].
    destruct (elem_of_delete_ne _ _ _ _ He He') as [->|Hin]; [left; by eapply stop_handled|].
    right. exists e'. split; [|done]. apply elem_of_app. by left.
  - assert (event_token e = 1) as Hone by (destruct e as [| | | | | |[? []]|]; simpl in *; congruence).
    destruct (deliver_last p s n w flight ths i e w' os ths' bs Hinv He Hsp Hone) as (Haw & _).
    destruct (start_request e) as [id0|] eqn:Hst.
    { destruct (Is e id0 (list_elem_of_lookup_2 _ _ _ He) Hst) as (_ & j & Hj & _).
      destruct (session_stutters depth w e w' Im Hev) as [_ Hh _]; [by destruct e as [| | | | | |[? []]|]|done|].
      rewrite Hh, Ih in Hs'. congruence. }
    assert (exists sender code, e = Event.ManagerRequest (mkCtrl sender (Ctrl.AdvanceScenario code))) as (sender & code & ->)
      by (destruct e as [| | | | | |[? []]|]; try done; by eexists _, _).
    destruct (mi_ok w Im p s Ih) as [Hwf _].
    destruct (advance_request_step depth sender code w p s Im Ic Ih) as (s1 & tick & os1 & Ha & Hrun1 & _).
    simpl in Hrun, Hrun1. rewrite Hrun in Hrun1. injection Hrun1 as Hw'.
    assert (os1 = os) as -> by (rewrite Hw' in Hout; simpl in Hout; by apply app_inv_head in Hout).
    assert (s1 = s') as -> by (rewrite Hw' in Hs'; simpl in Hs'; rewrite lookup_insert_eq in Hs'; congruence).
    destruct (advanced_inv _ _ _ Ha Hwf) as (Hag & _). apply (agree_of_run s s' id Hag) in Hid.
    right. exists (Event.ManagerRequest (mkCtrl (sc_id s) (Ctrl.StopTest id))). split; [|done].
    apply elem_of_app. right. apply list_elem_of_omap.
    exists (Send (mkCtrl (sc_id s) (Ctrl.StopTest id))). split; [|done]. by eapply advanced_stops.
Qed.

Lemma stops_step p s n S m bs S' : system_inv p s n S -> stops s S -> sys_step depth S m bs S' ->
  exists s', agree s s' /\ system_inv p s' (n + m) S' /\ stops s' S'.
Proof.
  intros Hinv Hst Hstep. destruct (sys_step_inv depth depth_enough p s n S m bs S' Hinv Hstep) as (s' & Hag & Hinv').
  exists s'. split_and!; [done|done|]. pose proof (iv_heap _ _ _ _ Hinv) as Hs. pose proof (iv_heap _ _ _ _ Hinv') as Hs'.
  destruct Hstep as [w flight ths i e w' os ths' bs He Hok Hev Hrun Hout Hsp
    |w flight ths i id a rest es Hi Ha|w flight ths i os Ho Hos|w flight ths e He]; [by eapply stops_deliver|..];
    simpl in Hs, Hs'; rewrite Hs in Hs'; injection Hs' as <-; intros Hfin id' Hid;
    (eapply stopped_mono; [| |by apply Hst]; [done|]; intros x Hx; apply elem_of_app; by left).
Qed.

Lemma stops_run p s S n bs S' : system_inv p s 0 S -> stops s S -> sys_run depth S n bs S' ->
  exists s', agree s s' /\ system_inv p s' n S' /\ stops s' S'.
Proof.
  intros Hinv Hst. induction 1 as [S|S n bs S1 m bs1 S2 _ IH Hstep]; [by exists s|].
  destruct (IH Hinv Hst) as (s1 & Hag1 & Hinv1 & Hst1).
  destruct (stops_step p s1 n S1 m bs1 S2 Hinv1 Hst1 Hstep) as (s2 & Hag2 & Hinv2 & Hst2).
  exists s2. split_and!; [by transitivity s1|done|done].
Qed.

End cleanup.

(** ** The scenario of the samples *)

Module SampleCleanup.
Import SampleManager SampleSession SampleSystem SampleEarned.


End SampleCleanup.
