(* ===== verification/Library.v ===== *)
(** * The unit library ([src/src/unitlibrary.rs])

    The library keeps the descriptions of the units on disk and which of them
    changed.  A rescan unloads what changed, loads it again through the manager
    in the order of the kinds, and then selects and activates it. *)

From S2P Require Import Prelude Str Path Unit Foreign Config Events Env Samples Descriptions.
From S2P Require Import Interface Trigger Logger Jig Test Scenario Manager.

Section library.
Context `{Libraries} `{DependyLib} `{Env}.
Context (depth program_lines : nat).

(** The dirty units of a kind are a set: their map has no values. *)
Record Library := mkLibrary {
  lb_status : gmap UnitName UnitStatus;
  lb_interface_descriptions : gmap UnitName InterfaceDescription;
  lb_jig_descriptions : gmap UnitName JigDescription;
  lb_logger_descriptions : gmap UnitName LoggerDescription;
  lb_scenario_descriptions : gmap UnitName ScenarioDescription;
  lb_test_descriptions : gmap UnitName TestDescription;
  lb_trigger_descriptions : gmap UnitName TriggerDescription;
  lb_dirty_interfaces : gset UnitName;
  lb_dirty_jigs : gset UnitName;
  lb_dirty_loggers : gset UnitName;
  lb_dirty_scenarios : gset UnitName;
  lb_dirty_tests : gset UnitName;
  lb_dirty_triggers : gset UnitName;
  lb_manager : Manager;
}.

#[export] Instance eta_Library : Eta Library := mkEta _ (fun r =>
  mkLibrary (lb_status r) (lb_interface_descriptions r) (lb_jig_descriptions r)
    (lb_logger_descriptions r) (lb_scenario_descriptions r) (lb_test_descriptions r)
    (lb_trigger_descriptions r) (lb_dirty_interfaces r) (lb_dirty_jigs r) (lb_dirty_loggers r)
    (lb_dirty_scenarios r) (lb_dirty_tests r) (lb_dirty_triggers r) (lb_manager r)).

Definition library_new (io : IO) : Library :=
  mkLibrary ∅ ∅ ∅ ∅ ∅ ∅ ∅ ∅ ∅ ∅ ∅ ∅ ∅ (manager_new io).

Abbreviation LM := (M Library).

Definition on_manager {A} (m : M Manager A) : LM A :=
  zoom lb_manager (fun w l => l <| lb_manager := w |>) m.

Definition library_broadcast (e : UnitEvent) : LM unit := on_manager (io (io_broadcast e)).

Definition mark_dirty (name : UnitName) : LM unit :=
  match un_kind name with
  | UnitKind.Interface => modify (fun l => l <| lb_dirty_interfaces ::= union {[ name ]} |>)
  | UnitKind.Jig => modify (fun l => l <| lb_dirty_jigs ::= union {[ name ]} |>)
  | UnitKind.Logger => modify (fun l => l <| lb_dirty_loggers ::= union {[ name ]} |>)
  | UnitKind.Scenario => modify (fun l => l <| lb_dirty_scenarios ::= union {[ name ]} |>)
  | UnitKind.Test => modify (fun l => l <| lb_dirty_tests ::= union {[ name ]} |>)
  | UnitKind.Trigger => modify (fun l => l <| lb_dirty_triggers ::= union {[ name ]} |>)
  | UnitKind.Internal => mret tt
  end.

(** The [process_if!] macro: read the description of a unit of kind [tstkind]. *)
Definition process_if {D} (name : UnitName) (status : UnitStatus) (tstkind : UnitKind) (path : string)
    (from_path : string -> result UnitDescriptionError D) (descs : Library -> gmap UnitName D)
    (put : gmap UnitName D -> Library -> Library) : LM unit :=
  when (bool_decide (un_kind name = tstkind)) (
    mark_dirty name;;
    match from_path path with
    | Err e =>
      let text := UnitDescriptionError_fmt e in
      library_broadcast (Event.Status (new_load_failed name text));;
      modify (fun l => l <| lb_status ::= <[name := UnitStatus.LoadFailed text]> |>)
    | Ok description =>
      modify (fun l => put (<[name := description]> (descs l)) l);;
      modify (fun l => l <| lb_status ::= <[name := status]> |>);;
      n ← gets (fun l => size (descs l));
      library_broadcast (Event.Category
        (mkCategoryEvent tstkind ("Number of units on disk: " +:+ pretty n)))
    end).

(** ** The steps of a rescan *)

(** Steps 1 and 2 only add to the sets, so the order of their loops is
    immaterial: what they add is a union. *)
Definition supporting {D} (supports : D -> UnitName -> bool) (jigs : gset UnitName)
    (descs : gmap UnitName D) : gset UnitName :=
  dom (filter (fun p => existsb (supports p.2) (elements jigs) = true) descs).

Definition mark_jig_dependents (l : Library) : Library :=
  let jigs := lb_dirty_jigs l in
  l <| lb_dirty_tests ::= union (supporting test_supports_jig jigs (lb_test_descriptions l)) |>
    <| lb_dirty_scenarios ::= union (supporting scenario_supports_jig jigs (lb_scenario_descriptions l)) |>
    <| lb_dirty_interfaces ::= union (supporting interface_supports_jig jigs (lb_interface_descriptions l)) |>
    <| lb_dirty_loggers ::= union (supporting logger_supports_jig jigs (lb_logger_descriptions l)) |>
    <| lb_dirty_triggers ::= union (supporting trigger_supports_jig jigs (lb_trigger_descriptions l)) |>.

(** The loaded scenarios that use one of the tests. *)
Definition uses_one_of (tests : gset UnitName) (w : Manager) (p : positive) : bool :=
  match m_heap w !! p with
  | Some s => existsb (uses_test s) (elements tests)
  | None => false
  end.

Definition scenarios_using (tests : gset UnitName) (w : Manager) : gset UnitName :=
  dom (filter (fun p => uses_one_of tests w p.2 = true) (m_scenarios w)).

Definition mark_test_dependents (l : Library) : Library :=
  l <| lb_dirty_scenarios ::= union (scenarios_using (lb_dirty_tests l) (lb_manager l)) |>.

(** The names of a set, in the order it is iterated. *)
Definition iter_set (s : gset UnitName) : LM (list UnitName) :=
  on_manager (io (ask (fun n => env_order n (elements s)))).

(** Step 3 for one kind: forget the descriptions of what was deleted or failed to
    load, and unload it; the result is what to remove from the sets. *)
Fixpoint delete_units (what : string) (remove : UnitName -> Library -> Library) (ids : list UnitName) :
    LM (list UnitName) :=
  match ids with
  | [] => mret []
  | id :: ids =>
    o ← gets (fun l => lb_status l !! id);
    status ← unwrap ("Unable to find dirty " +:+ what +:+ " in status list") o;
    match status with
    | UnitStatus.UnloadStarted _ | UnitStatus.LoadFailed _ =>
      modify (remove id);;
      on_manager (unload depth id);;
      rest ← delete_units what remove ids;
      mret (id :: rest)
    | _ => delete_units what remove ids
    end
  end.

Definition delete_dirty (what : string) (dirty : Library -> gset UnitName)
    (remove : UnitName -> Library -> Library) : LM (list UnitName) :=
  s ← gets dirty;
  ids ← iter_set s;
  delete_units what remove ids.

Definition remove_unit (id : UnitName) : LM unit :=
  match un_kind id with
  | UnitKind.Interface => modify (fun l => l <| lb_dirty_interfaces ::= fun s => s ∖ {[ id ]} |>)
  | UnitKind.Jig => modify (fun l => l <| lb_dirty_jigs ::= fun s => s ∖ {[ id ]} |>)
  | UnitKind.Logger => modify (fun l => l <| lb_dirty_loggers ::= fun s => s ∖ {[ id ]} |>)
  | UnitKind.Scenario => modify (fun l => l <| lb_dirty_scenarios ::= fun s => s ∖ {[ id ]} |>)
  | UnitKind.Test => modify (fun l => l <| lb_dirty_tests ::= fun s => s ∖ {[ id ]} |>)
  | UnitKind.Trigger => modify (fun l => l <| lb_dirty_triggers ::= fun s => s ∖ {[ id ]} |>)
  | UnitKind.Internal => mret tt
  end;;
  modify (fun l => l <| lb_status ::= delete id |>).

Definition delete_all : LM unit :=
  jigs ← delete_dirty "jig" lb_dirty_jigs (fun id l => l <| lb_jig_descriptions ::= delete id |>);
  tests ← delete_dirty "test" lb_dirty_tests (fun id l => l <| lb_test_descriptions ::= delete id |>);
  scenarios ← delete_dirty "scenario" lb_dirty_scenarios
    (fun id l => l <| lb_scenario_descriptions ::= delete id |>);
  interfaces ← delete_dirty "interface" lb_dirty_interfaces
    (fun id l => l <| lb_interface_descriptions ::= delete id |>);
  loggers ← delete_dirty "logger" lb_dirty_loggers
    (fun id l => l <| lb_logger_descriptions ::= delete id |>);
  triggers ← delete_dirty "trigger" lb_dirty_triggers
    (fun id l => l <| lb_trigger_descriptions ::= delete id |>);
  forM (jigs ++ tests ++ scenarios ++ interfaces ++ loggers ++ triggers) remove_unit.

(** The [load_units_for_activation!] macro; the result of its loop is what to
    remove from the dirty units. *)
Fixpoint load_loop {D} (descs : Library -> gmap UnitName D)
    (load : D -> M Manager (result UnitIncompatibleReason UnitName)) (ids : list UnitName) :
    LM (list UnitName) :=
  match ids with
  | [] => mret []
  | id :: ids =>
    status ← gets (fun l => lb_status l !! id);
    description ← gets (fun l => descs l !! id);
    match status, description with
    | None, _ | _, None => rest ← load_loop descs load ids; mret (id :: rest)
    | Some status, Some description =>
      on_manager (unload depth id);;
      load_result ←
        (match status with
         | UnitStatus.LoadStarted _ | UnitStatus.UpdateStarted _ => on_manager (load description)
         | x => panic ("Unexpected unit status: " +:+ status_fmt x)
         end);
      match load_result with
      | Err e =>
        modify (fun l => l <| lb_status ::=
          <[id := UnitStatus.LoadFailed (UnitIncompatibleReason_fmt e)]> |>);;
        rest ← load_loop descs load ids; mret (id :: rest)
      | Ok _ => load_loop descs load ids
      end
    end
  end.

Definition load_units_for_activation {D} (dirty : Library -> gset UnitName)
    (put : gset UnitName -> Library -> Library) (descs : Library -> gmap UnitName D)
    (load : D -> M Manager (result UnitIncompatibleReason UnitName)) : LM unit :=
  s ← gets dirty;
  ids ← iter_set s;
  to_remove ← load_loop descs load ids;
  modify (fun l => put (dirty l ∖ list_to_set to_remove) l).

(** The [select_and_activate_units!] macro. *)
Definition select_and_activate_units (dirty : Library -> gset UnitName)
    (put : gset UnitName -> Library -> Library) : LM unit :=
  s ← gets dirty;
  ids ← iter_set s;
  forM ids (fun id => on_manager (select depth id);; on_manager (activate depth id));;
  modify (put ∅).

(** The [load_units!] macro. *)
Definition load_units {D} (dirty : Library -> gset UnitName)
    (put : gset UnitName -> Library -> Library) (descs : Library -> gmap UnitName D)
    (load : D -> M Manager (result UnitIncompatibleReason UnitName)) : LM unit :=
  load_units_for_activation dirty put descs load;;
  modify (put ∅).

Definition put_dirty_interfaces (s : gset UnitName) (l : Library) : Library := l <| lb_dirty_interfaces := s |>.
Definition put_dirty_jigs (s : gset UnitName) (l : Library) : Library := l <| lb_dirty_jigs := s |>.
Definition put_dirty_loggers (s : gset UnitName) (l : Library) : Library := l <| lb_dirty_loggers := s |>.
Definition put_dirty_scenarios (s : gset UnitName) (l : Library) : Library := l <| lb_dirty_scenarios := s |>.
Definition put_dirty_tests (s : gset UnitName) (l : Library) : Library := l <| lb_dirty_tests := s |>.
Definition put_dirty_triggers (s : gset UnitName) (l : Library) : Library := l <| lb_dirty_triggers := s |>.

Definition rescan : LM unit :=
  library_broadcast Event.RescanStart;;
  modify mark_jig_dependents;;
  modify mark_test_dependents;;
  delete_all;;
  load_units_for_activation lb_dirty_jigs put_dirty_jigs lb_jig_descriptions (load_jig depth program_lines);;
  load_units_for_activation lb_dirty_interfaces put_dirty_interfaces lb_interface_descriptions (load_interface depth);;
  load_units_for_activation lb_dirty_loggers put_dirty_loggers lb_logger_descriptions (load_logger depth);;
  load_units_for_activation lb_dirty_triggers put_dirty_triggers lb_trigger_descriptions (load_trigger depth);;
  load_units lb_dirty_tests put_dirty_tests lb_test_descriptions (load_test depth);;
  load_units lb_dirty_scenarios put_dirty_scenarios lb_scenario_descriptions (load_scenario depth);;
  select_and_activate_units lb_dirty_jigs put_dirty_jigs;;
  select_and_activate_units lb_dirty_interfaces put_dirty_interfaces;;
  select_and_activate_units lb_dirty_loggers put_dirty_loggers;;
  select_and_activate_units lb_dirty_triggers put_dirty_triggers;;
  on_manager (refresh_defaults depth);;
  library_broadcast Event.RescanFinish.

(** ** Messages, with what the files hold when they come *)

Context `{Files}.

Definition process_interface name status path : LM unit :=
  process_if name status UnitKind.Interface path interface_from_path lb_interface_descriptions
    (fun m l => l <| lb_interface_descriptions := m |>).
Definition process_logger name status path : LM unit :=
  process_if name status UnitKind.Logger path logger_from_path lb_logger_descriptions
    (fun m l => l <| lb_logger_descriptions := m |>).
Definition process_jig name status path : LM unit :=
  process_if name status UnitKind.Jig path jig_from_path lb_jig_descriptions
    (fun m l => l <| lb_jig_descriptions := m |>).
Definition process_scenario name status path : LM unit :=
  process_if name status UnitKind.Scenario path scenario_from_path lb_scenario_descriptions
    (fun m l => l <| lb_scenario_descriptions := m |>).
Definition process_test name status path : LM unit :=
  process_if name status UnitKind.Test path test_from_path lb_test_descriptions
    (fun m l => l <| lb_test_descriptions := m |>).
Definition process_trigger name status path : LM unit :=
  process_if name status UnitKind.Trigger path trigger_from_path lb_trigger_descriptions
    (fun m l => l <| lb_trigger_descriptions := m |>).

Definition library_process_message (evt : UnitEvent) : LM unit :=
  match evt with
  | Event.Status msg =>
    let name := se_name msg in
    let status := se_status msg in
    match status with
    | UnitStatus.LoadStarted path =>
      process_interface name status path;;
      process_logger name status path;;
      process_jig name status path;;
      process_scenario name status path;;
      process_test name status path;;
      process_trigger name status path
    | UnitStatus.UpdateStarted path =>
      process_interface name status path;;
      process_jig name status path;;
      process_logger name status path;;
      process_scenario name status path;;
      process_trigger name status path
    | UnitStatus.UnloadStarted path =>
      modify (fun l => l <| lb_status ::= <[name := UnitStatus.UnloadStarted path]> |>);;
      mark_dirty name
    | _ => mret tt
    end
  | Event.RescanRequest => rescan
  | _ => mret tt
  end;;
  on_manager (process_message depth evt).

End library.

Abbreviation LM := (M Library).
