(* ===== verification/LibraryProps.v ===== *)
(** * What the library keeps true

    The books of the library agree with each other and with the manager: what
    is dirty, described or loaded has a status.  A rescan that starts from such
    books meets none of its panics and leaves nothing dirty. *)

From S2P Require Import Prelude Str Path Unit Foreign Config Events Env Samples Descriptions.
From S2P Require Import Interface Trigger Logger Jig Test Scenario ScenarioProps ScenarioTheorems Manager ManagerProps ManagerSafety.
From S2P Require Import Library.

Section library.
Context `{Libraries} `{DependyLib} `{Env} `{!EnvLaws} `{!DependyLaws}.
Context (depth program_lines : nat) (depth_enough : 4 <= depth).
Implicit Types l : Library.
Implicit Types k : UnitKind.

(** ** The books *)

Definition dirty_of k l : gset UnitName :=
  match k with
  | UnitKind.Interface => lb_dirty_interfaces l
  | UnitKind.Jig => lb_dirty_jigs l
  | UnitKind.Logger => lb_dirty_loggers l
  | UnitKind.Scenario => lb_dirty_scenarios l
  | UnitKind.Test => lb_dirty_tests l
  | UnitKind.Trigger => lb_dirty_triggers l
  | UnitKind.Internal => ∅
  end.

Definition described k l : gset UnitName :=
  match k with
  | UnitKind.Interface => dom (lb_interface_descriptions l)
  | UnitKind.Jig => dom (lb_jig_descriptions l)
  | UnitKind.Logger => dom (lb_logger_descriptions l)
  | UnitKind.Scenario => dom (lb_scenario_descriptions l)
  | UnitKind.Test => dom (lb_test_descriptions l)
  | UnitKind.Trigger => dom (lb_trigger_descriptions l)
  | UnitKind.Internal => ∅
  end.

(** What the manager asks of the description of a unit. *)
Definition interface_ok (id : UnitName) (d : InterfaceDescription) : Prop := id_id d = id /\ id_format d = Text.
Definition jig_ok (id : UnitName) (d : JigDescription) : Prop :=
  jd_id d = id /\ (forall n, jd_default_scenario d = Some n -> un_kind n = UnitKind.Scenario) /\
  probe_ends program_lines d.
Definition scenario_ok (id : UnitName) (d : ScenarioDescription) : Prop :=
  sd_id d = id /\ (forall c, sd_stop_after_failure_count d = Some c -> (0 <= c)%Z) /\
  (exists n, n ∈ sd_tests d /\ n ∉ sd_assumptions d) /\ sd_timeout d = None.

Record typed l : Prop := {
  ty_interface id d : lb_interface_descriptions l !! id = Some d -> interface_ok id d;
  ty_jig id d : lb_jig_descriptions l !! id = Some d -> jig_ok id d;
  ty_logger id d : lb_logger_descriptions l !! id = Some d -> ld_id d = id;
  ty_scenario id d : lb_scenario_descriptions l !! id = Some d -> scenario_ok id d;
  ty_test id d : lb_test_descriptions l !! id = Some d -> td_id d = id;
  ty_trigger id d : lb_trigger_descriptions l !! id = Some d -> rd_id d = id;
}.

Definition loading (s : UnitStatus) : bool :=
  match s with UnitStatus.LoadStarted _ | UnitStatus.UpdateStarted _ => true | _ => false end.
Definition leaving (s : UnitStatus) : bool :=
  match s with UnitStatus.UnloadStarted _ | UnitStatus.LoadFailed _ => true | _ => false end.

Record lib_inv l : Prop := {
  li_manager : mgr_inv (lb_manager l);
  li_loaded : loaded (lb_manager l) ⊆ dom (lb_status l);
  li_status id s : lb_status l !! id = Some s -> loading s = true \/ leaving s = true;
  li_dirty k id : id ∈ dirty_of k l -> un_kind id = k /\ id ∈ dom (lb_status l);
  li_described k id : id ∈ described k l -> un_kind id = k /\ id ∈ dom (lb_status l);
  li_typed : typed l;
}.

(** What is still to be done in a rescan only gets less. *)
Record calmer l l' : Prop := {
  ca_status : dom (lb_status l') ⊆ dom (lb_status l);
  ca_dirty k : dirty_of k l' ⊆ dirty_of k l;
  ca_described k : described k l' ⊆ described k l;
}.

#[export] Instance calmer_preorder : PreOrder calmer.
Proof.
  split; [by split|]. intros l1 l2 l3 [S1 D1 E1] [S2 D2 E2]. split; intros;
    (etransitivity; [apply S2 || apply D2 || apply E2|apply S1 || apply D1 || apply E1]).
Qed.

(** Only the manager changed. *)
Ltac same_books := split; [done|by intros []|by intros []].

(** ** The manager's part *)

Lemma rt_on_manager {A} (m : M Manager A) l (R : relation Manager) Q :
  runs_to R (lb_manager l) m Q ->
  runs_to calmer l (on_manager m) (fun a l' => exists w, l' = l <| lb_manager := w |> /\ Q a w).
Proof.
  intros (a & w & Hrun & _ & HQ). exists a, (l <| lb_manager := w |>).
  unfold on_manager, zoom. rewrite Hrun. split_and!; [done|same_books|by exists w].
Qed.

Lemma lib_inv_manager l w : lib_inv l -> mgr_inv w -> loaded w ⊆ dom (lb_status l) ->
  lib_inv (l <| lb_manager := w |>).
Proof.
  intros [_ _ Hs Hd He Ht] Hw Hl. split; simpl; try done. by destruct Ht.
Qed.

(** An operation of the manager that loads nothing new. *)
Lemma rt_manager_inv {A} (m : M Manager A) l (R : relation Manager) Q : lib_inv l ->
  runs_to R (lb_manager l) m (fun a w => Q a w /\ mgr_inv w /\ loaded w ⊆ loaded (lb_manager l)) ->
  runs_to calmer l (on_manager m) (fun a l' => lib_inv l' /\ exists w, l' = l <| lb_manager := w |> /\ Q a w).
Proof.
  intros Hinv Hm. eapply rt_conseq; [by eapply rt_on_manager|done|].
  intros a l' _ (w & -> & HQ & Hw & Hl). split; [|by exists w].
  apply lib_inv_manager; [done|done|]. etransitivity; [exact Hl|apply Hinv].
Qed.

Lemma rt_manager_steady {A} (m : M Manager A) l Q : lib_inv l ->
  runs_to steady (lb_manager l) m Q ->
  runs_to calmer l (on_manager m) (fun a l' => lib_inv l' /\ exists w, l' = l <| lb_manager := w |> /\ Q a w).
Proof.
  intros Hinv (a & w & Hrun & Hst & HQ). apply (rt_manager_inv _ _ steady); [done|].
  exists a, w. split_and!; try done.
  - by apply (steady_preserves _ _ Hst), Hinv.
  - by rewrite (same_units_loaded_set _ _ (st_units _ _ Hst)).
Qed.

Lemma library_broadcast_run e l : lib_inv l ->
  runs_to calmer l (library_broadcast e)
    (fun _ l' => lib_inv l' /\ exists w, l' = l <| lb_manager := w |>).
Proof.
  intros Hinv. eapply rt_conseq; [apply rt_manager_steady with (Q := fun _ _ => True); [done|]|done|].
  - apply rt_steady, rt_io, io_total_emit.
  - intros ? l' _ (? & w & -> & _). split; [done|by exists w].
Qed.

Lemma iter_set_run s l : lib_inv l ->
  runs_to calmer l (iter_set s) (fun ids l' => lib_inv l' /\ (exists w, l' = l <| lb_manager := w |> /\
    loaded w = loaded (lb_manager l)) /\
    NoDup ids /\ forall id, id ∈ ids <-> id ∈ s).
Proof.
  intros Hinv. set (n := io_tick (m_io (lb_manager l))).
  assert (env_order n (elements s) ≡ₚ elements s) as Hperm by apply env_order_perm.
  set (w := lb_manager l <| m_io ::= set_with io_tick S |>).
  exists (env_order n (elements s)), (l <| lb_manager := w |>).
  assert (talked (lb_manager l) w) as Ht by apply talked_io.
  split; [done|]. split; [same_books|]. split_and!.
  - apply lib_inv_manager; [done| |apply Hinv].
    eapply steady_preserves; [apply talked_steady, Ht|apply Hinv].
  - by exists w.
  - rewrite Hperm. apply NoDup_elements.
  - intros id. by rewrite Hperm, elem_of_elements.
Qed.

(** ** Marking *)

Lemma supporting_described {D} (supports : D -> UnitName -> bool) jigs descs :
  supporting supports jigs descs ⊆ dom descs.
Proof. apply dom_filter_subseteq. Qed.

Lemma scenarios_using_loaded tests w : scenarios_using tests w ⊆ dom (m_scenarios w).
Proof. apply dom_filter_subseteq. Qed.

Lemma mark_jig_dependents_inv l : lib_inv l -> lib_inv (mark_jig_dependents l).
Proof.
  intros [Hm Hl Hs Hd He Ht]. split; simpl; try done; [|by destruct Ht].
  intros k id Hin.
  assert (id ∈ dirty_of k l \/ id ∈ described k l) as [?|?]; [|auto..].
  destruct k; simpl in *; rewrite ?elem_of_union in Hin; try tauto.
  all: destruct Hin as [Hin|Hin]; [right|by left]; by eapply supporting_described.
Qed.

Lemma mark_test_dependents_inv l : lib_inv l -> lib_inv (mark_test_dependents l).
Proof.
  intros [Hm Hl Hs Hd He Ht]. split; simpl; try done; [|by destruct Ht].
  intros k id Hin.
  destruct (decide (id ∈ dirty_of k l)) as [Hin'|Hno]; [by apply Hd|].
  destruct k; try done. simpl in Hin, Hno. apply elem_of_union in Hin as [Hin|Hin]; [|done].
  apply scenarios_using_loaded in Hin. split.
  - apply elem_of_dom in Hin as [p Hp].
    by apply (is_heap _ (mw_scenarios _ (mi_wf _ Hm)) id p Hp).
  - apply Hl. unfold loaded. by apply elem_of_union_l.
Qed.

(** ** Deleting *)

(** Nothing is left of a unit but its status. *)
Definition gone (id : UnitName) l : Prop :=
  id ∉ loaded (lb_manager l) /\ forall k, id ∉ described k l.

Record deleting l l' : Prop := {
  dl_inv : lib_inv l -> lib_inv l';
  dl_calmer : calmer l l';
  dl_status : lb_status l' = lb_status l;
  dl_dirty k : dirty_of k l' = dirty_of k l;
  dl_loaded : loaded (lb_manager l') ⊆ loaded (lb_manager l);
}.

#[export] Instance deleting_preorder : PreOrder deleting.
Proof.
  split; [by split|]. intros l1 l2 l3 [] []. split; [auto|by transitivity l2|congruence|intros k; congruence|].
  by etransitivity.
Qed.

Lemma gone_deleting id l l' : deleting l l' -> gone id l -> gone id l'.
Proof.
  intros [_ [_ _ He] _ _ Hl] [Hno Hd]. split; [set_solver|]. intros k Hin. by apply (Hd k), He.
Qed.

(** How a description is removed from the books of its kind. *)
Record removes k0 (remove : UnitName -> Library -> Library) : Prop := {
  rm_status id l : lb_status (remove id l) = lb_status l;
  rm_manager id l : lb_manager (remove id l) = lb_manager l;
  rm_dirty id l k : dirty_of k (remove id l) = dirty_of k l;
  rm_described id l k :
    described k (remove id l) = if decide (k = k0) then described k l ∖ {[ id ]} else described k l;
  rm_typed id l : typed l -> typed (remove id l);
}.

Ltac solve_removes := split; [done|done|by intros ?? []
  |by intros ?? []; simpl; rewrite ?dom_delete_L
  |by intros ?? []; split; simpl; try done; intros ?? [_ ?]%lookup_delete_Some; eauto].

Lemma removes_jig : removes UnitKind.Jig (fun id l => l <| lb_jig_descriptions ::= delete id |>).
Proof. solve_removes. Qed.
Lemma removes_test : removes UnitKind.Test (fun id l => l <| lb_test_descriptions ::= delete id |>).
Proof. solve_removes. Qed.
Lemma removes_scenario : removes UnitKind.Scenario (fun id l => l <| lb_scenario_descriptions ::= delete id |>).
Proof. solve_removes. Qed.
Lemma removes_interface : removes UnitKind.Interface (fun id l => l <| lb_interface_descriptions ::= delete id |>).
Proof. solve_removes. Qed.
Lemma removes_logger : removes UnitKind.Logger (fun id l => l <| lb_logger_descriptions ::= delete id |>).
Proof. solve_removes. Qed.
Lemma removes_trigger : removes UnitKind.Trigger (fun id l => l <| lb_trigger_descriptions ::= delete id |>).
Proof. solve_removes. Qed.

Lemma removes_deleting k0 remove id l : removes k0 remove -> deleting l (remove id l).
Proof.
  intros [Hs Hm Hd He Ht].
  assert (calmer l (remove id l)) as Hc.
  { split; [by rewrite Hs|intros k; by rewrite Hd|]. intros k. rewrite He. case_decide; set_solver. }
  split; [|done|done|done|by rewrite Hm].
  intros [Im Il Is Id Ie It]. split; rewrite ?Hs, ?Hm; auto.
  - intros k n. rewrite Hd. apply Id.
  - intros k n Hin. apply Ie. by apply (ca_described _ _ Hc).
Qed.

(** A unit of the kind is gone once it is unloaded too. *)
Lemma rt_unload id l : lib_inv l ->
  runs_to deleting l (on_manager (unload depth id)) (fun _ l' => lib_inv l' /\
    id ∉ loaded (lb_manager l') /\ exists w, l' = l <| lb_manager := w |>).
Proof.
  intros Hinv. destruct (unload_run depth depth_enough id (lb_manager l) (li_manager l Hinv))
    as ([] & w & Hrun & _ & Hw & Hl).
  assert (loaded w ⊆ loaded (lb_manager l)) as Hsub by (rewrite Hl; set_solver).
  assert (lib_inv (l <| lb_manager := w |>)) as Hinv'.
  { apply lib_inv_manager; [done|done|]. etransitivity; [exact Hsub|apply Hinv]. }
  exists tt, (l <| lb_manager := w |>). unfold on_manager, zoom. rewrite Hrun. split_and!; [done| |done| |].
  - split; [done|same_books|done|by intros []|done].
  - simpl. rewrite Hl. set_solver.
  - by exists w.
Qed.

Definition is_leaving l (id : UnitName) : Prop := exists s, lb_status l !! id = Some s /\ leaving s = true.

Lemma delete_units_run k0 what remove ids l : removes k0 remove -> lib_inv l ->
  (forall id, id ∈ ids -> id ∈ dirty_of k0 l) ->
  runs_to deleting l (delete_units depth what remove ids) (fun rm l' => lib_inv l' /\
    (forall id, id ∈ rm <-> id ∈ ids /\ is_leaving l id) /\ (forall id, id ∈ rm -> gone id l')).
Proof.
  intros Hrm. revert l. induction ids as [|id ids IH]; intros l Hinv Hids; simpl.
  { rt_ret. split_and!; [done|intros id; set_solver|set_solver]. }
  apply rt_gets_bind. destruct (li_dirty l Hinv k0 id) as [Hk Hin]; [apply Hids; by left|].
  apply elem_of_dom in Hin as [s Hs]. rewrite Hs. simpl.
  rt_bind (fun a l' => a = s /\ l' = l); [by rt_ret|]. intros ? ? _ [-> ->].
  destruct (leaving s) eqn:Hleave.
  - assert (runs_to deleting l (modify (remove id);; on_manager (unload depth id);;
      rest ← delete_units depth what remove ids; mret (id :: rest)) (fun rm l' => lib_inv l' /\
      (forall n, n ∈ rm <-> n ∈ id :: ids /\ is_leaving l n) /\ (forall n, n ∈ rm -> gone n l'))) as Hrun;
      [|by destruct s].
    rt_bind (fun _ l' => l' = remove id l); [by apply rt_modify; [eapply removes_deleting|]|].
    intros ? ? Hd1 ->. pose proof (dl_inv _ _ Hd1 Hinv) as Hinv1.
    rt_bind _; [by apply rt_unload|]. intros ? l2 Hd2 (Hinv2 & Hno & w & Hl2).
    rt_bind _; [apply IH; [done|]|].
    { intros n Hn. rewrite (dl_dirty _ _ Hd2), (dl_dirty _ _ Hd1). apply Hids. by right. }
    intros rest l3 Hd3 (Hinv3 & Hrest & Hgone). rt_ret.
    assert (forall n, is_leaving l2 n <-> is_leaving l n) as Hsame.
    { intros n. unfold is_leaving. by rewrite (dl_status _ _ Hd2), (dl_status _ _ Hd1). }
    split_and!; [done| |].
    + intros n. rewrite !elem_of_cons, Hrest, Hsame. split; [|tauto].
      intros [->|]; [|tauto]. split; [by left|]. by exists s.
    + intros n [->|Hn]%elem_of_cons; [|by apply Hgone].
      apply (gone_deleting _ _ _ Hd3). split; [done|]. subst l2. intros k Hin.
      change (described k (remove id l <| lb_manager := w |>)) with (described k (remove id l)) in Hin.
      rewrite (rm_described _ _ Hrm) in Hin. case_decide as Hkk; [by apply elem_of_difference in Hin as [_ []%not_elem_of_singleton]|].
      apply (li_described l Hinv) in Hin as [Hk' _]. congruence.
  - assert (runs_to deleting l (delete_units depth what remove ids) (fun rm l' => lib_inv l' /\
      (forall n, n ∈ rm <-> n ∈ id :: ids /\ is_leaving l n) /\ (forall n, n ∈ rm -> gone n l'))) as Hrun;
      [|by destruct s].
    eapply rt_conseq; [apply IH; [done|intros n Hn; apply Hids; by right]|done|].
    intros rm l' _ (Hinv' & Hr & Hg). split_and!; [done| |done].
    intros n. rewrite Hr, elem_of_cons. split; [tauto|]. intros [[->|] Hl]; [|tauto].
    destruct Hl as (s' & Hs' & Hl). congruence.
Qed.

Lemma iter_set_deleting s l : lib_inv l ->
  runs_to deleting l (iter_set s) (fun ids _ => forall id, id ∈ ids <-> id ∈ s).
Proof.
  intros Hinv. destruct (iter_set_run s l Hinv) as (ids & l' & Hrun & Hc & Hinv' & (w & -> & Hw) & _ & Hids).
  exists ids, (l <| lb_manager := w |>). split_and!; [done| |done].
  split; [done|done|done|by intros []|by simpl; rewrite Hw].
Qed.

(** What the deletion of some kinds has done since [l0]: [rms] is what was dirty
    and leaving, and all of it is gone. *)
Record deleted l0 (ks : list UnitKind) (rms : list UnitName) l : Prop := {
  de_deleting : deleting l0 l;
  de_inv : lib_inv l;
  de_removed id : id ∈ rms <-> is_leaving l0 id /\ exists k, k ∈ ks /\ id ∈ dirty_of k l0;
  de_gone id : id ∈ rms -> gone id l;
}.

Lemma delete_dirty_run l0 ks rms k what dirty remove l : removes k remove -> (forall l, dirty l = dirty_of k l) ->
  deleted l0 ks rms l ->
  runs_to calmer l (delete_dirty depth what dirty remove) (fun rm l' => deleted l0 (ks ++ [k]) (rms ++ rm) l').
Proof.
  intros Hrm Hdirty [H0l Hinv Hrms Hgone]. eapply rt_conseq with (R' := deleting); [|by intros l' []|by intros ?? _ Hq; exact Hq].
  unfold delete_dirty. apply rt_gets_bind. rt_bind _; [by apply iter_set_deleting|]. intros ids l1 Hd1 Hids.
  pose proof (dl_inv _ _ Hd1 Hinv) as Hinv1. assert (deleting l0 l1) as H01 by (by transitivity l).
  eapply rt_conseq; [eapply delete_units_run; [exact Hrm|done|]|done|].
  { intros id Hid%Hids. by rewrite (dl_dirty _ _ Hd1), <- Hdirty. }
  intros rm l' Hd2 (Hinv' & Hr & Hg). split; [by transitivity l1|done| |].
  - intros id. specialize (Hrms id). specialize (Hr id). specialize (Hids id).
    rewrite Hdirty, (dl_dirty _ _ H0l) in Hids. unfold is_leaving in Hr. rewrite (dl_status _ _ H01) in Hr.
    rewrite elem_of_app, Hrms, Hr, Hids. setoid_rewrite elem_of_app.
    setoid_rewrite list_elem_of_singleton. unfold is_leaving. naive_solver.
  - intros id [Hid|Hid]%elem_of_app; [|by apply Hg].
    apply (gone_deleting _ l1); [done|]. apply (gone_deleting _ l); [done|]. by apply Hgone.
Qed.

(** The loop that forgets what was deleted. *)
Record forgetting (rm : list UnitName) l l' : Prop := {
  fg_calmer : calmer l l';
  fg_manager : lb_manager l' = lb_manager l;
  fg_described k : described k l' = described k l;
  fg_status id : id ∉ rm -> lb_status l' !! id = lb_status l !! id;
}.

Lemma gone_forgetting rm id l l' : forgetting rm l l' -> gone id l -> gone id l'.
Proof. intros [_ Hm Hd _] [Hno Hk]. split; [by rewrite Hm|]. intros k. rewrite Hd. apply Hk. Qed.

Lemma remove_unit_run id l : lib_inv l -> gone id l -> exists l',
  remove_unit id l = Done (tt, l') /\ lib_inv l' /\ forgetting [id] l l' /\ lb_status l' !! id = None.
Proof.
  intros [Im Il Is Id Ie It] [Hno Hk].
  assert (exists l', remove_unit id l = Done (tt, l') /\ lb_manager l' = lb_manager l /\
    lb_status l' = delete id (lb_status l) /\ (forall k, described k l' = described k l) /\
    (typed l -> typed l') /\
    (forall k, dirty_of k l' = if decide (k = un_kind id) then dirty_of k l ∖ {[ id ]} else dirty_of k l))
    as (l' & Hrun & Hm & Hs & Hd & Ht & Hdirty).
  { unfold remove_unit. destruct (un_kind id); (eexists; split; [reflexivity|]; split_and!; [done|done|by intros []|by destruct 1|by intros []; simpl; try set_solver]). }
  assert (forall k, dirty_of k l' ⊆ dirty_of k l) as Hsub
    by (intros k; rewrite Hdirty; case_decide; set_solver).
  exists l'. split; [done|]. split_and!; [split| |by rewrite Hs, lookup_delete_eq].
  - by rewrite Hm.
  - rewrite Hm, Hs, dom_delete_L. set_solver.
  - intros n s. rewrite Hs, lookup_delete_Some. intros [_ Hn]. by eapply Is.
  - intros k n Hin. pose proof (Hsub k n Hin) as Hin0. destruct (Id k n Hin0) as [Hkn Hdom].
    split; [done|]. rewrite Hs, dom_delete_L. apply elem_of_difference. split; [done|].
    intros ->%elem_of_singleton. rewrite Hdirty in Hin. case_decide; [set_solver|congruence].
  - intros k n. rewrite Hd. intros Hin. destruct (Ie k n Hin) as [Hkn Hdom]. split; [done|].
    rewrite Hs, dom_delete_L. apply elem_of_difference. split; [done|].
    intros ->%elem_of_singleton. by apply (Hk k).
  - by apply Ht.
  - split; [split; [rewrite Hs, dom_delete_L; set_solver|done|intros k; by rewrite Hd]|done|done|].
    intros n Hn. rewrite Hs, lookup_delete_ne; [done|]. intros <-. apply Hn. by left.
Qed.

Lemma remove_units_run ids l : lib_inv l -> (forall id, id ∈ ids -> gone id l) -> exists l',
  forM ids remove_unit l = Done (tt, l') /\ lib_inv l' /\ forgetting ids l l' /\
  forall id, id ∈ ids -> lb_status l' !! id = None.
Proof.
  revert l. induction ids as [|id ids IH]; intros l Hinv Hg; simpl.
  { exists l. split_and!; [done|done|by split|]. by intros id ?%not_elem_of_nil. }
  destruct (remove_unit_run id l Hinv) as (l1 & Hrun & Hinv1 & Hf1 & Hnone1); [apply Hg; by left|].
  destruct (IH l1 Hinv1) as (l2 & Hrun2 & Hinv2 & Hf2 & Hnone2).
  { intros n Hn. eapply gone_forgetting; [exact Hf1|]. apply Hg. by right. }
  exists l2. rewrite (bind_step _ _ _ _ _ Hrun). split_and!; [done|done| |].
  - destruct Hf1 as [C1 M1 D1 S1], Hf2 as [C2 M2 D2 S2].
    split; [by transitivity l1|congruence|intros k; congruence|].
    intros n [Hne Hn]%not_elem_of_cons. rewrite S2 by done. apply S1. set_solver.
  - intros n [->|Hn]%elem_of_cons; [|by apply Hnone2].
    destruct (decide (id ∈ ids)) as [|Hni]; [by apply Hnone2|].
    by rewrite (fg_status _ _ _ Hf2) by done.
Qed.

(** After the deletion every dirty unit is to be loaded. *)
Definition ready l : Prop :=
  forall k id, id ∈ dirty_of k l -> exists s, lb_status l !! id = Some s /\ loading s = true.

(** Nothing is known of a unit any more. *)
Definition forgotten (id : UnitName) l : Prop := lb_status l !! id = None /\ gone id l.

Lemma loading_leaving s : loading s = true -> leaving s = true -> False.
Proof. by destruct s. Qed.

Lemma delete_all_run l : lib_inv l ->
  runs_to calmer l (delete_all depth) (fun _ l' => lib_inv l' /\ ready l' /\
    forall k id, id ∈ dirty_of k l -> is_leaving l id -> forgotten id l').
Proof.
  intros Hinv. unfold delete_all.
  assert (deleted l [] [] l) as D0
    by (split; [done|done|intros id; set_solver|by intros id ?%not_elem_of_nil]).
  rt_bind _; [eapply delete_dirty_run; [apply removes_jig|done|exact D0]|]. intros jigs l1 _ D1.
  rt_bind _; [eapply delete_dirty_run; [apply removes_test|done|exact D1]|]. intros tests l2 _ D2.
  rt_bind _; [eapply delete_dirty_run; [apply removes_scenario|done|exact D2]|]. intros scenarios l3 _ D3.
  rt_bind _; [eapply delete_dirty_run; [apply removes_interface|done|exact D3]|]. intros interfaces l4 _ D4.
  rt_bind _; [eapply delete_dirty_run; [apply removes_logger|done|exact D4]|]. intros loggers l5 _ D5.
  rt_bind _; [eapply delete_dirty_run; [apply removes_trigger|done|exact D5]|]. intros triggers l6 _ D6.
  rewrite <- !app_assoc in D6. simpl in D6. destruct D6 as [Hdel Hinv6 Hrms Hgone].
  destruct (remove_units_run _ l6 Hinv6 Hgone) as (l7 & Hrun & Hinv7 & Hf & Hnone).
  exists tt, l7. split; [done|]. split; [apply Hf|]. split_and!; [done| |].
  - intros k id Hid. pose proof (ca_dirty _ _ (fg_calmer _ _ _ Hf) k id Hid) as Hid6.
    destruct (li_dirty l7 Hinv7 k id Hid) as [_ Hin]. apply elem_of_dom in Hin as [s Hs]. exists s. split; [done|].
    destruct (li_status l7 Hinv7 id s Hs) as [|Hleave]; [done|]. exfalso.
    rewrite (dl_dirty _ _ Hdel) in Hid6.
    assert (id ∈ jigs ++ tests ++ scenarios ++ interfaces ++ loggers ++ triggers -> False) as Hno
      by (intros Hin; apply Hnone in Hin; congruence).
    apply Hno, Hrms. rewrite (fg_status _ _ _ Hf id Hno), (dl_status _ _ Hdel) in Hs.
    split; [by exists s|]. exists k. split; [|done]. destruct k; [by repeat constructor..|done].
  - intros k id Hid Hl. assert (id ∈ jigs ++ tests ++ scenarios ++ interfaces ++ loggers ++ triggers) as Hin.
    { apply Hrms. split; [done|]. exists k. split; [|done]. destruct k; [by repeat constructor..|done]. }
    split; [by apply Hnone|]. eapply gone_forgetting; [exact Hf|by apply Hgone].
Qed.

(** ** Loading *)

(** A scenario counts its tests in 32 bits: there is room for all units. *)
Definition small l : Prop := (Z.of_nat (size (lb_status l)) + 501 <= u32_max)%Z.

Lemma calmer_small l l' : calmer l l' -> small l -> small l'.
Proof.
  intros [Hs _ _]. unfold small. rewrite <- (size_dom (D:=gset UnitName) (lb_status l)).
  rewrite <- (size_dom (D:=gset UnitName) (lb_status l')). apply subseteq_size in Hs. lia.
Qed.

(** A loader of the manager is safe on what the library describes. *)
Record loader {D} (descs : Library -> gmap UnitName D)
    (load : D -> M Manager (result UnitIncompatibleReason UnitName)) : Prop := {
  lr_manager l w : descs (l <| lb_manager := w |>) = descs l;
  lr_load l id d : lib_inv l -> small l -> descs l !! id = Some d ->
    runs_to preserves (lb_manager l) (load d)
      (fun _ w => mgr_inv w /\ loaded w ⊆ {[ id ]} ∪ loaded (lb_manager l));
}.

Lemma failed_inv id text l : lib_inv l -> id ∈ dom (lb_status l) ->
  let l' := l <| lb_status ::= <[id := UnitStatus.LoadFailed text]> |> in
  lib_inv l' /\ calmer l l'.
Proof.
  intros [Hm Hl Hs Hd He Ht] Hid l'.
  assert (dom (lb_status l') = dom (lb_status l)) as Hdom by (simpl; rewrite dom_insert_L; set_solver).
  split; [|split; [by rewrite Hdom|by intros []|by intros []]].
  split; rewrite ?Hdom; try done; [|by destruct Ht].
  intros n s. simpl. intros [[_ <-]|[_ Hn]]%lookup_insert_Some; [by right|by eapply Hs].
Qed.

(** What the loop leaves alone. *)
Record loads (ids : list UnitName) l l' : Prop := {
  lo_calmer : calmer l l';
  lo_dirty k : dirty_of k l' = dirty_of k l;
  lo_status id : id ∉ ids -> lb_status l' !! id = lb_status l !! id;
}.

#[export] Instance loads_preorder ids : PreOrder (loads ids).
Proof.
  split; [by split|]. intros l1 l2 l3 [C1 D1 S1] [C2 D2 S2].
  split; [by transitivity l2|intros k; congruence|]. intros id Hid. by rewrite S2, S1.
Qed.

Lemma loads_mono ids ids' l l' : (forall id, id ∈ ids -> id ∈ ids') -> loads ids l l' -> loads ids' l l'.
Proof. intros Hsub [C D S]. split; [done|done|]. intros id Hid. apply S. auto. Qed.

Lemma rt_manager_loads {A} (m : M Manager A) ids l (R : relation Manager) Q :
  runs_to R (lb_manager l) m Q ->
  runs_to (loads ids) l (on_manager m) (fun a l' => exists w, l' = l <| lb_manager := w |> /\ Q a w).
Proof.
  intros (a & w & Hrun & _ & HQ). exists a, (l <| lb_manager := w |>).
  unfold on_manager, zoom. rewrite Hrun. split_and!; [done| |by exists w].
  split; [same_books|by intros []|done].
Qed.

(** One unit of the loop. *)
Lemma load_one_run {D} (descs : Library -> gmap UnitName D) load ids id s d l :
  loader descs load -> lib_inv l -> small l -> descs l !! id = Some d ->
  lb_status l !! id = Some s -> loading s = true ->
  runs_to (loads ids) l (on_manager (unload depth id);;
    (match s with
     | UnitStatus.LoadStarted _ | UnitStatus.UpdateStarted _ => on_manager (load d)
     | x => panic ("Unexpected unit status: " +:+ status_fmt x)
     end)) (fun _ l' => lib_inv l' /\ exists w, l' = l <| lb_manager := w |>).
Proof.
  intros [Hsame Hload] Hinv Hsmall Hd Hs Hloading.
  rt_bind _; [eapply rt_manager_loads, unload_run, Hinv; done|]. intros ? l1 Hl1 (w1 & -> & Hw1 & Hl).
  assert (loaded w1 ⊆ dom (lb_status l)) as Hsub1.
  { rewrite Hl. etransitivity; [|apply (li_loaded l Hinv)]. set_solver. }
  pose proof (lib_inv_manager l w1 Hinv Hw1 Hsub1) as Hinv1.
  assert (runs_to (loads ids) (l <| lb_manager := w1 |>) (on_manager (load d)) (fun _ l' => lib_inv l' /\
    exists w, l' = l <| lb_manager := w |>)) as Hrun; [|by destruct s].
  eapply rt_conseq; [eapply rt_manager_loads, (Hload (l <| lb_manager := w1 |>) id d); [done|done|]|done|].
  - by rewrite Hsame.
  - intros ? l2 _ (w & -> & Hw & Hsub). split; [|by exists w].
    apply (lib_inv_manager (l <| lb_manager := w1 |>)); [done|done|]. simpl in *.
    apply (elem_of_dom_2 (D:=gset UnitName)) in Hs. set_solver.
Qed.

(** Only what is in the result changed its status. *)
Definition failures (ids rm : list UnitName) l l' : Prop :=
  (forall id, id ∈ rm -> id ∈ ids) /\
  (forall id, id ∉ rm -> lb_status l' !! id = lb_status l !! id).

Lemma load_loop_run {D} (descs : Library -> gmap UnitName D) load ids l :
  loader descs load -> lib_inv l -> small l -> NoDup ids ->
  (forall id s, id ∈ ids -> lb_status l !! id = Some s -> loading s = true) ->
  runs_to (loads ids) l (load_loop depth descs load ids)
    (fun rm l' => lib_inv l' /\ failures ids rm l l').
Proof.
  intros Hld. revert l. induction ids as [|id ids IH]; intros l Hinv Hsmall Hnd Hst; simpl; [by rt_ret|].
  apply NoDup_cons in Hnd as [Hni Hnd].
  assert (forall l', lib_inv l' -> loads [id] l l' -> runs_to (loads (id :: ids)) l'
    (load_loop depth descs load ids) (fun rm l'' => lib_inv l'' /\ failures ids rm l' l'')) as Hrest.
  { intros l' Hinv' [Hc _ Hs]. eapply rt_conseq; [apply IH; [done| |done|]| |done].
    - by eapply calmer_small.
    - intros n s Hn. rewrite Hs by set_solver. apply Hst. by right.
    - intros ?. apply loads_mono. by right. }
  assert (forall l', lib_inv l' -> loads [id] l l' -> runs_to (loads (id :: ids)) l'
    (rest ← load_loop depth descs load ids; mret (id :: rest))
    (fun rm l'' => lib_inv l'' /\ failures (id :: ids) rm l l'')) as Hcons.
  { intros l' Hinv' Hl'. rt_bind _; [by apply Hrest|]. intros rest l2 _ (Hinv2 & Hsub & Hsame).
    rt_ret. split; [done|]. split; [set_solver|]. intros n [Hn Hn']%not_elem_of_cons.
    rewrite Hsame by done. apply (lo_status _ _ _ Hl'). set_solver. }
  apply rt_gets_bind, rt_gets_bind.
  destruct (lb_status l !! id) as [s|] eqn:Hs; [|by apply Hcons].
  destruct (descs l !! id) as [d|] eqn:Hd; [|by apply Hcons].
  apply rt_assoc. rt_bind _; [eapply load_one_run; try done; eapply Hst; [by left|done]|].
  intros r l1 Hl1 (Hinv1 & w & ->). destruct r as [n|e].
  - eapply rt_conseq; [apply Hrest; [done|]|done|].
    + split; [same_books|by intros []|done].
    + intros rm l2 _ (Hinv2 & Hsub & Hsame). split; [done|]. split; [set_solver|done].
  - assert (id ∈ dom (lb_status (l <| lb_manager := w |>))) as Hdom by by eapply elem_of_dom_2.
    destruct (failed_inv id (UnitIncompatibleReason_fmt e) _ Hinv1 Hdom) as [Hinv2 Hc2].
    assert (loads [id] l (l <| lb_manager := w |>
      <| lb_status ::= <[id := UnitStatus.LoadFailed (UnitIncompatibleReason_fmt e)]> |>)) as Hl2.
    { split; [transitivity (l <| lb_manager := w |>); [same_books|done]|by intros []|].
      intros n Hn. simpl. rewrite lookup_insert_ne; [done|]. set_solver. }
    rt_bind (fun _ l2 => l2 = (l <| lb_manager := w |>)
      <| lb_status ::= <[id := UnitStatus.LoadFailed (UnitIncompatibleReason_fmt e)]> |>).
    + apply rt_modify; [|done]. apply (loads_mono [id]); [set_solver|]. destruct Hl2 as [_ Hd2 Hs2].
      split; [done|exact Hd2|exact Hs2].
    + intros ? ? _ ->. by apply Hcons.
Qed.

(** How the dirty units of a kind are replaced. *)
Record puts k (dirty : Library -> gset UnitName) (put : gset UnitName -> Library -> Library) : Prop := {
  pt_dirty l : dirty l = dirty_of k l;
  pt_set s l k' : dirty_of k' (put s l) = if decide (k' = k) then s else dirty_of k' l;
  pt_status s l : lb_status (put s l) = lb_status l;
  pt_manager s l : lb_manager (put s l) = lb_manager l;
  pt_described s l k' : described k' (put s l) = described k' l;
  pt_typed s l : typed l -> typed (put s l);
}.

Ltac solve_puts := split; [done|by intros ?? []|done|done|by intros ?? []|by intros ?? []].
Lemma puts_jigs : puts UnitKind.Jig lb_dirty_jigs put_dirty_jigs.
Proof. solve_puts. Qed.
Lemma puts_interfaces : puts UnitKind.Interface lb_dirty_interfaces put_dirty_interfaces.
Proof. solve_puts. Qed.
Lemma puts_loggers : puts UnitKind.Logger lb_dirty_loggers put_dirty_loggers.
Proof. solve_puts. Qed.
Lemma puts_triggers : puts UnitKind.Trigger lb_dirty_triggers put_dirty_triggers.
Proof. solve_puts. Qed.
Lemma puts_tests : puts UnitKind.Test lb_dirty_tests put_dirty_tests.
Proof. solve_puts. Qed.
Lemma puts_scenarios : puts UnitKind.Scenario lb_dirty_scenarios put_dirty_scenarios.
Proof. solve_puts. Qed.

Lemma puts_calmer k dirty put s l : puts k dirty put -> s ⊆ dirty_of k l -> lib_inv l ->
  lib_inv (put s l) /\ calmer l (put s l).
Proof.
  intros [_ Hset Hst Hm Hd Ht] Hsub [Im Il Is Id Ie It].
  assert (forall k', dirty_of k' (put s l) ⊆ dirty_of k' l) as Hless
    by (intros k'; rewrite Hset; case_decide; by subst).
  split; split; rewrite ?Hm, ?Hst; try done; auto.
  - intros k' id Hin. apply Id. by apply Hless.
  - intros k' id. rewrite Hd. apply Ie.
  - intros k'. by rewrite Hd.
Qed.

(** Ready to load what is dirty. *)
Definition loadable l : Prop := lib_inv l /\ small l /\ ready l.

Lemma load_units_for_activation_run {D} k dirty put (descs : Library -> gmap UnitName D) load l :
  puts k dirty put -> loader descs load -> loadable l ->
  runs_to calmer l (load_units_for_activation depth dirty put descs load) (fun _ l' => loadable l').
Proof.
  intros Hput Hld (Hinv & Hsmall & Hready). unfold load_units_for_activation.
  apply rt_gets_bind. rt_bind _; [by apply iter_set_run|].
  intros ids l1 Hc1 (Hinv1 & (w & Hl1 & _) & Hnd & Hids).
  rewrite (pt_dirty _ _ _ Hput) in Hids.
  assert (forall k', dirty_of k' l1 = dirty_of k' l) as Hd1 by (subst l1; by intros []).
  assert (lb_status l1 = lb_status l) as Hs1 by by subst l1.
  assert (forall id s, id ∈ ids -> lb_status l1 !! id = Some s -> loading s = true) as Hst.
  { intros id s Hid%Hids Hs. destruct (Hready k id Hid) as (s' & Hs' & Hl'). rewrite Hs1 in Hs. congruence. }
  rt_bind (fun rm l2 => lib_inv l2 /\ failures ids rm l1 l2 /\ forall k', dirty_of k' l2 = dirty_of k' l1).
  { destruct (load_loop_run descs load ids l1 Hld Hinv1 (calmer_small _ _ Hc1 Hsmall) Hnd Hst)
      as (rm & l2 & Hrun & [Hc Hd _] & Hinv2 & Hf). by exists rm, l2. }
  intros rm l2 Hc2 (Hinv2 & [Hsub Hsame] & Hd2).
  destruct (puts_calmer k dirty put (dirty_of k l2 ∖ list_to_set rm) l2 Hput) as [Hinv3 Hc3]; [set_solver|done|].
  pose proof (pt_dirty _ _ _ Hput l2) as Hdirty. apply rt_modify; rewrite Hdirty; [done|]. split_and!; [done| |].
  - eapply calmer_small; [exact Hc3|]. eapply calmer_small; [exact Hc2|]. by eapply calmer_small.
  - intros k' id. rewrite (pt_status _ _ _ Hput), (pt_set _ _ _ Hput).
    intros Hin. assert (id ∉ rm /\ id ∈ dirty_of k' l) as [Hno Hin'].
    { rewrite <- Hd1, <- Hd2. case_decide as Hk; [subst k'; set_solver|]. split; [|done].
      intros Hrm%Hsub%Hids. apply (li_dirty l Hinv) in Hrm as [Hk1 _].
      apply (li_dirty l2 Hinv2) in Hin as [Hk2 _]. congruence. }
    rewrite (Hsame id Hno), Hs1. by apply (Hready k').
Qed.

(** ** The loaders *)

Lemma described_kind k id l : lib_inv l -> id ∈ described k l -> un_kind id = k.
Proof. intros Hinv Hin. by apply (li_described l Hinv) in Hin as [? _]. Qed.

(** The tests that are loaded are among the units with a status. *)
Lemma small_tests l : lib_inv l -> small l -> (Z.of_nat (size (m_tests (lb_manager l))) + 501 <= u32_max)%Z.
Proof.
  intros Hinv Hsmall. unfold small in Hsmall.
  rewrite <- (size_dom (D:=gset UnitName) (lb_status l)) in Hsmall.
  rewrite <- (size_dom (D:=gset UnitName) (m_tests (lb_manager l))).
  enough (size (dom (m_tests (lb_manager l)) : gset UnitName) <= size (dom (lb_status l) : gset UnitName)) by lia.
  apply subseteq_size. etransitivity; [|apply (li_loaded l Hinv)]. unfold loaded. set_solver.
Qed.

(** The kind of the description's name, and the name in place of the file's. *)
Ltac loader_of ok :=
  split; [done|]; intros l id d Hinv Hsmall Hd;
  pose proof (ok l (li_typed l Hinv) id d Hd) as Hok;
  pose proof (li_manager l Hinv) as Hm;
  apply (elem_of_dom_2 (D:=gset UnitName)) in Hd.

Lemma loader_jigs : loader lb_jig_descriptions (load_jig depth program_lines).
Proof.
  loader_of ty_jig. destruct Hok as (<- & Hdef & Hends).
  by apply load_jig_run; [| |apply (described_kind UnitKind.Jig _ l)|..].
Qed.
Lemma loader_interfaces : loader lb_interface_descriptions (load_interface depth).
Proof.
  loader_of ty_interface. destruct Hok as [<- Htext].
  by apply load_interface_run; [| |apply (described_kind UnitKind.Interface _ l)|].
Qed.
Lemma loader_loggers : loader lb_logger_descriptions (load_logger depth).
Proof.
  loader_of ty_logger. subst id. by apply load_logger_run; [| |apply (described_kind UnitKind.Logger _ l)].
Qed.
Lemma loader_triggers : loader lb_trigger_descriptions (load_trigger depth).
Proof.
  loader_of ty_trigger. subst id. by apply load_trigger_run; [| |apply (described_kind UnitKind.Trigger _ l)].
Qed.
Lemma loader_tests : loader lb_test_descriptions (load_test depth).
Proof.
  loader_of ty_test. subst id. by apply load_test_run; [| |apply (described_kind UnitKind.Test _ l)].
Qed.
Lemma loader_scenarios : loader lb_scenario_descriptions (load_scenario depth).
Proof.
  loader_of ty_scenario. destruct Hok as (<- & Hc & Ht & Hnone).
  apply load_scenario_run; [done|done|]. split; [by apply (described_kind UnitKind.Scenario _ l)|done|done| |by left].
  by apply small_tests.
Qed.

(** ** A rescan *)

(** Nothing of the kind is dirty any more. *)
Definition settled k l : Prop := dirty_of k l = ∅.

Lemma settled_calmer k l l' : calmer l l' -> settled k l -> settled k l'.
Proof. intros [_ Hd _] Hk. specialize (Hd k). unfold settled in *. set_solver. Qed.

Lemma clear_run k dirty put l : puts k dirty put -> loadable l ->
  runs_to calmer l (modify (put ∅)) (fun _ l' => loadable l' /\ settled k l').
Proof.
  intros Hput (Hinv & Hsmall & Hready).
  destruct (puts_calmer k dirty put ∅ l Hput) as [Hinv' Hc]; [set_solver|done|].
  apply rt_modify; [done|]. split; [split_and!|].
  - done.
  - by eapply calmer_small.
  - intros k' id Hin. rewrite (pt_status _ _ _ Hput). apply (Hready k'). by apply (ca_dirty _ _ Hc).
  - unfold settled. rewrite (pt_set _ _ _ Hput). by rewrite decide_True.
Qed.

Lemma load_units_run {D} k dirty put (descs : Library -> gmap UnitName D) load l :
  puts k dirty put -> loader descs load -> loadable l ->
  runs_to calmer l (load_units depth dirty put descs load) (fun _ l' => loadable l' /\ settled k l').
Proof.
  intros Hput Hld Hl. unfold load_units. rt_bind _; [by eapply load_units_for_activation_run|].
  intros ? l1 _ Hl1. by eapply clear_run.
Qed.

Lemma loadable_manager l w : loadable l -> lib_inv (l <| lb_manager := w |>) -> loadable (l <| lb_manager := w |>).
Proof. intros (_ & Hsmall & Hready) Hinv. split_and!; [done|done|]. intros k id Hin. apply (Hready k). by destruct k. Qed.

Lemma loadable_wf l : loadable l -> mgr_wf (lb_manager l).
Proof. intros (Hinv & _). apply (li_manager l Hinv). Qed.

Lemma rt_loadable {A} (m : M Manager A) l Q : loadable l -> runs_to steady (lb_manager l) m Q ->
  runs_to calmer l (on_manager m) (fun _ l' => loadable l').
Proof.
  intros Hl Hm. eapply rt_conseq; [apply (rt_manager_steady m l Q); [apply Hl|done]|done|].
  intros ? l' _ (Hinv & w & -> & _). by apply loadable_manager.
Qed.

Lemma select_and_activate_run ids l : loadable l ->
  runs_to calmer l (forM ids (fun id => on_manager (select depth id);; on_manager (activate depth id)))
    (fun _ l' => loadable l').
Proof.
  revert l. induction ids as [|id ids IH]; intros l Hl; simpl; [by rt_ret|].
  rt_bind (fun _ l' => loadable l').
  - rt_bind _; [by eapply rt_loadable; [|apply select_steady, loadable_wf]|].
    intros ? l1 _ Hl1. by eapply rt_loadable; [|apply activate_steady, loadable_wf].
  - intros ? l1 _ Hl1. by apply IH.
Qed.

Lemma select_and_activate_units_run k dirty put l : puts k dirty put -> loadable l ->
  runs_to calmer l (select_and_activate_units depth dirty put) (fun _ l' => loadable l' /\ settled k l').
Proof.
  intros Hput Hl. unfold select_and_activate_units. apply rt_gets_bind.
  rt_bind _; [apply iter_set_run, Hl|]. intros ids l1 _ (Hinv1 & (w & -> & _) & _ & _).
  pose proof (loadable_manager l w Hl Hinv1) as Hl1.
  rt_bind _; [by apply select_and_activate_run|]. intros ? l2 _ Hl2. by eapply clear_run.
Qed.

(** Steps 4 to 13. *)
Definition reload : M Library unit :=
  load_units_for_activation depth lb_dirty_jigs put_dirty_jigs lb_jig_descriptions (load_jig depth program_lines);;
  load_units_for_activation depth lb_dirty_interfaces put_dirty_interfaces lb_interface_descriptions (load_interface depth);;
  load_units_for_activation depth lb_dirty_loggers put_dirty_loggers lb_logger_descriptions (load_logger depth);;
  load_units_for_activation depth lb_dirty_triggers put_dirty_triggers lb_trigger_descriptions (load_trigger depth);;
  load_units depth lb_dirty_tests put_dirty_tests lb_test_descriptions (load_test depth);;
  load_units depth lb_dirty_scenarios put_dirty_scenarios lb_scenario_descriptions (load_scenario depth);;
  select_and_activate_units depth lb_dirty_jigs put_dirty_jigs;;
  select_and_activate_units depth lb_dirty_interfaces put_dirty_interfaces;;
  select_and_activate_units depth lb_dirty_loggers put_dirty_loggers;;
  select_and_activate_units depth lb_dirty_triggers put_dirty_triggers;;
  on_manager (refresh_defaults depth);;
  library_broadcast Event.RescanFinish.

Definition all_settled l : Prop := forall k, settled k l.

Lemma reload_run l : loadable l -> runs_to calmer l reload (fun _ l' => lib_inv l' /\ all_settled l').
Proof.
  intros Hl. unfold reload.
  rt_bind _; [by eapply load_units_for_activation_run; [apply puts_jigs|apply loader_jigs|]|]. intros ? l1 _ L1.
  rt_bind _; [by eapply load_units_for_activation_run; [apply puts_interfaces|apply loader_interfaces|]|]. intros ? l2 _ L2.
  rt_bind _; [by eapply load_units_for_activation_run; [apply puts_loggers|apply loader_loggers|]|]. intros ? l3 _ L3.
  rt_bind _; [by eapply load_units_for_activation_run; [apply puts_triggers|apply loader_triggers|]|]. intros ? l4 _ L4.
  rt_bind _; [by eapply load_units_run; [apply puts_tests|apply loader_tests|]|]. intros ? l5 _ [L5 S5].
  rt_bind _; [by eapply load_units_run; [apply puts_scenarios|apply loader_scenarios|]|]. intros ? l6 C6 [L6 S6].
  rt_bind _; [by eapply select_and_activate_units_run; [apply puts_jigs|]|]. intros ? l7 C7 [L7 S7].
  rt_bind _; [by eapply select_and_activate_units_run; [apply puts_interfaces|]|]. intros ? l8 C8 [L8 S8].
  rt_bind _; [by eapply select_and_activate_units_run; [apply puts_loggers|]|]. intros ? l9 C9 [L9 S9].
  rt_bind _; [by eapply select_and_activate_units_run; [apply puts_triggers|]|]. intros ? l10 C10 [L10 S10].
  rt_bind _; [by eapply rt_loadable; [|apply refresh_defaults_steady, loadable_wf]|].
  intros ? l11 C11 (Hinv11 & _ & _).
  eapply rt_conseq; [by apply library_broadcast_run|done|]. intros ? l12 C12 [Hinv12 _]. split; [done|].
  assert (forall k, settled k l10 -> settled k l12) as Hfinal
    by (intros k; apply settled_calmer; by transitivity l11).
  intros k. apply Hfinal. destruct k; [..|done]; repeat first [eassumption | eapply settled_calmer; [eassumption|]].
Qed.

(** A name without a status is unknown altogether. *)
Lemma unknown_forgotten id l : lib_inv l -> lb_status l !! id = None -> forgotten id l.
Proof.
  intros Hinv Hnone. assert (id ∉ dom (lb_status l)) as Hno by by apply not_elem_of_dom.
  split; [done|]. split.
  - intros Hin. by apply Hno, (li_loaded l Hinv).
  - intros k Hin. by apply (li_described l Hinv) in Hin as [_ ?].
Qed.

Lemma jig_dependents_more k l : dirty_of k l ⊆ dirty_of k (mark_jig_dependents l).
Proof. destruct k; simpl; set_solver. Qed.

Lemma mark_dirty_of l k :
  dirty_of k (mark_jig_dependents l) ⊆ dirty_of k (mark_test_dependents (mark_jig_dependents l)).
Proof. destruct k; simpl; set_solver. Qed.

(** From consistent books a rescan ends, with nothing dirty left. *)
Lemma rescan_run l : lib_inv l -> small l ->
  exists l', rescan depth program_lines l = Done (tt, l') /\ lib_inv l' /\ all_settled l' /\
    dom (lb_status l') ⊆ dom (lb_status l) /\
    forall k id, id ∈ dirty_of k (mark_jig_dependents l) -> is_leaving l id -> forgotten id l'.
Proof.
  intros Hinv Hsmall. unfold rescan.
  destruct (library_broadcast_run Event.RescanStart l Hinv) as ([] & l1 & Hb & _ & Hinv1 & w & ->).
  rewrite (bind_step _ _ _ _ _ Hb). clear Hb. set (l1 := l <| lb_manager := w |>) in *.
  assert (lb_status l1 = lb_status l /\
    forall k, dirty_of k (mark_jig_dependents l1) = dirty_of k (mark_jig_dependents l)) as [Hs1 Hd1]
    by (split; [done|by intros []]).
  clearbody l1. rewrite (bind_step (modify mark_jig_dependents) _ _ tt _ eq_refl).
  rewrite (bind_step (modify mark_test_dependents) _ _ tt _ eq_refl).
  pose proof (mark_dirty_of l1) as Hmore.
  assert (lb_status (mark_test_dependents (mark_jig_dependents l1)) = lb_status l) as Hs2 by done.
  pose proof (mark_test_dependents_inv _ (mark_jig_dependents_inv _ Hinv1)) as Hinv2.
  revert Hmore Hs2 Hinv2. generalize (mark_test_dependents (mark_jig_dependents l1)). intros l2 Hmore Hs2 Hinv2.
  destruct (delete_all_run l2 Hinv2) as ([] & l3 & Hrun3 & Hc3 & Hinv3 & Hready3 & Hforgot).
  rewrite (bind_step _ _ _ _ _ Hrun3).
  destruct (reload_run l3) as ([] & l4 & Hrun4 & Hc4 & Hinv4 & Hset).
  { split_and!; [done| |done]. eapply calmer_small; [exact Hc3|]. unfold small. by rewrite Hs2. }
  exists l4. split_and!; [exact Hrun4|done|done| |].
  - rewrite <- Hs2. etransitivity; [apply Hc4|apply Hc3].
  - intros k id Hin Hl. apply unknown_forgotten; [done|]. rewrite <- Hd1 in Hin. apply Hmore in Hin.
    unfold is_leaving in Hl. rewrite <- Hs2 in Hl.
    destruct (Hforgot k id Hin Hl) as [Hnone _]. apply not_elem_of_dom in Hnone.
    apply not_elem_of_dom. intros Hin4. by apply Hnone, (ca_status _ _ Hc4).
Qed.
End library.
