(* ===== verification/LibraryLoads.v ===== *)
(** * What a rescan does to the units

    A unit is known by its status, its description on disk and the description
    it is loaded with.  A rescan loads each marked unit from its description or
    notes that it failed, and leaves what is not marked as it was. *)

From S2P Require Import Prelude Str Path Unit Foreign Config Events Env Samples Descriptions.
From S2P Require Import Interface Trigger Logger Jig Test Scenario ScenarioProps ScenarioTheorems Manager ManagerProps ManagerSafety.
From S2P Require Import ManagerFrames Reload Library LibraryProps.

Section library.
Context `{Libraries} `{DependyLib} `{Env} `{!EnvLaws} `{!DependyLaws}.
Context (depth program_lines : nat).
Implicit Types l : Library.
Implicit Types k : UnitKind.
Implicit Types P : UnitName -> Prop.

(** ** What is known of a unit *)

(** The name that a description gives its unit. *)
Definition description_id (d : Description) : UnitName :=
  match d with
  | DInterface d => id_id d
  | DJig d => jd_id d
  | DLogger d => ld_id d
  | DScenario d => sd_id d
  | DTest d => td_id d
  | DTrigger d => rd_id d
  end.

(** What the unit's file says. *)
Definition described_as l (id : UnitName) : option Description :=
  match un_kind id with
  | UnitKind.Interface => DInterface <$> lb_interface_descriptions l !! id
  | UnitKind.Jig => DJig <$> lb_jig_descriptions l !! id
  | UnitKind.Logger => DLogger <$> lb_logger_descriptions l !! id
  | UnitKind.Scenario => DScenario <$> lb_scenario_descriptions l !! id
  | UnitKind.Test => DTest <$> lb_test_descriptions l !! id
  | UnitKind.Trigger => DTrigger <$> lb_trigger_descriptions l !! id
  | UnitKind.Internal => None
  end.

Definition known l (id : UnitName) : option UnitStatus * option Description * option Description :=
  (lb_status l !! id, described_as l id, loaded_as (lb_manager l) id).

Definition is_dirty l (id : UnitName) : Prop := id ∈ dirty_of (un_kind id) l.

(** The books that the loaders rely on. *)
Record sound l : Prop := {
  so_closed : heap_closed (lb_manager l);
  so_kind k id : id ∈ dirty_of k l -> un_kind id = k;
  so_named id d : described_as l id = Some d -> description_id d = id;
}.

(** Nothing is known differently of any unit. *)
Record alike l l' : Prop := {
  qu_closed : heap_closed (lb_manager l) -> heap_closed (lb_manager l');
  qu_known id : known l' id = known l id;
}.

#[export] Instance alike_preorder : PreOrder alike.
Proof.
  split; [by split|]. intros l1 l2 l3 [C1 K1] [C2 K2]. split; [auto|]. intros id. by rewrite K2, K1.
Qed.

(** Only the units of [P] may be touched. *)
Record besides P l l' : Prop := {
  be_sound : sound l -> sound l';
  be_known id : sound l -> ~ P id -> known l' id = known l id;
  be_dirty id : sound l -> ~ P id -> is_dirty l' id <-> is_dirty l id;
}.

#[export] Instance besides_preorder P : PreOrder (besides P).
Proof.
  split; [by split|]. intros l1 l2 l3 [S1 K1 D1] [S2 K2 D2]. split; [auto|..]; intros id Hs Hid.
  - by rewrite K2, K1 by auto.
  - by rewrite D2, D1 by auto.
Qed.

Lemma besides_mono P P' l l' : (forall id, P id -> P' id) -> besides P l l' -> besides P' l l'.
Proof. intros Hsub [S K D]. split; auto. Qed.

(** An operation of the manager that changes no unit, and one that changes one. *)
Lemma alike_manager {A} (m : M Manager A) : frames same_descs m -> frames alike (on_manager m).
Proof.
  intros Hm l a l'. unfold on_manager, zoom. destruct (m (lb_manager l)) as [[a' w]| |] eqn:Hrun; [|done..].
  intros [= _ <-]. apply Hm in Hrun as [C L]. split; [exact C|]. intros id. unfold known. simpl. by rewrite L.
Qed.

Lemma manager_Done {A} (m : M Manager A) l a l' : on_manager m l = Done (a, l') ->
  exists w, m (lb_manager l) = Done (a, w) /\ l' = l <| lb_manager := w |>.
Proof.
  unfold on_manager, zoom. destruct (m (lb_manager l)) as [[a' w]| |]; [|done..]. intros [= <- <-]. by exists w.
Qed.

Lemma sound_manager l w : sound l -> heap_closed w -> sound (l <| lb_manager := w |>).
Proof. intros [_ Hk Hn] Hc. split; [done| |done]. intros k id Hin. apply Hk. by destruct k. Qed.

Lemma besides_changed P id o l w : P id -> changed id o (lb_manager l) w ->
  besides P l (l <| lb_manager := w |>).
Proof.
  intros Hid [C L]. split.
  - intros Hs. apply sound_manager; [done|]. apply C, Hs.
  - intros n Hs Hn. unfold known. simpl. rewrite L by apply Hs. rewrite decide_False; [done|]. by intros ->.
  - intros n _ _. unfold is_dirty. by destruct (un_kind n).
Qed.

Lemma besides_same P l w : same_descs (lb_manager l) w -> besides P l (l <| lb_manager := w |>).
Proof.
  intros [C L]. split.
  - intros Hs. apply sound_manager; [done|]. apply C, Hs.
  - intros n Hs Hn. unfold known. simpl. by rewrite L.
  - intros n _ _. unfold is_dirty. by destruct (un_kind n).
Qed.

(** The consistent books are sound. *)
Lemma lib_inv_sound l : lib_inv program_lines l -> sound l.
Proof.
  intros Hinv. split.
  - intros id p Hp. pose proof (mw_scenarios _ (mi_wf _ (li_manager _ _ Hinv))) as Hs.
    destruct (is_heap _ Hs id p Hp) as (_ & s & Hh & _). by exists s.
  - intros k id Hin. by apply (li_dirty _ _ Hinv) in Hin as [? _].
  - pose proof (li_typed _ _ Hinv) as []. intros id d. unfold described_as.
    destruct (un_kind id); intros Hd; try done; apply fmap_Some in Hd as (d0 & Hd0 & ->); simpl.
    all: first [by eapply ty_interface | by eapply ty_jig | by eapply ty_logger | by eapply ty_scenario
      | by eapply ty_test | by eapply ty_trigger].
Qed.

(** ** Deleting *)

(** No longer described or loaded. *)
Definition cleared l (id : UnitName) : Prop := described_as l id = None /\ loaded_as (lb_manager l) id = None.

(** What the deletion of a kind relies on and keeps: the marks and the status
    are as they were in [l0], and only units of [P] were touched. *)
Record clearing P l0 l : Prop := {
  dg_besides : besides P l0 l;
  dg_cleared id : sound l0 -> cleared l0 id -> cleared l id;
  dg_status : lb_status l = lb_status l0;
  dg_dirty k : dirty_of k l = dirty_of k l0;
}.

#[export] Instance clearing_preorder P : PreOrder (clearing P).
Proof.
  split; [by split|]. intros l1 l2 l3 [B1 C1 S1 D1] [B2 C2 S2 D2].
  split; [by transitivity l2| |congruence|intros k; congruence].
  intros id Hs Hc. apply C2; [by apply B1|by apply C1].
Qed.

Lemma clearing_changed P id l w : P id -> changed id None (lb_manager l) w -> clearing P l (l <| lb_manager := w |>).
Proof.
  intros Hid Hw. split; [by eapply besides_changed| |done|by intros []].
  intros n Hs [Hd Hl]. split; [done|]. simpl. rewrite (ch_loaded _ _ _ _ Hw) by apply Hs. by case_decide.
Qed.

Lemma clearing_same P l w : same_descs (lb_manager l) w -> clearing P l (l <| lb_manager := w |>).
Proof.
  intros Hw. split; [by eapply besides_same| |done|by intros []].
  intros n Hs [Hd Hl]. split; [done|]. simpl. by rewrite (sm_loaded _ _ Hw).
Qed.

Lemma iter_set_effect (s : gset UnitName) l ids l' : iter_set s l = Done (ids, l') ->
  NoDup ids /\ (forall id, id ∈ ids <-> id ∈ s) /\ exists w, l' = l <| lb_manager := w |> /\ same_descs (lb_manager l) w.
Proof.
  intros (w & Hrun & ->)%manager_Done. pose proof (same_descs_io _ _ _ _ Hrun) as Hsame.
  injection Hrun as <- _. set (n := io_tick (m_io (lb_manager l))).
  assert (env_order n (elements s) ≡ₚ elements s) as Hperm by apply env_order_perm.
  split_and!; [rewrite Hperm; apply NoDup_elements|intros id; by rewrite Hperm, elem_of_elements|by exists w].
Qed.

(** How the descriptions of a kind are forgotten. *)
Record forgets k (remove : UnitName -> Library -> Library) : Prop := {
  fo_clearing P id l : P id -> clearing P l (remove id l);
  fo_cleared id l : un_kind id = k -> described_as (remove id l) id = None;
}.

(** A description is removed without a trace elsewhere. *)
Lemma removes_forgets k remove : removes program_lines k remove ->
  (forall id l n, described_as (remove id l) n = if decide (un_kind n = k /\ n = id) then None else described_as l n) ->
  forgets k remove.
Proof.
  intros [Hs Hm Hd _ _] He. split.
  2: { intros id l Hk. by rewrite He, decide_True. }
  intros P id l Hid.
  assert (forall n d, described_as (remove id l) n = Some d -> described_as l n = Some d) as Hsub.
  { intros n d. rewrite He. by case_decide. }
  split; [|intros n _ [Hn Hl]|by rewrite Hs|intros k'; by rewrite Hd]; [split|].
  - intros [Sc Sk Sn]. split; [by rewrite Hm|intros k' n; rewrite Hd; apply Sk|].
    intros n d ?%Hsub. by apply Sn.
  - intros n _ Hn. unfold known. rewrite Hs, Hm, He, decide_False; [done|]. by intros [_ ->].
  - intros n _ _. unfold is_dirty. by rewrite Hd.
  - split; [|by rewrite Hm]. rewrite He. by case_decide.
Qed.

Ltac solve_forgets removed := apply (removes_forgets _ _ (removed _)); intros id l n;
  unfold described_as; simpl; destruct (un_kind n) eqn:?; case_decide;
  first [ by destruct_and!; subst; rewrite ?lookup_delete_eq
        | done
        | rewrite lookup_delete_ne; [done|intros ->; tauto] ].

Lemma forgets_jig : forgets UnitKind.Jig (fun id l => l <| lb_jig_descriptions ::= delete id |>).
Proof. solve_forgets removes_jig. Qed.
Lemma forgets_test : forgets UnitKind.Test (fun id l => l <| lb_test_descriptions ::= delete id |>).
Proof. solve_forgets removes_test. Qed.
Lemma forgets_scenario : forgets UnitKind.Scenario (fun id l => l <| lb_scenario_descriptions ::= delete id |>).
Proof. solve_forgets removes_scenario. Qed.
Lemma forgets_interface : forgets UnitKind.Interface (fun id l => l <| lb_interface_descriptions ::= delete id |>).
Proof. solve_forgets removes_interface. Qed.
Lemma forgets_logger : forgets UnitKind.Logger (fun id l => l <| lb_logger_descriptions ::= delete id |>).
Proof. solve_forgets removes_logger. Qed.
Lemma forgets_trigger : forgets UnitKind.Trigger (fun id l => l <| lb_trigger_descriptions ::= delete id |>).
Proof. solve_forgets removes_trigger. Qed.

(** The effect of deleting the units [ids]: the leaving ones are cleared, the
    others are left alone. *)
Record clears P (ids rm : list UnitName) l l' : Prop := {
  cu_clearing : clearing P l l';
  cu_removed id : id ∈ rm -> P id;
  cu_cleared id : sound l -> id ∈ ids -> is_leaving l id -> id ∈ rm /\ cleared l' id;
}.

Lemma clears_cons P id ids rm l l1 l' : P id -> clearing P l l1 -> cleared l1 id -> clears P ids rm l1 l' ->
  clears P (id :: ids) (id :: rm) l l'.
Proof.
  intros Hid D1 C1 [D2 R2 C2]. split; [by etransitivity|by intros n [->|Hn]%elem_of_cons; [|apply R2]|].
  intros n Hs [->|Hn]%elem_of_cons Hl; pose proof (be_sound _ _ _ (dg_besides _ _ _ D1) Hs) as S1.
  - split; [by left|]. by apply (dg_cleared _ _ _ D2).
  - destruct (C2 n S1 Hn) as [? ?]; [|by split; [right|]]. unfold is_leaving. by rewrite (dg_status _ _ _ D1).
Qed.

Lemma delete_units_effect k what remove ids P l rm l' : forgets k remove -> sound l ->
  (forall id, id ∈ ids -> un_kind id = k /\ (is_leaving l id -> P id)) ->
  delete_units depth what remove ids l = Done (rm, l') -> clears P ids rm l l'.
Proof.
  intros Hrm. revert l rm. induction ids as [|id ids IH]; intros l rm Hs0 Hids Hrun; simpl in Hrun.
  { injection Hrun as <- <-. split; [done|by intros id ?%not_elem_of_nil|by intros id _ ?%not_elem_of_nil]. }
  apply bind_Done in Hrun as (o & l1 & [= <- <-] & Hrun).
  apply bind_Done in Hrun as (s & l1 & Hu & Hrun).
  assert (lb_status l !! id = Some s /\ l1 = l) as [Hs ->].
  { destruct (lb_status l !! id); simpl in Hu; [|done]. by injection Hu as <- <-. }
  destruct (Hids id ltac:(by left)) as [Hk HP].
  assert (forall n, n ∈ ids -> un_kind n = k /\ (is_leaving l n -> P n)) as Hids' by (intros n Hn; apply Hids; by right).
  destruct (leaving s) eqn:Hleave.
  2: { assert (clears P ids rm l l') as [D R C] by (by destruct s; try done; apply IH in Hrun).
       split; [done|done|]. intros n Hsl [->|Hn]%elem_of_cons (s' & Hs' & Hl); [congruence|by apply C; [..|exists s']]. }
  assert (P id) as Hid by (apply HP; by exists s).
  assert (exists l1 l2 rest, modify (remove id) l = Done (tt, l1) /\ on_manager (unload depth id) l1 = Done (tt, l2) /\
    delete_units depth what remove ids l2 = Done (rest, l') /\ rm = id :: rest)
    as (? & ? & rest & [= <-] & (w & Hun%unload_changes & ->)%manager_Done & Hrest & ->).
  { destruct s; try done.
    all: apply bind_Done in Hrun as ([] & l1 & Hrun1 & Hrun); apply bind_Done in Hrun as ([] & l2 & Hrun2 & Hrun).
    all: apply bind_Done in Hrun as (rest & l3 & Hrun3 & [= <- <-]); by eexists _, _, rest. }
  pose proof (fo_clearing _ _ Hrm P id l Hid) as D1.
  assert (clearing P l (remove id l <| lb_manager := w |>)) as D2 by (etransitivity; [exact D1|by eapply clearing_changed]).
  assert (sound (remove id l <| lb_manager := w |>)) as S2 by by apply D2.
  eapply clears_cons; [done|exact D2| |apply IH; [done| |done]].
  - split; [by apply (fo_cleared _ _ Hrm)|]. simpl. rewrite (ch_loaded _ _ _ _ Hun); [by rewrite decide_True|].
    apply (so_closed (remove id l)), D1, Hs0.
  - intros n Hn. unfold is_leaving. rewrite (dg_status _ _ _ D2). by apply Hids'.
Qed.

(** What the deletion of some kinds has done since [l0], with [rm] to remove. *)
Record cleared_kinds P l0 (ks : list UnitKind) (rm : list UnitName) l : Prop := {
  ck_clearing : clearing P l0 l;
  ck_removed id : id ∈ rm -> P id;
  ck_cleared id : P id -> un_kind id ∈ ks -> id ∈ rm /\ cleared l id;
}.

Lemma delete_dirty_effect what k ks rms (dirty : Library -> gset UnitName) remove l0 l rm l' :
  let P id := is_leaving l0 id /\ is_dirty l0 id in
  forgets k remove -> (forall l, dirty l = dirty_of k l) -> sound l0 -> cleared_kinds P l0 ks rms l ->
  delete_dirty depth what dirty remove l = Done (rm, l') -> cleared_kinds P l0 (ks ++ [k]) (rms ++ rm) l'.
Proof.
  intros P Hrm Hdirty Hs0 [D0 R0 C0] Hrun. unfold delete_dirty in Hrun.
  apply bind_Done in Hrun as (? & ? & [= <- <-] & Hrun).
  apply bind_Done in Hrun as (ids & l1 & (Hnd & Hids & w & -> & Hw)%iter_set_effect & Hrun).
  assert (clearing P l0 (l <| lb_manager := w |>)) as D1 by (etransitivity; [exact D0|by apply clearing_same]).
  assert (sound (l <| lb_manager := w |>)) as S1 by by apply D1.
  assert (forall id, id ∈ ids -> un_kind id = k /\ is_dirty l0 id) as Hids0.
  { intros id Hid%Hids. rewrite Hdirty, (dg_dirty _ _ _ D0) in Hid. unfold is_dirty.
    by rewrite (so_kind l0 Hs0 k id Hid). }
  assert (forall n, is_leaving (l <| lb_manager := w |>) n <-> is_leaving l0 n) as Hsame.
  { intros n. unfold is_leaving. by rewrite (dg_status _ _ _ D1). }
  apply (delete_units_effect k _ _ _ P) in Hrun as [D2 R2 C2]; [|done|done|].
  2: { intros id [Hk Hd]%Hids0. split; [done|]. by rewrite Hsame. }
  assert (sound l) as S0 by by apply D0.
  split; [by etransitivity|intros id [Hid|Hid]%elem_of_app; [by apply R0|by apply R2]|].
  intros id Hid [Hin|Hin%list_elem_of_singleton]%elem_of_app.
  - destruct (C0 id Hid Hin) as [? Hc]. split; [apply elem_of_app; by left|]. apply (dg_cleared _ _ _ D2 id S1).
    apply (dg_cleared P l); [by apply clearing_same|done|done].
  - destruct (C2 id S1) as [? Hc]; [|by apply Hsame, Hid|by split; [apply elem_of_app; right|]].
    apply Hids. rewrite Hdirty, (dg_dirty _ _ _ D0), <- Hin. apply Hid.
Qed.

Lemma remove_unit_effect P id : P id -> frames (besides P) (remove_unit id).
Proof.
  intros Hid l ? l' Hrun.
  assert (lb_manager l' = lb_manager l /\ lb_status l' = delete id (lb_status l) /\
    (forall n, described_as l' n = described_as l n) /\
    (forall k, dirty_of k l' = if decide (k = un_kind id) then dirty_of k l ∖ {[ id ]} else dirty_of k l))
    as (Hm & Hs & Hd & Hdirty).
  { unfold remove_unit in Hrun. destruct (un_kind id); injection Hrun as _ <-;
      (split_and!; [done|done|done|intros []; simpl; try done; set_solver]). }
  assert (forall k n, n <> id -> n ∈ dirty_of k l' <-> n ∈ dirty_of k l) as Hsame.
  { intros k n Hn. rewrite Hdirty. case_decide; [set_solver|done]. }
  split.
  - intros [Sc Sk Sn]. split; [by rewrite Hm| |by intros n d; rewrite Hd; apply Sn].
    intros k n Hin. apply Sk. rewrite Hdirty in Hin. case_decide; set_solver.
  - intros n _ Hn. assert (n <> id) by (by intros ->). unfold known. by rewrite Hm, Hd, Hs, lookup_delete_ne.
  - intros n _ Hn. apply Hsame. by intros ->.
Qed.

Lemma remove_unit_status id l l' : remove_unit id l = Done (tt, l') ->
  lb_status l' = delete id (lb_status l) /\ lb_manager l' = lb_manager l /\ forall n, described_as l' n = described_as l n.
Proof. unfold remove_unit. by destruct (un_kind id); intros [= <-]. Qed.

Lemma remove_units_cleared ids l l' : forM ids remove_unit l = Done (tt, l') ->
  (forall id, cleared l id -> cleared l' id) /\ (forall id, lb_status l !! id = None -> lb_status l' !! id = None) /\
  (forall id, id ∈ ids -> lb_status l' !! id = None).
Proof.
  revert l. induction ids as [|id ids IH]; intros l; simpl.
  { intros [= <-]. split_and!; [done|done|]. by intros id ?%not_elem_of_nil. }
  intros ([] & l1 & (Hs & Hm & Hd)%remove_unit_status & (C & N & R)%IH)%bind_Done. split_and!.
  - intros n [Hn Hl]. apply C. split; [by rewrite Hd|by rewrite Hm].
  - intros n Hn. apply N. rewrite Hs. apply lookup_delete_None. by right.
  - intros n [->|Hn]%elem_of_cons; [|by apply R]. apply N. rewrite Hs. apply lookup_delete_None. by left.
Qed.

(** The deletion forgets what is marked and not to be loaded, and leaves the
    other units alone. *)
Lemma delete_all_effect l l' : sound l -> delete_all depth l = Done (tt, l') ->
  let P id := is_leaving l id /\ is_dirty l id in
  besides P l l' /\ forall id, P id -> known l' id = (None, None, None).
Proof.
  intros Hs Hrun P. assert (cleared_kinds P l [] [] l) as D0.
  { split; [done|by intros id ?%not_elem_of_nil|by intros id _ ?%not_elem_of_nil]. }
  unfold delete_all in Hrun.
  apply bind_Done in Hrun as (r1 & l1 & D1%(delete_dirty_effect _ _ _ _ _ _ _ _ _ _ forgets_jig (fun _ => eq_refl) Hs D0) & Hrun).
  apply bind_Done in Hrun as (r2 & l2 & D2%(delete_dirty_effect _ _ _ _ _ _ _ _ _ _ forgets_test (fun _ => eq_refl) Hs D1) & Hrun).
  apply bind_Done in Hrun as (r3 & l3 & D3%(delete_dirty_effect _ _ _ _ _ _ _ _ _ _ forgets_scenario (fun _ => eq_refl) Hs D2) & Hrun).
  apply bind_Done in Hrun as (r4 & l4 & D4%(delete_dirty_effect _ _ _ _ _ _ _ _ _ _ forgets_interface (fun _ => eq_refl) Hs D3) & Hrun).
  apply bind_Done in Hrun as (r5 & l5 & D5%(delete_dirty_effect _ _ _ _ _ _ _ _ _ _ forgets_logger (fun _ => eq_refl) Hs D4) & Hrun).
  apply bind_Done in Hrun as (r6 & l6 & D6%(delete_dirty_effect _ _ _ _ _ _ _ _ _ _ forgets_trigger (fun _ => eq_refl) Hs D5) & Hrun).
  rewrite <- !app_assoc in D6. simpl in D6. destruct D6 as [D6 R6 C6]. split.
  - etransitivity; [apply (dg_besides _ _ _ D6)|]. revert Hrun. apply frames_forM_in; [exact _|].
    intros id Hid. by apply remove_unit_effect, R6.
  - intros id Hid. destruct (C6 id Hid) as [Hin Hc].
    { destruct Hid as [_ Hd]. revert Hd. unfold is_dirty.
      destruct (un_kind id); [by repeat constructor..|by intros ?%not_elem_of_empty]. }
    apply remove_units_cleared in Hrun as (C & _ & N). destruct (C id Hc) as [He Hl]. unfold known.
    by rewrite N, He, Hl.
Qed.

(** ** Loading *)

(** A unit with a status and a description is loaded with the description, or
    it is not loaded and the failure is noted. *)
Definition outcome_of l l' (id : UnitName) : Prop :=
  forall s d, lb_status l !! id = Some s -> described_as l id = Some d ->
  known l' id = (Some s, Some d, Some d) \/
  exists text, known l' id = (Some (UnitStatus.LoadFailed text), Some d, None).

Lemma outcome_after l l1 l' id : known l1 id = known l id -> outcome_of l1 l' id -> outcome_of l l' id.
Proof. intros [= Hs Hd _] Ho s d. rewrite <- Hs, <- Hd. apply Ho. Qed.

(** How a kind is described and loaded. *)
Record kind_loader k {D} (mk : D -> Description) (descs : Library -> gmap UnitName D)
    (load : D -> M Manager (result UnitIncompatibleReason UnitName)) : Prop := {
  kl_descs l id : un_kind id = k -> described_as l id = mk <$> descs l !! id;
  kl_gives d : un_kind (description_id (mk d)) = k -> gives (description_id (mk d)) (mk d) (load d);
}.

Ltac solve_loader load_gives := split;
  [ intros l id Hk; unfold described_as; by rewrite Hk | intros d; apply load_gives ].

Lemma jig_loader : kind_loader UnitKind.Jig DJig lb_jig_descriptions (load_jig depth program_lines).
Proof. solve_loader load_jig_gives. Qed.
Lemma interface_loader : kind_loader UnitKind.Interface DInterface lb_interface_descriptions (load_interface depth).
Proof. solve_loader load_interface_gives. Qed.
Lemma logger_loader : kind_loader UnitKind.Logger DLogger lb_logger_descriptions (load_logger depth).
Proof. solve_loader load_logger_gives. Qed.
Lemma trigger_loader : kind_loader UnitKind.Trigger DTrigger lb_trigger_descriptions (load_trigger depth).
Proof. solve_loader load_trigger_gives. Qed.
Lemma test_loader : kind_loader UnitKind.Test DTest lb_test_descriptions (load_test depth).
Proof. solve_loader load_test_gives. Qed.
Lemma scenario_loader : kind_loader UnitKind.Scenario DScenario lb_scenario_descriptions (load_scenario depth).
Proof. solve_loader load_scenario_gives. Qed.

(** The effect of loading the units [ids]: what becomes of them, and that the
    others and the marks are as they were. *)
Record brings (ids : list UnitName) l l' : Prop := {
  br_sound : sound l';
  br_known id : id ∉ ids -> known l' id = known l id;
  br_dirty k : dirty_of k l' = dirty_of k l;
  br_outcome id : id ∈ ids -> outcome_of l l' id;
}.

Lemma brings_nil l : sound l -> brings [] l l.
Proof. intros Hs. split; [done|done|done|]. by intros id ?%not_elem_of_nil. Qed.

Lemma brings_cons id ids l l1 l' : id ∉ ids -> brings [id] l l1 -> brings ids l1 l' -> brings (id :: ids) l l'.
Proof.
  intros Hid [S1 K1 D1 O1] [S2 K2 D2 O2]. split; [done| |intros k; congruence|].
  - intros n [Hn Hn']%not_elem_of_cons. rewrite K2, K1; [done|set_solver|done].
  - intros n [->|Hn]%elem_of_cons.
    + intros s d Hs Hd. rewrite K2 by done. apply O1; [by left|done|done].
    + apply outcome_after with l1; [|by apply O2]. apply K1. set_solver.
Qed.

(** One unit of the loop: unloaded, then loaded. *)
Lemma load_one_effect k {D} mk descs load id s (d : D) l w1 r w2 :
  kind_loader k mk descs load -> sound l -> un_kind id = k ->
  lb_status l !! id = Some s -> descs l !! id = Some d ->
  changed id None (lb_manager l) w1 -> load d w1 = Done (r, w2) ->
  let l2 := l <| lb_manager := w2 |> in
  brings [id] l (match r with
                | Ok _ => l2
                | Err e => l2 <| lb_status ::= <[id := UnitStatus.LoadFailed (UnitIncompatibleReason_fmt e)]> |>
                end).
Proof.
  intros [Hdesc Hgives] [Sc Sk Sn] Hk Hs Hd [C1 L1] Hload l2. specialize (Hdesc l id Hk).
  rewrite Hd in Hdesc. simpl in Hdesc.
  pose proof (Sn _ _ Hdesc) as Hid. rewrite <- Hid in Hk. apply (Hgives d Hk) in Hload. rewrite Hid in Hload.
  specialize (C1 Sc). specialize (L1 Sc).
  assert (heap_closed w2 /\ forall n, loaded_as w2 n = if decide (n = id)
    then if is_ok r then Some (mk d) else None else loaded_as (lb_manager l) n) as [C2 L2].
  { destruct r; destruct Hload as [C2 L2]; split; auto; intros n; rewrite L2 by done; rewrite L1;
      by case_decide. }
  assert (sound l2) as S2 by by apply sound_manager.
  assert (forall n, n <> id -> known l2 n = known l n) as Hother.
  { intros n Hn. unfold known. simpl. by rewrite L2, decide_False by done. }
  specialize (L2 id). rewrite decide_True in L2 by done. destruct r as [n|e]; simpl in L2.
  - split; [done|intros m Hm; apply Hother; set_solver|by intros []|].
    intros m ->%list_elem_of_singleton s0 d0 Hs0 Hd0. left. unfold known. simpl. rewrite L2, Hs0.
    assert (d0 = mk d) as -> by congruence. by rewrite <- Hdesc.
  - split.
    + destruct S2 as [Sc2 Sk2 Sn2]. split; [done| |done]. intros k0 m Hin. apply Sk2. by destruct k0.
    + intros m Hm. assert (m <> id) as Hne by set_solver. rewrite <- Hother by done. unfold known. simpl.
      by rewrite lookup_insert_ne.
    + by intros [].
    + intros m ->%list_elem_of_singleton s0 d0 Hs0 Hd0. right.
      exists (UnitIncompatibleReason_fmt e). unfold known. simpl. rewrite lookup_insert_eq, L2. by rewrite <- Hd0.
Qed.

Lemma load_loop_effect k {D} mk (descs : Library -> gmap UnitName D) load ids l rm l' :
  kind_loader k mk descs load -> sound l -> NoDup ids -> (forall id, id ∈ ids -> un_kind id = k) ->
  load_loop depth descs load ids l = Done (rm, l') -> brings ids l l'.
Proof.
  intros Hld. revert l rm. induction ids as [|id ids IH]; intros l rm Hs Hnd Hk Hrun; simpl in Hrun.
  { injection Hrun as _ <-. by apply brings_nil. }
  apply NoDup_cons in Hnd as [Hni Hnd]. assert (forall n, n ∈ ids -> un_kind n = k) as Hks by (intros n Hn; apply Hk; by right).
  specialize (Hk id ltac:(by left)).
  assert (forall l1, brings [id] l l1 -> forall rest, load_loop depth descs load ids l1 = Done (rest, l') ->
    brings (id :: ids) l l') as Hcons.
  { intros l1 Hl1 rest Hrest. apply brings_cons with l1; [done|done|]. by eapply IH; [apply Hl1|..]. }
  apply bind_Done in Hrun as (o & l1 & [= <- <-] & Hrun). apply bind_Done in Hrun as (o & l1 & [= <- <-] & Hrun).
  assert (lb_status l !! id = None \/ descs l !! id = None -> brings [id] l l) as Hskip.
  { intros Hnone. split; [done|done|done|]. intros n ->%list_elem_of_singleton s d Hst Hd.
    rewrite (kl_descs _ _ _ _ Hld l id Hk) in Hd. destruct Hnone as [|Hnone]; [congruence|by rewrite Hnone in Hd]. }
  destruct (lb_status l !! id) as [s|] eqn:Hst.
  2: { apply bind_Done in Hrun as (rest & l1 & Hrest & [= _ ->]). eapply Hcons; [apply Hskip; by left|exact Hrest]. }
  destruct (descs l !! id) as [d|] eqn:Hd.
  2: { apply bind_Done in Hrun as (rest & l1 & Hrest & [= _ ->]). eapply Hcons; [apply Hskip; by right|exact Hrest]. }
  apply bind_Done in Hrun as (? & l1 & (w1 & Hun & ->)%manager_Done & Hrun). apply unload_changes in Hun.
  apply bind_Done in Hrun as (r & l2 & Hload & Hrun).
  assert (exists w2, load d w1 = Done (r, w2) /\ l2 = l <| lb_manager := w2 |>) as (w2 & Hw2 & ->).
  { destruct s; try done; apply manager_Done in Hload as (w2 & Hw2 & ->); by exists w2. }
  pose proof (load_one_effect k mk descs load id s d l w1 r w2 Hld Hs Hk Hst Hd Hun Hw2) as Hone. destruct r as [n|e].
  - by eapply Hcons.
  - apply bind_Done in Hrun as (? & l3 & [= _ <-] & Hrun). apply bind_Done in Hrun as (rest & l4 & Hrest & [= _ ->]).
    by eapply Hcons.
Qed.

(** ** A phase of loading *)

(** The marked units of the kinds [ks] were loaded. *)
Record reloaded (ks : list UnitKind) l l' : Prop := {
  rl_sound : sound l';
  rl_known id : (un_kind id ∈ ks -> ~ is_dirty l id) -> known l' id = known l id;
  rl_outcome id : un_kind id ∈ ks -> is_dirty l id -> outcome_of l l' id;
  rl_dirty k : k ∉ ks -> dirty_of k l' = dirty_of k l;
}.

(** The kinds are loaded one after the other. *)
Lemma reloaded_cons k ks l l1 l' : k ∉ ks -> reloaded [k] l l1 -> reloaded ks l1 l' -> reloaded (k :: ks) l l'.
Proof.
  intros Hk [S1 K1 O1 D1] [S2 K2 O2 D2].
  assert (forall id, un_kind id <> k -> is_dirty l1 id <-> is_dirty l id) as Hsame.
  { intros id Hid. unfold is_dirty. rewrite D1; [done|]. by intros ?%list_elem_of_singleton. }
  split; [done| | |].
  - intros id Hid. rewrite K2, K1; [done|..].
    + intros Hin%list_elem_of_singleton. apply Hid. rewrite Hin. by left.
    + intros Hin Hd. apply (Hid ltac:(by right)). apply Hsame; [|done]. intros Heq. by rewrite Heq in Hin.
  - intros id [Hid|Hid]%elem_of_cons Hd.
    + intros s d Hs Hd1. rewrite K2 by congruence. apply O1; [|done..]. by apply list_elem_of_singleton.
    + assert (un_kind id <> k) as Hne by (intros Heq; by rewrite Heq in Hid). apply outcome_after with l1.
      * apply K1. by intros ?%list_elem_of_singleton.
      * apply O2; [done|]. by apply Hsame.
  - intros k' [Hne Hn]%not_elem_of_cons. rewrite D2, D1; [done| |done]. by intros ?%list_elem_of_singleton.
Qed.

Lemma reloaded_alike ks l l1 l2 : reloaded ks l l1 -> alike l1 l2 ->
  (forall id, (un_kind id ∈ ks -> ~ is_dirty l id) -> known l2 id = known l id) /\
  (forall id, un_kind id ∈ ks -> is_dirty l id -> outcome_of l l2 id).
Proof.
  intros [S1 K1 O1 D1] [C2 K2]. split.
  - intros id Hid. rewrite K2. by apply K1.
  - intros id Hin Hd s d Hs Hd1. rewrite K2. by apply O1.
Qed.

(** The marks of a kind, and that replacing them leaves the descriptions alone. *)
Record marks k (dirty : Library -> gset UnitName) (put : gset UnitName -> Library -> Library) : Prop := {
  mk_puts : puts program_lines k dirty put;
  mk_described s l id : described_as (put s l) id = described_as l id;
}.

Lemma marks_jigs : marks UnitKind.Jig lb_dirty_jigs put_dirty_jigs.
Proof. split; [apply puts_jigs|done]. Qed.
Lemma marks_interfaces : marks UnitKind.Interface lb_dirty_interfaces put_dirty_interfaces.
Proof. split; [apply puts_interfaces|done]. Qed.
Lemma marks_loggers : marks UnitKind.Logger lb_dirty_loggers put_dirty_loggers.
Proof. split; [apply puts_loggers|done]. Qed.
Lemma marks_triggers : marks UnitKind.Trigger lb_dirty_triggers put_dirty_triggers.
Proof. split; [apply puts_triggers|done]. Qed.
Lemma marks_tests : marks UnitKind.Test lb_dirty_tests put_dirty_tests.
Proof. split; [apply puts_tests|done]. Qed.
Lemma marks_scenarios : marks UnitKind.Scenario lb_dirty_scenarios put_dirty_scenarios.
Proof. split; [apply puts_scenarios|done]. Qed.

Lemma marks_known k dirty put s l id : marks k dirty put -> known (put s l) id = known l id.
Proof. intros [Hp Hd]. unfold known. by rewrite Hd, (pt_status _ _ _ _ Hp), (pt_manager _ _ _ _ Hp). Qed.

Lemma marks_alike k dirty put s l : marks k dirty put -> alike l (put s l).
Proof.
  intros Hm. split; [|intros id; by eapply marks_known]. by rewrite (pt_manager _ _ _ _ (mk_puts _ _ _ Hm)).
Qed.

(** Fewer marks of the kind change nothing else. *)
Lemma reloaded_unmark k dirty put s l l1 : marks k dirty put -> s ⊆ dirty_of k l1 ->
  reloaded [k] l l1 -> reloaded [k] l (put s l1).
Proof.
  intros Hm Hs [[Sc Sk Sn] K O D]. pose proof (mk_puts _ _ _ Hm) as Hp. split.
  - split; [by rewrite (pt_manager _ _ _ _ Hp)| |].
    + intros k' id. rewrite (pt_set _ _ _ _ Hp). case_decide; [subst|]; intros Hin; apply Sk; [by apply Hs|done].
    + intros id d. rewrite (mk_described _ _ _ Hm). apply Sn.
  - intros id Hid. rewrite (marks_known k dirty put) by done. by apply K.
  - intros id Hin Hd st d Hst Hd1. rewrite (marks_known k dirty put) by done. by apply O.
  - intros k' Hk. rewrite (pt_set _ _ _ _ Hp), decide_False; [by apply D|].
    intros ->. apply Hk. by left.
Qed.

Lemma load_phase {D} k mk dirty put (descs : Library -> gmap UnitName D) load l l' :
  marks k dirty put -> kind_loader k mk descs load -> sound l ->
  load_units_for_activation depth dirty put descs load l = Done (tt, l') -> reloaded [k] l l'.
Proof.
  intros Hm Hld Hs Hrun. unfold load_units_for_activation in Hrun.
  apply bind_Done in Hrun as (? & ? & [= <- <-] & Hrun).
  apply bind_Done in Hrun as (ids & l1 & (Hnd & Hids & w & -> & Hw)%iter_set_effect & Hrun).
  apply bind_Done in Hrun as (rm & l2 & Hloop & Hrun). injection Hrun as <-.
  rewrite (pt_dirty _ _ _ _ (mk_puts _ _ _ Hm)) in Hids.
  assert (forall k' , dirty_of k' (l <| lb_manager := w |>) = dirty_of k' l) as Hd1 by by intros [].
  assert (sound (l <| lb_manager := w |>)) as S1 by (apply sound_manager; [done|]; apply Hw, Hs).
  assert (forall n, known (l <| lb_manager := w |>) n = known l n) as K1.
  { intros n. unfold known. simpl. by rewrite (sm_loaded _ _ Hw). }
  eapply load_loop_effect in Hloop as [S2 K2 D2 O2]; [|exact Hld|exact S1|exact Hnd|].
  2: { intros n Hn%Hids. by apply (so_kind l Hs). }
  apply (reloaded_unmark k dirty); [done| |].
  { rewrite (pt_dirty _ _ _ _ (mk_puts _ _ _ Hm)). set_solver. }
  split; [done| | |].
  - intros id Hid. rewrite K2, K1; [done|]. intros Hin%Hids. pose proof (so_kind l Hs _ _ Hin) as Hk.
    apply Hid; [rewrite Hk; by left|]. unfold is_dirty. by rewrite Hk.
  - intros id Hin%list_elem_of_singleton Hd. apply outcome_after with (l <| lb_manager := w |>); [done|].
    apply O2, Hids. rewrite <- Hin. exact Hd.
  - intros k' _. by rewrite D2, Hd1.
Qed.

Lemma load_clear_phase {D} k mk dirty put (descs : Library -> gmap UnitName D) load l l' :
  marks k dirty put -> kind_loader k mk descs load -> sound l ->
  load_units depth dirty put descs load l = Done (tt, l') -> reloaded [k] l l'.
Proof.
  intros Hm Hld Hs Hrun. unfold load_units in Hrun. apply bind_Done in Hrun as ([] & l1 & Hload & [= <-]).
  apply (reloaded_unmark k dirty); [done|set_solver|]. by eapply load_phase.
Qed.

(** ** Selecting and activating *)

Lemma select_phase k dirty put : marks k dirty put ->
  frames alike (select_and_activate_units depth dirty put).
Proof.
  intros Hm. unfold select_and_activate_units, iter_set.
  walk ltac:(first [ apply alike_manager, same_descs_io | apply alike_manager, frames_select_unit; exact _
    | apply alike_manager, frames_activate_unit; exact _
    | apply frames_modify; intros ?; by eapply marks_alike ]).
Qed.

Lemma broadcast_alike e : frames alike (library_broadcast e).
Proof. apply alike_manager, same_descs_io. Qed.

(** ** A rescan *)

(** The kinds in the order they are loaded. *)
Definition load_order : list UnitKind :=
  [UnitKind.Jig; UnitKind.Interface; UnitKind.Logger; UnitKind.Trigger; UnitKind.Test; UnitKind.Scenario].

Lemma dirty_load_order l id : is_dirty l id -> un_kind id ∈ load_order.
Proof. unfold is_dirty. destruct (un_kind id); [by repeat constructor..|]. by intros ?%not_elem_of_empty. Qed.

(** Steps 4 to 9, and then 10 to 13. *)
Lemma reload_effect l l' : sound l -> reload depth program_lines l = Done (tt, l') ->
  exists l1, reloaded load_order l l1 /\ alike l1 l'.
Proof.
  intros S0 Hrun. unfold reload in Hrun.
  apply bind_Done in Hrun as ([] & l1 & R1%(load_phase _ _ _ _ _ _ _ _ marks_jigs jig_loader S0) & Hrun).
  pose proof (rl_sound _ _ _ R1) as S1.
  apply bind_Done in Hrun as ([] & l2 & R2%(load_phase _ _ _ _ _ _ _ _ marks_interfaces interface_loader S1) & Hrun).
  pose proof (rl_sound _ _ _ R2) as S2.
  apply bind_Done in Hrun as ([] & l3 & R3%(load_phase _ _ _ _ _ _ _ _ marks_loggers logger_loader S2) & Hrun).
  pose proof (rl_sound _ _ _ R3) as S3.
  apply bind_Done in Hrun as ([] & l4 & R4%(load_phase _ _ _ _ _ _ _ _ marks_triggers trigger_loader S3) & Hrun).
  pose proof (rl_sound _ _ _ R4) as S4.
  apply bind_Done in Hrun as ([] & l5 & R5%(load_clear_phase _ _ _ _ _ _ _ _ marks_tests test_loader S4) & Hrun).
  pose proof (rl_sound _ _ _ R5) as S5.
  apply bind_Done in Hrun as ([] & l6 & R6%(load_clear_phase _ _ _ _ _ _ _ _ marks_scenarios scenario_loader S5) & Hrun).
  exists l6. split.
  - do 5 (eapply reloaded_cons; [by set_solver|eassumption|]). exact R6.
  - revert Hrun. walk ltac:(first [ apply broadcast_alike
      | apply alike_manager, frames_refresh_defaults; exact _
      | eapply select_phase; first [apply marks_jigs | apply marks_interfaces | apply marks_loggers | apply marks_triggers] ]).
Qed.

(** What a rescan takes as marked. *)
Definition rescan_marks l : Library := mark_test_dependents (mark_jig_dependents l).

Definition to_reload l (id : UnitName) : Prop := is_dirty (rescan_marks l) id.

Context (depth_enough : 4 <= depth).

(** What becomes of what is marked, of what is deleted, and of the rest. *)
Record rescanned l l' : Prop := {
  rd_outcome id : to_reload l id -> ~ is_leaving l id -> outcome_of l l' id;
  rd_gone id : to_reload l id -> is_leaving l id -> known l' id = (None, None, None);
  rd_same id : ~ to_reload l id -> known l' id = known l id;
}.

(** The announcement of the rescan changes nothing. *)
Lemma rescan_start l l1 : lib_inv program_lines l -> library_broadcast Event.RescanStart l = Done (tt, l1) ->
  lib_inv program_lines l1 /\ (forall id, to_reload l1 id <-> to_reload l id) /\
  (forall id, known l1 id = known l id) /\ lb_status l1 = lb_status l.
Proof.
  intros Hinv (w & [i ->]%io_Done & ->)%manager_Done. split_and!; [|intros id|done|done].
  - apply lib_inv_manager; [done| |apply Hinv].
    eapply steady_preserves; [apply talked_steady, talked_io|apply Hinv].
  - unfold to_reload, is_dirty. by destruct (un_kind id).
Qed.

Lemma rescan_effect l l' : lib_inv program_lines l -> rescan depth program_lines l = Done (tt, l') -> rescanned l l'.
Proof.
  intros Hinv Hrun. unfold rescan in Hrun. apply bind_Done in Hrun as ([] & l1 & Hb & Hrun).
  destruct (rescan_start l l1 Hinv Hb) as (Hinv1 & Hmarks & Hknown & Hst).
  apply bind_Done in Hrun as ([] & l2 & [= <-] & Hrun). apply bind_Done in Hrun as ([] & l3 & [= <-] & Hrun).
  fold (rescan_marks l1) in Hrun.
  assert (lib_inv program_lines (rescan_marks l1)) as Hinv2
    by apply mark_test_dependents_inv, mark_jig_dependents_inv, Hinv1.
  pose proof (lib_inv_sound _ Hinv2) as S1.
  assert (forall id, known (rescan_marks l1) id = known l id) as K1 by exact Hknown.
  assert (forall id, is_leaving (rescan_marks l1) id <-> is_leaving l id) as Hleave.
  { intros id. unfold is_leaving. by rewrite <- Hst. }
  apply bind_Done in Hrun as ([] & l4 & Hdel & Hrun).
  assert (lib_inv program_lines l4) as Hinv4.
  { destruct (delete_all_run depth program_lines depth_enough _ Hinv2) as (? & ? & Hdel' & _ & Hinv4 & _).
    rewrite Hdel in Hdel'. by injection Hdel' as _ <-. }
  apply delete_all_effect in Hdel as [[S4 K4 D4] C4]; [|done].
  apply reload_effect in Hrun as (l5 & R & Hq); [|by apply S4].
  destruct (reloaded_alike _ _ _ _ R Hq) as [K5 O5].
  split; intros id; rewrite <- Hmarks, <- ?Hleave; unfold to_reload; intros Hid.
  - intros Hl. apply outcome_after with l4; [rewrite K4; [done|done|tauto]|].
    apply (D4 id S1) in Hid; [|tauto]. by apply O5; [eapply dirty_load_order|].
  - intros Hl. pose proof (C4 id (conj Hl Hid)) as Hnone. rewrite K5; [done|]. intros _ Hd.
    apply (li_dirty _ _ Hinv4) in Hd as [_ Hd]. apply elem_of_dom in Hd as [s Hs]. unfold known in Hnone. congruence.
  - rewrite K5, K4; [done|done|tauto|]. intros _. rewrite D4; [done|done|tauto].
Qed.

End library.
