(* ===== verification/LibraryIdle.v ===== *)
(** * A rescan with nothing to do

    When nothing is marked and a jig and a scenario are chosen, a rescan only
    announces its start and its end. *)

From S2P Require Import Prelude Str Path Unit Foreign Config Events Env Samples Descriptions.
From S2P Require Import Interface Trigger Logger Jig Test Scenario ScenarioProps ScenarioTheorems Manager ManagerProps ManagerSafety.
From S2P Require Import Library LibraryProps.

Section idle.
Context `{Libraries} `{DependyLib} `{Env} `{!EnvLaws} `{!DependyLaws}.
Context (depth program_lines : nat).
Implicit Types l : Library.
#[local] Abbreviation puts := (LibraryProps.puts program_lines).

(** Only the world was asked and told. *)
Definition quietly (os : list Out) l l' : Prop := exists n,
  l' = l <| lb_manager ::= set_with m_io (fun i => mkIO (io_cfg i) n (io_out i ++ os)) |>.

Lemma quietly_refl l : quietly [] l l.
Proof.
  exists (io_tick (m_io (lb_manager l))). destruct l as [????????????? w], w as [[]]. simpl.
  by rewrite app_nil_r.
Qed.

Lemma quietly_trans os1 os2 l l1 l2 : quietly os1 l l1 -> quietly os2 l1 l2 -> quietly (os1 ++ os2) l l2.
Proof. intros [n1 ->] [n2 ->]. exists n2. simpl. by rewrite app_assoc. Qed.

(** A jig and a scenario are chosen, if there are any. *)
Definition chosen l : Prop :=
  (m_jigs (lb_manager l) = ∅ \/ is_Some (m_current_jig (lb_manager l))) /\
  (m_scenarios (lb_manager l) = ∅ \/ is_Some (m_current_scenario (lb_manager l))).

Record idle l : Prop := {
  id_clean k : dirty_of k l = ∅;
  id_wf : mgr_wf (lb_manager l);
  id_chosen : chosen l;
}.

Lemma quietly_idle os l l' : quietly os l l' -> idle l -> idle l'.
Proof.
  intros [n ->] [Hc Hw Hch]. split; [|by eapply talked_wf, Hw; apply talked_io|done].
  intros k. specialize (Hc k). by destruct k.
Qed.

(** A computation with no other effect on an idle library. *)
Definition quiet (os : list Out) {A} (a : A) (m : M Library A) : Prop :=
  forall l, idle l -> exists l', m l = Done (a, l') /\ quietly os l l'.

Lemma quietly_ret {A} (a : A) : quiet [] a (mret a).
Proof. intros l _. exists l. split; [done|apply quietly_refl]. Qed.

Lemma quietly_bind {A B} os1 os2 (a : A) (b : B) m k : quiet os1 a m -> quiet os2 b (k a) ->
  quiet (os1 ++ os2) b (m ≫= k).
Proof.
  intros Hm Hk l Hl. destruct (Hm l Hl) as (l1 & Hrun & Hq1).
  destruct (Hk l1 (quietly_idle _ _ _ Hq1 Hl)) as (l2 & Hrun2 & Hq2). exists l2.
  rewrite (bind_step _ _ _ _ _ Hrun). split; [done|by eapply quietly_trans].
Qed.

Lemma quiet_gets_bind {A B} os (f : Library -> A) a (b : B) k : (forall l, idle l -> f l = a) -> quiet os b (k a) ->
  quiet os b (gets f ≫= k).
Proof. intros Hf Hk l Hl. rewrite gets_step, (Hf l Hl). by apply Hk. Qed.

Lemma quietly_modify (f : Library -> Library) : (forall l, idle l -> f l = l) -> quiet [] tt (modify f).
Proof. intros Hf l Hl. exists l. split; [unfold modify; by rewrite Hf|apply quietly_refl]. Qed.

Lemma quiet_broadcast e : quiet [Broadcast e] tt (library_broadcast e).
Proof. intros l _. eexists. split; [reflexivity|]. by eexists. Qed.

Lemma quiet_iter_empty : quiet [] [] (iter_set ∅).
Proof.
  intros l _. unfold iter_set, on_manager, zoom, io, ask. unfold zoom. rewrite elements_empty.
  pose proof (env_order_perm (io_tick (m_io (lb_manager l))) []) as Hnil.
  apply Permutation_nil_r in Hnil. rewrite Hnil.
  eexists. split; [reflexivity|]. exists (S (io_tick (m_io (lb_manager l)))).
  destruct l as [????????????? w], w as [[]]. simpl. by rewrite app_nil_r.
Qed.

Lemma quiet_delete_dirty what k dirty remove : (forall l, dirty l = dirty_of k l) ->
  quiet [] [] (delete_dirty depth what dirty remove).
Proof.
  intros Hd. unfold delete_dirty. apply (quiet_gets_bind _ _ ∅); [intros l Hl; rewrite Hd; apply (id_clean l Hl)|].
  apply (quietly_bind [] [] []); [apply quiet_iter_empty|apply quietly_ret].
Qed.

(** Clearing what is clear. *)
Lemma puts_nothing k dirty put : puts k dirty put -> (forall l, put (dirty l) l = l) ->
  forall l, idle l -> put ∅ l = l.
Proof. intros Hp Hsame l Hl. rewrite <- (Hsame l) at 2. by rewrite (pt_dirty _ _ _ _ Hp), (id_clean l Hl k). Qed.

Lemma quiet_load_for_activation {D} k dirty put (descs : Library -> gmap UnitName D) load :
  puts k dirty put -> (forall l, put (dirty l) l = l) ->
  quiet [] tt (load_units_for_activation depth dirty put descs load).
Proof.
  intros Hp Hsame. unfold load_units_for_activation.
  apply (quiet_gets_bind _ _ ∅); [intros l Hl; rewrite (pt_dirty _ _ _ _ Hp); apply (id_clean l Hl)|].
  apply (quietly_bind [] [] []); [apply quiet_iter_empty|]. apply (quietly_bind [] [] []); [apply quietly_ret|].
  apply quietly_modify. intros l Hl. simpl. by rewrite difference_empty_L.
Qed.

Lemma quiet_load_units {D} k dirty put (descs : Library -> gmap UnitName D) load :
  puts k dirty put -> (forall l, put (dirty l) l = l) ->
  quiet [] tt (load_units depth dirty put descs load).
Proof.
  intros Hp Hsame. apply (quietly_bind [] [] tt); [by eapply quiet_load_for_activation|].
  apply quietly_modify. by eapply puts_nothing.
Qed.

Lemma quiet_select k dirty put : puts k dirty put -> (forall l, put (dirty l) l = l) ->
  quiet [] tt (select_and_activate_units depth dirty put).
Proof.
  intros Hp Hsame. unfold select_and_activate_units.
  apply (quiet_gets_bind _ _ ∅); [intros l Hl; rewrite (pt_dirty _ _ _ _ Hp); apply (id_clean l Hl)|].
  apply (quietly_bind [] [] []); [apply quiet_iter_empty|]. apply (quietly_bind [] [] tt); [apply quietly_ret|].
  apply quietly_modify. by eapply puts_nothing.
Qed.

Lemma supporting_nothing {D} (supports : D -> UnitName -> bool) descs : supporting supports ∅ descs = ∅.
Proof.
  apply elem_of_equiv_empty_L. intros id Hin. unfold supporting in Hin. apply elem_of_dom in Hin as [d Hd].
  apply map_lookup_filter_Some in Hd as [_ Hd]. by rewrite elements_empty in Hd.
Qed.

Lemma scenarios_using_nothing w : scenarios_using ∅ w = ∅.
Proof.
  apply elem_of_equiv_empty_L. intros id Hin. unfold scenarios_using in Hin. apply elem_of_dom in Hin as [p Hp].
  apply map_lookup_filter_Some in Hp as [_ Hp]. unfold uses_one_of in Hp. simpl in Hp.
  destruct (m_heap w !! p); [|done]. by rewrite elements_empty in Hp.
Qed.

Lemma mark_nothing l : idle l -> mark_test_dependents (mark_jig_dependents l) = l.
Proof.
  intros Hl. pose proof (id_clean l Hl UnitKind.Jig) as Hj. pose proof (id_clean l Hl UnitKind.Test) as Ht. simpl in Hj, Ht.
  unfold mark_test_dependents, mark_jig_dependents. rewrite Hj, !supporting_nothing.
  destruct l. simpl in *. subst. rewrite !union_empty_l_L. by rewrite scenarios_using_nothing, union_empty_l_L.
Qed.

Lemma quiet_delete_all : quiet [] tt (delete_all depth).
Proof.
  unfold delete_all.
  apply (quietly_bind [] [] []); [by apply (quiet_delete_dirty _ UnitKind.Jig)|].
  apply (quietly_bind [] [] []); [by apply (quiet_delete_dirty _ UnitKind.Test)|].
  apply (quietly_bind [] [] []); [by apply (quiet_delete_dirty _ UnitKind.Scenario)|].
  apply (quietly_bind [] [] []); [by apply (quiet_delete_dirty _ UnitKind.Interface)|].
  apply (quietly_bind [] [] []); [by apply (quiet_delete_dirty _ UnitKind.Logger)|].
  apply (quietly_bind [] [] []); [by apply (quiet_delete_dirty _ UnitKind.Trigger)|].
  apply quietly_ret.
Qed.

(** The phases of a rescan between the deletion and the defaults. *)
Lemma quiet_phases os (rest : M Library unit) : quiet os tt rest -> quiet os tt
  (load_units_for_activation depth lb_dirty_jigs put_dirty_jigs lb_jig_descriptions (load_jig depth program_lines);;
   load_units_for_activation depth lb_dirty_interfaces put_dirty_interfaces lb_interface_descriptions (load_interface depth);;
   load_units_for_activation depth lb_dirty_loggers put_dirty_loggers lb_logger_descriptions (load_logger depth);;
   load_units_for_activation depth lb_dirty_triggers put_dirty_triggers lb_trigger_descriptions (load_trigger depth);;
   load_units depth lb_dirty_tests put_dirty_tests lb_test_descriptions (load_test depth);;
   load_units depth lb_dirty_scenarios put_dirty_scenarios lb_scenario_descriptions (load_scenario depth);;
   select_and_activate_units depth lb_dirty_jigs put_dirty_jigs;;
   select_and_activate_units depth lb_dirty_interfaces put_dirty_interfaces;;
   select_and_activate_units depth lb_dirty_loggers put_dirty_loggers;;
   select_and_activate_units depth lb_dirty_triggers put_dirty_triggers;;
   rest).
Proof.
  intros Hrest.
  apply (quietly_bind [] os tt); [eapply quiet_load_for_activation; [apply puts_jigs|by intros []]|].
  apply (quietly_bind [] os tt); [eapply quiet_load_for_activation; [apply puts_interfaces|by intros []]|].
  apply (quietly_bind [] os tt); [eapply quiet_load_for_activation; [apply puts_loggers|by intros []]|].
  apply (quietly_bind [] os tt); [eapply quiet_load_for_activation; [apply puts_triggers|by intros []]|].
  apply (quietly_bind [] os tt); [eapply quiet_load_units; [apply puts_tests|by intros []]|].
  apply (quietly_bind [] os tt); [eapply quiet_load_units; [apply puts_scenarios|by intros []]|].
  apply (quietly_bind [] os tt); [eapply quiet_select; [apply puts_jigs|by intros []]|].
  apply (quietly_bind [] os tt); [eapply quiet_select; [apply puts_interfaces|by intros []]|].
  apply (quietly_bind [] os tt); [eapply quiet_select; [apply puts_loggers|by intros []]|].
  apply (quietly_bind [] os tt); [eapply quiet_select; [apply puts_triggers|by intros []]|]. done.
Qed.

Lemma refresh_chosen l : mgr_wf (lb_manager l) -> chosen l ->
  on_manager (refresh_defaults depth) l = Done (tt, l).
Proof.
  intros Hwf [Hj Hs]. set (w := lb_manager l) in *. unfold on_manager, zoom. fold w.
  assert (refresh_defaults depth w = Done (tt, w)) as ->; [|by destruct l].
  unfold refresh_defaults. rewrite (bind_step _ _ _ _ _ (current_jig_id_run w (mw_cj _ Hwf))), gets_step.
  assert (bool_decide (jg_id <$> m_current_jig w = None) && negb (bool_decide (m_jigs w = ∅)) = false) as ->.
  { destruct Hj as [->|[j ->]]; [by rewrite andb_false_r|done]. }
  rewrite (bind_step (when false _) _ _ tt _ eq_refl).
  destruct (rt_current_id w Hwf) as (cur & w' & Hrun & _ & -> & Hcur).
  rewrite (bind_step _ _ _ _ _ Hrun), gets_step.
  assert (bool_decide (cur = None) && negb (bool_decide (m_scenarios w = ∅)) = false) as ->; [|done].
  destruct Hs as [->|[p Hp]]; [by rewrite andb_false_r|]. rewrite Hp in Hcur. by destruct Hcur as (id & -> & _).
Qed.

Lemma quiet_refresh : quiet [] tt (on_manager (refresh_defaults depth)).
Proof.
  intros l [_ Hwf Hch]. exists l. split; [by apply refresh_chosen|apply quietly_refl].
Qed.

Lemma quiet_mark os (rest : M Library unit) : quiet os tt rest ->
  quiet os tt (modify mark_jig_dependents;; modify mark_test_dependents;; rest).
Proof.
  intros Hrest l Hl. rewrite (bind_step (modify mark_jig_dependents) _ _ tt _ eq_refl).
  rewrite (bind_step (modify mark_test_dependents) _ _ tt _ eq_refl), mark_nothing by done. by apply Hrest.
Qed.

(** An idle library only announces the rescan. *)
Lemma idle_rescan_run l : idle l -> exists l',
  rescan depth program_lines l = Done (tt, l') /\
  quietly [Broadcast Event.RescanStart; Broadcast Event.RescanFinish] l l'.
Proof.
  revert l. unfold rescan. apply (quietly_bind [_] [_] tt); [apply quiet_broadcast|].
  apply quiet_mark. apply (quietly_bind [] [_] tt); [apply quiet_delete_all|].
  apply quiet_phases. apply (quietly_bind [] [_] tt); [apply quiet_refresh|apply quiet_broadcast].
Qed.
End idle.
