(* ===== verification/LibraryTheorems.v ===== *)
(** * What the library guarantees

    Every message that the library is sent is processed to its end, and a
    rescan settles everything that was marked.  Two things are lost on the way:
    the update of a test, and a unit that failed for want of its jig. *)

From S2P Require Import Prelude Str Path Unit Foreign Config Events Env Samples Descriptions.
From S2P Require Import Interface Trigger Logger Jig Test Scenario ScenarioProps ScenarioTheorems Manager ManagerProps ManagerSafety ManagerTheorems.
From S2P Require Import Library LibraryProps.

Section library.
Context `{Libraries} `{DependyLib} `{Env} `{!EnvLaws} `{!DependyLaws}.
Context (depth program_lines : nat) (depth_enough : 4 <= depth).
Implicit Types l : Library.
Implicit Types k : UnitKind.
#[local] Abbreviation typed := (LibraryProps.typed program_lines).
#[local] Abbreviation lib_inv := (LibraryProps.lib_inv program_lines).

(** ** Marking a name *)

Definition marked (name : UnitName) (l : Library) : Library :=
  match un_kind name with
  | UnitKind.Interface => l <| lb_dirty_interfaces ::= union {[ name ]} |>
  | UnitKind.Jig => l <| lb_dirty_jigs ::= union {[ name ]} |>
  | UnitKind.Logger => l <| lb_dirty_loggers ::= union {[ name ]} |>
  | UnitKind.Scenario => l <| lb_dirty_scenarios ::= union {[ name ]} |>
  | UnitKind.Test => l <| lb_dirty_tests ::= union {[ name ]} |>
  | UnitKind.Trigger => l <| lb_dirty_triggers ::= union {[ name ]} |>
  | UnitKind.Internal => l
  end.

Lemma mark_dirty_marked name l : mark_dirty name l = Done (tt, marked name l).
Proof. unfold mark_dirty, marked. by destruct (un_kind name). Qed.

Lemma marked_same name l : lb_status (marked name l) = lb_status l /\
  lb_manager (marked name l) = lb_manager l /\
  (forall k, described k (marked name l) = described k l) /\ (typed l -> typed (marked name l)).
Proof. unfold marked. destruct (un_kind name); (split_and!; [done|done|by intros []|by intros []]). Qed.

Lemma marked_dirty name l k id : id ∈ dirty_of k (marked name l) ->
  id ∈ dirty_of k l \/ id = name /\ un_kind name = k.
Proof. unfold marked. destruct (un_kind name) eqn:Hk, k; simpl; set_solver. Qed.

(** A unit gets a status, and is marked or described. *)
Record noted (name : UnitName) l l' : Prop := {
  no_status : exists s, (loading s = true \/ leaving s = true) /\
    lb_status l' = <[name := s]> (lb_status l);
  no_manager : mgr_inv (lb_manager l');
  no_loaded : loaded (lb_manager l') = loaded (lb_manager l);
  no_dirty k id : id ∈ dirty_of k l' -> id ∈ dirty_of k l \/ id = name /\ un_kind name = k;
  no_described k id : id ∈ described k l' -> id ∈ described k l \/ id = name /\ un_kind name = k;
  no_typed : typed l';
}.

Lemma noted_inv name l l' : lib_inv l -> noted name l l' -> lib_inv l'.
Proof.
  intros [Hm Hl Hs Hd He Ht] [(s & Hls & Hst) Hm' Hl' Hd' He' Ht'].
  assert (dom (lb_status l') = {[ name ]} ∪ dom (lb_status l)) as Hdom by (rewrite Hst; apply dom_insert_L).
  split; rewrite ?Hdom; try done.
  - rewrite Hl'. set_solver.
  - intros id s'. rewrite Hst. intros [[_ <-]|[_ Hn]]%lookup_insert_Some; [done|by eapply Hs].
  - intros k id [Hin|[-> Hk]]%Hd'; [apply Hd in Hin as [? ?]|]; set_solver.
  - intros k id [Hin|[-> Hk]]%He'; [apply He in Hin as [? ?]|]; set_solver.
Qed.

(** ** Reading descriptions *)

(** How the description of a unit is put in the books of its kind. *)
Record describes {D} k (descs : Library -> gmap UnitName D) (put : gmap UnitName D -> Library -> Library)
    (ok : UnitName -> D -> Prop) : Prop := {
  ds_status m l : lb_status (put m l) = lb_status l;
  ds_manager m l : lb_manager (put m l) = lb_manager l;
  ds_dirty k' m l : dirty_of k' (put m l) = dirty_of k' l;
  ds_descs l : dom (descs l) = described k l;
  ds_described m l k' : described k' (put m l) = if decide (k' = k) then dom m else described k' l;
  ds_typed name d l : typed l -> ok name d -> typed (put (<[name := d]> (descs l)) l);
  ds_marked name l : descs (marked name l) = descs l;
}.

Ltac solve_describes := split; [done|done|by intros []|done|by intros ?? []
  |intros ??? [] ?; split; simpl; try done; intros ?? [[<- <-]|[_ ?]]%lookup_insert_Some; eauto
  |intros ? ?; unfold marked; match goal with |- context [un_kind ?n] => by destruct (un_kind n) end].

(** The status and the manager are not part of what is typed. *)
Lemma typed_books l f w : typed l -> typed (l <| lb_status ::= f |> <| lb_manager := w |>).
Proof. by intros []. Qed.

Lemma library_broadcast_step e l : exists i,
  library_broadcast e l = Done (tt, l <| lb_manager := lb_manager l <| m_io := i |> |>).
Proof.
  unfold library_broadcast, on_manager, zoom, io. unfold zoom.
  destruct (io_total_emit (Broadcast e) (m_io (lb_manager l))) as ([] & i & Hrun).
  exists i. unfold io_broadcast. by rewrite Hrun.
Qed.

Lemma io_inv w i : mgr_inv w -> mgr_inv (w <| m_io := i |>).
Proof. apply steady_preserves, talked_steady, talked_io. Qed.

Lemma process_if_run {D} name status k path (read : string -> result UnitDescriptionError D) descs put ok l :
  describes k descs put ok -> lib_inv l -> loading status = true ->
  (forall d, un_kind name = k -> read path = Ok d -> ok name d) ->
  exists l', process_if name status k path read descs put l = Done (tt, l') /\ lib_inv l' /\
    loaded (lb_manager l') = loaded (lb_manager l).
Proof.
  intros Hds Hinv Hst Hok. unfold process_if. case_bool_decide as Hk; [|by exists l]. simpl.
  destruct (marked_same name l) as (Hs & Hm & He & Ht). specialize (Ht (li_typed _ l Hinv)).
  pose proof (marked_dirty name l) as Hd. pose proof (li_manager _ l Hinv) as Hmgr.
  rewrite (bind_step _ _ _ _ _ (mark_dirty_marked name l)).
  revert Hs Hm He Ht Hd. generalize (marked name l). intros l1 Hs Hm He Ht Hd.
  destruct (read path) as [d|e] eqn:Hread.
  - rewrite (bind_step (modify _) _ _ tt _ eq_refl). set (l2 := put _ l1).
    rewrite (bind_step (modify _) _ _ tt _ eq_refl), gets_step.
    match goal with |- context [library_broadcast ?e ?l3] => destruct (library_broadcast_step e l3) as (i & Hb) end.
    rewrite Hb. clear Hb. eexists. split; [reflexivity|].
    assert (lb_manager l2 = lb_manager l) as Hm2 by (unfold l2; by rewrite (ds_manager _ _ _ _ Hds), Hm).
    assert (loaded (lb_manager l2) = loaded (lb_manager l)) as Hl by by rewrite Hm2.
    split; [|done]. eapply (noted_inv name l); [done|].
    split; [| |done| | |].
    + exists status. split; [by left|]. simpl. unfold l2. by rewrite (ds_status _ _ _ _ Hds), Hs.
    + apply io_inv. simpl. by rewrite Hm2.
    + intros k' id Hin. apply Hd. rewrite <- (ds_dirty _ _ _ _ Hds k' (<[name:=d]> (descs l1))).
      fold l2. by destruct k'.
    + intros k' id Hin. assert (id ∈ described k' l2) as Hin2 by by destruct k'. unfold l2 in Hin2.
      rewrite (ds_described _ _ _ _ Hds), dom_insert_L, (ds_descs _ _ _ _ Hds), He in Hin2.
      rewrite He in Hin2. case_decide; set_solver.
    + apply typed_books, (ds_typed _ _ _ _ Hds); [done|]. by apply Hok.
  - destruct (library_broadcast_step (Event.Status (new_load_failed name (UnitDescriptionError_fmt e))) l1) as (i & Hb).
    rewrite (bind_step _ _ _ _ _ Hb). eexists. split; [reflexivity|].
    assert (loaded (lb_manager l1) = loaded (lb_manager l)) as Hl by by rewrite Hm.
    split; [|done]. eapply (noted_inv name l); [done|].
    split; [| |done| | |].
    + exists (UnitStatus.LoadFailed (UnitDescriptionError_fmt e)). split; [by right|]. simpl. by rewrite Hs.
    + apply io_inv. simpl. by rewrite Hm.
    + intros k' id Hin. apply Hd. by destruct k'.
    + intros k' id Hin. left. rewrite <- He. by destruct k'.
    + clear -Ht. by destruct Ht.
Qed.

(** What the file must say for its unit to be run safely. *)
Record readable `{Files} (path : string) : Prop := {
  rb_interface d : interface_from_path path = Ok d -> id_format d = Text;
  rb_jig d : jig_from_path path = Ok d ->
    (forall n, jd_default_scenario d = Some n -> un_kind n = UnitKind.Scenario) /\ probe_ends program_lines d;
  rb_scenario d : scenario_from_path path = Ok d ->
    (exists n, n ∈ sd_tests d /\ n ∉ sd_assumptions d) /\ sd_timeout d = None;
}.

(** The condition of a message: a file is readable and named by the event, there
    is room for the units, a request can be served. *)
Definition message_ok `{Files} l (e : UnitEvent) : Prop :=
  match e with
  | Event.Status (mkStatusEvent name (UnitStatus.LoadStarted path | UnitStatus.UpdateStarted path)) =>
    from_path path = Ok name /\ readable path
  | Event.RescanRequest => small l
  | Event.ManagerRequest msg => request_ok (lb_manager l) msg
  | _ => True
  end.

(** A step of the message handler that keeps the books. *)
Definition keeps_books (m : M Library unit) : Prop := forall l, lib_inv l ->
  exists l', m l = Done (tt, l') /\ lib_inv l' /\ loaded (lb_manager l') = loaded (lb_manager l).

Lemma keeps_books_bind (m : M Library unit) (m' : M Library unit) :
  keeps_books m -> keeps_books m' -> keeps_books (m;; m').
Proof.
  intros Hm Hm' l Hinv. destruct (Hm l Hinv) as (l1 & Hrun & Hinv1 & Hl1).
  destruct (Hm' l1 Hinv1) as (l2 & Hrun2 & Hinv2 & Hl2). exists l2.
  rewrite (bind_step _ _ _ _ _ Hrun). split_and!; [done|done|congruence].
Qed.

Section read.
Context `{Files} (name : UnitName) (path : string) (status : UnitStatus).
Context (named : from_path path = Ok name) (ok : readable path) (starting : loading status = true).

Lemma interface_books : keeps_books (process_interface name status path).
Proof.
  intros l Hinv. apply (process_if_run _ _ _ _ _ _ _ interface_ok); [solve_describes|done|done|].
  intros d _ Hd. pose proof (rb_interface _ ok d Hd) as Htext. apply interface_from_path_id in Hd.
  rewrite named in Hd. injection Hd as Hd. by split.
Qed.
Lemma logger_books : keeps_books (process_logger name status path).
Proof.
  intros l Hinv. apply (process_if_run _ _ _ _ _ _ _ (fun id d => ld_id d = id)); [solve_describes|done|done|].
  intros d _ Hd%logger_from_path_id. rewrite named in Hd. by injection Hd.
Qed.
Lemma jig_books : keeps_books (process_jig name status path).
Proof.
  intros l Hinv. apply (process_if_run _ _ _ _ _ _ _ (jig_ok program_lines)); [solve_describes|done|done|].
  intros d _ Hd. destruct (rb_jig _ ok d Hd) as [Hdef Hends]. apply jig_from_path_id in Hd.
  rewrite named in Hd. injection Hd as Hd. by split.
Qed.
Lemma scenario_books : keeps_books (process_scenario name status path).
Proof.
  intros l Hinv. apply (process_if_run _ _ _ _ _ _ _ scenario_ok); [solve_describes|done|done|].
  intros d _ Hd. destruct (rb_scenario _ ok d Hd) as [Ht Htime]. apply scenario_from_path_id in Hd as [Hd Hc].
  rewrite named in Hd. injection Hd as Hd. by split.
Qed.
Lemma test_books : keeps_books (process_test name status path).
Proof.
  intros l Hinv. apply (process_if_run _ _ _ _ _ _ _ (fun id d => td_id d = id)); [solve_describes|done|done|].
  intros d _ [Hd _]%test_from_path_id. rewrite named in Hd. by injection Hd.
Qed.
Lemma trigger_books : keeps_books (process_trigger name status path).
Proof.
  intros l Hinv. apply (process_if_run _ _ _ _ _ _ _ (fun id d => rd_id d = id)); [solve_describes|done|done|].
  intros d _ Hd%trigger_from_path_id. rewrite named in Hd. by injection Hd.
Qed.

End read.

(** What is deleted is marked, with its status. *)
Lemma unload_books name path : keeps_books
  (modify (fun l => l <| lb_status ::= <[name := UnitStatus.UnloadStarted path]> |>);; mark_dirty name).
Proof.
  intros l Hinv. rewrite (bind_step _ _ _ tt _ eq_refl), mark_dirty_marked. eexists. split; [reflexivity|].
  destruct (marked_same name (l <| lb_status ::= <[name := UnitStatus.UnloadStarted path]> |>)) as (Hs & Hm & He & Ht).
  split; [|by rewrite Hm]. apply (noted_inv name l _ Hinv). split.
  - exists (UnitStatus.UnloadStarted path). split; [by right|done].
  - rewrite Hm. apply Hinv.
  - by rewrite Hm.
  - intros k id Hin%marked_dirty. by destruct k.
  - intros k id. rewrite He. left. by destruct k.
  - apply Ht. by destruct Hinv as [_ _ _ _ _ []].
Qed.

Lemma no_books : keeps_books (mret tt).
Proof. intros l Hinv. by exists l. Qed.

(** The library's part of a status event. *)
Lemma status_books `{Files} l name status : message_ok l (Event.Status (mkStatusEvent name status)) ->
  keeps_books
    (match status with
     | UnitStatus.LoadStarted path =>
       process_interface name status path;; process_logger name status path;;
       process_jig name status path;; process_scenario name status path;;
       process_test name status path;; process_trigger name status path
     | UnitStatus.UpdateStarted path =>
       process_interface name status path;; process_jig name status path;;
       process_logger name status path;; process_scenario name status path;;
       process_trigger name status path
     | UnitStatus.UnloadStarted path =>
       modify (fun l => l <| lb_status ::= <[name := UnitStatus.UnloadStarted path]> |>);;
       mark_dirty name
     | _ => mret tt
     end).
Proof.
  destruct status; simpl; try (intros _; apply no_books); try (intros _; apply unload_books); intros [Hname Hok].
  - apply keeps_books_bind; [by apply interface_books|]. apply keeps_books_bind; [by apply logger_books|].
    apply keeps_books_bind; [by apply jig_books|]. apply keeps_books_bind; [by apply scenario_books|].
    apply keeps_books_bind; [by apply test_books|by apply trigger_books].
  - apply keeps_books_bind; [by apply interface_books|]. apply keeps_books_bind; [by apply jig_books|].
    apply keeps_books_bind; [by apply logger_books|].
    apply keeps_books_bind; [by apply scenario_books|by apply trigger_books].
Qed.

(** Every message is processed to its end. *)
Lemma library_message_run `{Files} l e : lib_inv l -> message_ok l e ->
  exists l', library_process_message depth program_lines e l = Done (tt, l') /\ lib_inv l'.
Proof.
  intros Hinv Hok. unfold library_process_message.
  assert (forall (m : M Library unit), (exists l', m l = Done (tt, l') /\ lib_inv l' /\
      (forall msg, e = Event.ManagerRequest msg -> l' = l)) ->
    exists l', (m;; on_manager (process_message depth e)) l = Done (tt, l') /\ lib_inv l') as Hstep.
  { intros m (l1 & Hrun & Hinv1 & Hsame). rewrite (bind_step _ _ _ _ _ Hrun).
    destruct (rt_manager_steady program_lines (process_message depth e) l1 (fun _ _ => True) Hinv1)
      as ([] & l2 & Hrun2 & _ & Hinv2 & _); [|by exists l2].
    apply process_message_run; [done|apply Hinv1|]. destruct e; try done. by rewrite (Hsame _ eq_refl). }
  apply Hstep. clear Hstep. destruct e as [[name status]| | | | | | | ]; try by exists l.
  - destruct (status_books l name status Hok l Hinv) as (l' & Hrun & Hinv' & _). exists l'. by split_and!.
  - destruct (rescan_run depth program_lines depth_enough l Hinv Hok) as (l' & Hrun & Hinv' & _).
    exists l'. by split_and!.
Qed.

(** ** Runs

    The files may change from one message to the next. *)

Inductive lib_reachable : Library -> Prop :=
  | lib_new i : lib_reachable (library_new i)
  | lib_message (files : Files) l e l' : lib_reachable l -> message_ok l e ->
      library_process_message depth program_lines e l = Done (tt, l') -> lib_reachable l'.

Lemma library_new_inv i : lib_inv (library_new i).
Proof.
  split; try done; try (intros []; set_solver).
Qed.

Lemma lib_reachable_inv l : lib_reachable l -> lib_inv l.
Proof.
  induction 1 as [i|files l e l' _ IH Hok Hrun]; [apply library_new_inv|].
  destruct (library_message_run l e IH Hok) as (l1 & Hrun1 & Hinv). rewrite Hrun in Hrun1.
  by injection Hrun1 as ->.
Qed.

Lemma supporting_intro {D} (supports : D -> UnitName -> bool) jigs descs id d jig :
  descs !! id = Some d -> jig ∈ jigs -> supports d jig = true -> id ∈ supporting supports jigs descs.
Proof.
  intros Hd Hjig Hsup. apply elem_of_dom. exists d. apply map_lookup_filter_Some_2; [done|].
  apply existsb_exists. exists jig. by rewrite <- list_elem_of_In, elem_of_elements.
Qed.

(** ** Guarantees *)


(** A rescan settles everything: from any state of a run it ends, nothing
    is marked any more, no unit appears in the books that was not there, and a
    marked unit whose file was deleted, or could not be read, is forgotten - it
    has no status and no description, and is not loaded. *)
Theorem rescan_settles l : lib_reachable l -> small l ->
  exists l', rescan depth program_lines l = Done (tt, l') /\
    (forall k, dirty_of k l' = ∅) /\ dom (lb_status l') ⊆ dom (lb_status l) /\
    forall k id s, id ∈ dirty_of k l -> lb_status l !! id = Some s -> leaving s = true ->
      lb_status l' !! id = None /\ (forall k', id ∉ described k' l') /\
      m_scenarios (lb_manager l') !! id = None /\ m_tests (lb_manager l') !! id = None.
Proof.
  intros Hr Hsmall.
  destruct (rescan_run depth program_lines depth_enough l (lib_reachable_inv l Hr) Hsmall)
    as (l' & Hrun & Hinv & Hset & Hdom & Hforgot).
  exists l'. split_and!; [done|done|done|]. intros k id s Hin Hs Hleave.
  destruct (Hforgot k id) as (Hnone & Hno & Hd); [by eapply elem_of_weaken, jig_dependents_more|by exists s|].
  unfold loaded in Hno. apply not_elem_of_union in Hno as [Hno1 Hno2].
  split_and!; [done|done|by apply not_elem_of_dom|by apply not_elem_of_dom].
Qed.

(** The update of a test's file has no effect: the library reads the new
    files of every kind of unit but the tests, so an edited test is neither
    read nor marked for the next rescan. *)
Theorem test_update_ignored `{Files} name path l : un_kind name = UnitKind.Test ->
  library_process_message depth program_lines
    (Event.Status (mkStatusEvent name (UnitStatus.UpdateStarted path))) l = Done (tt, l).
Proof.
  intros Hk. unfold library_process_message. simpl.
  unfold process_interface, process_jig, process_logger, process_scenario, process_trigger, process_if.
  rewrite !Hk. by destruct l.
Qed.

(** (C37) A scenario that waits for its jig is dropped when the jig arrives: its
    status is [LoadFailed] because the jig was missing, so the rescan that finds
    the new jig marks it, takes it for one that could not be read, and forgets
    it instead of loading it. *)
Theorem late_jig_drops_scenario l jig id d reason : lib_reachable l -> small l ->
  jig ∈ lb_dirty_jigs l -> lb_scenario_descriptions l !! id = Some d ->
  scenario_supports_jig d jig = true -> lb_status l !! id = Some (UnitStatus.LoadFailed reason) ->
  exists l', rescan depth program_lines l = Done (tt, l') /\
    lb_status l' !! id = None /\ lb_scenario_descriptions l' !! id = None /\
    m_scenarios (lb_manager l') !! id = None.
Proof.
  intros Hr Hsmall Hjig Hd Hsup Hs.
  destruct (rescan_run depth program_lines depth_enough l (lib_reachable_inv l Hr) Hsmall)
    as (l' & Hrun & _ & _ & _ & Hforgot).
  exists l'. split; [done|]. destruct (Hforgot UnitKind.Scenario id) as (Hnone & Hno & Hgone).
  - simpl. apply elem_of_union. left. by eapply supporting_intro.
  - by exists (UnitStatus.LoadFailed reason).
  - specialize (Hgone UnitKind.Scenario). unfold loaded in Hno. apply not_elem_of_union in Hno as [Hno _].
    split_and!; [done|by apply not_elem_of_dom|by apply not_elem_of_dom].
Qed.
End library.

Module SampleLibrary.

(** A test, a scenario for the jig [bench], and a jig of that name. *)
#[export] Instance libs : Libraries := sample_libraries.
#[export] Instance files : Files := files_with
  [("/units/a.test", "[Test]
ExecStart=true");
   ("/units/s.scenario", "[Scenario]
Jigs=bench
Tests=a");
   ("/units/bench.jig", "[Jig]
Name=Test bench")].
#[export] Existing Instance sample_dependy.
#[export] Existing Instance sample_dependy_laws.
#[export] Existing Instance sample_env.

Definition laws : @EnvLaws sample_env := env_with_laws _ _.
#[export] Existing Instance laws.

Definition a : UnitName := mkName "a" UnitKind.Test.
Definition s : UnitName := mkName "s" UnitKind.Scenario.
Definition bench : UnitName := mkName "bench" UnitKind.Jig.

Definition found (n : UnitName) (path : string) : UnitEvent :=
  Event.Status (mkStatusEvent n (UnitStatus.LoadStarted path)).
Definition lost (n : UnitName) (path : string) : UnitEvent :=
  Event.Status (mkStatusEvent n (UnitStatus.UnloadStarted path)).

Definition after (e : UnitEvent) (l : Library) : Library :=
  match library_process_message 4 0 e l with Done (_, l') => l' | _ => l end.

Lemma after_reachable l e : lib_reachable 4 0 l -> message_ok 0 l e -> lib_reachable 4 0 (after e l).
Proof.
  intros Hr Hok. pose proof (lib_reachable_inv 4 0 ltac:(lia) l Hr) as Hinv.
  destruct (library_message_run 4 0 ltac:(lia) l e Hinv Hok) as (l' & Hrun & _).
  unfold after. rewrite Hrun. by eapply lib_message.
Qed.

Lemma readable_a : readable 0 "/units/a.test".
Proof. by split. Qed.
Lemma readable_bench : readable 0 "/units/bench.jig".
Proof. split; [done| |done]. intros d Hd. vm_compute in Hd. injection Hd as <-. split; [done|by left]. Qed.
Lemma readable_s : readable 0 "/units/s.scenario".
Proof.
  split; [done|done|]. intros d Hd. vm_compute in Hd. injection Hd as <-. split; [|done].
  exists a. split; [by left|apply not_elem_of_nil].
Qed.

Definition l0 : Library := library_new (mkIO config_new 0 []).
Definition l1 : Library := after (found a "/units/a.test") l0.
Definition l2 : Library := after (found s "/units/s.scenario") l1.
Definition l3 : Library := after Event.RescanRequest l2.
(** The jig arrives after a rescan. *)
Definition l4 : Library := after (found bench "/units/bench.jig") l3.
(** The test is deleted. *)
Definition l5 : Library := after (lost a "/units/a.test") l3.

Lemma small_by_size l : Z.leb (Z.of_nat (size (lb_status l)) + 501) u32_max = true -> small l.
Proof. apply Z.leb_le. Qed.

Lemma l2_reachable : lib_reachable 4 0 l2.
Proof.
  apply after_reachable; [apply after_reachable; [apply lib_new|]|]; (split; [by vm_compute|]).
  - apply readable_a.
  - apply readable_s.
Qed.
Lemma l3_reachable : lib_reachable 4 0 l3.
Proof. apply after_reachable; [apply l2_reachable|]. apply small_by_size. by vm_compute. Qed.
Lemma l4_reachable : lib_reachable 4 0 l4.
Proof. apply after_reachable; [apply l3_reachable|]. split; [by vm_compute|apply readable_bench]. Qed.
Lemma l5_reachable : lib_reachable 4 0 l5.
Proof. by apply after_reachable; [apply l3_reachable|]. Qed.


Lemma rescan_settles_witness : exists l', rescan 4 0 l5 = Done (tt, l') /\ lb_status l' !! a = None.
Proof.
  destruct (rescan_settles 4 0 ltac:(lia) l5 l5_reachable) as (l' & Hrun & _ & _ & Hforgot).
  - apply small_by_size. vm_compute. reflexivity.
  - destruct (Hforgot UnitKind.Test a (UnitStatus.UnloadStarted "/units/a.test")) as [Hnone _].
    + refine (bool_decide_eq_true_1 (a ∈ dirty_of UnitKind.Test l5) _). vm_compute. reflexivity.
    + vm_compute. reflexivity.
    + reflexivity.
    + exact (ex_intro _ l' (conj Hrun Hnone)).
Defined.

Lemma test_update_ignored_witness :
  library_process_message 4 0 (Event.Status (mkStatusEvent a (UnitStatus.UpdateStarted "/units/a.test"))) l3
    = Done (tt, l3).
Proof. apply (test_update_ignored 4 0 a "/units/a.test" l3). reflexivity. Defined.

Lemma late_jig_drops_scenario_witness : exists l', rescan 4 0 l4 = Done (tt, l') /\ lb_status l' !! s = None.
Proof.
  assert (exists reason, lb_status l4 !! s = Some (UnitStatus.LoadFailed reason)) as [reason Hs]
    by (eexists; vm_compute; reflexivity).
  assert (exists d, lb_scenario_descriptions l4 !! s = Some d /\ scenario_supports_jig d bench = true) as (d & Hd & Hj)
    by (eexists; split; [vm_compute; reflexivity|vm_compute; reflexivity]).
  destruct (late_jig_drops_scenario 4 0 ltac:(lia) l4 bench s d reason l4_reachable) as (l' & Hrun & Hnone & _).
  - apply small_by_size. vm_compute. reflexivity.
  - refine (bool_decide_eq_true_1 (bench ∈ lb_dirty_jigs l4) _). vm_compute. reflexivity.
  - exact Hd.
  - exact Hj.
  - exact Hs.
  - exact (ex_intro _ l' (conj Hrun Hnone)).
Defined.

End SampleLibrary.
