(* ===== verification/LibraryCurrent.v ===== *)
(** * What is loaded is what was read

    Between rescans the library marks every unit whose file changed, so a unit
    that is not marked is loaded with what its file said, or failed and is not
    loaded, or is unknown.  A rescan makes this true of every unit. *)

From S2P Require Import Prelude Str Path Unit Foreign Config Events Env Samples Descriptions.
From S2P Require Import Interface Trigger Logger Jig Test Scenario ScenarioProps ScenarioTheorems Manager ManagerProps ManagerSafety.
From S2P Require Import ManagerFrames Reload Library LibraryProps LibraryLoads LibraryTheorems.

Section library.
Context `{Libraries} `{DependyLib} `{Env} `{!EnvLaws} `{!DependyLaws}.
Context (depth program_lines : nat) (depth_enough : 4 <= depth).
Implicit Types l : Library.
#[local] Abbreviation lib_inv := (LibraryProps.lib_inv program_lines).

(** Loaded as described, failed, or unknown. *)
Definition consistent l (id : UnitName) : Prop :=
  match lb_status l !! id with
  | Some s =>
    if loading s then exists d, described_as l id = Some d /\ loaded_as (lb_manager l) id = Some d
    else loaded_as (lb_manager l) id = None
  | None => described_as l id = None /\ loaded_as (lb_manager l) id = None
  end.

(** What is not marked is consistent, and what is to be loaded is described. *)
Record current l : Prop := {
  cr_consistent id : is_dirty l id \/ consistent l id;
  cr_described id s : lb_status l !! id = Some s -> loading s = true -> is_Some (described_as l id);
}.

Lemma known_consistent l l' id : known l' id = known l id -> consistent l id -> consistent l' id.
Proof. unfold known, consistent. intros [= -> -> ->]. tauto. Qed.

Definition keeps_current l l' : Prop := current l -> current l'.

#[export] Instance keeps_current_preorder : PreOrder keeps_current.
Proof. split; [by intros l Hc|]. intros l1 l2 l3 K1 K2 Hc. by apply K2, K1. Qed.

(** ** Messages *)

Lemma alike_keeps l l' : alike l l' -> (forall id, is_dirty l id -> is_dirty l' id) -> keeps_current l l'.
Proof.
  intros [_ K] Hd [Cc Cd]. split.
  - intros id. destruct (Cc id) as [Hid|Hid]; [left; by apply Hd|right]. by apply (known_consistent l).
  - intros id s. specialize (K id). injection K as Hs He _. rewrite Hs, He. apply Cd.
Qed.

Lemma manager_keeps {A} (m : M Manager A) : frames same_descs m -> frames keeps_current (on_manager m).
Proof.
  intros Hm l a l' Hrun. apply alike_keeps; [by eapply alike_manager|].
  apply manager_Done in Hrun as (w & _ & ->). intros id. unfold is_dirty. by destruct (un_kind id).
Qed.

Lemma marked_is_dirty name l : un_kind name <> UnitKind.Internal -> is_dirty (marked name l) name.
Proof. clear depth depth_enough program_lines. unfold is_dirty, marked. destruct (un_kind name); intros Hk; try done; simpl; set_solver. Qed.

Lemma marked_more name l id : is_dirty l id -> is_dirty (marked name l) id.
Proof. clear depth depth_enough program_lines. unfold is_dirty, marked. destruct (un_kind name), (un_kind id); simpl; set_solver. Qed.

Lemma marked_alike name l : alike l (marked name l).
Proof. unfold marked. by destruct (un_kind name). Qed.

Lemma mark_keeps name : frames keeps_current (mark_dirty name).
Proof.
  intros l ? l' Hrun. rewrite mark_dirty_marked in Hrun. injection Hrun as _ <-.
  apply alike_keeps; [apply marked_alike|apply marked_more].
Qed.

(** A marked unit may get any status, if it is described. *)
Lemma status_keeps name s l : is_dirty l name -> (loading s = true -> is_Some (described_as l name)) ->
  keeps_current l (l <| lb_status ::= <[name := s]> |>).
Proof.
  intros Hname Hs [Cc Cd].
  assert (forall id, is_dirty (l <| lb_status ::= <[name := s]> |>) id <-> is_dirty l id) as Hd.
  { intros id. unfold is_dirty. by destruct (un_kind id). }
  split.
  - intros id. rewrite Hd. destruct (decide (id = name)) as [->|Hne]; [by left|].
    destruct (Cc id) as [|Hid]; [by left|right]. unfold consistent in *. simpl. by rewrite lookup_insert_ne.
  - intros id s'. simpl. intros [[<- <-]|[_ Hid]]%lookup_insert_Some; [done|by apply Cd].
Qed.

(** How a description is put in the books. *)
Record puts_as k {D} (mk : D -> Description) (descs : Library -> gmap UnitName D)
    (put : gmap UnitName D -> Library -> Library) : Prop := {
  pa_described l name d n : un_kind name = k ->
    described_as (put (<[name := d]> (descs l)) l) n = if decide (n = name) then Some (mk d) else described_as l n;
  pa_status m l : lb_status (put m l) = lb_status l;
  pa_manager m l : lb_manager (put m l) = lb_manager l;
  pa_dirty m l id : is_dirty (put m l) id <-> is_dirty l id;
}.

(** The description of a marked unit may be replaced. *)
Lemma put_keeps k {D} (mk : D -> Description) descs put name d l : puts_as k mk descs put ->
  un_kind name = k -> is_dirty l name -> keeps_current l (put (<[name := d]> (descs l)) l).
Proof.
  intros [He Hs Hm Hd] Hk Hname [Cc Cd]. split.
  - intros id. rewrite Hd. destruct (decide (id = name)) as [->|Hne]; [by left|].
    destruct (Cc id) as [|Hid]; [by left|right]. unfold consistent in *.
    by rewrite He, Hs, Hm, decide_False by done.
  - intros id s. rewrite Hs, He by done. case_decide; [by eexists|apply Cd].
Qed.

Lemma process_if_keeps k {D} (mk : D -> Description) (read : string -> result UnitDescriptionError D) descs put
    name status path : puts_as k mk descs put -> k <> UnitKind.Internal -> loading status = true ->
  frames keeps_current (process_if name status k path read descs put).
Proof.
  intros Hput Hk Hst. unfold process_if. case_bool_decide as Hname; [|apply frames_ret, _]. simpl.
  intros l ? l' (? & l1 & Hmark & Hrun)%bind_Done.
  transitivity l1; [by eapply mark_keeps|]. rewrite mark_dirty_marked in Hmark. injection Hmark as _ <-.
  assert (is_dirty (marked name l) name) as Hd by (apply marked_is_dirty; congruence).
  revert Hd Hrun. generalize (marked name l). clear l. intros l Hd Hrun. destruct (read path) as [d|e].
  - apply bind_Done in Hrun as (? & l1 & [= _ <-] & Hrun).
    transitivity (put (<[name := d]> (descs l)) l); [by eapply put_keeps|].
    assert (is_dirty (put (<[name := d]> (descs l)) l) name) as Hd1 by by apply (pa_dirty _ _ _ _ Hput).
    assert (described_as (put (<[name := d]> (descs l)) l) name = Some (mk d)) as He.
    { by rewrite (pa_described _ _ _ _ Hput), decide_True. }
    revert Hd1 He Hrun. generalize (put (<[name := d]> (descs l)) l). clear l Hd. intros l Hd He Hrun.
    apply bind_Done in Hrun as (? & l1 & [= _ <-] & Hrun).
    transitivity (l <| lb_status ::= <[name := status]> |>); [by apply status_keeps; [|by eexists]|].
    revert Hrun. apply frames_bind; [exact _|apply frames_gets, _|intros n]. apply manager_keeps, same_descs_io.
  - apply bind_Done in Hrun as (? & l1 & Hb & Hrun). transitivity l1; [revert Hb; apply manager_keeps, same_descs_io|].
    injection Hrun as _ <-. apply status_keeps; [|done].
    apply manager_Done in Hb as (w & _ & ->). unfold is_dirty in *. by destruct (un_kind name).
Qed.

Ltac solve_puts_as := split;
  [ intros ? ? ? n Hk; unfold described_as; simpl; case_decide as Hn;
      [subst n; rewrite Hk; by rewrite lookup_insert_eq
      |destruct (un_kind n); try done; by rewrite lookup_insert_ne]
  | done | done | intros m l id; unfold is_dirty; by destruct (un_kind id) ].

Lemma puts_interface : puts_as UnitKind.Interface DInterface lb_interface_descriptions (fun m l => l <| lb_interface_descriptions := m |>).
Proof. solve_puts_as. Qed.
Lemma puts_logger : puts_as UnitKind.Logger DLogger lb_logger_descriptions (fun m l => l <| lb_logger_descriptions := m |>).
Proof. solve_puts_as. Qed.
Lemma puts_jig : puts_as UnitKind.Jig DJig lb_jig_descriptions (fun m l => l <| lb_jig_descriptions := m |>).
Proof. solve_puts_as. Qed.
Lemma puts_scenario : puts_as UnitKind.Scenario DScenario lb_scenario_descriptions (fun m l => l <| lb_scenario_descriptions := m |>).
Proof. solve_puts_as. Qed.
Lemma puts_test : puts_as UnitKind.Test DTest lb_test_descriptions (fun m l => l <| lb_test_descriptions := m |>).
Proof. solve_puts_as. Qed.
Lemma puts_trigger : puts_as UnitKind.Trigger DTrigger lb_trigger_descriptions (fun m l => l <| lb_trigger_descriptions := m |>).
Proof. solve_puts_as. Qed.

Section status.
Context `{Files} (name : UnitName) (status : UnitStatus) (path : string) (starting : loading status = true).

Lemma interface_keeps : frames keeps_current (process_interface name status path).
Proof. by eapply process_if_keeps; first apply puts_interface. Qed.
Lemma logger_keeps : frames keeps_current (process_logger name status path).
Proof. by eapply process_if_keeps; first apply puts_logger. Qed.
Lemma jig_keeps : frames keeps_current (process_jig name status path).
Proof. by eapply process_if_keeps; first apply puts_jig. Qed.
Lemma scenario_keeps : frames keeps_current (process_scenario name status path).
Proof. by eapply process_if_keeps; first apply puts_scenario. Qed.
Lemma test_keeps : frames keeps_current (process_test name status path).
Proof. by eapply process_if_keeps; first apply puts_test. Qed.
Lemma trigger_keeps : frames keeps_current (process_trigger name status path).
Proof. by eapply process_if_keeps; first apply puts_trigger. Qed.

End status.

(** A deleted unit is marked; a name without a kind is never loaded. *)
Lemma unload_keeps name path : frames keeps_current
  (modify (fun l => l <| lb_status ::= <[name := UnitStatus.UnloadStarted path]> |>);; mark_dirty name).
Proof.
  intros l ? l' (? & l1 & [= _ <-] & Hrun)%bind_Done. rewrite mark_dirty_marked in Hrun. injection Hrun as _ <-.
  set (s := UnitStatus.UnloadStarted path). destruct (decide (un_kind name = UnitKind.Internal)) as [Hk|Hk].
  - intros [Cc Cd]. unfold marked. rewrite Hk. split.
    + intros id. destruct (Cc id) as [Hid|Hid]; [left; unfold is_dirty in *; by destruct (un_kind id)|right].
      unfold consistent in *. simpl. destruct (decide (id = name)) as [->|Hne]; [|by rewrite lookup_insert_ne].
      rewrite lookup_insert_eq. simpl. unfold loaded_as. by rewrite Hk.
    + intros id s'. simpl. intros [[<- <-]|[_ Hid]]%lookup_insert_Some; [done|by apply Cd].
  - transitivity (marked name l <| lb_status ::= <[name := s]> |>).
    + transitivity (marked name l); [apply alike_keeps; [apply marked_alike|apply marked_more]|].
      by apply status_keeps; [apply marked_is_dirty|].
    + unfold marked. by destruct (un_kind name); intros [].
Qed.

Lemma message_keeps `{Files} e : e <> Event.RescanRequest -> frames keeps_current (library_process_message depth program_lines e).
Proof.
  intros He. unfold library_process_message. apply frames_bind; [exact _| |intros _; apply manager_keeps, same_descs_message].
  destruct e as [[name status]| | | | | | |]; try done; try (apply frames_ret, _). simpl.
  destruct status; try (apply frames_ret, _); [..|apply unload_keeps|].
  all: walk ltac:(first [ by apply interface_keeps | by apply logger_keeps | by apply jig_keeps
    | by apply scenario_keeps | by apply test_keeps | by apply trigger_keeps ]).
Qed.

(** ** Rescans *)

Lemma jig_dependents_dirty l id : is_dirty l id -> to_reload l id.
Proof. intros Hid. eapply elem_of_weaken; [|by apply (mark_dirty_of depth)]. by eapply elem_of_weaken, (jig_dependents_more depth). Qed.

(** A rescan makes every unit consistent. *)
Lemma rescan_consistent l l' : lib_inv l -> current l -> rescan depth program_lines l = Done (tt, l') ->
  current l' /\ forall id, consistent l' id.
Proof.
  intros Hinv [Cc Cd] Hrun. destruct (rescan_effect depth program_lines depth_enough l l' Hinv Hrun) as [Ho Hg Hs].
  assert (forall id, to_reload l id \/ ~ to_reload l id) as Hdec by (intros id; unfold to_reload, is_dirty;
    destruct (decide (id ∈ dirty_of (un_kind id) (rescan_marks l))); auto).
  assert (forall id, is_leaving l id \/ ~ is_leaving l id) as Hdec2.
  { intros id. unfold is_leaving. destruct (lb_status l !! id) as [s|]; [|right; by intros (? & ? & _)].
    destruct (leaving s) eqn:?; [left; by eexists|right]. intros (? & [= <-] & ?). congruence. }
  assert (forall id, to_reload l id -> ~ is_leaving l id -> exists s d, lb_status l !! id = Some s /\
    loading s = true /\ described_as l id = Some d) as Hload.
  { intros id Hid Hl. pose proof (mark_test_dependents_inv _ _ (mark_jig_dependents_inv _ _ Hinv)) as Hinv2.
    apply (li_dirty _ _ Hinv2) in Hid as [_ [s Hst]%elem_of_dom]. change (lb_status l !! id = Some s) in Hst.
    destruct (li_status _ l Hinv id s Hst) as [Hlo|Hle]; [|by destruct Hl; exists s].
    destruct (Cd id s Hst Hlo) as [d Hd]. by exists s, d. }
  assert (forall id, consistent l' id) as Hall.
  { intros id. destruct (Hdec id) as [Hid|Hid].
    - destruct (Hdec2 id) as [Hl|Hl].
      + specialize (Hg id Hid Hl). injection Hg as Hg1 Hg2 Hg3. unfold consistent. by rewrite Hg1.
      + destruct (Hload id Hid Hl) as (s & d & Hst & Hlo & Hd). unfold consistent.
        destruct (Ho id Hid Hl s d Hst Hd) as [[= -> -> ->]|[text [= -> -> ->]]]; simpl; [|done].
        rewrite Hlo. by exists d.
    - apply (known_consistent l); [by apply Hs|]. destruct (Cc id) as [Hd|]; [|done].
      by apply jig_dependents_dirty in Hd. }
  split; [|exact Hall]. split; [by right|]. intros id s Hst Hlo. specialize (Hall id). unfold consistent in Hall.
  rewrite Hst, Hlo in Hall. destruct Hall as (d & Hd & _). by exists d.
Qed.

#[local] Abbreviation lib_reachable := (LibraryTheorems.lib_reachable depth program_lines).

Lemma reachable_current l : lib_reachable l -> current l.
Proof.
  induction 1 as [i|files l e l' Hr IH Hok Hrun].
  { split; [|done]. intros id. right. unfold consistent, described_as, loaded_as, scenario_named. simpl.
    rewrite lookup_empty. by destruct (un_kind id); rewrite ?lookup_empty. }
  destruct (decide (e = Event.RescanRequest)) as [->|He]; [|by eapply message_keeps].
  apply bind_Done in Hrun as ([] & l1 & Hrun & Hm).
  apply manager_keeps in Hm; [|apply same_descs_message]. apply Hm.
  apply (rescan_consistent l l1); [|done|done]. by eapply lib_reachable_inv.
Qed.

(** ** Guarantees *)

(** A rescan brings every unit up to date: from any state of a run it ends
    in a state where each unit that is to be loaded is loaded with exactly the
    description that was read from its file, each unit that failed or is deleted
    is not loaded, and an unknown name is not described.  What was marked, or
    depends on a marked jig or test, is loaded from its present description or
    noted as failed; what was not marked keeps its status, its description and
    what it is loaded with. *)
Theorem rescan_loads l : lib_reachable l -> small l ->
  exists l', rescan depth program_lines l = Done (tt, l') /\ (forall id, consistent l' id) /\
    (forall id s d, to_reload l id -> lb_status l !! id = Some s -> loading s = true ->
       described_as l id = Some d ->
       known l' id = (Some s, Some d, Some d) \/
       exists text, known l' id = (Some (UnitStatus.LoadFailed text), Some d, None)) /\
    (forall id, ~ to_reload l id -> known l' id = known l id).
Proof.
  intros Hr Hsmall. pose proof (lib_reachable_inv depth program_lines depth_enough l Hr) as Hinv.
  destruct (rescan_run depth program_lines depth_enough l Hinv Hsmall) as (l' & Hrun & _). exists l'.
  destruct (rescan_effect depth program_lines depth_enough l l' Hinv Hrun) as [Ho _ Hs].
  split_and!; [done| | |done].
  - apply (rescan_consistent l); [done|by apply reachable_current|done].
  - intros id s d Hid Hst Hlo Hd. apply Ho; [done| |done|done].
    intros (s' & Hst' & Hle). rewrite Hst in Hst'. injection Hst' as <-. by destruct s.
Qed.

End library.

Module SampleCurrent.
Import SampleLibrary.

Lemma rescan_loads_witness : exists l', rescan 4 0 l2 = Done (tt, l') /\
  consistent l' a /\ described_as l' a = described_as l2 a.
Proof.
  destruct (rescan_loads 4 0 ltac:(lia) l2 l2_reachable) as (l' & Hrun & Hc & Ho & _).
  - apply small_by_size. vm_compute. reflexivity.
  - refine (ex_intro _ l' (conj Hrun (conj (Hc a) _))).
    assert (exists d, described_as l2 a = Some d) as [d Hd] by (eexists; vm_compute; reflexivity).
    rewrite Hd. destruct (Ho a (UnitStatus.LoadStarted "/units/a.test") d) as [Hk|[text Hk]].
    + refine (bool_decide_eq_true_1 (a ∈ dirty_of UnitKind.Test (rescan_marks l2)) _). vm_compute. reflexivity.
    + vm_compute. reflexivity.
    + reflexivity.
    + exact Hd.
    + exact (f_equal (fun p => snd (fst p)) Hk).
    + exact (f_equal (fun p => snd (fst p)) Hk).
Defined.

End SampleCurrent.
