(* ===== verification/LibraryFiles.v ===== *)
(** * The library follows the files

    Between two rescans the library is told what happens to files.  The last
    thing it was told of a unit decides what the next rescan makes of it: the
    unit is loaded with what its file said when it was read, or forgotten. *)

From S2P Require Import Prelude Str Path Unit Foreign Config Events Env Samples Descriptions.
From S2P Require Import Interface Trigger Logger Jig Test Scenario ScenarioProps ScenarioTheorems Manager ManagerProps ManagerSafety.
From S2P Require Import ManagerFrames Reload Library LibraryProps LibraryLoads LibraryTheorems LibraryCurrent.

Section files.
Context `{Libraries} `{DependyLib} `{Env} `{!EnvLaws} `{!DependyLaws}.
Context (depth program_lines : nat) (depth_enough : 4 <= depth).
Implicit Types l : Library.

(** ** What the library is asked for *)

(** A unit is to be loaded with a description, or to go. *)
Inductive Wish :=
  | Wanted (s : UnitStatus) (d : Description)
  | Unwanted.

Definition wish_from {D} (mk : D -> Description) (s : UnitStatus) (r : result UnitDescriptionError D) : Wish :=
  match r with Ok d => Wanted s (mk d) | Err _ => Unwanted end.

(** A file that can not be read is as good as none. *)
Definition read_wish `{Files} (k : UnitKind) (s : UnitStatus) (path : string) : option Wish :=
  match k with
  | UnitKind.Interface => Some (wish_from DInterface s (interface_from_path path))
  | UnitKind.Jig => Some (wish_from DJig s (jig_from_path path))
  | UnitKind.Logger => Some (wish_from DLogger s (logger_from_path path))
  | UnitKind.Scenario => Some (wish_from DScenario s (scenario_from_path path))
  | UnitKind.Test => Some (wish_from DTest s (test_from_path path))
  | UnitKind.Trigger => Some (wish_from DTrigger s (trigger_from_path path))
  | UnitKind.Internal => None
  end.

(** What a message asks for. *)
Definition wish_of `{Files} (e : UnitEvent) : option (UnitName * Wish) :=
  match e with
  | Event.Status (mkStatusEvent name status) =>
    match status with
    | UnitStatus.LoadStarted path | UnitStatus.UpdateStarted path => pair name <$> read_wish (un_kind name) status path
    | UnitStatus.UnloadStarted path => Some (name, Unwanted)
    | _ => None
    end
  | _ => None
  end.

(** The branch for updates has no case for tests. *)
Definition is_test_update (e : UnitEvent) : bool :=
  match e with
  | Event.Status (mkStatusEvent name (UnitStatus.UpdateStarted path)) => bool_decide (un_kind name = UnitKind.Test)
  | _ => false
  end.

(** The messages without the updates of tests. *)
Definition heard (es : list (Files * UnitEvent)) : list (Files * UnitEvent) :=
  filter (fun p => is_test_update p.2 = false) es.

(** The last that was asked for a unit. *)
Definition next_wish (id : UnitName) (o : option Wish) (p : Files * UnitEvent) : option Wish :=
  match @wish_of p.1 p.2 with
  | Some (name, w) => if bool_decide (name = id) then Some w else o
  | None => o
  end.

Definition last_wish (es : list (Files * UnitEvent)) (id : UnitName) : option Wish := foldl (next_wish id) None es.

Definition wished (w : Wish) l (id : UnitName) : Prop :=
  match w with
  | Wanted s d => loading s = true /\ lb_status l !! id = Some s /\ described_as l id = Some d
  | Unwanted => is_leaving l id
  end.

(** ** What a message does *)

(** Nothing is known of it that was not, and it is marked as it was. *)
Definition untouched l l' (id : UnitName) : Prop := known l' id = known l id /\ (is_dirty l' id <-> is_dirty l id).

(** One unit is marked with a wish. *)
Record heeds (name : UnitName) (w : Wish) l l' : Prop := {
  he_wished : un_kind name <> UnitKind.Internal -> wished w l' name;
  he_dirty : un_kind name <> UnitKind.Internal -> is_dirty l' name;
  he_other id : id <> name -> untouched l l' id;
}.

Lemma untouched_trans l1 l2 l3 id : untouched l1 l2 id -> untouched l2 l3 id -> untouched l1 l3 id.
Proof. intros [K1 D1] [K2 D2]. split; [by rewrite K2|tauto]. Qed.

Lemma wished_known w l l' id : known l' id = known l id -> wished w l id -> wished w l' id.
Proof. unfold known, wished, is_leaving. intros [= -> -> _]. done. Qed.

Lemma manager_untouched {A} (m : M Manager A) l a l' id : frames same_descs m ->
  on_manager m l = Done (a, l') -> untouched l l' id.
Proof.
  intros Hm Hrun. split; [by apply (qu_known _ _ (alike_manager m Hm _ _ _ Hrun))|].
  apply manager_Done in Hrun as (w & _ & ->). unfold is_dirty. by destruct (un_kind id).
Qed.

Lemma heeds_then name w l l1 l' : heeds name w l l1 -> (forall id, untouched l1 l' id) -> heeds name w l l'.
Proof.
  intros [Hw Hd Ho] Hu. split.
  - intros Hk. eapply wished_known; [apply Hu|by apply Hw].
  - intros Hk. by apply Hu, Hd.
  - intros id Hid. by eapply untouched_trans; [apply Ho|].
Qed.

Lemma marked_untouched name l id : id <> name -> untouched l (marked name l) id.
Proof.
  intros Hne. split; [apply marked_alike|]. unfold is_dirty, marked.
  destruct (un_kind name), (un_kind id); simpl; set_solver.
Qed.

Lemma status_described f l id : described_as (l <| lb_status ::= f |>) id = described_as l id.
Proof. unfold described_as. by destruct (un_kind id). Qed.

Lemma status_dirty f l id : is_dirty (l <| lb_status ::= f |>) id <-> is_dirty l id.
Proof. unfold is_dirty. by destruct (un_kind id). Qed.

(** A status for one unit. *)
Lemma status_untouched name s l id : id <> name -> untouched l (l <| lb_status ::= <[name := s]> |>) id.
Proof.
  intros Hne. split; [|apply status_dirty]. unfold known. rewrite status_described. simpl.
  by rewrite lookup_insert_ne.
Qed.

(** ** What a file does *)

Lemma process_if_other name status k path {D} (read : string -> result UnitDescriptionError D) descs put :
  un_kind name <> k -> process_if name status k path read descs put = mret tt.
Proof. intros Hk. unfold process_if. by rewrite bool_decide_eq_false_2. Qed.

Lemma process_if_heeds name status k path {D} (mk : D -> Description) (read : string -> result UnitDescriptionError D)
    descs put l l' : puts_as k mk descs put -> k <> UnitKind.Internal -> un_kind name = k -> loading status = true ->
  process_if name status k path read descs put l = Done (tt, l') -> heeds name (wish_from mk status (read path)) l l'.
Proof.
  intros Hput Hk Hname Hst. unfold process_if. rewrite bool_decide_eq_true_2 by done. cbn match.
  intros (? & l1 & Hmark & Hrun)%bind_Done. rewrite mark_dirty_marked in Hmark. injection Hmark as _ <-.
  assert (is_dirty (marked name l) name) as Hd by (apply marked_is_dirty; congruence).
  pose proof (marked_untouched name l) as Hm. revert Hd Hm Hrun. generalize (marked name l). intros l1 Hd Hm Hrun.
  destruct (read path) as [d|e]; simpl.
  - apply bind_Done in Hrun as (? & l2 & [= _ <-] & Hrun).
    apply bind_Done in Hrun as (? & l3 & [= _ <-] & Hrun).
    eapply heeds_then; [|intros id; revert Hrun; intros (n & ? & [= <- <-] & Hrun)%bind_Done;
      eapply manager_untouched; [apply same_descs_io|exact Hrun]].
    split; [intros _..|].
    + split_and!; [done|apply lookup_insert_eq|].
      etransitivity; [apply (status_described <[name := status]>)|].
      by rewrite (pa_described _ _ _ _ Hput), decide_True.
    + by apply status_dirty, (pa_dirty _ _ _ _ Hput).
    + intros id Hid. eapply untouched_trans; [by apply Hm|]. eapply untouched_trans; [|by apply status_untouched].
      split; [|apply (pa_dirty _ _ _ _ Hput)]. unfold known.
      by rewrite (pa_status _ _ _ _ Hput), (pa_manager _ _ _ _ Hput), (pa_described _ _ _ _ Hput), decide_False.
  - apply bind_Done in Hrun as (? & l2 & Hb & [= <-]).
    pose proof (fun id => manager_untouched _ _ _ _ id (same_descs_io _) Hb) as Hu. split; [intros _..|].
    + eexists. split; [apply lookup_insert_eq|done].
    + by apply status_dirty, Hu.
    + intros id Hid. eapply untouched_trans; [by apply Hm|]. eapply untouched_trans; [apply Hu|].
      by apply status_untouched.
Qed.

(** The macros of a message come down to the one for the unit's kind. *)
Definition process_kind `{Files} name status path : LM unit :=
  match un_kind name with
  | UnitKind.Interface => process_interface name status path
  | UnitKind.Jig => process_jig name status path
  | UnitKind.Logger => process_logger name status path
  | UnitKind.Scenario => process_scenario name status path
  | UnitKind.Test => process_test name status path
  | UnitKind.Trigger => process_trigger name status path
  | UnitKind.Internal => mret tt
  end.

Ltac dispatch name l :=
  unfold process_kind, process_interface, process_jig, process_logger, process_scenario, process_test, process_trigger;
  destruct (un_kind name) eqn:Hk;
  repeat match goal with |- context [process_if ?n ?s ?k ?p ?r ?d ?u] =>
    rewrite (process_if_other n s k p r d u) by congruence end;
  repeat match goal with |- context [process_if ?n ?s ?k ?p ?r ?d ?u] => generalize (process_if n s k p r d u); intros ? end;
  unfold mbind, M_bind, mret, M_ret; try done;
  match goal with m : LM unit |- _ => by destruct (m l) as [[[] ?]| |] end.

Lemma load_dispatch `{Files} name status path l :
  (process_interface name status path;; process_logger name status path;; process_jig name status path;;
   process_scenario name status path;; process_test name status path;; process_trigger name status path) l =
  process_kind name status path l.
Proof. dispatch name l. Qed.

Lemma update_dispatch `{Files} name status path l : un_kind name <> UnitKind.Test ->
  (process_interface name status path;; process_jig name status path;; process_logger name status path;;
   process_scenario name status path;; process_trigger name status path) l =
  process_kind name status path l.
Proof. intros Ht. dispatch name l. Qed.

Lemma update_test_dispatch `{Files} name status path l : un_kind name = UnitKind.Test ->
  (process_interface name status path;; process_jig name status path;; process_logger name status path;;
   process_scenario name status path;; process_trigger name status path) l = Done (tt, l).
Proof. intros Ht. dispatch name l. Qed.

Lemma process_kind_heeds `{Files} name status path l l' w : loading status = true ->
  read_wish (un_kind name) status path = Some w -> process_kind name status path l = Done (tt, l') ->
  heeds name w l l'.
Proof.
  intros Hs Hw. unfold process_kind. destruct (un_kind name) eqn:Hk; try done; injection Hw as <-; intros Hrun.
  - by eapply process_if_heeds; first apply puts_interface.
  - by eapply process_if_heeds; first apply puts_jig.
  - by eapply process_if_heeds; first apply puts_logger.
  - by eapply process_if_heeds; first apply puts_scenario.
  - by eapply process_if_heeds; first apply puts_test.
  - by eapply process_if_heeds; first apply puts_trigger.
Qed.

Lemma process_internal `{Files} name status path l : un_kind name = UnitKind.Internal ->
  process_kind name status path l = Done (tt, l).
Proof. intros Hk. unfold process_kind. by rewrite Hk. Qed.

Lemma unload_heeds name path l l' :
  (modify (fun l => l <| lb_status ::= <[name := UnitStatus.UnloadStarted path]> |>);; mark_dirty name) l
    = Done (tt, l') -> heeds name Unwanted l l'.
Proof.
  intros (? & l1 & [= _ <-] & Hrun)%bind_Done. rewrite mark_dirty_marked in Hrun. injection Hrun as <-.
  set (l1 := l <| lb_status ::= <[name := UnitStatus.UnloadStarted path]> |>). split; [intros Hk..|].
  - destruct (marked_same program_lines name l1) as (Hs & _). exists (UnitStatus.UnloadStarted path). split; [|done].
    change (lb_status (marked name l1) !! name = Some (UnitStatus.UnloadStarted path)). rewrite Hs. apply lookup_insert_eq.
  - by apply (marked_is_dirty name).
  - intros id Hid. eapply untouched_trans; [by apply status_untouched|by apply marked_untouched].
Qed.

(** ** What a message does *)

Definition heeded (o : option (UnitName * Wish)) l l' : Prop :=
  match o with
  | Some (name, w) => heeds name w l l'
  | None => forall id, untouched l l' id
  end.

Lemma read_heeded `{Files} name status path l l' : loading status = true ->
  process_kind name status path l = Done (tt, l') -> heeded (pair name <$> read_wish (un_kind name) status path) l l'.
Proof.
  intros Hs Hrun. destruct (read_wish (un_kind name) status path) as [w|] eqn:Hw; simpl.
  - by eapply process_kind_heeds.
  - rewrite process_internal in Hrun by (by destruct (un_kind name)). by injection Hrun as <-.
Qed.

Lemma status_heeded `{Files} name status l l' :
  (match status with
   | UnitStatus.LoadStarted path =>
     process_interface name status path;; process_logger name status path;; process_jig name status path;;
     process_scenario name status path;; process_test name status path;; process_trigger name status path
   | UnitStatus.UpdateStarted path =>
     process_interface name status path;; process_jig name status path;; process_logger name status path;;
     process_scenario name status path;; process_trigger name status path
   | UnitStatus.UnloadStarted path =>
     modify (fun l => l <| lb_status ::= <[name := UnitStatus.UnloadStarted path]> |>);; mark_dirty name
   | _ => mret tt
   end) l = Done (tt, l') ->
  if is_test_update (Event.Status (mkStatusEvent name status)) then l' = l
  else heeded (wish_of (Event.Status (mkStatusEvent name status))) l l'.
Proof.
  destruct status; simpl; try (by intros [= <-]).
  - rewrite load_dispatch. by apply read_heeded.
  - apply unload_heeds.
  - case_bool_decide as Ht; [rewrite update_test_dispatch by done; by intros [= <-]|].
    rewrite update_dispatch by done. by apply read_heeded.
Qed.

(** A message does what it asks for, and nothing else; the update of a test does
    nothing. *)
Lemma message_heeded `{Files} e l l' : e <> Event.RescanRequest ->
  library_process_message depth program_lines e l = Done (tt, l') ->
  heeded (if is_test_update e then None else wish_of e) l l'.
Proof.
  intros He ([] & l1 & Hfirst & Hsecond)%bind_Done.
  assert (heeded (if is_test_update e then None else wish_of e) l l1) as Hheeded.
  { destruct e as [[name status]| | | | | | |]; try done; try (by injection Hfirst as <-).
    apply status_heeded in Hfirst. destruct (is_test_update _); [by subst l1|done]. }
  assert (forall id, untouched l1 l' id) as Hu by (intros id; eapply manager_untouched; [apply same_descs_message|exact Hsecond]).
  unfold heeded in *. destruct (if is_test_update e then None else wish_of e) as [[name w]|].
  - by eapply heeds_then.
  - intros id. by eapply untouched_trans.
Qed.

(** ** Histories *)

(** A run of the library over the messages of a history, each with what the
    files hold when it is processed. *)
Inductive lib_run l : list (Files * UnitEvent) -> Library -> Prop :=
  | lib_run_nil : lib_run l [] l
  | lib_run_snoc (files : Files) es l1 e l2 : lib_run l es l1 -> message_ok program_lines l1 e ->
      library_process_message depth program_lines e l1 = Done (tt, l2) -> lib_run l (es ++ [(files, e)]) l2.

#[local] Abbreviation lib_reachable := (LibraryTheorems.lib_reachable depth program_lines).

Lemma lib_run_reachable l es l' : lib_reachable l -> lib_run l es l' -> lib_reachable l'.
Proof. intros Hr. induction 1 as [|files es l1 e l2 _ IH Hok Hrun]; [done|]. by eapply lib_message. Qed.

Definition no_rescan (es : list (Files * UnitEvent)) : Prop := Event.RescanRequest ∉ es.*2.

(** What has been asked for of a unit, and not been done yet. *)
Definition follows (o : option Wish) l l' (id : UnitName) : Prop :=
  match o with
  | Some w => wished w l' id /\ is_dirty l' id
  | None => untouched l l' id
  end.

Lemma follows_untouched o l l1 l' id : follows o l l1 id -> untouched l1 l' id -> follows o l l' id.
Proof.
  destruct o as [w|]; [|apply untouched_trans]. intros [Hw Hd] [Hk Hi]. split; [by eapply wished_known|tauto].
Qed.

Lemma lib_run_follows l es l' id : lib_run l es l' -> no_rescan es -> un_kind id <> UnitKind.Internal ->
  follows (last_wish (heard es) id) l l' id.
Proof.
  intros Hrun Hno Hk. induction Hrun as [|files es l1 e l2 _ IH _ Hmsg]; [by split|].
  unfold no_rescan in Hno. rewrite fmap_app in Hno. apply not_elem_of_app in Hno as [Hno He].
  apply not_elem_of_cons in He as [He _]. specialize (IH Hno).
  apply message_heeded in Hmsg; [|by intros ->]. unfold heard. rewrite filter_app, filter_cons, filter_nil. simpl.
  destruct (is_test_update e); simpl; [rewrite app_nil_r; by eapply follows_untouched|].
  unfold last_wish. rewrite foldl_app. simpl.
  unfold next_wish at 1. simpl. unfold heeded in Hmsg. destruct (wish_of e) as [[name w]|].
  - case_bool_decide as Hid.
    + subst id. split; [by apply (he_wished _ _ _ _ Hmsg)|by apply (he_dirty _ _ _ _ Hmsg)].
    + eapply follows_untouched; [exact IH|]. by apply (he_other _ _ _ _ Hmsg).
  - by eapply follows_untouched.
Qed.

(** Nothing is left out unless a test was updated. *)
Definition test_updated (es : list (Files * UnitEvent)) (id : UnitName) : Prop :=
  un_kind id = UnitKind.Test /\
  exists path, Event.Status (mkStatusEvent id (UnitStatus.UpdateStarted path)) ∈ es.*2.

Lemma heard_wish es id : ~ test_updated es id -> last_wish (heard es) id = last_wish es id.
Proof.
  induction es as [|[fs e] es IH] using rev_ind; intros Hno; [done|]. unfold heard. rewrite filter_app, filter_cons, filter_nil.
  fold (heard es). assert (last_wish (heard es) id = last_wish es id) as Heq.
  { apply IH. intros (Hk & path & Hin). apply Hno. split; [done|]. exists path. rewrite fmap_app, elem_of_app. by left. }
  unfold last_wish in *. rewrite !foldl_app, Heq. simpl. destruct (is_test_update e) eqn:He; [|done].
  simpl. unfold next_wish. simpl. destruct e as [[name []]| | | | | | |]; try done. simpl in He. apply bool_decide_eq_true in He.
  destruct (wish_of _) as [[name' w]|] eqn:Hw; [|done]. case_bool_decide as Hid; [|done]. exfalso. apply Hno.
  simpl in Hw. destruct (read_wish _ _ _); [|done]. injection Hw as -> _. subst name'. split; [done|].
  exists path. rewrite fmap_app, elem_of_app. right. by left.
Qed.

(** What a rescan makes of a wish. *)
Definition granted (o : option Wish) l1 l2 (id : UnitName) : Prop :=
  match o with
  | Some (Wanted s d) => known l2 id = (Some s, Some d, Some d) \/
      exists text, known l2 id = (Some (UnitStatus.LoadFailed text), Some d, None)
  | Some Unwanted => known l2 id = (None, None, None)
  | None => ~ to_reload l1 id -> known l2 id = known l1 id
  end.

Lemma rescan_grants l es l1 l2 id : lib_reachable l1 -> rescan depth program_lines l1 = Done (tt, l2) ->
  follows (last_wish es id) l l1 id -> granted (last_wish es id) l1 l2 id.
Proof.
  intros Hr Hrun Hf. pose proof (lib_reachable_inv depth program_lines depth_enough l1 Hr) as Hinv.
  destruct (rescan_effect depth program_lines depth_enough l1 l2 Hinv Hrun) as [Ho Hg Hs].
  destruct (last_wish es id) as [[s d|]|]; [| |exact (Hs id)].
  - destruct Hf as [(Hlo & Hst & Hd) Hid]. apply Ho; [by apply (jig_dependents_dirty depth)| |done|done].
    intros (s' & Hst' & Hle). rewrite Hst in Hst'. injection Hst' as <-. by destruct s.
  - destruct Hf as [Hl Hid]. apply Hg; [by apply (jig_dependents_dirty depth)|exact Hl].
Qed.

(** The message that requests a rescan. *)
Lemma rescan_message `{Files} l1 l2 : lib_reachable l1 ->
  library_process_message depth program_lines Event.RescanRequest l1 = Done (tt, l2) ->
  (forall id, consistent l2 id) /\
  forall l es id, follows (last_wish es id) l l1 id -> granted (last_wish es id) l1 l2 id.
Proof.
  intros Hr ([] & l3 & Hrescan & Hlast)%bind_Done.
  assert (forall id, untouched l3 l2 id) as Hu by (intros id; eapply manager_untouched; [apply same_descs_message|exact Hlast]).
  split.
  - intros id. eapply known_consistent; [by apply Hu|]. eapply rescan_consistent; eauto using reachable_current.
    by eapply lib_reachable_inv.
  - intros l es id Hf. pose proof (rescan_grants l es l1 l3 id Hr Hrescan Hf) as Hg. destruct (Hu id) as [Hk _].
    unfold granted in *. by rewrite Hk.
Qed.

(** (C7) The library follows the files, but for those of tests that are written
    again: take any run, and any messages up to the next rescan that keep to the
    conditions of a run ([message_ok]), with the files changing meanwhile, and
    leave aside the requests to update a test, which the code does not act on.
    After that rescan a unit that the messages last asked to load or update is in
    the manager with exactly the description its file had when it was read, or is
    noted as failed and not loaded; a unit whose file was last removed, or could
    not be read, has left the books and the manager; and a unit of which nothing
    was said is as it was before the first of the messages, unless it was marked
    already or depends on a jig or a test that was.  For a unit that is not a
    test, and for a test whose file was not written again, nothing is left
    aside. *)
Theorem library_follows_files `{Files} l es l1 : lib_reachable l -> lib_run l es l1 -> no_rescan es -> small l1 ->
  exists l2, library_process_message depth program_lines Event.RescanRequest l1 = Done (tt, l2) /\
    (forall id, consistent l2 id) /\
    (forall id, un_kind id <> UnitKind.Internal -> granted (last_wish (heard es) id) l1 l2 id /\
      (last_wish (heard es) id = None -> known l1 id = known l id)) /\
    forall id, ~ test_updated es id -> last_wish (heard es) id = last_wish es id.
Proof.
  intros Hr Hrun Hno Hsmall. pose proof (lib_run_reachable l es l1 Hr Hrun) as Hr1.
  pose proof (lib_reachable_inv depth program_lines depth_enough l1 Hr1) as Hinv.
  destruct (library_message_run depth program_lines depth_enough l1 Event.RescanRequest Hinv Hsmall) as (l2 & Hmsg & _).
  destruct (rescan_message l1 l2 Hr1 Hmsg) as [Hc Hg]. exists l2. split_and!; [done|done| |apply heard_wish].
  intros id Hid. pose proof (lib_run_follows l es l1 id Hrun Hno Hid) as Hf. split; [by eapply Hg|].
  intros Hnone. rewrite Hnone in Hf. apply Hf.
Qed.

End files.

Module SampleFiles.
Import SampleLibrary.

(** The file of the jig is written again before the rescan. *)
Definition edited : Files := files_with [("/units/bench.jig", "[Jig]
Name=Another bench")].

Definition written : UnitEvent := Event.Status (mkStatusEvent bench (UnitStatus.UpdateStarted "/units/bench.jig")).

Definition told_with (fs : Files) (e : UnitEvent) (l : Library) : Library :=
  match @library_process_message _ _ _ 4 0 fs e l with Done (_, l') => l' | _ => l end.

Lemma told_run (fs : Files) l0 es l e : lib_reachable 4 0 l -> lib_run 4 0 l0 es l -> message_ok 0 l e ->
  lib_run 4 0 l0 (es ++ [(fs, e)]) (told_with fs e l).
Proof.
  intros Hr Hes Hok. pose proof (lib_reachable_inv 4 0 ltac:(lia) l Hr) as Hinv.
  destruct (library_message_run 4 0 ltac:(lia) l e Hinv Hok) as (l' & Hrun & _).
  unfold told_with. rewrite Hrun. by eapply lib_run_snoc.
Qed.

Lemma readable_edited : @readable _ _ 0 edited "/units/bench.jig".
Proof. split; [done| |done]. intros d Hd. vm_compute in Hd. injection Hd as <-. split; [done|by left]. Qed.

Definition history : list (Files * UnitEvent) :=
  [(files, found bench "/units/bench.jig"); (edited, written); (edited, lost a "/units/a.test")].

Definition l6 : Library := told_with edited written l4.
Definition l7 : Library := told_with edited (lost a "/units/a.test") l6.

Lemma history_run : lib_run 4 0 l3 history l7.
Proof.
  assert (lib_run 4 0 l3 [(files, found bench "/units/bench.jig")] l4) as Hrun4.
  { apply (told_run files l3 [] l3); [apply l3_reachable|constructor|]. split; [by vm_compute|apply readable_bench]. }
  assert (lib_run 4 0 l3 [(files, found bench "/units/bench.jig"); (edited, written)] l6) as Hrun6.
  { apply (told_run edited l3 [(files, found bench "/units/bench.jig")] l4); [apply l4_reachable|done|]. split; [by vm_compute|apply readable_edited]. }
  apply (told_run edited l3 [(files, found bench "/units/bench.jig"); (edited, written)] l6); [|done|done].
  exact (lib_run_reachable 4 0 l3 _ l6 l3_reachable Hrun6).
Qed.

Definition named (d : Description) : string := match d with DJig d => jd_name d | _ => "" end.

Lemma library_follows_files_witness : exists l',
  library_process_message 4 0 Event.RescanRequest l7 = Done (tt, l') /\
  named <$> described_as l' bench = Some "Another bench" /\ known l' a = (None, None, None).
Proof.
  destruct (library_follows_files 4 0 ltac:(lia) l3 history l7 l3_reachable history_run) as (l' & Hrun & _ & Hall & _).
  - apply not_elem_of_cons. split; [discriminate|]. apply not_elem_of_cons. split; [discriminate|].
    apply not_elem_of_cons. split; [discriminate|apply not_elem_of_nil].
  - apply small_by_size. vm_compute. reflexivity.
  - refine (ex_intro _ l' (conj Hrun (conj _ _))).
    + destruct (Hall bench ltac:(discriminate)) as [Hg _].
      assert (exists s d, last_wish (heard history) bench = Some (Wanted s (DJig d)) /\ jd_name d = "Another bench") as (s & d & Hw & Hd)
        by (eexists _, _; split; vm_compute; reflexivity).
      rewrite Hw in Hg. destruct Hg as [Hg|[text Hg]]; injection Hg as _ He _; rewrite He; exact (f_equal Some Hd).
    + destruct (Hall a ltac:(discriminate)) as [Hg _].
      assert (last_wish (heard history) a = Some Unwanted) as Hw by (vm_compute; reflexivity).
      rewrite Hw in Hg. exact Hg.
Defined.

End SampleFiles.
