(* ===== verification/Quiesce.v ===== *)
(** * Debouncing ([src/src/quiesce/mod.rs], [src/src/quiesce/timer.rs])

    Every event but those of a rescan restarts a timer; when no event came for
    the delay, a rescan is requested.  The timer runs on a thread of its own:
    the caller sends it requests over a channel and notifies it, and the thread
    drains the channel, fires what is due and waits.  The model is a machine
    whose steps are the atomic operations of the two threads and the clock. *)

From S2P Require Import Prelude Str Path Unit Foreign Config Events.

(** ** Data *)

(** An [Instant] and a [Duration] are numbers on one time line. *)
Record ScheduledEvent := mkScheduled { sv_id : Z; sv_when : Z; sv_event : UnitEvent }.

#[export] Instance ScheduledEvent_eq_dec : EqDecision ScheduledEvent.
Proof. solve_decision. Defined.

Inductive Action :=
  | Schedule (e : ScheduledEvent)
  | Ignore (id : Z).

#[export] Instance Action_eq_dec : EqDecision Action.
Proof. solve_decision. Defined.

(** The heap of the worker is the list of its elements; [wk_fired] has an entry
    for each broadcast of [RescanRequest]: the time and the timer. *)
Record Worker := mkWorker {
  wk_schedule : list ScheduledEvent;
  wk_ignore : gset Z;
  wk_fired : list (Z * Z);
}.

#[export] Instance eta_Worker : Eta Worker := mkEta _ (fun r =>
  mkWorker (wk_schedule r) (wk_ignore r) (wk_fired r)).

Definition worker_new : Worker := mkWorker [] ∅ [].

(** ** The worker *)

(** One request of [drain_request_queue]. *)
Definition drain_action (a : Action) (w : Worker) : Worker :=
  match a with
  | Schedule e => w <| wk_schedule ::= cons e |>
  | Ignore id =>
    if existsb (fun e => Z.eqb (sv_id e) id) (wk_schedule w)
    then w <| wk_ignore ::= union {[ id ]} |> else w
  end.

(** The time of [schedule.peek()]: the order of events is that of their times,
    reversed, so the top of the heap is an earliest event. *)
Fixpoint peek_when (s : list ScheduledEvent) : option Z :=
  match s with
  | [] => None
  | e :: s => Some (match peek_when s with Some t => Z.min (sv_when e) t | None => sv_when e end)
  end.

Definition has_event_now (now : Z) (w : Worker) : bool :=
  match peek_when (wk_schedule w) with Some t => Z.leb t now | None => false end.

(** [schedule.pop()]: which of several earliest events is on top is not
    specified; [i] chooses one. *)
Definition pop (i : nat) (s : list ScheduledEvent) : option (ScheduledEvent * list ScheduledEvent) :=
  match s !! i with
  | Some e => if bool_decide (peek_when s = Some (sv_when e)) then Some (e, delete i s) else None
  | None => None
  end.

(** [fire_event]: [None] is a wrong choice. *)
Definition fire_event (i : nat) (now : Z) (w : Worker) : option Worker :=
  match pop i (wk_schedule w) with
  | Some (e, s) =>
    let w := w <| wk_schedule := s |> in
    Some (if bool_decide (sv_id e ∈ wk_ignore w)
          then w <| wk_ignore ::= fun ids => ids ∖ {[ sv_id e ]} |>
          else w <| wk_fired ::= fun l => l ++ [(now, sv_id e)] |>)
  | None => None
  end.

Definition duration_until_next_event (now : Z) (w : Worker) : option Z :=
  (fun t => if Z.leb t now then 0%Z else (t - now)%Z) <$> peek_when (wk_schedule w).

(** Where the worker is in its loop.  It waits until a deadline, or without
    one. *)
Inductive WorkerPc :=
  | Draining
  | Firing
  | Measuring
  | Falling (duration : option Z)
  | Waiting (deadline : option Z).

#[export] Instance WorkerPc_eq_dec : EqDecision WorkerPc.
Proof. solve_decision. Defined.

(** ** The caller *)

(** Where the caller is in [restart_timer]: the request to ignore the old timer
    is sent, then the new timer, then the worker is notified. *)
Inductive CallerPc := Idle | Scheduling | Notifying.

#[export] Instance CallerPc_eq_dec : EqDecision CallerPc.
Proof. solve_decision. Defined.

Record Quiesce := mkQuiesce {
  qs_timer_id : option Z;
  qs_counter : Z;
  qs_delay : Z;
  qs_pc : CallerPc;
}.

#[export] Instance eta_Quiesce : Eta Quiesce := mkEta _ (fun r =>
  mkQuiesce (qs_timer_id r) (qs_counter r) (qs_delay r) (qs_pc r)).

Definition quiesce_new (delay : Z) : Quiesce := mkQuiesce None 0 delay Idle.

(** The events that restart the timer. *)
Definition restarts (e : UnitEvent) : bool :=
  negb (bool_decide (e = Event.RescanRequest) || bool_decide (e = Event.RescanStart)
        || bool_decide (e = Event.RescanFinish)).

(** What [restart_timer] sends first. *)
Definition ignore_old (q : Quiesce) : list Action :=
  match qs_timer_id q with Some id => [Ignore id] | None => [] end.

Definition wrapping_add (x y : Z) : Z := ((x + y) mod (u64_max + 1))%Z.

(** What [schedule] sends. *)
Definition new_timer (now : Z) (q : Quiesce) : ScheduledEvent :=
  mkScheduled (wrapping_add (qs_counter q) 1) (now + qs_delay q) Event.RescanRequest.

(** ** The machine *)

(** [mc_sent] keeps every timer that was ever scheduled. *)
Record Machine := mkMachine {
  mc_now : Z;
  mc_caller : Quiesce;
  mc_queue : list Action;
  mc_worker : Worker;
  mc_pc : WorkerPc;
  mc_sent : list ScheduledEvent;
}.

#[export] Instance eta_Machine : Eta Machine := mkEta _ (fun r =>
  mkMachine (mc_now r) (mc_caller r) (mc_queue r) (mc_worker r) (mc_pc r) (mc_sent r)).

Definition machine_new (now delay : Z) : Machine :=
  mkMachine now (quiesce_new delay) [] worker_new Draining [].

(** A message of the main loop, up to the first request of [restart_timer]. *)
Definition on_message (e : UnitEvent) (m : Machine) : Machine :=
  if restarts e
  then m <| mc_queue ::= fun q => q ++ ignore_old (mc_caller m) |>
         <| mc_caller ::= set_with qs_pc (fun _ => Scheduling) |>
  else m.

Definition on_schedule (m : Machine) : Machine :=
  let e := new_timer (mc_now m) (mc_caller m) in
  m <| mc_queue ::= fun q => q ++ [Schedule e] |>
    <| mc_sent ::= fun l => l ++ [e] |>
    <| mc_caller ::= fun q => q <| qs_counter := sv_id e |> <| qs_pc := Notifying |> |>.

(** [notify_one] wakes the worker only when it waits. *)
Definition on_notify (m : Machine) : Machine :=
  m <| mc_pc ::= fun pc => match pc with Waiting _ => Draining | _ => pc end |>
    <| mc_caller ::= fun q => q <| qs_timer_id := Some (qs_counter q) |> <| qs_pc := Idle |> |>.

Inductive caller_step (m : Machine) : Machine -> Prop :=
  | step_message e : qs_pc (mc_caller m) = Idle -> caller_step m (on_message e m)
  | step_schedule : qs_pc (mc_caller m) = Scheduling -> caller_step m (on_schedule m)
  | step_notify : qs_pc (mc_caller m) = Notifying -> caller_step m (on_notify m).

Inductive worker_step (m : Machine) : Machine -> Prop :=
  | step_drain a q : mc_pc m = Draining -> mc_queue m = a :: q ->
      worker_step m (m <| mc_queue := q |> <| mc_worker ::= drain_action a |>)
  | step_drained : mc_pc m = Draining -> mc_queue m = [] -> worker_step m (m <| mc_pc := Firing |>)
  | step_fire i w : mc_pc m = Firing -> has_event_now (mc_now m) (mc_worker m) = true ->
      fire_event i (mc_now m) (mc_worker m) = Some w -> worker_step m (m <| mc_worker := w |>)
  | step_fired : mc_pc m = Firing -> has_event_now (mc_now m) (mc_worker m) = false ->
      worker_step m (m <| mc_pc := Measuring |>)
  | step_measure : mc_pc m = Measuring ->
      worker_step m (m <| mc_pc := Falling (duration_until_next_event (mc_now m) (mc_worker m)) |>)
  | step_wait d : mc_pc m = Falling d ->
      worker_step m (m <| mc_pc := Waiting ((fun d => mc_now m + d)%Z <$> d) |>).

(** The worker wakes up by itself at the deadline, or spuriously. *)
Inductive wake_step (m : Machine) : Machine -> Prop :=
  | step_timeout deadline : mc_pc m = Waiting (Some deadline) -> (deadline <= mc_now m)%Z ->
      wake_step m (m <| mc_pc := Draining |>)
  | step_spurious deadline : mc_pc m = Waiting deadline -> wake_step m (m <| mc_pc := Draining |>).

Inductive clock_step (m : Machine) : Machine -> Prop :=
  | step_tick d : (0 <= d)%Z -> clock_step m (m <| mc_now ::= Z.add d |>).

Inductive step (m m' : Machine) : Prop :=
  | by_caller : caller_step m m' -> step m m'
  | by_worker : worker_step m m' -> step m m'
  | by_wake : wake_step m m' -> step m m'
  | by_clock : clock_step m m' -> step m m'.

Definition machine_reachable (now delay : Z) (m : Machine) : Prop := rtc step (machine_new now delay) m.
