(* ===== verification/QuiesceProps.v ===== *)
(** * What the debouncing guarantees

    A timer fires at most once and never before its delay has passed; an ignored
    timer does not fire; once the requests are read at most one rescan is
    pending.  The worker always comes to wait, but it may come to wait for a
    notification that was already given. *)

From S2P Require Import Prelude Str Path Unit Foreign Config Events Quiesce.

(** ** The heap *)

Lemma peek_when_Some s t : peek_when s = Some t ->
  (exists e, e ∈ s /\ sv_when e = t) /\ forall e, e ∈ s -> (t <= sv_when e)%Z.
Proof.
  revert t. induction s as [|e s IH]; simpl; intros t Ht; [done|]. injection Ht as <-.
  destruct (peek_when s) as [t|] eqn:Hs.
  - destruct (IH t eq_refl) as [(e' & Hin & <-) Hmin]. split.
    + destruct (Z.min_spec (sv_when e) (sv_when e')) as [[_ ->]|[_ ->]].
      * exists e. by split; [left|].
      * exists e'. by split; [right|].
    + intros e2 [->|Hin2]%elem_of_cons; [lia|]. specialize (Hmin e2 Hin2). lia.
  - destruct s; [|done]. split; [exists e; by split; [left|]|]. intros e2 ->%list_elem_of_singleton. lia.
Qed.

Lemma peek_when_None s : peek_when s = None -> s = [].
Proof. by destruct s. Qed.

(** What is popped is an earliest event. *)
Lemma pop_Some i s e s' : pop i s = Some (e, s') ->
  s ≡ₚ e :: s' /\ peek_when s = Some (sv_when e).
Proof.
  unfold pop. destruct (s !! i) as [e0|] eqn:Hi; [|done]. case_bool_decide as Hp; [|done].
  intros [= -> <-]. split; [|done]. by apply delete_Permutation.
Qed.

(** There is always one to pop. *)
Lemma pop_total s t : peek_when s = Some t -> exists i e s', pop i s = Some (e, s').
Proof.
  intros Hs. destruct (peek_when_Some s t Hs) as [(e & Hin & He) _].
  apply list_elem_of_lookup in Hin as [i Hi]. exists i, e, (delete i s). unfold pop.
  rewrite Hi, bool_decide_eq_true_2; [done|]. by rewrite Hs, He.
Qed.

Lemma fire_event_Some i now w w' : fire_event i now w = Some w' ->
  exists e, wk_schedule w ≡ₚ e :: wk_schedule w' /\ peek_when (wk_schedule w) = Some (sv_when e) /\
    (sv_id e ∈ wk_ignore w /\ wk_ignore w' = wk_ignore w ∖ {[ sv_id e ]} /\ wk_fired w' = wk_fired w \/
     sv_id e ∉ wk_ignore w /\ wk_ignore w' = wk_ignore w /\ wk_fired w' = wk_fired w ++ [(now, sv_id e)]).
Proof.
  unfold fire_event. destruct (pop i (wk_schedule w)) as [[e s]|] eqn:Hp; [|done].
  apply pop_Some in Hp as [Hperm Hpeek]. intros [= <-]. exists e.
  case_bool_decide as Hig; simpl; (split_and!; [done|done|]); [left|right]; by split_and!.
Qed.

Lemma NoDup_fmap_inj {A B} (f : A -> B) l x y : NoDup (f <$> l) -> x ∈ l -> y ∈ l -> f x = f y -> x = y.
Proof.
  induction l as [|z l IH]; simpl; [by intros _ ?%not_elem_of_nil|]. intros [Hz Hnd]%NoDup_cons.
  assert (forall x, x ∈ l -> f x <> f z) as Hne by (intros w Hw Heq; apply Hz; rewrite <- Heq; by apply list_elem_of_fmap_2).
  intros [->|Hx]%elem_of_cons [->|Hy]%elem_of_cons Heq; [done| |by apply Hne in Heq|by apply IH].
  by apply eq_sym, Hne in Heq.
Qed.

(** ** What is pending *)

Fixpoint queued (q : list Action) : list ScheduledEvent :=
  match q with
  | [] => []
  | Schedule e :: q => e :: queued q
  | Ignore _ :: q => queued q
  end.

Lemma queued_app q1 q2 : queued (q1 ++ q2) = queued q1 ++ queued q2.
Proof. induction q1 as [|[]]; simpl; congruence. Qed.

Definition pending (m : Machine) : list ScheduledEvent := queued (mc_queue m) ++ wk_schedule (mc_worker m).

(** Every timer is in one place. *)
Definition timers (m : Machine) : list Z := (sv_id <$> pending m) ++ (snd <$> wk_fired (mc_worker m)).

(** The timer that is to fire, if the caller is not about to replace it. *)
Definition latest (m : Machine) : option Z :=
  match qs_pc (mc_caller m) with Scheduling => None | _ => Some (qs_counter (mc_caller m)) end.

(** Every timer in the queue but the latest is ignored further on. *)
Fixpoint superseded (last : option Z) (q : list Action) : Prop :=
  match q with
  | [] => True
  | Schedule e :: q => (Ignore (sv_id e) ∈ q \/ last = Some (sv_id e)) /\ superseded last q
  | Ignore _ :: q => superseded last q
  end.

Lemma superseded_app last last' q q' :
  (forall e, e ∈ queued q -> last = Some (sv_id e) -> Ignore (sv_id e) ∈ q' \/ last' = Some (sv_id e)) ->
  superseded last q -> superseded last' q' -> superseded last' (q ++ q').
Proof.
  induction q as [|[e|id] q IH]; simpl; intros Hlast Hq Hq'; [done| |by apply IH].
  destruct Hq as [He Hq]. split; [|by apply IH; [intros e' Hin; apply Hlast; right|..]].
  rewrite elem_of_app. destruct He as [He|He]; [tauto|]. destruct (Hlast e ltac:(by left) He); tauto.
Qed.

Record inv (m : Machine) : Prop := {
  iv_counter : qs_counter (mc_caller m) = Z.of_nat (length (mc_sent m));
  iv_timer : qs_pc (mc_caller m) <> Notifying -> forall id, (0 < id)%Z ->
    id = qs_counter (mc_caller m) -> qs_timer_id (mc_caller m) = Some id;
  iv_ids : NoDup (sv_id <$> mc_sent m);
  iv_known e : e ∈ mc_sent m -> (0 < sv_id e <= qs_counter (mc_caller m))%Z;
  iv_sent e : e ∈ pending m -> e ∈ mc_sent m;
  iv_range id : id ∈ timers m -> (0 < id <= qs_counter (mc_caller m))%Z;
  iv_nodup : NoDup (timers m);
  iv_ignore : wk_ignore (mc_worker m) ⊆ list_to_set (sv_id <$> wk_schedule (mc_worker m));
  iv_queue : superseded (latest m) (mc_queue m);
  iv_schedule e : e ∈ wk_schedule (mc_worker m) ->
    sv_id e ∈ wk_ignore (mc_worker m) \/ Ignore (sv_id e) ∈ mc_queue m \/ latest m = Some (sv_id e);
  iv_fired t id : (t, id) ∈ wk_fired (mc_worker m) ->
    (t <= mc_now m)%Z /\ exists e, e ∈ mc_sent m /\ sv_id e = id /\ (sv_when e <= t)%Z;
}.

Lemma inv_new now delay : inv (machine_new now delay).
Proof. split; simpl; try done; try set_solver; constructor. Qed.

(** Steps that move neither requests nor timers. *)
Record quiet (m m' : Machine) : Prop := {
  qu_now : (mc_now m <= mc_now m')%Z;
  qu_caller : mc_caller m' = mc_caller m;
  qu_queue : mc_queue m' = mc_queue m;
  qu_worker : mc_worker m' = mc_worker m;
  qu_sent : mc_sent m' = mc_sent m;
}.

Lemma quiet_inv m m' : quiet m m' -> inv m -> inv m'.
Proof.
  destruct m, m'. intros [] []. simpl in *. subst. split; try done.
  simpl. intros t id Hin. destruct (iv_fired0 t id Hin) as [? ?]. split; [lia|done].
Qed.

(** ** The caller's steps *)

Lemma message_inv e m : qs_pc (mc_caller m) = Idle -> inv m -> inv (on_message e m).
Proof.
  intros Hpc Hinv. unfold on_message. destruct (restarts e); [|done]. destruct Hinv.
  assert (queued (mc_queue m ++ ignore_old (mc_caller m)) = queued (mc_queue m)) as Hq.
  { rewrite queued_app. unfold ignore_old. destruct (qs_timer_id _); by rewrite app_nil_r. }
  assert (forall e, e ∈ pending m -> latest m = Some (sv_id e) ->
    Ignore (sv_id e) ∈ ignore_old (mc_caller m)) as Hold.
  { intros e' Hin Hl. unfold latest in Hl. rewrite Hpc in Hl. injection Hl as Hl.
    destruct (iv_range0 (sv_id e')) as [Hpos _].
    { unfold timers. rewrite elem_of_app. left. by apply list_elem_of_fmap_2. }
    unfold ignore_old. rewrite (iv_timer0 ltac:(by rewrite Hpc) (sv_id e') Hpos ltac:(done)). by left. }
  split; unfold timers, pending in *; simpl; rewrite ?Hq; try done.
  - intros _. apply iv_timer0. by rewrite Hpc.
  - apply (superseded_app (latest m)); [|done|].
    + intros e' Hin Hl. left. apply Hold; [|done]. unfold pending. rewrite elem_of_app. by left.
    + unfold ignore_old. by destruct (qs_timer_id _).
  - intros e' Hin. setoid_rewrite elem_of_app. destruct (iv_schedule0 e' Hin) as [?|[?|Hl]]; [tauto..|].
    right; left; right. apply Hold; [|done]. rewrite elem_of_app. by right.
Qed.

Lemma schedule_timers m :
  timers (on_schedule m) ≡ₚ sv_id (new_timer (mc_now m) (mc_caller m)) :: timers m.
Proof.
  unfold timers, pending, on_schedule. simpl. rewrite queued_app, !fmap_app. simpl. solve_Permutation.
Qed.

(** The new timer's number, before the counter wraps around. *)
Lemma new_timer_id m : inv m -> (Z.of_nat (length (mc_sent m)) < u64_max)%Z ->
  sv_id (new_timer (mc_now m) (mc_caller m)) = (qs_counter (mc_caller m) + 1)%Z.
Proof.
  intros [] Hbound. simpl. unfold wrapping_add. rewrite Z.mod_small; [done|]. rewrite iv_counter0. lia.
Qed.

Lemma schedule_inv m : qs_pc (mc_caller m) = Scheduling ->
  (Z.of_nat (length (mc_sent m)) < u64_max)%Z -> inv m -> inv (on_schedule m).
Proof.
  intros Hpc Hbound Hinv. pose proof (new_timer_id m Hinv Hbound) as Hid.
  pose proof (schedule_timers m) as Htimers. destruct Hinv.
  set (e := new_timer (mc_now m) (mc_caller m)) in *.
  assert (latest m = None) as Hlatest by (unfold latest; by rewrite Hpc).
  assert (forall e', e' ∈ pending (on_schedule m) -> e' = e \/ e' ∈ pending m) as Hpend.
  { intros e'. unfold pending, on_schedule. simpl. rewrite queued_app, !elem_of_app. simpl. fold e. set_solver. }
  assert (sv_id e ∉ sv_id <$> mc_sent m) as Hnew.
  { intros (e' & Heq & Hin)%list_elem_of_fmap. apply iv_known0 in Hin. lia. }
  split.
  - change (sv_id e = Z.of_nat (length (mc_sent m ++ [e]))). rewrite length_app, Hid. simpl. lia.
  - done.
  - change (mc_sent (on_schedule m)) with (mc_sent m ++ [e]). rewrite fmap_app. simpl.
    rewrite (Permutation_app_comm _ [_]). by apply NoDup_cons.
  - change (mc_sent (on_schedule m)) with (mc_sent m ++ [e]).
    change (qs_counter (mc_caller (on_schedule m))) with (sv_id e).
    intros e' [Hin| ->%list_elem_of_singleton]%elem_of_app; [apply iv_known0 in Hin|]; lia.
  - change (mc_sent (on_schedule m)) with (mc_sent m ++ [e]).
    intros e' [->|Hin]%Hpend; rewrite elem_of_app; [right; by left|left; auto].
  - intros id. rewrite Htimers. change (qs_counter (mc_caller (on_schedule m))) with (sv_id e).
    intros [->|Hin]%elem_of_cons; [lia|]. apply iv_range0 in Hin. lia.
  - rewrite Htimers. apply NoDup_cons. split; [|done].
    intros Hin%iv_range0. lia.
  - done.
  - simpl. apply (superseded_app None); [done|by rewrite Hlatest in iv_queue0|]. simpl. split; [|done]. by right.
  - intros e' Hin. destruct (iv_schedule0 e' Hin) as [?|[?|Hl]]; [by left| |congruence].
    right; left. simpl. rewrite elem_of_app. by left.
  - intros t id Hin. destruct (iv_fired0 t id Hin) as (? & e' & Hin' & ?). split; [done|].
    exists e'. split; [|done]. simpl. rewrite elem_of_app. by left.
Qed.

Lemma notify_inv m : qs_pc (mc_caller m) = Notifying -> inv m -> inv (on_notify m).
Proof.
  intros Hpc []. unfold on_notify. split; try done.
  - simpl. intros _ id _ ->. done.
  - simpl. unfold latest in *. simpl. by rewrite Hpc in iv_queue0.
  - simpl. unfold latest in *. simpl. by rewrite Hpc in iv_schedule0.
Qed.

(** ** The worker's steps *)

Lemma drain_timers a q m : mc_queue m = a :: q ->
  let m' := m <| mc_queue := q |> <| mc_worker ::= drain_action a |> in
  pending m' ≡ₚ pending m /\ wk_fired (mc_worker m') = wk_fired (mc_worker m) /\ timers m' ≡ₚ timers m.
Proof.
  intros Hq m'.
  assert (pending m' ≡ₚ pending m /\ wk_fired (mc_worker m') = wk_fired (mc_worker m)) as [Hpend Hfired].
  { unfold pending, m'. simpl. rewrite Hq. destruct a as [e|id]; simpl; [split; [solve_Permutation|done]|].
    by destruct (existsb _ _). }
  split_and!; [done|done|]. unfold timers. by rewrite Hpend, Hfired.
Qed.

Lemma drain_inv a q m : mc_queue m = a :: q -> inv m ->
  inv (m <| mc_queue := q |> <| mc_worker ::= drain_action a |>).
Proof.
  intros Hq Hinv. destruct (drain_timers a q m Hq) as (Hpend & Hfired & Htimers).
  set (m' := m <| mc_queue := q |> <| mc_worker ::= drain_action a |>) in *.
  destruct Hinv. split; try done.
  - intros e. rewrite Hpend. apply iv_sent0.
  - intros id. rewrite Htimers. apply iv_range0.
  - by rewrite Htimers.
  - unfold m'. simpl. destruct a as [e|id]; simpl; [set_solver|].
    destruct (existsb _ _) eqn:Hex; simpl; [|done].
    apply existsb_exists in Hex as (e & Hin%list_elem_of_In & <-%Z.eqb_eq).
    assert (sv_id e ∈ sv_id <$> wk_schedule (mc_worker m)) by by apply list_elem_of_fmap_2.
    set_solver.
  - unfold m'. simpl. change (latest m') with (latest m). rewrite Hq in iv_queue0.
    destruct a; simpl in iv_queue0; tauto.
  - change (latest m') with (latest m). rewrite Hq in iv_queue0, iv_schedule0. unfold m'. simpl.
    intros e Hin. destruct a as [e'|id]; simpl in *.
    + apply elem_of_cons in Hin as [->|Hin]; [destruct iv_queue0 as [Hl _]; tauto|].
      destruct (iv_schedule0 e Hin) as [?|[Hl|?]]; [tauto| |tauto].
      right; left. apply elem_of_cons in Hl as [?|?]; [done|done].
    + assert (e ∈ wk_schedule (mc_worker m)) as Hin' by (by destruct (existsb _ _)).
      destruct (iv_schedule0 e Hin') as [Hl|[[Hl|Hl]%elem_of_cons|Hl]]; [left|left|tauto|tauto].
      * destruct (existsb _ _); set_solver.
      * injection Hl as <-. assert (existsb (fun e' => Z.eqb (sv_id e') (sv_id e)) (wk_schedule (mc_worker m)) = true) as ->.
        { apply existsb_exists. exists e. rewrite <- list_elem_of_In, Z.eqb_eq. done. }
        simpl. set_solver.
  - intros t id. rewrite Hfired. apply iv_fired0.
Qed.

Lemma popped_timers w m e : wk_schedule (mc_worker m) ≡ₚ e :: wk_schedule w ->
  let m' := m <| mc_worker := w |> in
  pending m ≡ₚ e :: pending m' /\
  timers m ≡ₚ sv_id e :: ((sv_id <$> pending m') ++ (snd <$> wk_fired (mc_worker m))).
Proof.
  intros Hperm m'. assert (pending m ≡ₚ e :: pending m') as Hpend.
  { unfold pending. change (mc_queue m') with (mc_queue m). change (mc_worker m') with w. rewrite Hperm.
    by rewrite Permutation_middle. }
  split; [done|]. unfold timers. by rewrite Hpend.
Qed.

Lemma fire_inv i w m : has_event_now (mc_now m) (mc_worker m) = true ->
  fire_event i (mc_now m) (mc_worker m) = Some w -> inv m -> inv (m <| mc_worker := w |>).
Proof.
  intros Hnow Hfire Hinv. destruct (fire_event_Some _ _ _ _ Hfire) as (e & Hperm & Hpeek & Hcase).
  set (m' := m <| mc_worker := w |>).
  assert (sv_when e <= mc_now m)%Z as Hdue.
  { unfold has_event_now in Hnow. rewrite Hpeek in Hnow. by apply Z.leb_le. }
  destruct (popped_timers w m e Hperm) as [Hpend Htimers]. fold m' in Hpend, Htimers. destruct Hinv.
  assert (e ∈ mc_sent m) as Hsent by (apply iv_sent0; rewrite Hpend; by left).
  assert (forall e', e' ∈ wk_schedule w -> e' ∈ wk_schedule (mc_worker m) /\ sv_id e' <> sv_id e) as Hleft.
  { intros e' Hin. split; [rewrite Hperm; by right|]. rewrite Htimers in iv_nodup0.
    apply NoDup_cons in iv_nodup0 as [Hno _]. intros Heq. apply Hno. rewrite <- Heq.
    apply elem_of_app. left. apply list_elem_of_fmap_2. unfold pending. apply elem_of_app. by right. }
  assert (wk_ignore w ⊆ wk_ignore (mc_worker m)) as Hig
    by (destruct Hcase as [(_ & -> & _)|(_ & -> & _)]; set_solver).
  assert (forall id, id ∈ wk_ignore (mc_worker m) -> id <> sv_id e -> id ∈ wk_ignore w) as Hkeep
    by (destruct Hcase as [(_ & -> & _)|(_ & -> & _)]; set_solver).
  assert (forall t id, (t, id) ∈ wk_fired w -> (t, id) ∈ wk_fired (mc_worker m) \/ t = mc_now m /\ id = sv_id e) as Hf
    by (destruct Hcase as [(_ & _ & ->)|(_ & _ & ->)]; set_solver).
  assert (timers m' ⊆+ timers m) as Hsub.
  { rewrite Htimers. unfold timers. change (mc_worker m') with w.
    destruct Hcase as [(_ & _ & ->)|(_ & _ & ->)].
    - by apply submseteq_cons.
    - rewrite fmap_app. simpl. rewrite (app_assoc _ _ [_]), (Permutation_app_comm _ [_]). done. }
  split; try done.
  - intros e' Hin. apply iv_sent0. rewrite Hpend. by right.
  - intros id Hin. apply iv_range0. by eapply elem_of_submseteq.
  - apply submseteq_Permutation in Hsub as [rest Hrest]. rewrite Hrest in iv_nodup0.
    by apply NoDup_app in iv_nodup0 as [? _].
  - intros id Hid. change (id ∈ wk_ignore w) in Hid. pose proof (Hig id Hid) as Hid'. apply iv_ignore0 in Hid'.
    rewrite elem_of_list_to_set, Hperm in Hid'. rewrite elem_of_list_to_set.
    apply elem_of_cons in Hid' as [->|?]; [|done]. exfalso.
    destruct Hcase as [(_ & Hw & _)|(Hno & Hw & _)]; rewrite Hw in Hid; set_solver.
  - intros e' Hin. destruct (Hleft e' Hin) as [Hin' Hne].
    destruct (iv_schedule0 e' Hin') as [?|?]; [left; by apply Hkeep|right; done].
  - intros t id [Hin|[-> ->]]%Hf; [by apply iv_fired0|]. split; [done|]. by exists e.
Qed.

(** ** Runs *)

Lemma step_sent m m' : step m m' -> mc_sent m `prefix_of` mc_sent m'.
Proof.
  destruct 1 as [Hs|Hs|Hs|Hs]; destruct Hs; try done.
  - unfold on_message. by destruct (restarts e).
  - by eexists.
Qed.

Lemma step_delay m m' : step m m' -> qs_delay (mc_caller m') = qs_delay (mc_caller m).
Proof.
  destruct 1 as [Hs|Hs|Hs|Hs]; destruct Hs; try done. unfold on_message. by destruct (restarts e).
Qed.

(** The counter has not wrapped around. *)
Definition few (m : Machine) : Prop := (Z.of_nat (length (mc_sent m)) <= u64_max)%Z.

Lemma few_prefix m m' : mc_sent m `prefix_of` mc_sent m' -> few m' -> few m.
Proof. unfold few. intros Hp%prefix_length. lia. Qed.

Lemma worker_inv m m' : worker_step m m' -> inv m -> inv m'.
Proof.
  destruct 1 as [a q _ Hq|_ _|i w _ Hnow Hfire|_ _|_|d _]; intros Hinv.
  - by apply drain_inv.
  - by apply (quiet_inv m).
  - by eapply fire_inv.
  - by apply (quiet_inv m).
  - by apply (quiet_inv m).
  - by apply (quiet_inv m).
Qed.

Lemma step_inv m m' : step m m' -> few m' -> inv m -> inv m'.
Proof.
  intros Hstep Hfew Hinv. destruct Hstep as [Hs|Hs|Hs|Hs]; [| |destruct Hs|destruct Hs].
  - destruct Hs as [e Hpc|Hpc|Hpc]; [by apply message_inv| |by apply notify_inv].
    apply schedule_inv; [done| |done]. unfold few in Hfew. simpl in Hfew. rewrite length_app in Hfew.
    simpl in Hfew. lia.
  - by eapply worker_inv.
  - by apply (quiet_inv m).
  - by apply (quiet_inv m).
  - apply (quiet_inv m); [|done]. split; simpl; try done. lia.
Qed.

Lemma steps_sent m m' : rtc step m m' ->
  mc_sent m `prefix_of` mc_sent m' /\ qs_delay (mc_caller m') = qs_delay (mc_caller m).
Proof.
  induction 1 as [m|m m1 m' Hs _ [IHs IHd]]; [done|]. split.
  - etransitivity; [by apply step_sent|done].
  - rewrite IHd. by apply step_delay.
Qed.

Lemma steps_inv m m' : rtc step m m' -> few m' -> inv m -> inv m'.
Proof.
  intros Hrun Hfew Hinv. revert Hfew. pattern m'. refine (rtc_ind_r _ m _ _ m' Hrun); [done|].
  intros m1 m2 _ Hs IH Hfew. apply (step_inv m1); [done|done|]. apply IH.
  by eapply few_prefix; [apply step_sent|].
Qed.

Lemma machine_reachable_inv now delay m : machine_reachable now delay m -> few m -> inv m.
Proof. intros Hr Hfew. eapply steps_inv; [done|done|]. apply inv_new. Qed.

(** ** Guarantees *)

(** The timers that can still fire. *)
Definition live (m : Machine) : list ScheduledEvent :=
  filter (fun e => sv_id e ∉ wk_ignore (mc_worker m)) (wk_schedule (mc_worker m)).

(** (C18) At most one rescan is pending: whenever the worker has read its
    requests and the caller is not in the middle of a restart, every scheduled
    timer but the caller's last one is on the list of ignored timers. *)
Theorem one_rescan_pending now delay m e1 e2 : machine_reachable now delay m -> few m ->
  qs_pc (mc_caller m) = Idle -> mc_queue m = [] -> e1 ∈ live m -> e2 ∈ live m ->
  e1 = e2 /\ qs_timer_id (mc_caller m) = Some (sv_id e1).
Proof.
  intros Hr Hfew Hpc Hq H1 H2. destruct (machine_reachable_inv _ _ _ Hr Hfew).
  assert (forall e, e ∈ live m -> e ∈ mc_sent m /\ sv_id e = qs_counter (mc_caller m)) as Hlive.
  { intros e [Hno Hin]%list_elem_of_filter. split.
    - apply iv_sent0. unfold pending. apply elem_of_app. by right.
    - destruct (iv_schedule0 e Hin) as [?|[Hl|Hl]]; [done|rewrite Hq in Hl; by apply not_elem_of_nil in Hl|].
      unfold latest in Hl. rewrite Hpc in Hl. by injection Hl. }
  destruct (Hlive e1 H1) as [Hin1 Hid1], (Hlive e2 H2) as [Hin2 Hid2]. split.
  - apply (NoDup_fmap_inj sv_id (mc_sent m)); [done|done|done|congruence].
  - apply iv_timer0; [by rewrite Hpc| |done]. by apply iv_known0.
Qed.

(** (C19) A rescan is requested at most once for each restart of the timer, and
    never before the delay has passed since that restart, however the threads
    are interleaved. *)
Theorem fires_once_after_delay now delay m m' : machine_reachable now delay m ->
  qs_pc (mc_caller m) = Scheduling -> rtc step (on_schedule m) m' -> few m' ->
  NoDup (snd <$> wk_fired (mc_worker m')) /\
  forall t, (t, qs_counter (mc_caller (on_schedule m))) ∈ wk_fired (mc_worker m') -> (mc_now m + delay <= t)%Z.
Proof.
  intros Hr Hpc Hrun Hfew. set (e := new_timer (mc_now m) (mc_caller m)).
  assert (machine_reachable now delay (on_schedule m)) as Hr1
    by (eapply rtc_r; [exact Hr|by apply by_caller, step_schedule]).
  assert (inv m') as [] by (eapply machine_reachable_inv; [unfold machine_reachable in *; by etransitivity|done]).
  destruct (steps_sent _ _ Hr) as [_ Hdelay]. destruct (steps_sent _ _ Hrun) as [Hprefix _].
  assert (e ∈ mc_sent m') as He.
  { eapply elem_of_prefix; [|exact Hprefix]. simpl. apply elem_of_app. right. by left. }
  split.
  - unfold timers in iv_nodup0. by apply NoDup_app in iv_nodup0 as (_ & _ & ?).
  - intros t Hin. destruct (iv_fired0 _ _ Hin) as (_ & e' & Hin' & Hid & Hwhen).
    assert (e' = e) as -> by by apply (NoDup_fmap_inj sv_id (mc_sent m')).
    simpl in Hwhen. by rewrite Hdelay in Hwhen.
Qed.

(** A timer that will not fire. *)
Record dead (id : Z) (m : Machine) : Prop := {
  dd_old : (id <= qs_counter (mc_caller m))%Z;
  dd_fired : id ∉ snd <$> wk_fired (mc_worker m);
  dd_ignored : id ∈ wk_ignore (mc_worker m) \/ id ∉ timers m;
}.

Lemma fire_dead id i w m : inv m -> fire_event i (mc_now m) (mc_worker m) = Some w -> dead id m ->
  dead id (m <| mc_worker := w |>).
Proof.
  intros Hinv Hfire [Hold Hno Hig]. destruct (fire_event_Some _ _ _ _ Hfire) as (e & Hperm & _ & Hcase).
  destruct (popped_timers w m e Hperm) as [_ Htimers]. pose proof (iv_nodup m Hinv) as Hnd.
  rewrite Htimers in Hnd, Hig. apply NoDup_cons in Hnd as [Hne _].
  set (ps := sv_id <$> pending (m <| mc_worker := w |>)) in *.
  assert (timers (m <| mc_worker := w |>) = ps ++ (snd <$> wk_fired w)) as Ht by done. clearbody ps.
  rewrite elem_of_app in Hne. rewrite elem_of_cons, elem_of_app in Hig.
  destruct Hcase as [(Hin & Hw & Hf)|(Hin & Hw & Hf)]; (split; [done|simpl; rewrite Hf|rewrite Ht, Hf; simpl; rewrite Hw]).
  - done.
  - rewrite elem_of_difference, elem_of_singleton, elem_of_app. destruct (decide (id = sv_id e)) as [->|Hid]; tauto.
  - rewrite fmap_app, elem_of_app. simpl. rewrite list_elem_of_singleton. intros [?| ->]; tauto.
  - rewrite fmap_app, !elem_of_app. simpl. rewrite list_elem_of_singleton. destruct (decide (id = sv_id e)) as [->|Hid]; tauto.
Qed.

Lemma dead_step id m m' : inv m -> few m' -> step m m' -> dead id m -> dead id m'.
Proof.
  intros Hinv Hfew Hstep Hdead. pose proof Hdead as [Hold Hno Hig].
  destruct Hstep as [Hs|Hs|Hs|Hs]; [| |by destruct Hs|by destruct Hs].
  - destruct Hs as [e Hpc|Hpc|Hpc]; [| |done].
    + unfold on_message. destruct (restarts e); [|done]. split; try done.
      unfold timers, pending in *. simpl. rewrite queued_app. unfold ignore_old.
      destruct (qs_timer_id _); by rewrite app_nil_r.
    + assert (Z.of_nat (length (mc_sent m)) < u64_max)%Z as Hbound
        by (unfold few in Hfew; simpl in Hfew; rewrite length_app in Hfew; simpl in Hfew; lia).
      pose proof (new_timer_id m Hinv Hbound) as Hid.
      split; [|done|].
      * change (qs_counter (mc_caller (on_schedule m))) with (sv_id (new_timer (mc_now m) (mc_caller m))). lia.
      * destruct Hig as [?|Hnt]; [by left|right]. rewrite schedule_timers, elem_of_cons. intros [-> |?]; [lia|done].
  - destruct Hs as [a q _ Hq|_ _|i w _ Hnow Hfire|_ _|_|d _]; try done; [|by eapply fire_dead].
    destruct (drain_timers a q m Hq) as (_ & Hf & Ht). split; [done|by rewrite Hf|].
    rewrite Ht. destruct Hig as [Hin|?]; [left|by right]. destruct a as [e|id']; simpl; [done|].
    destruct (existsb _ _); simpl; [set_solver|done].
Qed.

(** An ignored timer never fires: once the worker has read the request to
    ignore a timer that is scheduled, no run whatever requests a rescan for it. *)
Theorem ignored_never_fires now delay m m' id t : machine_reachable now delay m ->
  id ∈ wk_ignore (mc_worker m) -> rtc step m m' -> few m' -> (t, id) ∉ wk_fired (mc_worker m').
Proof.
  intros Hr Hig Hrun Hfew. destruct (steps_sent _ _ Hrun) as [Hprefix _].
  pose proof (machine_reachable_inv _ _ _ Hr (few_prefix _ _ Hprefix Hfew)) as Hinv.
  assert (dead id m) as Hdead.
  { destruct Hinv. pose proof (iv_ignore0 id Hig) as Hin. apply elem_of_list_to_set in Hin.
    assert (id ∈ sv_id <$> pending m) as Hp by (unfold pending; rewrite fmap_app, elem_of_app; by right).
    split; [|intros Hf|by left].
    - apply iv_range0. unfold timers. rewrite elem_of_app. by left.
    - unfold timers in iv_nodup0. apply NoDup_app in iv_nodup0 as (_ & Hdis & _). by eapply Hdis. }
  assert (few m' -> dead id m' /\ inv m') as Hend.
  { clear Hfew Hprefix. pattern m'. refine (rtc_ind_r _ m _ _ m' Hrun); [by intros _; split|].
    intros m1 m2 _ Hs IH Hfew. destruct IH as [Hd1 Hi1]; [by eapply few_prefix; [apply step_sent|]|].
    split; [by eapply dead_step|by eapply step_inv]. }
  destruct (Hend Hfew) as [[_ Hno _] _]. intros Hin. apply Hno.
  change id with (t, id).2. by apply list_elem_of_fmap_2.
Qed.

(** ** The worker's loop *)

(** How much the worker has to do before it waits. *)
Definition work (m : Machine) : nat :=
  5 * (2 * length (mc_queue m) + length (wk_schedule (mc_worker m))) +
  match mc_pc m with Draining => 4 | Firing => 3 | Measuring => 2 | Falling _ => 1 | Waiting _ => 0 end.

Lemma work_decreases m m' : worker_step m m' -> work m' < work m.
Proof.
  unfold work. destruct 1 as [a q Hpc Hq|Hpc Hq|i w Hpc Hnow Hfire|Hpc Hnow|Hpc|d Hpc]; simpl; rewrite ?Hpc; try lia.
  - rewrite Hq. simpl. destruct a as [e|id]; simpl; [lia|]. destruct (existsb _ _); simpl; lia.
  - destruct (fire_event_Some _ _ _ _ Hfire) as (e & Hperm & _). rewrite Hperm. simpl. lia.
Qed.

Definition waits (m : Machine) : Prop := exists deadline, mc_pc m = Waiting deadline.

Lemma fire_event_total now w : has_event_now now w = true -> exists i w', fire_event i now w = Some w'.
Proof.
  unfold has_event_now. destruct (peek_when (wk_schedule w)) as [t|] eqn:Hp; [|done]. intros _.
  destruct (pop_total _ _ Hp) as (i & e & s & Hpop). exists i. unfold fire_event. rewrite Hpop. by eexists.
Qed.

Lemma worker_progress m : waits m \/ exists m', worker_step m m'.
Proof.
  destruct (mc_pc m) as [| | |d|deadline] eqn:Hpc.
  - right. destruct (mc_queue m) eqn:Hq; eexists; [by apply step_drained|by eapply step_drain].
  - right. destruct (has_event_now (mc_now m) (mc_worker m)) eqn:Hnow; [|eexists; by apply step_fired].
    destruct (fire_event_total _ _ Hnow) as (i & w & Hfire). eexists. by eapply step_fire.
  - right. eexists. by apply step_measure.
  - right. eexists. by eapply step_wait.
  - left. by exists deadline.
Qed.

(** The worker always comes to wait: left alone it makes at most [work]
    steps - it reads each request once and fires each timer at most once -
    and it is never stuck before it waits. *)
Theorem worker_settles m :
  (forall n m', nsteps worker_step n m m' -> n + work m' <= work m) /\
  exists m', rtc worker_step m m' /\ waits m'.
Proof.
  split.
  - intros n m' Hrun. induction Hrun as [m|n m m1 m' Hs _ IH]; [lia|]. apply work_decreases in Hs. lia.
  - remember (work m) as k eqn:Hk. revert m Hk. induction (lt_wf k) as [k _ IH]. intros m ->.
    destruct (worker_progress m) as [?|[m1 Hs]]; [by exists m|].
    destruct (IH (work m1) (work_decreases _ _ Hs) m1 eq_refl) as (m' & Hrun & Hw).
    exists m'. split; [by eapply rtc_l|done].
Qed.

(** What the caller's last timer can count on. *)
Record fresh (m : Machine) : Prop := {
  fr_timer id : qs_timer_id (mc_caller m) = Some id -> (id <= qs_counter (mc_caller m))%Z;
  fr_ignores id : Ignore id ∈ mc_queue m -> (id <= qs_counter (mc_caller m))%Z;
  fr_latest : qs_pc (mc_caller m) <> Scheduling -> (0 < qs_counter (mc_caller m))%Z ->
    qs_counter (mc_caller m) ∈ timers m /\ Ignore (qs_counter (mc_caller m)) ∉ mc_queue m /\
    qs_counter (mc_caller m) ∉ wk_ignore (mc_worker m);
}.

Lemma worker_fresh m m' : worker_step m m' -> inv m -> fresh m -> fresh m'.
Proof.
  destruct 1 as [a q _ Hq|_ _|i w _ Hnow Hfire|_ _|_|d _]; intros Hinv Hf; try by destruct Hf.
  - destruct (drain_timers a q m Hq) as (_ & _ & Ht). destruct Hf as [Ft Fi Fl]. rewrite Hq in Fi, Fl. split; [done| |].
    + intros id Hin. apply Fi. by right.
    + intros Hpc Hpos. rewrite Ht. destruct (Fl Hpc Hpos) as (Hin & Hni & Hno). split_and!; [done| |].
      * intros Hin'. apply Hni. by right.
      * simpl. destruct a as [e|id]; simpl; [done|]. destruct (existsb _ _); [|done]. simpl.
        intros [<-%elem_of_singleton|?]%elem_of_union; [|done]. apply Hni. by left.
  - destruct (fire_event_Some _ _ _ _ Hfire) as (e & Hperm & _ & Hcase).
    destruct (popped_timers w m e Hperm) as [_ Ht]. destruct Hf as [Ft Fi Fl]. split; [done|done|].
    intros Hpc Hpos. destruct (Fl Hpc Hpos) as (Hin & Hni & Hno). rewrite Ht in Hin. set (m' := m <| mc_worker := w |>) in *.
    change (timers m') with ((sv_id <$> pending m') ++ (snd <$> wk_fired w)).
    change (wk_ignore (mc_worker m')) with (wk_ignore w). change (mc_queue m') with (mc_queue m).
    change (mc_caller m') with (mc_caller m). rewrite elem_of_cons, elem_of_app in Hin. rewrite elem_of_app.
    destruct Hcase as [(He & -> & ->)|(He & -> & ->)].
    + assert (qs_counter (mc_caller m) <> sv_id e) as Hne by (intros Heq; by rewrite Heq in Hno).
      split_and!; [tauto|done|]. rewrite elem_of_difference. tauto.
    + rewrite fmap_app, elem_of_app. simpl. rewrite list_elem_of_singleton. tauto.
Qed.

Lemma step_fresh m m' : step m m' -> few m' -> inv m -> fresh m -> fresh m'.
Proof.
  intros Hstep Hfew Hinv Hf.
  destruct Hstep as [Hs|Hs|Hs|Hs]; [|by eapply worker_fresh|by destruct Hs, Hf|by destruct Hs, Hf].
  destruct Hs as [e Hpc|Hpc|Hpc]; destruct Hf as [Ft Fi Fl].
  - unfold on_message. destruct (restarts e); [|done]. split; simpl; [done| |done].
    intros id [Hin|Hin]%elem_of_app; [by apply Fi|]. unfold ignore_old in Hin.
    destruct (qs_timer_id (mc_caller m)) as [old|]; [|by apply not_elem_of_nil in Hin].
    apply list_elem_of_singleton in Hin as [= ->]. by apply Ft.
  - assert (Z.of_nat (length (mc_sent m)) < u64_max)%Z as Hbound
      by (unfold few in Hfew; simpl in Hfew; rewrite length_app in Hfew; simpl in Hfew; lia).
    pose proof (new_timer_id m Hinv Hbound) as Hid. set (e := new_timer (mc_now m) (mc_caller m)) in *.
    change (fresh (on_schedule m)). split; change (qs_counter (mc_caller (on_schedule m))) with (sv_id e).
    + intros id Ht. apply Ft in Ht. lia.
    + change (mc_queue (on_schedule m)) with (mc_queue m ++ [Schedule e]).
      intros id [Hin|Hin]%elem_of_app; [apply Fi in Hin; lia|]. by apply list_elem_of_singleton in Hin.
    + intros _ _. split_and!.
      * rewrite schedule_timers. by left.
      * change (mc_queue (on_schedule m)) with (mc_queue m ++ [Schedule e]).
        intros [Hin|Hin]%elem_of_app; [apply Fi in Hin; lia|]. by apply list_elem_of_singleton in Hin.
      * change (wk_ignore (mc_worker (on_schedule m))) with (wk_ignore (mc_worker m)). intros Hin. apply (iv_ignore m Hinv), elem_of_list_to_set in Hin.
        assert (sv_id e ∈ timers m) as Hin'.
        { unfold timers, pending. rewrite fmap_app, !elem_of_app. tauto. }
        apply (iv_range m Hinv) in Hin'. lia.
  - split; simpl; [by intros id [= <-]|done|]. intros _ Hpos. apply Fl; [by rewrite Hpc|done].
Qed.

Lemma reachable_fresh now delay m : machine_reachable now delay m -> few m -> fresh m.
Proof.
  intros Hr. enough (few m -> inv m /\ fresh m) by tauto. pattern m. refine (rtc_ind_r _ _ _ _ m Hr).
  - intros _. split; [apply inv_new|]. split; simpl; [done|by intros id ?%not_elem_of_nil|]. intros _ ?. lia.
  - intros m1 m2 _ Hs IH Hfew. destruct IH as [Hi1 Hf1]; [by eapply few_prefix; [apply step_sent|]|].
    split; [by eapply step_inv|by eapply step_fresh].
Qed.

(** A round of the loop at one point of time. *)
Definition round (m0 m : Machine) : Prop :=
  mc_now m = mc_now m0 /\ mc_caller m = mc_caller m0 /\ mc_sent m = mc_sent m0 /\
  match mc_pc m with
  | Draining => True
  | Firing => mc_queue m = []
  | _ => mc_queue m = [] /\ has_event_now (mc_now m) (mc_worker m) = false
  end.

Lemma round_step m0 m m' : worker_step m m' -> round m0 m -> round m0 m'.
Proof.
  unfold round. destruct 1 as [a q Hpc Hq|Hpc Hq|i w Hpc Hnow Hfire|Hpc Hnow|Hpc|d Hpc];
    rewrite Hpc; simpl; rewrite ?Hpc; tauto.
Qed.

(** The last timer fires: when the worker starts a round of its loop after
    the timer is due, and no restart is under way, then by the time it waits
    again it has requested a rescan for that timer. *)
Theorem round_fires now delay m m' e : machine_reachable now delay m -> few m ->
  mc_pc m = Draining -> qs_pc (mc_caller m) = Idle ->
  e ∈ mc_sent m -> qs_counter (mc_caller m) = sv_id e -> (sv_when e <= mc_now m)%Z ->
  rtc worker_step m m' -> waits m' -> sv_id e ∈ snd <$> wk_fired (mc_worker m').
Proof.
  intros Hr Hfew Hpc Hidle He Hid Hdue Hrun [deadline Hw].
  pose proof (machine_reachable_inv _ _ _ Hr Hfew) as Hinv. pose proof (reachable_fresh _ _ _ Hr Hfew) as Hf.
  assert (inv m' /\ fresh m' /\ round m m') as (Hinv' & Hf' & Hnow & Hcaller & Hsent & Hround).
  { pattern m'. refine (rtc_ind_r _ m _ _ m' Hrun).
    - split_and!; [done|done|]. unfold round. by rewrite Hpc.
    - intros m1 m2 _ Hs (Hi & Hf1 & Hro). split_and!.
      + by eapply worker_inv.
      + by eapply worker_fresh.
      + by eapply round_step. }
  rewrite Hw in Hround. destruct Hround as [Hq Hno].
  destruct (fr_latest _ Hf') as (Hin & _ & _).
  { by rewrite Hcaller, Hidle. }
  { rewrite Hcaller, Hid. by apply (iv_known _ Hinv). }
  rewrite Hcaller, Hid in Hin. unfold timers, pending in Hin. rewrite Hq in Hin. simpl in Hin.
  apply elem_of_app in Hin as [(e' & Heq & Hin)%list_elem_of_fmap|?]; [|done]. exfalso.
  assert (e' = e) as ->.
  { apply (NoDup_fmap_inj sv_id (mc_sent m)); [apply (iv_ids _ Hinv)| |done|done].
    rewrite <- Hsent. apply (iv_sent _ Hinv'). unfold pending. rewrite Hq. done. }
  unfold has_event_now in Hno. destruct (peek_when (wk_schedule (mc_worker m'))) as [t|] eqn:Hp.
  - destruct (peek_when_Some _ _ Hp) as [_ Hmin]. specialize (Hmin e Hin).
    apply Z.leb_gt in Hno. lia.
  - apply peek_when_None in Hp. rewrite Hp in Hin. by apply not_elem_of_nil in Hin.
Qed.

(** ** A lost notification *)

(** What happens without the caller and without spurious wake-ups. *)
Inductive unaided_step (m : Machine) : Machine -> Prop :=
  | ua_worker m' : worker_step m m' -> unaided_step m m'
  | ua_clock m' : clock_step m m' -> unaided_step m m'
  | ua_timeout deadline : mc_pc m = Waiting (Some deadline) -> (deadline <= mc_now m)%Z ->
      unaided_step m (m <| mc_pc := Draining |>).

(** (C36) A notification can be lost: the worker reads its requests and only then
    starts to wait, on a mutex that the caller does not lock, so a restart in
    between is not noticed.  There is a run that ends with the worker waiting
    without a deadline and the new timer unread in its queue; from there no
    rescan is requested, however long it takes, until the next event. *)
Theorem lost_wakeup now delay e : restarts e = true ->
  exists m timer, machine_reachable now delay m /\ qs_pc (mc_caller m) = Idle /\
    mc_pc m = Waiting None /\ mc_queue m = [Schedule timer] /\
    forall m', rtc unaided_step m m' ->
      mc_pc m' = Waiting None /\ mc_queue m' = [Schedule timer] /\ wk_fired (mc_worker m') = [].
Proof.
  intros He. set (m0 := machine_new now delay).
  set (m1 := m0 <| mc_pc := Firing |>). set (m2 := m1 <| mc_pc := Measuring |>).
  set (m3 := m2 <| mc_pc := Falling None |>).
  set (m4 := on_message e m3). set (m5 := on_schedule m4). set (m6 := on_notify m5).
  set (m7 := m6 <| mc_pc := Waiting None |>).
  exists m7, (new_timer now (quiesce_new delay)).
  assert (m4 = m3 <| mc_caller ::= set_with qs_pc (fun _ => Scheduling) |>) as Hm4
    by (unfold m4, on_message; by rewrite He).
  assert (machine_reachable now delay m3) as Hr3.
  { eapply rtc_l; [by apply by_worker, step_drained|]. eapply rtc_l; [by apply by_worker, step_fired|].
    eapply rtc_l; [by apply by_worker, step_measure|]. done. }
  assert (rtc step m3 m6) as Hr6.
  { eapply rtc_l; [by apply by_caller, (step_message _ e)|]. fold m4.
    eapply rtc_l; [apply by_caller, step_schedule; by rewrite Hm4|].
    eapply rtc_l; [by apply by_caller, step_notify|]. done. }
  assert (mc_pc m7 = Waiting None /\ mc_queue m7 = [Schedule (new_timer now (quiesce_new delay))] /\
    wk_fired (mc_worker m7) = [] /\ qs_pc (mc_caller m7) = Idle) as (Hpc & Hq & Hf & Hc)
    by (unfold m7, m6, m5; by rewrite Hm4).
  split_and!; [|done|done|done|].
  - unfold machine_reachable in *. etransitivity; [exact Hr3|]. eapply rtc_r; [exact Hr6|].
    apply by_worker, (step_wait _ None). unfold m6, m5. by rewrite Hm4.
  - clearbody m7. clear Hm4 Hr3 Hr6 Hc. intros m' Hrun.
    induction Hrun as [m|m m' m'' Hs _ IH]; [done|]. apply IH; clear IH.
    + destruct Hs as [m' Hs|m' Hs|dl Hdl _]; [destruct Hs| |]; try congruence. by destruct Hs.
    + destruct Hs as [m' Hs|m' Hs|dl Hdl _]; [destruct Hs| |]; try congruence. by destruct Hs.
    + destruct Hs as [m' Hs|m' Hs|dl Hdl _]; [destruct Hs| |]; try congruence. by destruct Hs.
Qed.

Module SampleQuiesce.

(** One event, whose timer is read, and a second one that replaces it. *)
Definition s0 : Machine := machine_new 0 5.
Definition s1 : Machine := on_message Event.Shutdown s0.
Definition s2 : Machine := on_schedule s1.
Definition s3 : Machine := on_notify s2.
Definition timer : ScheduledEvent := mkScheduled 1 5 Event.RescanRequest.
Definition s4 : Machine := s3 <| mc_queue := [] |> <| mc_worker ::= drain_action (Schedule timer) |>.

Lemma s4_from_s2 : rtc step s2 s4.
Proof.
  eapply rtc_l; [by apply by_caller, step_notify|].
  eapply rtc_l; [by apply by_worker, (step_drain _ (Schedule timer) [])|]. done.
Qed.

Lemma s1_reachable : machine_reachable 0 5 s1.
Proof. eapply rtc_l; [by apply by_caller, (step_message _ Event.Shutdown)|]. done. Qed.

Lemma s2_reachable : machine_reachable 0 5 s2.
Proof. eapply rtc_r; [apply s1_reachable|by apply by_caller, step_schedule]. Qed.

Lemma s4_reachable : machine_reachable 0 5 s4.
Proof. unfold machine_reachable. transitivity s2; [apply s2_reachable|apply s4_from_s2]. Qed.

Lemma few_by_length m : Z.leb (Z.of_nat (length (mc_sent m))) u64_max = true -> few m.
Proof. apply Z.leb_le. Qed.

Lemma one_rescan_pending_witness : qs_timer_id (mc_caller s4) = Some (sv_id timer).
Proof.
  destruct (one_rescan_pending 0 5 s4 timer timer) as [_ Hid].
  - apply s4_reachable.
  - apply few_by_length. vm_compute. reflexivity.
  - reflexivity.
  - reflexivity.
  - apply list_elem_of_here.
  - apply list_elem_of_here.
  - exact Hid.
Defined.

(** The timer fires on time. *)
Definition s5 : Machine := s4 <| mc_now ::= Z.add 5 |>.
Definition s6 : Machine := s5 <| mc_pc := Firing |>.
Definition s7 : Machine := s6 <| mc_worker := mkWorker [] ∅ [(5%Z, 1%Z)] |>.
Definition s8 : Machine := s7 <| mc_pc := Measuring |>.
Definition s9 : Machine := s8 <| mc_pc := Falling None |>.
Definition s10 : Machine := s9 <| mc_pc := Waiting None |>.

Lemma s10_from_s5 : rtc worker_step s5 s10.
Proof.
  eapply rtc_l; [by apply step_drained|]. fold s6.
  eapply rtc_l; [by apply (step_fire _ 0 (mkWorker [] ∅ [(5%Z, 1%Z)]))|].
  eapply rtc_l; [by apply step_fired|]. eapply rtc_l; [by apply step_measure|].
  eapply rtc_l; [by apply (step_wait _ None)|]. done.
Qed.

Lemma s5_reachable : machine_reachable 0 5 s5.
Proof. eapply rtc_r; [apply s4_reachable|by apply by_clock, step_tick]. Qed.

Lemma s7_from_s2 : rtc step s2 s7.
Proof.
  transitivity s4; [apply s4_from_s2|].
  eapply rtc_l; [by apply by_clock, (step_tick _ 5)|].
  eapply rtc_l; [by apply by_worker, step_drained|]. fold s6.
  eapply rtc_l; [by apply by_worker, (step_fire _ 0 (mkWorker [] ∅ [(5%Z, 1%Z)]))|]. done.
Qed.

Lemma fires_once_after_delay_witness : wk_fired (mc_worker s7) = [(5%Z, 1%Z)] /\ (0 + 5 <= 5)%Z.
Proof.
  destruct (fires_once_after_delay 0 5 s1 s7) as [_ Hf].
  - apply s1_reachable.
  - reflexivity.
  - apply s7_from_s2.
  - apply few_by_length. vm_compute. reflexivity.
  - split; [reflexivity|]. apply Hf. apply list_elem_of_here.
Defined.

Lemma round_fires_witness : sv_id timer ∈ snd <$> wk_fired (mc_worker s10).
Proof.
  apply (round_fires 0 5 s5 s10 timer).
  - apply s5_reachable.
  - apply few_by_length. vm_compute. reflexivity.
  - reflexivity.
  - reflexivity.
  - apply list_elem_of_here.
  - reflexivity.
  - apply Z.leb_le. reflexivity.
  - apply s10_from_s5.
  - exists None. reflexivity.
Defined.

(** A second event replaces the timer. *)
Definition r1 : Machine := on_message Event.Shutdown s4.
Definition r2 : Machine := r1 <| mc_queue := [] |> <| mc_worker ::= drain_action (Ignore 1) |>.

Lemma r2_reachable : machine_reachable 0 5 r2.
Proof.
  eapply rtc_r; [eapply rtc_r; [apply s4_reachable|by apply by_caller, (step_message _ Event.Shutdown)]|].
  by apply by_worker, (step_drain _ (Ignore 1) []).
Qed.

Lemma ignored_never_fires_witness : (100%Z, 1%Z) ∉ wk_fired (mc_worker r2).
Proof.
  apply (ignored_never_fires 0 5 r2 r2 1 100).
  - apply r2_reachable.
  - refine (bool_decide_eq_true_1 (1%Z ∈ wk_ignore (mc_worker r2)) _). vm_compute. reflexivity.
  - apply rtc_refl.
  - apply few_by_length. vm_compute. reflexivity.
Defined.

Lemma lost_wakeup_witness : exists m, machine_reachable 0 5 m /\ mc_pc m = Waiting None.
Proof.
  destruct (lost_wakeup 0 5 Event.Shutdown) as (m & t & Hr & _ & Hpc & _).
  - reflexivity.
  - exact (ex_intro _ m (conj Hr Hpc)).
Defined.

End SampleQuiesce.
