(* ===== verification/Loader.v ===== *)
(** * Finding units ([src/src/unitwatcher.rs], [src/src/unitloader.rs])

    The watcher turns what happens to files into events about units, and the
    loader turns these into requests to load, update or unload.  Both only
    broadcast: what they broadcast is their result. *)

From S2P Require Import Prelude Str Path Unit Foreign Config Events.

(** ** The watcher *)

(** The events of the file watcher; [NotifyOther] stands for those the program
    drops. *)
Inductive DebouncedEvent :=
  | Create (path : string)
  | Write (path : string)
  | Remove (path : string)
  | Rename (old_name new_name : string)
  | NotifyOther.

Definition status_events (o : option UnitStatusEvent) : list UnitEvent :=
  match o with Some evt => [Event.Status evt] | None => [] end.

(** What the watcher's thread broadcasts for one event. *)
Definition watch_event (event : DebouncedEvent) : list UnitEvent :=
  match event with
  | Create path => status_events (new_added path)
  | Write path => status_events (new_updated path)
  | Remove path => status_events (new_removed path)
  | Rename old_name new_name => status_events (new_removed old_name) ++ status_events (new_added new_name)
  | NotifyOther => []
  end.

(** The loop of [add_path] over the entries of a directory, which the first
    unreadable entry ends. *)
Fixpoint add_entries (entries : list (result ForeignError string)) :
    list UnitEvent * result ForeignError unit :=
  match entries with
  | [] => ([], Ok tt)
  | Err e :: _ => ([], Err e)
  | Ok path :: entries =>
    let '(evts, r) := add_entries entries in (status_events (new_added path) ++ evts, r)
  end.

(** [add_path]: [dir] is what [read_dir] gives, [watch] what the watcher says. *)
Definition add_path (dir : result ForeignError (list (result ForeignError string)))
    (watch : result ForeignError unit) : list UnitEvent * outcome (result ForeignError unit) :=
  match dir with
  | Err e => ([], Done (Err e))
  | Ok entries =>
    let '(evts, r) := add_entries entries in
    match r, watch with
    | Err e, _ => (evts, Done (Err e))
    | Ok _, Err _ => (evts, Panic "Unable to watch directory")
    | Ok _, Ok _ => (evts, Done (Ok tt))
    end
  end.

(** ** The loader *)

Definition handle_status (event : UnitStatusEvent) : list UnitEvent :=
  match se_status event with
  | UnitStatus.Added path => [Event.Status (new_load_started (se_name event) path)]
  | UnitStatus.Updated path => [Event.Status (new_update_started (se_name event) path)]
  | UnitStatus.Removed path => [Event.Status (new_unload_started (se_name event) path)]
  | _ => []
  end.

(** [UnitLoader::process_message]. *)
Definition loader_process_message (msg : UnitEvent) : list UnitEvent :=
  match msg with Event.Status evt => handle_status evt | _ => [] end.

(** ** What they guarantee *)

(** The requests that the broadcast of some events leads to. *)
Definition requests (evts : list UnitEvent) : list UnitEvent := evts ≫= loader_process_message.

(** The request for the unit of a file, if the file is one of a unit. *)
Definition request_for (st : string -> UnitStatus) (path : string) : list UnitEvent :=
  match from_path path with Ok name => [Event.Status (mkStatusEvent name (st path))] | Err _ => [] end.

(** The entries of a directory up to the first unreadable one. *)
Fixpoint readable_entries (entries : list (result ForeignError string)) : list string :=
  match entries with Ok path :: entries => path :: readable_entries entries | _ => [] end.

Lemma requests_status st st' path :
  (forall name, handle_status (mkStatusEvent name (st path)) = [Event.Status (mkStatusEvent name (st' path))]) ->
  requests (status_events (event_of_path st path)) = request_for st' path.
Proof.
  intros Hst. unfold event_of_path, request_for, requests. destruct (from_path path) as [name|]; [|done].
  simpl. by rewrite Hst.
Qed.

Lemma requests_app evts1 evts2 : requests (evts1 ++ evts2) = requests evts1 ++ requests evts2.
Proof. apply bind_app. Qed.

Lemma add_entries_requests entries :
  requests (add_entries entries).1 = readable_entries entries ≫= request_for UnitStatus.LoadStarted.
Proof.
  induction entries as [|[path|e] entries IH]; simpl; [done| |done].
  destruct (add_entries entries) as [evts r]. simpl in *.
  rewrite requests_app, IH. f_equal. by apply requests_status.
Qed.

Lemma add_path_requests dir watch : requests (add_path dir watch).1 =
  match dir with
  | Ok entries => readable_entries entries ≫= request_for UnitStatus.LoadStarted
  | Err _ => []
  end.
Proof.
  destruct dir as [entries|e]; [|done]. simpl. rewrite <- add_entries_requests.
  destruct (add_entries entries) as [evts []]; [by destruct watch|done].
Qed.

(** (C27) From files to units: what happens to a file reaches the library as
    exactly one request, to load a new file, update a written one and unload a
    removed one, for the unit that the file's own path names; a renamed file is
    unloaded under its old name before it is loaded under the new one; a file
    that is not a unit's file is never mentioned.  The files that are there at
    the start are loaded in the order they are listed. *)
Theorem files_become_requests event dir watch :
  requests (watch_event event) =
    match event with
    | Create path => request_for UnitStatus.LoadStarted path
    | Write path => request_for UnitStatus.UpdateStarted path
    | Remove path => request_for UnitStatus.UnloadStarted path
    | Rename old_name new_name =>
      request_for UnitStatus.UnloadStarted old_name ++ request_for UnitStatus.LoadStarted new_name
    | NotifyOther => []
    end /\
  requests (add_path dir watch).1 =
    match dir with
    | Ok entries => readable_entries entries ≫= request_for UnitStatus.LoadStarted
    | Err _ => []
    end.
Proof.
  split; [|apply add_path_requests].
  destruct event; simpl; rewrite ?requests_app; try done.
  1-3: by apply requests_status.
  f_equal; by apply requests_status.
Qed.
