(* ===== verification/Terminal.v ===== *)
(** * The terminal ([src/src/terminal.rs])

    The terminal subscribes to all events.  It keeps the last status of every
    unit, the last line of every category and the last log entries, and prints
    each event as it comes, or redraws the whole screen after a rescan. *)

From S2P Require Import Prelude Str Path Unit Foreign Config Events.

(** ** Ordered maps *)

(** A [BTreeMap] is the list of its entries in the order of the keys. *)
Class Ordered (K : Type) := {
  compare_keys : K -> K -> comparison;
  compare_keys_eq x y : compare_keys x y = Eq <-> x = y;
}.

(** [derive(PartialOrd, Ord)] orders the kinds as they are declared. *)
Definition kind_rank (k : UnitKind) : nat :=
  match k with
  | UnitKind.Interface => 0 | UnitKind.Jig => 1 | UnitKind.Logger => 2 | UnitKind.Scenario => 3
  | UnitKind.Test => 4 | UnitKind.Trigger => 5 | UnitKind.Internal => 6
  end.

#[export] Instance kind_ordered : Ordered UnitKind.
Proof.
  refine {| compare_keys x y := Nat.compare (kind_rank x) (kind_rank y) |}.
  intros x y. rewrite Nat.compare_eq_iff. split; [by destruct x, y|by intros ->].
Defined.

Lemma string_compare_eq x y : String.compare x y = Eq <-> x = y.
Proof.
  split; [apply String.compare_eq_iff|]. intros ->. pose proof (String.compare_antisym y y) as Hc.
  by destruct (String.compare y y).
Qed.

(** ... and names by their texts, then by their kinds. *)
#[export] Instance name_ordered : Ordered UnitName.
Proof.
  refine {| compare_keys x y :=
    match String.compare (un_id x) (un_id y) with
    | Eq => compare_keys (un_kind x) (un_kind y)
    | c => c
    end |}.
  intros [x kx] [y ky]. simpl un_id. simpl un_kind. pose proof (string_compare_eq x y) as Hxy.
  destruct (String.compare x y) eqn:Hc.
  - rewrite (compare_keys_eq kx ky). assert (x = y) as -> by by apply Hxy. split; [by intros ->|by intros [= ->]].
  - split; [done|]. intros [= Hx _]. by apply Hxy in Hx.
  - split; [done|]. intros [= Hx _]. by apply Hxy in Hx.
Defined.

Section btree.
Context {K V : Type} `{Ordered K}.

Fixpoint btree_insert (k : K) (v : V) (m : list (K * V)) : list (K * V) :=
  match m with
  | [] => [(k, v)]
  | (k', v') :: m' =>
    match compare_keys k k' with
    | Lt => (k, v) :: m
    | Eq => (k, v) :: m'
    | Gt => (k', v') :: btree_insert k v m'
    end
  end.

Fixpoint btree_get (k : K) (m : list (K * V)) : option V :=
  match m with
  | [] => None
  | (k', v) :: m => match compare_keys k k' with Eq => Some v | _ => btree_get k m end
  end.

Definition btree_contains (k : K) (m : list (K * V)) : bool := bool_decide (is_Some (btree_get k m)).

Lemma compare_keys_refl (k : K) : compare_keys k k = Eq.
Proof. by apply compare_keys_eq. Qed.

Lemma btree_get_insert k v m : btree_get k (btree_insert k v m) = Some v.
Proof.
  induction m as [|[k' v'] m IH]; simpl; [by rewrite compare_keys_refl|].
  destruct (compare_keys k k') eqn:Hc; simpl; [by rewrite compare_keys_refl..|]. by rewrite Hc.
Qed.

Lemma btree_get_insert_ne k k2 v m : k2 <> k -> btree_get k2 (btree_insert k v m) = btree_get k2 m.
Proof.
  intros Hne. assert (compare_keys k2 k <> Eq) as Hk by by rewrite compare_keys_eq.
  induction m as [|[k' v'] m IH]; simpl; [by destruct (compare_keys k2 k)|].
  destruct (compare_keys k k') eqn:Hc; simpl.
  - apply compare_keys_eq in Hc as ->. by destruct (compare_keys k2 k').
  - by destruct (compare_keys k2 k).
  - by rewrite IH.
Qed.

Lemma btree_insert_here k v m : (k, v) ∈ btree_insert k v m.
Proof. induction m as [|[k' v'] m IH]; simpl; [by left|]. destruct (compare_keys k k'); [by left..|by right]. Qed.

(** The entries that are there afterwards. *)
Lemma btree_insert_in k v m k2 v2 : (k2, v2) ∈ btree_insert k v m -> k2 = k \/ (k2, v2) ∈ m.
Proof.
  induction m as [|[k' v'] m IH]; simpl; [set_solver|].
  destruct (compare_keys k k'); rewrite !elem_of_cons; naive_solver.
Qed.
End btree.

(** ** The console *)

Inductive TermOp :=
  | ClearLastLines (n : nat)
  | WriteLine (text : string)
  | Flush
  | Println (text : string).

(** The [console] crate and the standard output: the styles and the results of
    the operations, which may differ from one operation to the next. *)
Class Console := {
  style_bold : string -> string;
  style_green : string -> string;
  style_yellow : string -> string;
  term_result : nat -> TermOp -> result ForeignError unit;
}.

Inductive TerminalOutputType := Fancy | Plain | NoOutput.

#[export] Instance TerminalOutputType_eq_dec : EqDecision TerminalOutputType.
Proof. solve_decision. Defined.

Definition MAX_LOG_HISTORY : nat := 25.

Record Terminal := mkTerminal {
  ti_category_status : list (UnitKind * string);
  ti_unit_status : gmap UnitKind (list (UnitName * UnitStatus));
  ti_logs : list LogEntry;
  ti_output_type : TerminalOutputType;
  ti_last_line_count : nat;
  ti_log_history : nat;
  ti_out : list TermOp;
}.

#[export] Instance eta_Terminal : Eta Terminal := mkEta _ (fun r =>
  mkTerminal (ti_category_status r) (ti_unit_status r) (ti_logs r) (ti_output_type r)
    (ti_last_line_count r) (ti_log_history r) (ti_out r)).

(** The state [start] makes; a terminal that is one is drawn on. *)
Definition terminal_new (output_type : option TerminalOutputType) (is_term : bool) : Terminal :=
  let output_type := match output_type with
                     | Some s => s
                     | None => if is_term then Fancy else Plain
                     end in
  mkTerminal [] ∅ [] output_type 0 MAX_LOG_HISTORY [].

(** What the keyboard thread broadcasts for one [read_line]; the text and its
    length are not looked at. *)
Definition keypress_event (line : result ForeignError string) : outcome UnitEvent :=
  match line with
  | Ok _ => Done (Event.ManagerRequest (mkCtrl (internal "terminal") (Ctrl.StartScenario None)))
  | Err e => Panic "Failed to read line"
  end.

Section terminal.
Context `{Console}.

Abbreviation TM := (M Terminal).

(** An operation of the terminal and its [expect]. *)
Definition term_op (op : TermOp) (msg : string) : TM unit :=
  n ← gets (fun t => length (ti_out t));
  modify (fun t => t <| ti_out ::= fun os => os ++ [op] |>);;
  match term_result n op with Ok _ => mret tt | Err e => panic msg end.

(** [println!] panics when the standard output can not be written. *)
Definition println (text : string) : TM unit := term_op (Println text) "failed printing to stdout".

Definition draw_event (event : UnitEvent) : TM unit :=
  match event with
  | Event.Status stat => println ("    " +:+ name_fmt (se_name stat) +:+ " -> " +:+ status_fmt (se_status stat))
  | Event.Category stat => println (kind_fmt (ce_kind stat) +:+ ": " +:+ ce_status stat)
  | Event.RescanRequest => println "Unit rescan requested"
  | Event.RescanStart => println "Started unit recsan..."
  | Event.RescanFinish => println "Finished rescanning units"
  | Event.Shutdown => println "Shutting down"
  | Event.Log log => println (log_fmt log)
  | Event.ManagerRequest _ => mret tt
  end.

(** The lines of the units of a category; the result is the line count. *)
Fixpoint write_units (units : list (UnitName * UnitStatus)) (line_count : nat) : TM nat :=
  match units with
  | [] => mret line_count
  | (unit_name, unit_event) :: units =>
    term_op (WriteLine ("    " +:+ style_green (name_fmt unit_name) +:+ ": "
                        +:+ style_yellow (status_fmt unit_event))) "Unable to write unit";;
    write_units units (line_count + 1)
  end.

Fixpoint write_categories (categories : list (UnitKind * string)) (line_count : nat) : TM nat :=
  match categories with
  | [] => mret line_count
  | (category_type, category_status) :: categories =>
    term_op (WriteLine (style_bold (kind_fmt category_type) +:+ ": " +:+ style_bold category_status))
      "Unable to write unit header";;
    bucket ← gets (fun t => ti_unit_status t !! category_type);
    units ← unwrap "Couldn't find any category bucket" bucket;
    line_count ← write_units units (line_count + 1);
    write_categories categories line_count
  end.

Fixpoint write_logs (logs : list LogEntry) (line_count : nat) : TM nat :=
  match logs with
  | [] => mret line_count
  | log_line :: logs =>
    term_op (WriteLine ("  " +:+ log_fmt log_line)) "Unable to write log";;
    write_logs logs (line_count + 1)
  end.

Definition redraw_screen (evt : UnitEvent) : TM unit :=
  if bool_decide (evt <> Event.RescanFinish) then mret tt else
  n ← gets ti_last_line_count;
  term_op (ClearLastLines n) "Unable to clear lines";;
  categories ← gets ti_category_status;
  line_count ← write_categories categories 0;
  logs ← gets ti_logs;
  line_count ← (if bool_decide (0 < length logs)
    then term_op (WriteLine "Logs: ") "Unable to write log";; mret (line_count + 1)
    else mret line_count);
  line_count ← write_logs logs line_count;
  term_op Flush "Couldn't redraw screen";;
  modify (fun t => t <| ti_last_line_count := line_count |>).

(** What [update_unit] remembers of an event. *)
Definition remember (event : UnitEvent) (t : Terminal) : Terminal :=
  match event with
  | Event.Category cat => t <| ti_category_status ::= btree_insert (ce_kind cat) (ce_status cat) |>
  | Event.Status stat =>
    let k := se_kind stat in
    let t := if btree_contains k (ti_category_status t) then t
             else t <| ti_category_status ::= btree_insert k "" |> in
    t <| ti_unit_status ::= fun m =>
           <[k := btree_insert (se_name stat) (se_status stat) (default [] (m !! k))]> m |>
  | Event.Log log =>
    t <| ti_logs ::= fun logs =>
           let logs := logs ++ [log] in
           if bool_decide (ti_log_history t < length logs) then delete 0 logs else logs |>
  | _ => t
  end.

Definition update_unit (event : UnitEvent) : TM unit :=
  modify (remember event);;
  output ← gets ti_output_type;
  match output with
  | Plain => draw_event event
  | Fancy => redraw_screen event
  | NoOutput => mret tt
  end.

Definition update_units (events : list UnitEvent) : TM unit := forM events update_unit.

(** ** What the screen shows *)

(** The lines of a screen. *)
Definition unit_line (u : UnitName * UnitStatus) : string :=
  "    " +:+ style_green (name_fmt u.1) +:+ ": " +:+ style_yellow (status_fmt u.2).
Definition category_lines (t : Terminal) (c : UnitKind * string) : list string :=
  (style_bold (kind_fmt c.1) +:+ ": " +:+ style_bold c.2)
  :: (unit_line <$> default [] (ti_unit_status t !! c.1)).
Definition log_header (logs : list LogEntry) : list string :=
  match logs with [] => [] | _ => ["Logs: "] end.
Definition log_line (l : LogEntry) : string := "  " +:+ log_fmt l.
Definition screen (t : Terminal) : list string :=
  (ti_category_status t ≫= category_lines t) ++ log_header (ti_logs t) ++ (log_line <$> ti_logs t).

#[local] Arguments category_lines : simpl never.

(** Every category has a bucket of units. *)
Definition buckets (t : Terminal) : Prop :=
  forall k s, (k, s) ∈ ti_category_status t -> is_Some (ti_unit_status t !! k).

Section works.
Context (console_works : forall n op, term_result n op = Ok tt).

(** Writing is adding to what was written. *)
Definition wrote (ops : list TermOp) (t : Terminal) : Terminal := t <| ti_out ::= fun os => os ++ ops |>.

Lemma wrote_wrote ops1 ops2 t : wrote ops2 (wrote ops1 t) = wrote (ops1 ++ ops2) t.
Proof. unfold wrote. simpl. by rewrite app_assoc. Qed.

Lemma wrote_nil t : wrote [] t = t.
Proof. unfold wrote. destruct t. simpl. by rewrite app_nil_r. Qed.

Lemma term_op_run op msg t : term_op op msg t = Done (tt, wrote [op] t).
Proof. unfold term_op, gets, modify, mbind, M_bind. by rewrite console_works. Qed.

Lemma write_units_run units n t :
  write_units units n t = Done (n + length units, wrote (WriteLine <$> (unit_line <$> units)) t).
Proof.
  revert n t. induction units as [|[u s] units IH]; intros n t; simpl.
  - by rewrite wrote_nil, Nat.add_0_r.
  - rewrite (bind_step _ _ _ _ _ (term_op_run _ _ _)), IH, wrote_wrote. do 2 f_equal. lia.
Qed.

Lemma write_categories_run categories n t0 t : ti_unit_status t = ti_unit_status t0 ->
  (forall k s, (k, s) ∈ categories -> is_Some (ti_unit_status t !! k)) ->
  write_categories categories n t =
    Done (n + length (categories ≫= category_lines t0), wrote (WriteLine <$> (categories ≫= category_lines t0)) t).
Proof.
  intros Hsame. revert n t Hsame. induction categories as [|[k s] categories IH]; intros n t Hsame Hb.
  { simpl. by rewrite wrote_nil, Nat.add_0_r. }
  cbn [write_categories]. rewrite bind_cons.
  rewrite (bind_step _ _ _ _ _ (term_op_run _ _ _)), gets_step.
  change (ti_unit_status (wrote _ t)) with (ti_unit_status t).
  destruct (Hb k s) as [units Hu]; [by left|]. rewrite Hu.
  rewrite (bind_step _ _ _ units _ eq_refl), (bind_step _ _ _ _ _ (write_units_run _ _ _)), IH; [|done|].
  - rewrite !wrote_wrote.
    assert (category_lines t0 (k, s) = (style_bold (kind_fmt k) +:+ ": " +:+ style_bold s) :: (unit_line <$> units))
      as -> by (unfold category_lines; simpl; by rewrite <- Hsame, Hu).
    rewrite length_app, fmap_app. simpl. rewrite length_fmap. do 2 f_equal. lia.
  - intros k' s' Hin. apply (Hb k' s'). by right.
Qed.

Lemma write_logs_run logs n t :
  write_logs logs n t = Done (n + length logs, wrote (WriteLine <$> (log_line <$> logs)) t).
Proof.
  revert n t. induction logs as [|l logs IH]; intros n t; simpl.
  - by rewrite wrote_nil, Nat.add_0_r.
  - rewrite (bind_step _ _ _ _ _ (term_op_run _ _ _)), IH, wrote_wrote. do 2 f_equal. lia.
Qed.

Lemma write_header_run (logs : list LogEntry) n t :
  (if bool_decide (0 < length logs)
   then term_op (WriteLine "Logs: ") "Unable to write log";; mret (n + 1) else mret n) t =
    Done (n + length (log_header logs), wrote (WriteLine <$> log_header logs) t).
Proof.
  destruct logs as [|l logs]; simpl; [by rewrite wrote_nil, Nat.add_0_r|].
  by rewrite (bind_step _ _ _ _ _ (term_op_run _ _ _)).
Qed.

Lemma redraw_run t : buckets t ->
  redraw_screen Event.RescanFinish t =
    Done (tt, wrote (ClearLastLines (ti_last_line_count t) :: (WriteLine <$> screen t) ++ [Flush]) t
                <| ti_last_line_count := length (screen t) |>).
Proof.
  intros Hb. unfold redraw_screen. rewrite bool_decide_eq_false_2 by tauto.
  rewrite gets_step, (bind_step _ _ _ _ _ (term_op_run _ _ _)), gets_step.
  set (t1 := wrote _ t). rewrite (bind_step _ _ _ _ _ (write_categories_run (ti_category_status t1) 0 t t1 eq_refl Hb)).
  rewrite gets_step, (bind_step _ _ _ _ _ (write_header_run _ _ _)).
  rewrite (bind_step _ _ _ _ _ (write_logs_run _ _ _)), (bind_step _ _ _ _ _ (term_op_run _ _ _)).
  unfold t1. rewrite !wrote_wrote. unfold modify, screen. do 2 f_equal. simpl.
  rewrite !length_app, length_fmap, !fmap_app, <- !app_assoc. unfold wrote. simpl.
  f_equal. lia.
Qed.

(** A redraw replaces the last screen: it writes the categories in order,
    each with its units in order, then the logs, and the next redraw clears
    exactly the lines of this one before it draws its own. *)
Theorem redraw_replaces_screen t t1 t2 : buckets t ->
  redraw_screen Event.RescanFinish t = Done (tt, t1) ->
  buckets t2 -> ti_last_line_count t2 = ti_last_line_count t1 ->
  exists t3, redraw_screen Event.RescanFinish t2 = Done (tt, t3) /\
    ti_out t1 = ti_out t ++ [ClearLastLines (ti_last_line_count t)] ++ (WriteLine <$> screen t) ++ [Flush] /\
    ti_out t3 = ti_out t2 ++ [ClearLastLines (length (screen t))] ++ (WriteLine <$> screen t2) ++ [Flush].
Proof.
  intros Hb Hrun Hb2 Hcount. rewrite (redraw_run t Hb) in Hrun. injection Hrun as <-.
  eexists. split; [apply (redraw_run t2 Hb2)|]. by rewrite Hcount.
Qed.
(** Without a bucket for some category the redraw panics. *)
Lemma write_categories_panics categories n t k s :
  (k, s) ∈ categories -> ti_unit_status t !! k = None ->
  write_categories categories n t = Panic "Couldn't find any category bucket".
Proof.
  revert n t. induction categories as [|[k' s'] categories IH]; intros n t Hin Hk; [by apply not_elem_of_nil in Hin|].
  cbn [write_categories]. rewrite (bind_step _ _ _ _ _ (term_op_run _ _ _)), gets_step.
  change (ti_unit_status (wrote _ t)) with (ti_unit_status t).
  destruct (ti_unit_status t !! k') as [units|] eqn:Hu; [|done].
  rewrite (bind_step _ _ _ units _ eq_refl), (bind_step _ _ _ _ _ (write_units_run _ _ _)).
  apply IH; [|done]. apply elem_of_cons in Hin as [[= -> ->]|?]; [congruence|done].
Qed.

(** A terminal that is drawn on does not survive a category line for a kind
    of unit that no unit was announced of: the next redraw finds no bucket for
    the category and the thread of the terminal panics. *)
Theorem category_without_units_panics t k s :
  ti_output_type t = Fancy -> ti_unit_status t !! k = None ->
  update_units [Event.Category (mkCategoryEvent k s); Event.RescanFinish] t
    = Panic "Couldn't find any category bucket".
Proof.
  intros Hout Hk. set (c := Event.Category (mkCategoryEvent k s)). set (t1 := remember c t).
  assert (ti_output_type t1 = Fancy) as Hout1 by done.
  assert (update_unit c t = Done (tt, t1)) as Hfirst.
  { unfold update_unit. rewrite (bind_step (modify _) _ _ tt _ eq_refl), gets_step. fold t1. by rewrite Hout1. }
  unfold update_units. cbn [forM]. rewrite (bind_step _ _ _ _ _ Hfirst). apply bind_panics.
  unfold update_unit. rewrite (bind_step (modify _) _ _ tt _ eq_refl), gets_step.
  change (remember Event.RescanFinish t1) with t1. rewrite Hout1.
  unfold redraw_screen. rewrite bool_decide_eq_false_2 by tauto.
  rewrite gets_step, (bind_step _ _ _ _ _ (term_op_run _ _ _)), gets_step.
  apply bind_panics. eapply write_categories_panics; [|exact Hk]. apply btree_insert_here.
Qed.

(** ** Following the events *)

(** Each category is of a kind some unit was announced of before. *)
Fixpoint announced (seen : gset UnitKind) (events : list UnitEvent) : Prop :=
  match events with
  | [] => True
  | Event.Status s :: events => announced ({[ se_kind s ]} ∪ seen) events
  | Event.Category c :: events => ce_kind c ∈ seen /\ announced seen events
  | _ :: events => announced seen events
  end.

Definition log_of (e : UnitEvent) : option LogEntry := match e with Event.Log l => Some l | _ => None end.
Definition status_of (n : UnitName) (e : UnitEvent) : option UnitStatus :=
  match e with
  | Event.Status s => if bool_decide (se_name s = n) then Some (se_status s) else None
  | _ => None
  end.

Definition last_n {A} (n : nat) (l : list A) : list A := drop (length l - n) l.

(** The status the terminal has for a unit. *)
Definition shown (t : Terminal) (n : UnitName) : option UnitStatus :=
  btree_get n (default [] (ti_unit_status t !! un_kind n)).

(** What does not depend on what is on the screen. *)
Record same_data (t t' : Terminal) : Prop := {
  sd_categories : ti_category_status t' = ti_category_status t;
  sd_units : ti_unit_status t' = ti_unit_status t;
  sd_logs : ti_logs t' = ti_logs t;
  sd_history : ti_log_history t' = ti_log_history t;
}.

Definition follows (seen : gset UnitKind) (t : Terminal) : Prop :=
  buckets t /\ (forall k, k ∈ seen -> is_Some (ti_unit_status t !! k)) /\
  length (ti_logs t) <= ti_log_history t.

Lemma update_unit_run e t : buckets (remember e t) ->
  exists t', update_unit e t = Done (tt, t') /\ same_data (remember e t) t'.
Proof.
  intros Hb. unfold update_unit. rewrite (bind_step (modify _) _ _ tt _ eq_refl), gets_step.
  destruct (ti_output_type _).
  - unfold redraw_screen. case_bool_decide as He; [by eexists|].
    assert (e = Event.RescanFinish) as -> by (destruct (decide (e = Event.RescanFinish)); tauto).
    pose proof (redraw_run (remember Event.RescanFinish t) Hb) as Hrun. unfold redraw_screen in Hrun.
    rewrite bool_decide_eq_false_2 in Hrun by tauto. rewrite Hrun. by eexists.
  - destruct e; simpl; unfold println; rewrite ?term_op_run; by eexists.
  - by eexists.
Qed.

Lemma remember_status n st t : let t' := remember (Event.Status (mkStatusEvent n st)) t in
  ti_unit_status t' =
    <[un_kind n := btree_insert n st (default [] (ti_unit_status t !! un_kind n))]> (ti_unit_status t) /\
  ti_logs t' = ti_logs t /\ ti_log_history t' = ti_log_history t /\
  forall k s, (k, s) ∈ ti_category_status t' -> k = un_kind n \/ (k, s) ∈ ti_category_status t.
Proof.
  simpl. unfold se_kind. simpl. destruct (btree_contains _ _); simpl; (split_and!; try done); intros k s; [by right|].
  intros Hin. by apply btree_insert_in in Hin.
Qed.

(** What the terminal knows after an event. *)
Definition seen_after (e : UnitEvent) (seen : gset UnitKind) : gset UnitKind :=
  match e with Event.Status s => {[ se_kind s ]} ∪ seen | _ => seen end.
Definition announced_one (seen : gset UnitKind) (e : UnitEvent) : Prop :=
  match e with Event.Category c => ce_kind c ∈ seen | _ => True end.

Lemma remember_follows seen t e : follows seen t -> announced_one seen e ->
  follows (seen_after e seen) (remember e t).
Proof.
  intros (Hb & Hs & Hl) He. destruct e as [[n st]|[k s]|l| | | | | ]; try done.
  - destruct (remember_status n st t) as (Hu & Hlogs & Hh & Hc). split_and!.
    + intros k s Hin. rewrite Hu, lookup_insert_is_Some'. destruct (Hc k s Hin) as [->|Hin']; [by left|right; by eapply Hb].
    + intros k Hin. rewrite Hu, lookup_insert_is_Some'. unfold seen_after, se_kind in Hin. simpl in Hin.
      apply elem_of_union in Hin as [->%elem_of_singleton|Hin]; [by left|right; by apply Hs].
    + by rewrite Hlogs, Hh.
  - split_and!; [|done|done]. intros k' s' Hin. simpl in Hin. apply btree_insert_in in Hin as [->|Hin].
    + by apply Hs.
    + by eapply Hb.
  - split_and!; [done|done|]. simpl. case_bool_decide as Hfull.
    + destruct (ti_logs t ++ [l]) as [|x logs] eqn:Heq; [by destruct (ti_logs t)|]. simpl.
      apply (f_equal length) in Heq. rewrite length_app in Heq. simpl in Heq. lia.
    + lia.
Qed.

Lemma last_n_step {A} n (l rest : list A) x : length l <= n ->
  last_n n ((if bool_decide (n < length (l ++ [x])) then delete 0 (l ++ [x]) else l ++ [x]) ++ rest)
    = last_n n (l ++ x :: rest).
Proof.
  intros Hl. case_bool_decide as Hn; [|by rewrite <- app_assoc]. destruct l as [|y l]; simpl in *.
  - assert (n = 0) as -> by lia. unfold last_n. rewrite !drop_ge; simpl; [done|lia..].
  - unfold last_n. rewrite length_app in Hn |- *. simpl in *. rewrite !length_app. simpl.
    rewrite <- app_assoc. simpl. replace (length l + 1 + length rest - n) with (length rest) by lia.
    replace (S (length l + S (length rest)) - n) with (S (length rest)) by lia. done.
Qed.

Lemma shown_step e t n :
  shown (remember e t) n = match status_of n e with Some s => Some s | None => shown t n end.
Proof.
  unfold shown. destruct e as [[n' st]|[k s]|l| | | | | ]; try done.
  destruct (remember_status n' st t) as (-> & _). simpl. case_bool_decide as Hn.
  - subst n'. rewrite lookup_insert_eq. simpl. by rewrite btree_get_insert.
  - destruct (decide (un_kind n = un_kind n')) as [Hk|Hk].
    + rewrite Hk, lookup_insert_eq. simpl. by rewrite btree_get_insert_ne by congruence.
    + by rewrite lookup_insert_ne by congruence.
Qed.

Lemma same_data_follows seen t t' : same_data t t' -> follows seen t -> follows seen t'.
Proof. intros [Hc Hu Hl Hh] (H1 & H2 & H3). unfold follows, buckets. by rewrite Hc, Hu, Hl, Hh. Qed.

Lemma announced_cons seen e events : announced seen (e :: events) ->
  announced_one seen e /\ announced (seen_after e seen) events.
Proof. by destruct e. Qed.

Lemma update_units_run seen t events : follows seen t -> announced seen events ->
  exists t', update_units events t = Done (tt, t') /\
    ti_logs t' = last_n (ti_log_history t) (ti_logs t ++ omap log_of events) /\
    forall n, shown t' n = match last (omap (status_of n) events) with Some s => Some s | None => shown t n end.
Proof.
  revert seen t. induction events as [|e events IH]; intros seen t Ht Hann.
  { exists t. split; [done|]. split; [|done]. simpl. rewrite app_nil_r. unfold last_n.
    destruct Ht as (_ & _ & Hl). replace (length (ti_logs t) - ti_log_history t) with 0 by lia. done. }
  apply announced_cons in Hann as [He Hann]. pose proof (remember_follows seen t e Ht He) as Ht1.
  destruct (update_unit_run e t) as (t1 & Hrun & Hsame); [apply Ht1|].
  pose proof (same_data_follows _ _ _ Hsame Ht1) as Ht1'. destruct Hsame as [Hc Hu Hl Hh].
  destruct (IH _ t1 Ht1' Hann) as (t2 & Hrun2 & Hlogs & Hshown). exists t2.
  unfold update_units. cbn [forM]. rewrite (bind_step _ _ _ _ _ Hrun). split; [exact Hrun2|]. split.
  - rewrite Hlogs, Hl, Hh. destruct Ht as (_ & _ & Hlen).
    destruct e as [[n st]|[k s]|l| | | | | ]; try done.
    + by destruct (remember_status n st t) as (_ & -> & -> & _).
    + pose proof (last_n_step (ti_log_history t) (ti_logs t) (omap log_of events) l Hlen) as Hstep. exact Hstep.
  - intros n. rewrite Hshown. assert (shown t1 n = shown (remember e t) n) as -> by (unfold shown; by rewrite Hu).
    rewrite shown_step. simpl. destruct (status_of n e) as [s|]; [|done].
    rewrite last_cons. by destruct (last _).
Qed.

End works.
End terminal.

(** ** A console that fails *)

Section failing.
Context `{Console}.

(** The same console, were it to work. *)
Definition ideal : Console := {|
  style_bold := style_bold;
  style_green := style_green;
  style_yellow := style_yellow;
  term_result _ _ := Ok tt;
|}.

(** An operation of the console failed, and its [expect] says which. *)
Definition console_failed (msg : string) : Prop :=
  (exists n op e, term_result n op = Err e) /\
  msg ∈ ["Unable to clear lines"; "Unable to write unit header"; "Unable to write unit"; "Unable to write log";
         "Couldn't redraw screen"; "failed printing to stdout"].

(** A computation does what it would do if the console worked, or fails with it. *)
Definition tracks {A} (m m' : M Terminal A) : Prop :=
  forall t, m t = m' t \/ exists msg, m t = Panic msg /\ console_failed msg.

Lemma tracks_refl {A} (m : M Terminal A) : tracks m m.
Proof. by left. Qed.

Lemma tracks_bind {A B} (m m' : M Terminal A) (k k' : A -> M Terminal B) :
  tracks m m' -> (forall a, tracks (k a) (k' a)) -> tracks (m ≫= k) (m' ≫= k').
Proof.
  intros Hm Hk t. unfold mbind, M_bind. destruct (Hm t) as [->|(msg & -> & Hmsg)]; [|right; by exists msg].
  destruct (m' t) as [[a t']| |]; [apply Hk|by left..].
Qed.

Lemma tracks_op op msg :
  msg ∈ ["Unable to clear lines"; "Unable to write unit header"; "Unable to write unit"; "Unable to write log";
         "Couldn't redraw screen"; "failed printing to stdout"] -> tracks (term_op op msg) (@term_op ideal op msg).
Proof.
  intros Hmsg t. unfold term_op, gets, modify, mbind, M_bind. simpl.
  destruct (term_result _ op) as [[]|e] eqn:Hr; [by left|]. right. exists msg. split; [done|]. split; [by eauto|done].
Qed.

Ltac track := repeat first
  [ apply tracks_op; set_solver | apply tracks_bind; [|intros ?] | apply tracks_refl ].

Lemma write_units_tracks units n : tracks (write_units units n) (@write_units ideal units n).
Proof. revert n. induction units as [|[u s] units IH]; intros n; simpl; track. apply IH. Qed.

Lemma write_categories_tracks categories n :
  tracks (write_categories categories n) (@write_categories ideal categories n).
Proof.
  revert n. induction categories as [|[k s] categories IH]; intros n; simpl; [apply tracks_refl|].
  apply tracks_bind; [track|intros _]. apply tracks_bind; [apply tracks_refl|intros bucket].
  apply tracks_bind; [apply tracks_refl|intros units]. apply tracks_bind; [apply write_units_tracks|exact IH].
Qed.

Lemma write_logs_tracks logs n : tracks (write_logs logs n) (@write_logs ideal logs n).
Proof. revert n. induction logs as [|l logs IH]; intros n; simpl; track. apply IH. Qed.

Lemma redraw_tracks e : tracks (redraw_screen e) (@redraw_screen ideal e).
Proof.
  unfold redraw_screen. case_bool_decide; [apply tracks_refl|].
  apply tracks_bind; [apply tracks_refl|intros n]. apply tracks_bind; [track|intros _].
  apply tracks_bind; [apply tracks_refl|intros categories]. apply tracks_bind; [apply write_categories_tracks|intros count].
  apply tracks_bind; [apply tracks_refl|intros logs]. apply tracks_bind; [case_bool_decide; track|intros count'].
  apply tracks_bind; [apply write_logs_tracks|intros count'']. track.
Qed.

Lemma draw_tracks e : tracks (draw_event e) (@draw_event ideal e).
Proof. destruct e; simpl; unfold println; track. Qed.

Lemma update_units_tracks events : tracks (update_units events) (@update_units ideal events).
Proof.
  induction events as [|e events IH]; [apply tracks_refl|]. unfold update_units. cbn [forM].
  apply tracks_bind; [|intros _; exact IH]. unfold update_unit. apply tracks_bind; [apply tracks_refl|intros _].
  apply tracks_bind; [apply tracks_refl|intros [| |]]; [apply redraw_tracks|apply draw_tracks|apply tracks_refl].
Qed.

End failing.

Module SampleTerminal.

(** A console that always works and marks the styles. *)
#[export] Instance console : Console := {|
  style_bold s := "*" +:+ s +:+ "*";
  style_green s := s;
  style_yellow s := s;
  term_result _ _ := Ok tt;
|}.

Definition works n op : term_result n op = Ok tt := eq_refl.

Definition a : UnitName := mkName "a" UnitKind.Test.
Definition events : list UnitEvent :=
  [Event.Status (mkStatusEvent a UnitStatus.Loaded);
   Event.Category (mkCategoryEvent UnitKind.Test "Number of units on disk: 1");
   Event.Log (new_info None a "hello");
   Event.Status (mkStatusEvent a UnitStatus.Selected); Event.RescanFinish].

Definition fancy : Terminal := terminal_new (Some Fancy) true.
Definition drawn : Terminal := match update_units events fancy with Done (_, t) => t | _ => fancy end.

Example drawn_screen : ti_out drawn =
  [ClearLastLines 0; WriteLine "*test*: *Number of units on disk: 1*"; WriteLine "    a.test: selected";
   WriteLine "Logs: "; WriteLine "  INFO a.test: hello"; Flush].
Proof. vm_compute. reflexivity. Qed.


Lemma drawn_buckets : buckets drawn.
Proof.
  intros k s Hin. assert (ti_category_status drawn = [(UnitKind.Test, "Number of units on disk: 1")]) as Hc
    by (vm_compute; reflexivity).
  rewrite Hc in Hin. apply list_elem_of_singleton in Hin as [= -> ->].
  apply (bool_decide_eq_true_1 (is_Some (ti_unit_status drawn !! UnitKind.Test))). by vm_compute.
Qed.

Lemma redraw_replaces_screen_witness : exists t1 t2,
  redraw_screen Event.RescanFinish drawn = Done (tt, t1) /\
  redraw_screen Event.RescanFinish t1 = Done (tt, t2) /\
  ti_out t2 = ti_out t1 ++ [ClearLastLines 4] ++ (WriteLine <$> screen t1) ++ [Flush].
Proof.
  assert (exists t1, redraw_screen Event.RescanFinish drawn = Done (tt, t1)) as [t1 Hrun]
    by (eexists; vm_compute; reflexivity).
  destruct (redraw_replaces_screen works drawn t1 t1) as (t2 & Hrun2 & _ & Hout).
  - exact drawn_buckets.
  - exact Hrun.
  - pose proof Hrun as Heq. vm_compute in Heq. injection Heq as <-. exact drawn_buckets.
  - reflexivity.
  - exists t1, t2. split; [exact Hrun|]. split; [exact Hrun2|]. exact Hout.
Defined.

Lemma category_without_units_panics_witness :
  update_units [Event.Category (mkCategoryEvent UnitKind.Jig ""); Event.RescanFinish] fancy
    = Panic "Couldn't find any category bucket".
Proof.
  apply (category_without_units_panics works fancy UnitKind.Jig ""); [reflexivity|vm_compute; reflexivity].
Defined.

End SampleTerminal.
