(* ===== verification/Main.v ===== *)
(** * The program ([src/src/main.rs])

    The main thread reads the events of its subscription and gives each to the
    loader, the library and the timer, in this order.  What they broadcast goes
    back over the bus to every subscriber, the main thread included; other
    threads broadcast too: the watcher, the timer, the forwarder of control
    messages, the keyboard and the signal handler. *)

From S2P Require Import Prelude Str Path Unit Foreign Config Events Broadcaster Env Samples Descriptions.
From S2P Require Import Interface Trigger Logger Jig Test Scenario ScenarioProps ScenarioTheorems Manager ManagerProps ManagerSafety ManagerTheorems.
From S2P Require Import Library LibraryProps LibraryIdle LibraryTheorems Quiesce Loader.

(** The debug log: the clock when each message is written, the [Debug] text of
    an event, and whether the file takes a line. *)
Class DebugLog := {
  log_time : nat -> option (Z * Z);
  event_debug : UnitEvent -> string;
  log_write : nat -> string -> result ForeignError unit;
}.

Section main.
Context `{Libraries} `{DependyLib} `{Env} `{DebugLog}.
Context (depth program_lines : nat).

(** [mn_pending] are the broadcasts of the message that is being handled,
    [mn_control] the control channel, [mn_debug] whether there is a debug log;
    [mn_loops] counts the messages. *)
Record Main := mkMain {
  mn_bus : Bus;
  mn_chan : nat;
  mn_library : Library;
  mn_timer : Machine;
  mn_pending : list UnitEvent;
  mn_control : list ManagerControlMessage;
  mn_loops : nat;
  mn_debug : bool;
}.

#[export] Instance eta_Main : Eta Main := mkEta _ (fun r =>
  mkMain (mn_bus r) (mn_chan r) (mn_library r) (mn_timer r) (mn_pending r) (mn_control r) (mn_loops r)
    (mn_debug r)).

(** [Duration::from_secs(1)] *)
Definition quiesce_delay : Duration := from_secs 1.

(** The state before the loop, on a bus that has other subscribers. *)
Definition main_new (io : IO) (now : Z) (b : Bus) : Main :=
  let '(c, b) := subscribe b in
  mkMain b c (library_new io) (machine_new now quiesce_delay) [] [] 1 false.

Definition outputs (l : Library) : list Out := io_out (m_io (lb_manager l)).

(** What an operation of the library put out. *)
Definition new_outputs (l l' : Library) : list Out := drop (length (outputs l)) (outputs l').

Definition broadcasts (os : list Out) : list UnitEvent :=
  omap (fun o => match o with Broadcast e => Some e | _ => None end) os.

(** [Quiesce::process_message], with no step of another thread in between. *)
Definition quiesce_process_message (evt : UnitEvent) (m : Machine) : Machine :=
  if restarts evt then on_notify (on_schedule (on_message evt m)) else m.

(** [writeln!(file, "{}:{}.{} {:?}", ...)] *)
Definition debug_line (loops : nat) (now : option (Z * Z)) (msg : UnitEvent) : string :=
  let '(secs, nsecs) := default (0%Z, 0%Z) now in
  pretty loops +:+ ":" +:+ pretty secs +:+ "." +:+ pretty nsecs +:+ " " +:+ event_debug msg.

Definition write_debug (msg : UnitEvent) (m : Main) : outcome unit :=
  if mn_debug m then
    match log_write (mn_loops m) (debug_line (mn_loops m) (log_time (mn_loops m)) msg) with
    | Ok _ => Done tt
    | Err e => Panic "Couldn't write message to logfile"
    end
  else Done tt.

(** The body of the loop. *)
Definition handle_message `{Files} (msg : UnitEvent) (m : Main) : outcome Main :=
  _ ← write_debug msg m;
  r ← library_process_message depth program_lines msg (mn_library m);
  let l := r.2 in
  let os := new_outputs (mn_library m) l in
  Done (m <| mn_loops ::= S |>
          <| mn_library := l |>
          <| mn_timer ::= quiesce_process_message msg |>
          <| mn_pending := loader_process_message msg ++ broadcasts os |>
          <| mn_control ::= fun cs => cs ++ sent_msgs os |>).

Definition put_on_bus (e : UnitEvent) (m : Main) : Main := m <| mn_bus ::= broadcast e |>.
Definition put_all (evts : list UnitEvent) (m : Main) : Main := foldl (fun m e => put_on_bus e m) m evts.

(** [message_receiver.recv()]: the next message. *)
Definition recv (m : Main) : option (UnitEvent * Main) :=
  match chan_recv (mn_chan m) (mn_bus m) with
  | Some (msg, b) => Some (msg, m <| mn_bus := b |>)
  | None => None
  end.

(** ... and when it fails, which ends the loop: no message, and no sender. *)
Definition loop_ends (m : Main) : Prop :=
  mn_pending m = [] /\ queue_of (mn_bus m) (mn_chan m) = [] /\ mn_chan m ∉ bus_senders (mn_bus m).

(** The rescans the timer's thread requests in one step. *)
Definition newly_fired (t t' : Machine) : list UnitEvent :=
  (fun _ => Event.RescanRequest) <$>
    drop (length (wk_fired (mc_worker t))) (wk_fired (mc_worker t')).

(** One step, of the main thread or of another, with the message that is
    handled, if one is, and the events that are broadcast. *)
Inductive main_step `{Files} (m : Main) : option UnitEvent -> list UnitEvent -> Main -> Prop :=
  | main_handle msg m1 m' : mn_pending m = [] -> recv m = Some (msg, m1) ->
      handle_message msg m1 = Done m' -> main_step m (Some msg) [] m'
  | main_broadcast e es : mn_pending m = e :: es ->
      main_step m None [e] (put_on_bus e (m <| mn_pending := es |>))
  | main_control_message c cs : mn_control m = c :: cs ->
      main_step m None [Event.ManagerRequest c] (put_on_bus (Event.ManagerRequest c) (m <| mn_control := cs |>))
  | main_request c : main_step m None [] (m <| mn_control ::= fun cs => cs ++ [c] |>)
  | main_outside e : main_step m None [e] (put_on_bus e m)
  | main_timer t : worker_step (mn_timer m) t \/ wake_step (mn_timer m) t \/ clock_step (mn_timer m) t ->
      main_step m None (newly_fired (mn_timer m) t) (put_all (newly_fired (mn_timer m) t) (m <| mn_timer := t |>)).

(** A step, whatever the files hold. *)
Definition some_step (m m' : Main) : Prop := exists (files : Files) o evts, main_step m o evts m'.

(** ** Lemmas *)

Lemma quiesce_steps evt t : qs_pc (mc_caller t) = Idle -> rtc step t (quiesce_process_message evt t).
Proof.
  intros Hpc. unfold quiesce_process_message. destruct (restarts evt) eqn:He; [|done].
  eapply rtc_l; [by apply by_caller, (step_message _ evt)|].
  assert (qs_pc (mc_caller (on_message evt t)) = Scheduling) as Hs by (unfold on_message; by rewrite He).
  eapply rtc_l; [by apply by_caller, step_schedule|].
  eapply rtc_l; [by apply by_caller, step_notify|]. done.
Qed.

Lemma put_all_bus_wf evts m : bus_wf (mn_bus m) -> bus_wf (mn_bus (put_all evts m)).
Proof. revert m. induction evts as [|e evts IH]; intros m Hm; simpl; [done|]. by apply IH, broadcast_wf. Qed.

(** What the other threads leave alone. *)
Lemma put_all_same evts m : let m' := put_all evts m in
  mn_library m' = mn_library m /\ mn_timer m' = mn_timer m /\ mn_loops m' = mn_loops m /\ mn_chan m' = mn_chan m /\
  mn_debug m' = mn_debug m.
Proof. revert m. induction evts as [|e evts IH]; intros m; simpl; [done|]. exact (IH (put_on_bus e m)). Qed.

Lemma handle_message_Done `{Files} msg m m' : handle_message msg m = Done m' -> exists l',
  library_process_message depth program_lines msg (mn_library m) = Done (tt, l') /\
  mn_library m' = l' /\ mn_bus m' = mn_bus m /\ mn_chan m' = mn_chan m /\ mn_loops m' = S (mn_loops m) /\
  mn_timer m' = quiesce_process_message msg (mn_timer m).
Proof.
  unfold handle_message. destruct (write_debug msg m); [|done..]. simpl. destruct (library_process_message _ _ _ _) as [[[] l']| |] eqn:Hl; [|done|done].
  intros [= <-]. by exists l'.
Qed.

(** The requests of the loader are the first that a message leads to. *)
Lemma handle_message_pending `{Files} msg m m' : handle_message msg m = Done m' ->
  loader_process_message msg `prefix_of` mn_pending m'.
Proof.
  unfold handle_message. destruct (write_debug msg m); [|done..]. simpl.
  destruct (library_process_message _ _ _ _) as [[[] l']| |]; [|done..]. intros [= <-]. by eexists.
Qed.

Lemma put_all_bus evts m : mn_bus (put_all evts m) = broadcast_all evts (mn_bus m) /\
  mn_pending (put_all evts m) = mn_pending m.
Proof. revert m. induction evts as [|e evts IH]; intros m; [done|]. exact (IH (put_on_bus e m)). Qed.

Lemma recv_Some msg m m1 : recv m = Some (msg, m1) -> exists b,
  chan_recv (mn_chan m) (mn_bus m) = Some (msg, b) /\ m1 = m <| mn_bus := b |>.
Proof.
  unfold recv. destruct (chan_recv _ _) as [[e b]|]; [|done]. intros [= -> <-]. by exists b.
Qed.

(** ** Shutting down *)

(** The messages that are still to be read. *)
Definition inbox (m : Main) : list UnitEvent := queue_of (mn_bus m) (mn_chan m).

(** They will get every event that is broadcast. *)
Definition subscribed (m : Main) : Prop := listens (mn_bus m) (mn_chan m).

Definition unsubscribed (m : Main) : Prop := bus_wf (mn_bus m) /\ mn_chan m ∉ bus_senders (mn_bus m).

Lemma put_all_unsubscribed evts m : unsubscribed m ->
  let m' := put_all evts m in unsubscribed m' /\ inbox m' = inbox m.
Proof.
  revert m. induction evts as [|e evts IH]; intros m [Hwf Hno]; simpl; [done|].
  destruct (broadcast_unsubscribed e (mn_bus m) (mn_chan m) Hwf Hno) as [Hno' Hq].
  destruct (IH (put_on_bus e m)) as [Hu Hi]; [split; [by apply broadcast_wf|done]|].
  split; [done|]. rewrite Hi. exact Hq.
Qed.

Lemma unsubscribed_step m m' : some_step m m' -> unsubscribed m ->
  unsubscribed m' /\ mn_loops m' + length (inbox m') = mn_loops m + length (inbox m).
Proof.
  assert (forall e m, unsubscribed m -> unsubscribed (put_on_bus e m) /\ inbox (put_on_bus e m) = inbox m) as Hput
    by (intros e m0 Hm0; apply (put_all_unsubscribed [e] m0 Hm0)).
  intros (files & o & evts & Hstep). destruct Hstep as [msg m1 m' _ Hrecv Hhandle|e es _|c cs _|c|e|t _]; intros Hu.
  - apply recv_Some in Hrecv as (b & Hb & ->). destruct Hu as [Hwf Hno].
    apply handle_message_Done in Hhandle as (l' & _ & _ & Hbus & Hchan & Hloops & _).
    apply chan_recv_Some in Hb as (Hq & Hs & Hw). unfold unsubscribed, inbox.
    rewrite Hbus, Hchan, Hloops, Hq. simpl. rewrite Hs. split_and!; [by apply Hw|done|lia].
  - destruct (Hput e (m <| mn_pending := es |>)) as [? Hi]; [done|]. split; [done|]. rewrite Hi. done.
  - destruct (Hput (Event.ManagerRequest c) (m <| mn_control := cs |>)) as [? Hi]; [done|]. split; [done|]. by rewrite Hi.
  - done.
  - destruct (Hput e m) as [? Hi]; [done|]. split; [done|]. by rewrite Hi.
  - set (evts := newly_fired _ _). destruct (put_all_unsubscribed evts (m <| mn_timer := t |>)) as [? Hi]; [done|].
    destruct (put_all_same evts (m <| mn_timer := t |>)) as (_ & _ & Hl & _ & _). split; [done|]. rewrite Hi, Hl. done.
Qed.

(** (C21) A shutdown ends the program: once it is broadcast, by whatever thread,
    the main loop handles the messages it had not read yet, the shutdown last,
    and no other, whatever is broadcast meanwhile; when they are handled and
    what they led to is broadcast, the loop ends. *)
Theorem shutdown_ends_loop m m' : bus_wf (mn_bus m) ->
  rtc some_step (put_on_bus Event.Shutdown m) m' ->
  mn_loops m' + length (inbox m') = mn_loops m + length (inbox (put_on_bus Event.Shutdown m)) /\
  (inbox m' = [] -> mn_pending m' = [] -> loop_ends m') /\
  (mn_chan m ∈ bus_senders (mn_bus m) -> is_open (mn_bus m) (mn_chan m) = true ->
     inbox (put_on_bus Event.Shutdown m) = inbox m ++ [Event.Shutdown]).
Proof.
  intros Hwf Hrun. set (m0 := put_on_bus Event.Shutdown m).
  assert (unsubscribed m0) as Hu0.
  { split; [by apply broadcast_wf|]. unfold m0, put_on_bus. simpl. rewrite broadcast_shutdown_senders.
    apply not_elem_of_nil. }
  assert (unsubscribed m' /\ mn_loops m' + length (inbox m') = mn_loops m0 + length (inbox m0)) as [[_ Hno] Hcount].
  { pattern m'. refine (rtc_ind_r _ m0 _ _ m' Hrun); [done|].
    intros m1 m2 _ Hs [Hu1 Hc1]. destruct (unsubscribed_step _ _ Hs Hu1) as [Hu2 Hc2]. split; [done|lia]. }
  split_and!; [done| |].
  - intros Hq Hp. by split_and!.
  - intros Hin Hopen. unfold inbox, m0, put_on_bus. simpl. rewrite broadcast_queue by apply Hwf.
    by rewrite decide_True.
Qed.

(** ** The loop *)

(** Before the loop others subscribe, and the debug log is opened. *)
Inductive main_reachable : Main -> Prop :=
  | main_start io now b : bus_wf b -> main_reachable (main_new io now b)
  | main_debug m : main_reachable m -> main_reachable (m <| mn_debug := true |>)
  | main_subscribed m : main_reachable m -> main_reachable (m <| mn_bus ::= fun b => (subscribe b).2 |>)
  | main_next (files : Files) m o evts m' : main_reachable m -> main_step m o evts m' ->
      (forall msg, o = Some msg -> message_ok program_lines (mn_library m) msg) -> main_reachable m'.

(** The debug log, if there is one, takes every line. *)
Definition log_ok (m : Main) : Prop := mn_debug m = true -> forall n text, is_ok (log_write n text) = true.

Lemma write_debug_ok msg m : log_ok m -> write_debug msg m = Done tt.
Proof.
  intros Hok. unfold write_debug. destruct (mn_debug m) eqn:Hd; [|done]. specialize (Hok Hd (mn_loops m)).
  match goal with |- context [log_write ?n ?text] => specialize (Hok text); by destruct (log_write n text) end.
Qed.

Section safe.
Context `{!EnvLaws} `{!DependyLaws} (depth_enough : 4 <= depth).

Record main_inv (m : Main) : Prop := {
  mn_bus_wf : bus_wf (mn_bus m);
  mn_lib : lib_reachable depth program_lines (mn_library m);
  mn_timer_ok : exists now, machine_reachable now quiesce_delay (mn_timer m);
  mn_idle : qs_pc (mc_caller (mn_timer m)) = Idle;
}.

Lemma quiesce_idle evt t : qs_pc (mc_caller t) = Idle ->
  qs_pc (mc_caller (quiesce_process_message evt t)) = Idle.
Proof. intros Hpc. unfold quiesce_process_message. by destruct (restarts evt). Qed.

Lemma other_thread_inv evts t m : main_inv m -> rtc step (mn_timer m) t -> mc_caller t = mc_caller (mn_timer m) ->
  main_inv (put_all evts (m <| mn_timer := t |>)).
Proof.
  intros [Hb Hl [now Ht] Hi] Hrun Hcaller.
  destruct (put_all_same evts (m <| mn_timer := t |>)) as (Hlib & Htimer & _ & _).
  split; rewrite ?Hlib, ?Htimer; try done.
  - by apply put_all_bus_wf.
  - exists now. unfold machine_reachable in *. by transitivity (mn_timer m).
  - simpl. by rewrite Hcaller.
Qed.

Lemma main_step_inv `{Files} m o bs m' : main_inv m -> main_step m o bs m' ->
  (forall msg, o = Some msg -> message_ok program_lines (mn_library m) msg) -> main_inv m'.
Proof.
  intros Hinv Hstep Hok. pose proof Hinv as [Hb Hl [now Ht] Hi].
  assert (forall evts m0, mn_bus m0 = mn_bus m -> mn_library m0 = mn_library m -> mn_timer m0 = mn_timer m ->
    main_inv (put_all evts m0)) as Hput.
  { intros evts m0 Hb0 Hl0 Ht0. destruct (put_all_same evts m0) as (Hlib & Htimer & _ & _).
    split; rewrite ?Hlib, ?Htimer, ?Hl0, ?Ht0; try done; [by apply put_all_bus_wf; rewrite Hb0|by exists now]. }
  destruct Hstep as [msg m1 m' Hp Hrecv Hhandle|e es _|c cs _|c|e|t Hs].
  - specialize (Hok msg eq_refl). apply recv_Some in Hrecv as (b & Hb1 & ->).
    apply handle_message_Done in Hhandle as (l' & Hrun & Hl' & Hbus & _ & _ & Htimer).
    apply chan_recv_Some in Hb1 as (_ & _ & Hw). split.
    + rewrite Hbus. by apply Hw.
    + rewrite Hl'. by eapply lib_message.
    + exists now. rewrite Htimer. unfold machine_reachable in *. etransitivity; [exact Ht|].
      by apply quiesce_steps.
    + rewrite Htimer. by apply quiesce_idle.
  - by apply (Hput [e]).
  - by apply (Hput [Event.ManagerRequest c]).
  - set (m0 := m <| mn_control ::= _ |>). exact (Hput [] m0 eq_refl eq_refl eq_refl).
  - by apply (Hput [e]).
  - apply other_thread_inv; [done| |].
    + apply rtc_once. destruct Hs as [Hs|[Hs|Hs]]; [by apply by_worker|by apply by_wake|by apply by_clock].
    + destruct Hs as [Hs|[Hs|Hs]]; by destruct Hs.
Qed.

Lemma main_reachable_inv m : main_reachable m -> main_inv m.
Proof.
  induction 1 as [io now b Hb|m _ [Hb Hl Ht Hi]|m _ [Hb Hl Ht Hi]|files m o evts m' _ IH Hs Hok];
    [|by split|split; try done; by apply subscribe_wf|by eapply main_step_inv].
  unfold main_new. destruct (subscribe b) as [c b'] eqn:Hsub. split; simpl.
  - replace b' with (subscribe b).2 by by rewrite Hsub. by apply subscribe_wf.
  - apply lib_new.
  - exists now. apply rtc_refl.
  - done.
Qed.

(** The next message is handled to the end. *)
Lemma handle_message_run `{Files} m msg m1 : main_reachable m -> mn_pending m = [] -> recv m = Some (msg, m1) ->
  message_ok program_lines (mn_library m) msg -> log_ok m ->
  exists m', handle_message msg m1 = Done m' /\ main_reachable m' /\
    library_process_message depth program_lines msg (mn_library m) = Done (tt, mn_library m') /\
    mn_timer m' = quiesce_process_message msg (mn_timer m).
Proof.
  intros Hr Hp Hrecv Hok Hlog. destruct (main_reachable_inv m Hr) as [Hb Hl _ Hi].
  destruct (library_message_run depth program_lines depth_enough _ msg (lib_reachable_inv _ _ depth_enough _ Hl) Hok)
    as (l' & Hrun & _).
  pose proof Hrecv as (b & Hb1 & ->)%recv_Some.
  assert (exists m', handle_message msg (m <| mn_bus := b |>) = Done m' /\ mn_library m' = l' /\
    mn_timer m' = quiesce_process_message msg (mn_timer m)) as (m' & Hhandle & <- & Ht).
  { unfold handle_message. rewrite (write_debug_ok msg) by exact Hlog. simpl. rewrite Hrun. simpl. by eexists. }
  exists m'. split_and!; try done. apply (main_next _ m (Some msg) []); [done| |by intros ? [= <-]].
  by eapply main_handle.
Qed.

(** (C12) The main loop does not stop on a message: in every state of a run with
    nothing left to broadcast, when the next message meets its condition
    ([message_ok]: the file that is to be read is the named unit's, an interface
    speaks text, a jig's program ends and its default scenario is one, a scenario
    has a test to run and no time limit; the sender of a request that is answered
    is loaded; a scenario is inactive when its end comes; there is room for the
    units of a rescan) and the debug log, if there is one, takes every line, then
    the loader, the library and the timer process it to the end.  The library gets
    every message, and the timer is restarted by those that are not about a
    rescan. *)
Theorem main_never_panics `{Files} m msg m1 : main_reachable m -> mn_pending m = [] -> recv m = Some (msg, m1) ->
  message_ok program_lines (mn_library m) msg -> log_ok m ->
  exists m' l', handle_message msg m1 = Done m' /\ main_reachable m' /\
    library_process_message depth program_lines msg (mn_library m) = Done (tt, l') /\ mn_library m' = l' /\
    loader_process_message msg `prefix_of` mn_pending m' /\
    (restarts msg = false -> mn_timer m' = mn_timer m) /\
    (restarts msg = true -> qs_timer_id (mc_caller (mn_timer m')) = Some (qs_counter (mc_caller (mn_timer m'))) /\
       length (mc_sent (mn_timer m')) = S (length (mc_sent (mn_timer m)))).
Proof.
  intros Hr Hp Hrecv Hok Hlog. destruct (handle_message_run m msg m1 Hr Hp Hrecv Hok Hlog) as (m' & Hhandle & Hr' & Hrun & Ht).
  exists m', (mn_library m'). split_and!; try done; [by eapply handle_message_pending|intros Hre; rewrite Ht..].
  - unfold quiesce_process_message. by rewrite Hre.
  - unfold quiesce_process_message, on_message. rewrite Hre. split; [done|].
    simpl. rewrite length_app. simpl. lia.
Qed.

(** Nothing follows from the announcements of a rescan. *)
Lemma announcement_run `{Files} e m : log_ok m -> e = Event.RescanStart \/ e = Event.RescanFinish -> exists m',
  handle_message e m = Done m' /\ mn_library m' = mn_library m /\ mn_timer m' = mn_timer m /\
  mn_pending m' = [] /\ mn_control m' = mn_control m.
Proof.
  intros Hlog He.
  assert (library_process_message depth program_lines e (mn_library m) = Done (tt, mn_library m)) as Hrun.
  { destruct He as [-> | ->]; unfold library_process_message; by destruct (mn_library m) as [????????????? []]. }
  unfold handle_message. rewrite write_debug_ok by done. simpl. rewrite Hrun. simpl.
  assert (new_outputs (mn_library m) (mn_library m) = []) as -> by apply drop_all.
  eexists. split; [reflexivity|]. simpl. split_and!; [done|by destruct He as [-> | ->]|by destruct He as [-> | ->]|apply app_nil_r].
Qed.

(** (C26) Rescans come to rest: when nothing is marked and a jig and a scenario
    are chosen, a requested rescan changes no unit and broadcasts only that it
    starts and ends, and these two events do not restart the timer.  So no
    rescan leads to another one by itself. *)
Theorem rescans_come_to_rest `{Files} m : idle (mn_library m) -> log_ok m -> exists m',
  handle_message Event.RescanRequest m = Done m' /\
  mn_pending m' = [Event.RescanStart; Event.RescanFinish] /\ mn_control m' = mn_control m /\
  mn_timer m' = mn_timer m /\ lb_status (mn_library m') = lb_status (mn_library m) /\
  same_units (lb_manager (mn_library m)) (lb_manager (mn_library m')) /\
  m_selected (lb_manager (mn_library m')) = m_selected (lb_manager (mn_library m)) /\
  m_active (lb_manager (mn_library m')) = m_active (lb_manager (mn_library m)) /\
  forall e m1, e ∈ mn_pending m' -> log_ok m1 -> exists m2, handle_message e m1 = Done m2 /\
    mn_library m2 = mn_library m1 /\ mn_timer m2 = mn_timer m1 /\ mn_pending m2 = [].
Proof.
  intros Hidle Hlog. set (l := mn_library m) in *. set (os := [Broadcast Event.RescanStart; Broadcast Event.RescanFinish]).
  destruct (idle_rescan_run depth program_lines l Hidle) as (l' & Hrun & Hq). fold os in Hq.
  assert (library_process_message depth program_lines Event.RescanRequest l = Done (tt, l')) as Hmsg.
  { unfold library_process_message. rewrite (bind_step _ _ _ _ _ Hrun). by destruct l' as [????????????? []]. }
  destruct Hq as [n Hq].
  assert (new_outputs l l' = os) as Hout
    by (unfold new_outputs, outputs; rewrite Hq; simpl; apply drop_app_length).
  eexists. unfold handle_message. rewrite write_debug_ok by done. simpl. fold l. rewrite Hmsg. simpl. rewrite Hout. split; [reflexivity|]. simpl.
  split_and!; try done.
  - apply app_nil_r.
  - by rewrite Hq.
  - rewrite Hq. apply talked_steady, talked_io.
  - by rewrite Hq.
  - by rewrite Hq.
  - intros e m1 He Hlog1. destruct (announcement_run e m1 Hlog1) as (m2 & Hrun2 & Hl2 & Ht2 & Hp2 & _).
    { apply elem_of_cons in He as [->|He]; [by left|]. apply list_elem_of_singleton in He. by right. }
    by exists m2.
Qed.
End safe.
End main.

Module SampleMain.
Import LibraryTheorems.SampleLibrary.

#[export] Instance sample_log : DebugLog := {|
  log_time _ := None; event_debug _ := ""; log_write _ _ := Ok tt;
|}.

Definition m0 : Main := main_new (mkIO config_new 0 []) 0 bus_new.
(** The watcher announces a test, by way of the loader. *)
Definition m1 : Main := put_on_bus (found a "/units/a.test") m0.

Lemma m1_reachable : main_reachable 4 0 m1.
Proof.
  apply (main_next 4 0 _ m0 None [found a "/units/a.test"]).
  - apply main_start, bus_new_wf.
  - apply main_outside.
  - done.
Qed.

Lemma main_never_panics_witness : exists m2 m', recv m1 = Some (found a "/units/a.test", m2) /\
  handle_message 4 0 (found a "/units/a.test") m2 = Done m' /\ length (mc_sent (mn_timer m')) = 1.
Proof.
  assert (exists m2, recv m1 = Some (found a "/units/a.test", m2)) as [m2 Hrecv]
    by (eexists; vm_compute; reflexivity).
  destruct (main_never_panics 4 0 ltac:(lia) m1 (found a "/units/a.test") m2) as (m' & l' & Hrun & _ & _ & _ & _ & _ & Ht).
  - exact m1_reachable.
  - reflexivity.
  - exact Hrecv.
  - split; [vm_compute; reflexivity|exact readable_a].
  - intros _ n text. reflexivity.
  - exists m2, m'. split; [exact Hrecv|]. split; [exact Hrun|]. apply Ht. reflexivity.
Defined.

Lemma shutdown_ends_loop_witness :
  inbox (put_on_bus Event.Shutdown m1) = [found a "/units/a.test"; Event.Shutdown].
Proof.
  destruct (shutdown_ends_loop 4 0 m1 (put_on_bus Event.Shutdown m1)) as (_ & _ & Hlast).
  - apply broadcast_wf, subscribe_wf, bus_new_wf.
  - apply rtc_refl.
  - assert (inbox m1 = [found a "/units/a.test"]) as Hin by (vm_compute; reflexivity).
    rewrite Hin in Hlast. apply Hlast; [apply list_elem_of_here|vm_compute; reflexivity].
Defined.

(** The library of a finished rescan, with the jig and the scenario chosen. *)
Definition rested : Library := after Event.RescanRequest (after (found bench "/units/bench.jig") l2).

Lemma rested_reachable : lib_reachable 4 0 rested.
Proof.
  apply after_reachable; [apply after_reachable; [apply l2_reachable|]|].
  - split; [by vm_compute|apply readable_bench].
  - apply small_by_size. by vm_compute.
Qed.

Lemma rested_idle : idle rested.
Proof.
  pose proof rested_reachable as Hr.
  split.
  - intros []; (refine (bool_decide_eq_true_1 (_ = ∅) _); by vm_compute).
  - apply (li_manager 0 _ (lib_reachable_inv 4 0 ltac:(lia) _ Hr)).
  - split; right; [refine (bool_decide_eq_true_1 (is_Some _) _)|refine (bool_decide_eq_true_1 (is_Some _) _)]; by vm_compute.
Qed.

Lemma rescans_come_to_rest_witness : exists m',
  handle_message 4 0 Event.RescanRequest (m0 <| mn_library := rested |>) = Done m' /\
  mn_pending m' = [Event.RescanStart; Event.RescanFinish].
Proof.
  destruct (rescans_come_to_rest 4 0 (m0 <| mn_library := rested |>)) as (m' & Hrun & Hp & _).
  - exact rested_idle.
  - intros _ n text. reflexivity.
  - exists m'. split; [exact Hrun|exact Hp].
Defined.

End SampleMain.
