(* ===== verification/Live.v ===== *)
(** * The main loop and the threads of tests

    The main loop, its library and bus, and the threads of the commands that the
    manager started, run together.  This is an implementation of the closed loop
    of System: the messages of the control channel, the bus and the inbox are
    those on their way to the manager.  So what System shows of a scenario holds
    of the program, as long as rescans find nothing to do meanwhile. *)

From S2P Require Import Prelude Str Path Unit Foreign Config Events Broadcaster Env Samples Descriptions.
From S2P Require Import Interface Trigger Logger Jig Test Scenario ScenarioProps ScenarioTheorems Manager ManagerProps ManagerSafety ManagerFrames ManagerTheorems.
From S2P Require Import Session System SystemStart Earned Library LibraryProps LibraryIdle LibraryTheorems Quiesce Loader Main.

Section live.
Context `{Libraries} `{DependyLib} `{Env} `{DebugLog}.
Context (depth program_lines : nat).
Implicit Types (m : Main) (l : Library).

(** ** The machine *)

Record Live := mkLive { lv_main : Main; lv_threads : list (UnitName * Thread) }.

(** The messages of a scenario's run: no other scenario is chosen, and what the
    library is asked to rescan is nothing. *)
Definition handles l (msg : UnitEvent) : Prop :=
  event_ok (lb_manager l) msg /\ session_event (lb_manager l) msg = true /\ (msg = Event.RescanRequest -> idle l).

(** The steps of the main loop, of the threads of tests and support commands, of
    the other units, and of the rest of the program. *)
Inductive live_step `{Files} : Live -> list (UnitName * Behaviour) -> Live -> Prop :=
  | live_handle m ths msg m1 m' ths' bs :
      mn_pending m = [] -> recv m = Some (msg, m1) -> handle_message depth program_lines msg m1 = Done m' ->
      handles (mn_library m) msg ->
      spawns (lb_manager (mn_library m')) (new_outputs (mn_library m) (mn_library m')) ths' bs ->
      live_step (mkLive m ths) bs (mkLive m' (ths ++ ths'))
  | live_broadcast m ths e es : mn_pending m = e :: es ->
      live_step (mkLive m ths) [] (mkLive (put_on_bus e (m <| mn_pending := es |>)) ths)
  | live_forward m ths c cs : mn_control m = c :: cs ->
      live_step (mkLive m ths) [] (mkLive (put_on_bus (Event.ManagerRequest c) (m <| mn_control := cs |>)) ths)
  | live_thread m ths i id a rest cs :
      ths !! i = Some (id, a :: rest) -> action_sends id a (Event.ManagerRequest <$> cs) ->
      live_step (mkLive m ths) []
        (mkLive (m <| mn_control ::= fun sent => sent ++ cs |>) (<[i := (id, rest)]> ths ++ (pair id <$> action_forks a)))
  | live_unit m ths c : foreign (Event.ManagerRequest c) = true ->
      live_step (mkLive m ths) [] (mkLive (m <| mn_control ::= fun sent => sent ++ [c] |>) ths)
  | live_outside m ths e : foreign e = true -> live_step (mkLive m ths) [] (mkLive (put_on_bus e m) ths)
  | live_timer m ths t :
      worker_step (mn_timer m) t \/ wake_step (mn_timer m) t \/ clock_step (mn_timer m) t ->
      live_step (mkLive m ths) [] (mkLive (put_all (newly_fired (mn_timer m) t) (m <| mn_timer := t |>)) ths).

(** A run; the files may hold something else at each step. *)
Inductive live_run : Live -> list (UnitName * Behaviour) -> Live -> Prop :=
  | live_nil L : live_run L [] L
  | live_snoc (files : Files) L bs L1 bs1 L2 : live_run L bs L1 -> live_step L1 bs1 L2 -> live_run L (bs ++ bs1) L2.

(** These are steps of the main loop. *)
Lemma live_step_main `{Files} L bs L' : live_step L bs L' -> rtc (some_step depth program_lines) (lv_main L) (lv_main L').
Proof.
  assert (forall m m' o evts, main_step depth program_lines m o evts m' -> rtc (some_step depth program_lines) m m') as Hone
    by (intros m m' o evts Hs; apply rtc_once; by eexists _, o, evts).
  assert (forall m cs, rtc (some_step depth program_lines) m (m <| mn_control ::= fun sent => sent ++ cs |>)) as Hsend.
  { intros m cs. revert m. induction cs as [|c cs IH]; intros m.
    - destruct m as [????? cs ??]. unfold set_with. simpl. rewrite app_nil_r. done.
    - eapply rtc_l; [eexists _, _, _; apply (main_request depth program_lines m c)|].
      specialize (IH (m <| mn_control ::= fun sent => sent ++ [c] |>)). simpl in IH. rewrite <- app_assoc in IH. exact IH. }
  destruct 1; simpl; try apply Hsend.
  - eapply Hone. by eapply main_handle.
  - eapply Hone. by apply main_broadcast.
  - eapply Hone. by apply main_control_message.
  - eapply Hone. apply main_outside.
  - eapply Hone. by apply main_timer.
Qed.

(** ** What the library puts in *)

(** What the library does with a message before the manager gets it. *)
Definition library_part `{Files} (evt : UnitEvent) : M Library unit :=
  match evt with
  | Event.Status msg =>
    let name := se_name msg in
    let status := se_status msg in
    match status with
    | UnitStatus.LoadStarted path =>
      process_interface name status path;;
      process_logger name status path;;
      process_jig name status path;;
      process_scenario name status path;;
      process_test name status path;;
      process_trigger name status path
    | UnitStatus.UpdateStarted path =>
      process_interface name status path;;
      process_jig name status path;;
      process_logger name status path;;
      process_scenario name status path;;
      process_trigger name status path
    | UnitStatus.UnloadStarted path =>
      modify (fun l => l <| lb_status ::= <[name := UnitStatus.UnloadStarted path]> |>);;
      mark_dirty name
    | _ => mret tt
    end
  | Event.RescanRequest => rescan depth program_lines
  | _ => mret tt
  end.

Lemma library_process_split `{Files} evt :
  library_process_message depth program_lines evt = (library_part evt;; on_manager (process_message depth evt)).
Proof. done. Qed.

(** It announces something through the manager's world, and leaves the manager
    alone. *)
Definition murmurs l l' : Prop := exists i os, lb_manager l' = lb_manager l <| m_io := i |> /\
  io_out i = io_out (m_io (lb_manager l)) ++ os /\ Forall (fun o => announcement o = true) os.

Lemma murmurs_same l l' : lb_manager l' = lb_manager l -> murmurs l l'.
Proof. intros Hl. exists (m_io (lb_manager l)), []. rewrite Hl, app_nil_r. split_and!; [by destruct (lb_manager l)|done|done]. Qed.

#[export] Instance murmurs_preorder : PreOrder murmurs.
Proof.
  split; [intros l; by apply murmurs_same|].
  intros l1 l2 l3 (i1 & os1 & Hm1 & Ho1 & Ha1) (i2 & os2 & Hm2 & Ho2 & Ha2). exists i2, (os1 ++ os2).
  rewrite Hm2, Hm1. split_and!; [done|rewrite Ho2, Hm1; simpl; by rewrite Ho1, app_assoc|by apply Forall_app].
Qed.

Lemma frames_library_broadcast e : announcement (Broadcast e) = true -> frames murmurs (library_broadcast e).
Proof.
  intros Ha l a l' [= _ <-]. eexists _, [Broadcast e]. split_and!; [done|done|by repeat constructor].
Qed.

Lemma frames_library_modify (f : Library -> Library) : (forall l, lb_manager (f l) = lb_manager l) -> frames murmurs (modify f).
Proof. intros Hf. apply frames_modify. intros l. by apply murmurs_same. Qed.

Lemma frames_mark_dirty name : frames murmurs (mark_dirty name).
Proof. unfold mark_dirty. destruct (un_kind name); by first [apply frames_library_modify|apply frames_ret; exact _]. Qed.

Lemma frames_process_if {D} name status k path (read : string -> result UnitDescriptionError D) descs put :
  (forall d l, lb_manager (put d l) = lb_manager l) -> frames murmurs (process_if name status k path read descs put).
Proof.
  intros Hput. unfold process_if. walk ltac:(first
    [ apply frames_mark_dirty | by apply frames_library_broadcast | by apply frames_library_modify
    | apply frames_library_modify; intros l; apply Hput ]).
Qed.

Lemma frames_library_part `{Files} evt : evt <> Event.RescanRequest -> frames murmurs (library_part evt).
Proof.
  intros Hev. unfold library_part, process_interface, process_logger, process_jig, process_scenario, process_test, process_trigger.
  walk ltac:(first [ by apply frames_process_if | apply frames_mark_dirty | by apply frames_library_modify | congruence ]).
Qed.

(** ** The simulation *)

Context `{!EnvLaws} `{!DependyLaws} (depth_enough : 4 <= depth).

Definition requests_of (cs : list ManagerControlMessage) : list UnitEvent := Event.ManagerRequest <$> cs.

(** The messages on their way to the manager. *)
Definition in_flight m : list UnitEvent := requests_of (mn_control m) ++ mn_pending m ++ inbox m.

(** What a state of the program is in System.  A message that System still has
    may be lost, after a shutdown. *)
Record implements (L : Live) (S : System) : Prop := {
  im_manager : sy_manager S = lb_manager (mn_library (lv_main L));
  im_inv : mgr_inv (lb_manager (mn_library (lv_main L)));
  im_threads : sy_threads S = lv_threads L;
  im_flight : in_flight (lv_main L) ⊆+ sy_flight S;
  im_bus : bus_wf (mn_bus (lv_main L));
}.

Lemma sys_run_trans S n bs S1 n1 bs1 S2 : sys_run depth S n bs S1 -> sys_run depth S1 n1 bs1 S2 ->
  sys_run depth S (n + n1) (bs ++ bs1) S2.
Proof.
  intros Hrun. induction 1 as [S1|S1 n1 bs1 S2 m2 bs2 S3 _ IH Hs]; [by rewrite Nat.add_0_r, app_nil_r|].
  rewrite Nat.add_assoc, app_assoc. by eapply sys_snoc; [apply IH|].
Qed.

Lemma sys_run_one S n bs S' : sys_step depth S n bs S' -> sys_run depth S n bs S'.
Proof. intros Hs. exact (sys_snoc depth S 0 [] S n bs S' (sys_nil depth S) Hs). Qed.

Lemma sys_run_foreign w ths es : Forall (fun e => foreign e = true) es -> forall flight,
  sys_run depth (mkSystem w flight ths) 0 [] (mkSystem w (flight ++ es) ths).
Proof.
  induction 1 as [|e es He _ IH]; intros flight; [rewrite app_nil_r; constructor|].
  apply (sys_run_trans _ 0 [] (mkSystem w (flight ++ [e]) ths) 0 []); [by apply sys_run_one, sys_foreign|].
  specialize (IH (flight ++ [e])). by rewrite <- app_assoc in IH.
Qed.

(** Putting the parts of a message together. *)
Lemma submseteq_app_perm (cs os ld bc inb k e1 e2 : list UnitEvent) : e1 ++ e2 ≡ₚ os ++ bc ->
  (cs ++ os) ++ (ld ++ bc) ++ inb ⊆+ ((((cs ++ inb) ++ k) ++ e1) ++ e2) ++ ld.
Proof.
  intros Hp. transitivity ((cs ++ inb) ++ (e1 ++ e2) ++ ld ++ k).
  - rewrite Hp. assert ((cs ++ os) ++ (ld ++ bc) ++ inb ≡ₚ (cs ++ inb) ++ (os ++ bc) ++ ld) as -> by solve_Permutation.
    rewrite !app_assoc. apply submseteq_inserts_r. done.
  - apply Permutation_submseteq. solve_Permutation.
Qed.

Lemma delete_flight (flight evts : list UnitEvent) j msg rest k : (flight ++ evts) !! j = Some msg ->
  flight ≡ₚ msg :: rest ++ k -> delete j (flight ++ evts) ≡ₚ (rest ++ k) ++ evts.
Proof.
  intros Hj%delete_Permutation Hk. apply (Permutation_cons_inv (a:=msg)). rewrite <- Hj, Hk. done.
Qed.

(** A broadcast puts an event into the inbox, or not. *)
Lemma inbox_put e m : bus_wf (mn_bus m) -> inbox (put_on_bus e m) ⊆+ inbox m ++ [e] /\ bus_wf (mn_bus (put_on_bus e m)).
Proof.
  intros Hb. split; [|by apply broadcast_wf]. unfold inbox. simpl. rewrite broadcast_queue by apply Hb.
  case_decide; [done|]. by apply submseteq_inserts_r.
Qed.

Lemma inbox_put_all evts m : bus_wf (mn_bus m) -> let m' := put_all evts m in
  inbox m' ⊆+ inbox m ++ evts /\ bus_wf (mn_bus m') /\ mn_control m' = mn_control m.
Proof.
  revert m. induction evts as [|e evts IH]; intros m Hb; simpl; [by rewrite app_nil_r|].
  destruct (inbox_put e m Hb) as [Hi Hb1]. destruct (IH _ Hb1) as (Hi2 & Hb2 & Hc). split_and!; [|done|done].
  etransitivity; [exact Hi2|]. change (e :: evts) with ([e] ++ evts). rewrite app_assoc. by apply submseteq_app.
Qed.

(** Outputs as they come back to the manager. *)
Lemma events_of_outputs os : omap event_of os ≡ₚ requests_of (sent_msgs os) ++ broadcasts os.
Proof.
  unfold requests_of, sent_msgs, broadcasts. induction os as [|o os IH]; [done|].
  destruct o as [msg|e| | |]; simpl; try exact IH; [by apply perm_skip|].
  rewrite <- Permutation_middle. by apply perm_skip.
Qed.

(** The manager only adds to its outputs. *)
Lemma session_outputs w e w' : mgr_inv w -> session_event w e = true -> process_message depth e w = Done (tt, w') ->
  exists os, io_out (m_io w') = io_out (m_io w) ++ os.
Proof.
  intros Hinv Hev Hrun. destruct (advance_message e) eqn:Ha.
  - assert (exists id code, e = Event.ManagerRequest (mkCtrl id (Ctrl.AdvanceScenario code))) as (id & code & ->).
    { destruct e as [| | | | | |[? []]|]; try done. by eexists _, _. }
    destruct (m_current_scenario w) as [p|] eqn:Hp.
    + destruct (current_heap w p (mi_wf w Hinv) Hp) as [s Hs].
      destruct (message_ran depth w _ w' p s Hinv Hev Hp Hs Hrun) as [_ (_ & _ & os & _ & _ & Ho & _)]. by exists os.
    + assert (process_message depth (Event.ManagerRequest (mkCtrl id (Ctrl.AdvanceScenario code))) w = Done (tt, w)) as Hnothing
        by (apply with_scenario_read; [apply (mw_cs w (mi_wf w Hinv))|unfold gets, mbind, M_bind; simpl; by rewrite Hp]).
      rewrite Hrun in Hnothing. injection Hnothing as ->. exists []. by rewrite app_nil_r.
  - destruct (session_stutters depth w e w' Hinv Hev Ha Hrun) as [_ _ (os & Ho & _)]. by exists os.
Qed.

(** The library's part of a message that [handles] allows. *)
Lemma library_part_murmurs `{Files} msg l l' : handles l msg -> library_process_message depth program_lines msg l = Done (tt, l') ->
  exists l1, murmurs l l1 /\ process_message depth msg (lb_manager l1) = Done (tt, lb_manager l').
Proof.
  intros (_ & _ & Hidle) Hrun. rewrite library_process_split in Hrun. apply bind_Done in Hrun as ([] & l1 & Hpart & Hmgr).
  exists l1. split.
  - destruct (decide (msg = Event.RescanRequest)) as [->|Hne]; [|by eapply frames_library_part].
    destruct (idle_rescan_run depth program_lines l (Hidle eq_refl)) as (l2 & Hrun2 & [n Hq]). simpl in Hpart.
    rewrite Hpart in Hrun2. injection Hrun2 as ->. rewrite Hq. eexists _, _. split_and!; [done|done|by repeat constructor].
  - unfold on_manager, zoom in Hmgr. destruct (process_message depth msg (lb_manager l1)) as [[[] w]| |]; [|done..].
    by injection Hmgr as <-.
Qed.

Lemma handles_murmurs l l1 msg : handles l msg -> murmurs l l1 ->
  event_ok (lb_manager l1) msg /\ session_event (lb_manager l1) msg = true.
Proof. intros (Hok & Hev & _) (i & os & -> & _).
  split; [|by destruct msg as [| | | | | |[? []]|]]. destruct msg; try done. by destruct Hok.
Qed.

Lemma announcement_spawns w os1 os2 ths bs : Forall (fun o => announcement o = true) os1 ->
  spawns w (os1 ++ os2) ths bs -> spawns w os2 ths bs.
Proof.
  induction 1 as [|o os1 Ho _ IH]; [done|]. intros Hsp. apply IH. simpl in Hsp. by inversion Hsp; subst.
Qed.

Lemma loader_foreign msg : Forall (fun e => foreign e = true) (loader_process_message msg).
Proof.
  destruct msg as [[name st]| | | | | | |]; try constructor. unfold loader_process_message, handle_status. simpl.
  destruct st; by repeat constructor.
Qed.

(** A message is handled: the library announces, the manager gets the message,
    and the loader requests. *)
Lemma handle_implements `{Files} m ths msg m1 m' ths' bs S : implements (mkLive m ths) S ->
  mn_pending m = [] -> recv m = Some (msg, m1) -> handle_message depth program_lines msg m1 = Done m' ->
  handles (mn_library m) msg ->
  spawns (lb_manager (mn_library m')) (new_outputs (mn_library m) (mn_library m')) ths' bs ->
  exists S' n, sys_run depth S n bs S' /\ implements (mkLive m' (ths ++ ths')) S'.
Proof.
  destruct S as [w flight ths0]. intros [Hw Hinv Hths Hfl Hbus] Hp Hrecv Hhandle Hh Hsp. simpl in *. subst w ths0.
  apply recv_Some in Hrecv as (b & Hb & ->).
  pose proof Hhandle as Hdone. apply handle_message_Done in Hdone as (l' & Hrun & Hl' & Hbus' & Hchan & _). simpl in Hrun, Hbus', Hchan.
  unfold handle_message in Hhandle. destruct (write_debug msg _); [|done..]. simpl in Hhandle. rewrite Hrun in Hhandle.
  simpl in Hhandle. injection Hhandle as Hm'. rewrite Hl' in Hsp.
  destruct (library_part_murmurs msg _ _ Hh Hrun) as (l1 & Hmur & Hmsg).
  destruct (handles_murmurs _ _ _ Hh Hmur) as [Hok Hev]. destruct Hmur as (i & os1 & Hl1 & Ho1 & Ha1).
  set (w := lb_manager (mn_library m)) in *. rewrite Hl1 in Hmsg, Hok, Hev.
  assert (mgr_inv (w <| m_io := i |>)) as Hinv1 by (by apply (steady_preserves _ _ (talked_steady _ _ (talked_io w i)))).
  destruct (session_outputs _ _ _ Hinv1 Hev Hmsg) as [os2 Ho2]. simpl in Ho2.
  assert (new_outputs (mn_library m) l' = os1 ++ os2) as Hnew.
  { unfold new_outputs, outputs. fold w. rewrite Ho2, Ho1, <- app_assoc. apply drop_app_length. }
  rewrite Hnew in Hsp. apply announcement_spawns in Hsp; [|done].
  apply chan_recv_Some in Hb as (Hq & _ & Hwf).
  assert (inbox m = msg :: inbox m') as Hin by (unfold inbox; by rewrite Hbus', Hchan, Hq).
  assert (exists j, (flight ++ omap event_of os1) !! j = Some msg) as [j Hj].
  { apply list_elem_of_lookup, elem_of_app. left. eapply elem_of_submseteq; [|exact Hfl].
    unfold in_flight. rewrite Hin, !elem_of_app. right; right. by left. }
  eexists (mkSystem (lb_manager l') ((delete j (flight ++ omap event_of os1) ++ omap event_of os2) ++ loader_process_message msg) (ths ++ ths')), _.
  split.
  - apply (sys_run_trans _ 0 [] (mkSystem (w <| m_io := i |>) (flight ++ omap event_of os1) ths)).
    { by apply sys_run_one, sys_talk. }
    rewrite <- (app_nil_r bs). eapply sys_run_trans; [|apply sys_run_foreign, loader_foreign].
    by apply sys_run_one, sys_deliver.
  - split; simpl; [by rewrite Hl'|rewrite Hl'; by eapply manager_message_inv|done| |rewrite Hbus'; by apply Hwf].
    assert (mn_control m' = mn_control m ++ sent_msgs (os1 ++ os2) /\
      mn_pending m' = loader_process_message msg ++ broadcasts (os1 ++ os2)) as [Hc' Hp']
      by (rewrite <- Hm'; simpl; rewrite Hnew; done).
    unfold in_flight. rewrite Hc', Hp'.
    apply submseteq_Permutation in Hfl as [k Hk].
    rewrite (delete_flight _ _ j msg (requests_of (mn_control m) ++ inbox m') k Hj).
    + unfold requests_of. rewrite fmap_app. apply submseteq_app_perm.
      rewrite <- omap_app. apply events_of_outputs.
    + rewrite Hk. unfold in_flight. rewrite Hp, Hin. simpl. by rewrite <- !Permutation_middle.
Qed.

(** Events are put on the bus. *)
Lemma put_implements m ths m0 evts S : implements (mkLive m ths) S -> mn_library m0 = mn_library m ->
  mn_bus m0 = mn_bus m -> mn_chan m0 = mn_chan m ->
  requests_of (mn_control m0) ++ mn_pending m0 ++ inbox m ++ evts ⊆+ sy_flight S ->
  implements (mkLive (put_all evts m0) ths) S.
Proof.
  intros [Hw Hinv Hths _ Hbus] Hl Hb Hc Hfl. simpl in *.
  destruct (put_all_same evts m0) as (Hl' & _). destruct (put_all_bus evts m0) as [_ Hp].
  destruct (inbox_put_all evts m0) as (Hi & Hb' & Hc'); [by rewrite Hb|].
  assert (inbox m0 = inbox m) as Hin by (unfold inbox; by rewrite Hb, Hc).
  split; simpl; rewrite ?Hl', ?Hl; try done.
  unfold in_flight. rewrite Hc', Hp. etransitivity; [|exact Hfl]. rewrite <- Hin.
  apply submseteq_app; [done|]. by apply submseteq_app.
Qed.

(** System may have more messages on their way. *)
Lemma more_implements L S flight : implements L S -> sy_flight S ⊆+ flight ->
  implements L (mkSystem (sy_manager S) flight (sy_threads S)).
Proof. intros [Hw Hinv Hths Hfl Hbus] Hmore. split; try done. simpl. by transitivity (sy_flight S). Qed.

Lemma newly_fired_foreign t t' : Forall (fun e => foreign e = true) (newly_fired t t').
Proof. apply Forall_fmap, Forall_forall. by intros. Qed.

Lemma live_step_implements `{Files} L bs L' S : implements L S -> live_step L bs L' ->
  exists S' n, sys_run depth S n bs S' /\ implements L' S'.
Proof.
  intros Himp Hstep. destruct Hstep as [m ths msg m1 m' ths' bs Hp Hr Hh Hok Hsp|m ths e es Hp|m ths c cs Hc
    |m ths i id a rest cs Hi Ha|m ths c Hf|m ths e Hf|m ths t Ht]; [by eapply handle_implements|..].
  - exists S, 0. split; [constructor|]. apply (put_implements m ths (m <| mn_pending := es |>) [e]); try done.
    etransitivity; [|apply (im_flight _ _ Himp)]. apply Permutation_submseteq. unfold in_flight. simpl. rewrite Hp. solve_Permutation.
  - exists S, 0. split; [constructor|].
    apply (put_implements m ths (m <| mn_control := cs |>) [Event.ManagerRequest c]); try done.
    etransitivity; [|apply (im_flight _ _ Himp)]. apply Permutation_submseteq. unfold in_flight. simpl. rewrite Hc.
    unfold requests_of. simpl. solve_Permutation.
  - destruct S as [w flight ths0]. destruct Himp as [Hw Hinv Hths Hfl Hbus]. simpl in *. subst ths0.
    eexists _, 0. split; [by eapply sys_run_one, sys_thread|]. split; simpl; try done.
    unfold in_flight in *. simpl. unfold requests_of in *. rewrite fmap_app.
    transitivity ((requests_of (mn_control m) ++ mn_pending m ++ inbox m) ++ requests_of cs); [|by apply submseteq_app].
    apply Permutation_submseteq. change (inbox (m <| mn_control ::= fun sent => sent ++ cs |>)) with (inbox m).
    unfold requests_of. solve_Permutation.
  - destruct S as [w flight ths0]. destruct Himp as [Hw Hinv Hths Hfl Hbus]. cbn [lv_main lv_threads sy_manager sy_flight sy_threads] in *.
    subst ths0. eexists _, 0. split; [by apply sys_run_one, sys_foreign, Hf|]. split; simpl; try done.
    unfold in_flight in *. simpl. unfold requests_of in *. rewrite fmap_app.
    transitivity ((requests_of (mn_control m) ++ mn_pending m ++ inbox m) ++ [Event.ManagerRequest c]); [|by apply submseteq_app].
    apply Permutation_submseteq. change (inbox (m <| mn_control ::= fun sent => sent ++ [c] |>)) with (inbox m).
    unfold requests_of. simpl. solve_Permutation.
  - destruct S as [w flight ths0]. pose proof (im_flight _ _ Himp) as Hfl. simpl in Hfl.
    eexists _, 0. split; [by eapply sys_run_one, sys_foreign|].
    apply (put_implements m ths m [e]); try done; [by apply (more_implements _ _ _ Himp), submseteq_inserts_r|].
    simpl. unfold in_flight in Hfl. rewrite !app_assoc in *. by apply submseteq_app.
  - destruct S as [w flight ths0]. pose proof (im_flight _ _ Himp) as Hfl. simpl in Hfl.
    eexists _, 0. split; [apply sys_run_foreign, (newly_fired_foreign (mn_timer m) t)|].
    apply (put_implements m ths (m <| mn_timer := t |>)); try done; [by apply (more_implements _ _ _ Himp), submseteq_inserts_r|].
    simpl. unfold in_flight in Hfl. rewrite !app_assoc in *. by apply submseteq_app.
Qed.

Lemma live_run_implements L bs L' S : implements L S -> live_run L bs L' ->
  exists S' n, sys_run depth S n bs S' /\ implements L' S'.
Proof.
  intros Himp Hrun. induction Hrun as [L|files L bs L1 bs1 L2 _ IH Hs]; [exists S, 0; split; [constructor|done]|].
  destruct (IH Himp) as (S1 & n1 & Hrun1 & Himp1).
  destruct (live_step_implements _ _ _ _ Himp1 Hs) as (S2 & n2 & Hrun2 & Himp2).
  exists S2, (n1 + n2). split; [by eapply sys_run_trans|done].
Qed.

(** ** What holds of the program *)

(** The state of the program as one of System. *)
Definition system_of (L : Live) : System :=
  mkSystem (lb_manager (mn_library (lv_main L))) (in_flight (lv_main L)) (lv_threads L).

Lemma implements_self L : mgr_inv (lb_manager (mn_library (lv_main L))) -> bus_wf (mn_bus (lv_main L)) ->
  implements L (system_of L).
Proof. intros Hm Hb. by split. Qed.

(** From the start of a scenario on. *)
Lemma run_result_earned p s L bs L' os : bus_wf (mn_bus (lv_main L)) ->
  begins p s (system_of L) -> live_run L bs L' ->
  outputs (mn_library (lv_main L')) = outputs (mn_library (lv_main L)) ++ os ->
  exists S' n s', sys_run depth (system_of L) n bs S' /\ implements L' S' /\
    m_heap (lb_manager (mn_library (lv_main L'))) !! p = Some s' /\
    under_way S' = awaited s' /\
    finishes os = match sc_state s' with ScenarioState.ScenarioFinished => [finish_code s'] | _ => [] end /\
    (sd_timeout (sc_description s) = None -> sd_stop_after_failure_count (sc_description s) <> Some 0%Z ->
       200%Z ∈ finishes os ->
       forall id, id ∈ test_sequence s -> deserved (lb_manager (mn_library (lv_main L))) os bs id true) /\
    forall code, code ∈ finishes os -> code <> 200%Z ->
      is_fail (sc_exec_start_state s') = true \/
      exists id, id ∈ test_sequence s /\ deserved (lb_manager (mn_library (lv_main L))) os bs id false.
Proof.
  intros Hb Hbeg Hrun Hout. pose proof (begins_inv p s _ Hbeg) as Hinv.
  destruct (live_run_implements L bs L' (system_of L)) as (S' & n & Hsys & Himp);
    [apply implements_self; [apply (iv_mgr _ _ _ _ Hinv)|done]|done|].
  destruct (sys_run_inv depth depth_enough p s _ n bs S' Hinv Hsys) as (s1 & _ & Hinv1).
  destruct (result_earned depth depth_enough p s _ n bs S' os Hbeg Hsys) as (s' & Hs' & Hfin & Hok & Hbad);
    [by rewrite (im_manager _ _ Himp)|].
  exists S', n, s'. split_and!; try done; [by rewrite <- (im_manager _ _ Himp)|].
  rewrite (iv_under_way _ _ _ _ Hinv1). pose proof (iv_heap _ _ _ _ Hinv1) as Hs1. congruence.
Qed.

(** A request goes through the library to the manager. *)
Lemma request_processed `{Files} c l w' : process_message depth (Event.ManagerRequest c) (lb_manager l) = Done (tt, w') ->
  exists l', library_process_message depth program_lines (Event.ManagerRequest c) l = Done (tt, l') /\ lb_manager l' = w'.
Proof.
  intros Hrun. exists (l <| lb_manager := w' |>). split; [|done]. rewrite library_process_split.
  change (on_manager (process_message depth (Event.ManagerRequest c)) l = Done (tt, l <| lb_manager := w' |>)).
  unfold on_manager, zoom. by rewrite Hrun.
Qed.

(** The main loop handles the request to start a scenario. *)
Lemma start_handled `{Files} p s name sender m ths m1 m' : main_inv depth program_lines m ->
  mn_pending m = [] -> flight_tokens (in_flight m) = 0 -> calm_threads ths ->
  let e := Event.ManagerRequest (mkCtrl sender (Ctrl.StartScenario name)) in
  let w := lb_manager (mn_library m) in
  recv m = Some (e, m1) -> event_ok w e -> startable p s name w -> handle_message depth program_lines e m1 = Done m' ->
  exists s', agree s s' /\ begins p s' (system_of (mkLive m' ths)) /\ bus_wf (mn_bus m').
Proof.
  intros [Hbus Hlib _ _] Hp Hfl Hths e w Hrecv Hok Hsb Hhandle.
  pose proof (li_manager _ _ (lib_reachable_inv depth program_lines depth_enough _ Hlib)) as Hinv.
  apply recv_Some in Hrecv as (b & Hb & ->). apply chan_recv_Some in Hb as (Hq & _ & Hwf).
  unfold handle_message in Hhandle. destruct (write_debug e _); [|done..]. cbn [mbind outcome_bind] in Hhandle.
  assert (in_flight m = requests_of (mn_control m) ++ e :: queue_of b (mn_chan m)) as Hin
    by (unfold in_flight, inbox; by rewrite Hp, Hq).
  rewrite Hin, flight_tokens_app, flight_tokens_cons in Hfl.
  destruct (start_request_begins depth depth_enough w p s name sender
    (requests_of (mn_control m) ++ queue_of b (mn_chan m)) ths Hinv Hok Hsb) as (w' & s' & os & Hrun & Hos & Hag & _ & Hbeg);
    [rewrite flight_tokens_app; lia|done|]. exists s'. split; [done|].
  apply request_processed in Hrun as (l' & Hrun & Hl'). fold e in Hrun.
  change (mn_library (m <| mn_bus := b |>)) with (mn_library m) in Hhandle. rewrite Hrun in Hhandle. injection Hhandle as <-.
  split; [|by apply Hwf].
  assert (new_outputs (mn_library m) l' = os) as Hnew
    by (unfold new_outputs, outputs; rewrite Hl', Hos; apply drop_app_length).
  unfold system_of. simpl. rewrite Hl'. eapply begins_perm; [|exact Hbeg]. unfold in_flight, inbox, requests_of. simpl.
  rewrite Hnew, fmap_app, events_of_outputs. unfold requests_of. solve_Permutation.
Qed.

(** (C2) The result that the program announces is earned.  The main loop handles
    the operator's request to start the current scenario, at a moment when that
    scenario can be started - it is neither running nor active, and its tests are
    loaded, fit the loaded jigs and are inactive - and no other message and no
    thread concerns a scenario.  From there the main loop, its library and
    manager, the bus and the control channel, the timer, the threads of tests and
    support commands, and other threads run together, in any order, as long as
    the rescans find nothing to do and nobody chooses a scenario or a jig or asks
    for a scenario that is not running to start.  At every moment this is a state
    of System, where exactly one thing is under way that will advance the scenario
    until it has finished, and none after that.  The end is announced once, then.
    If it is announced as success, and the scenario has no time limit and does not
    stop at zero failures, then the command of every test was started in this run
    and did what it had to: a simple test ended with 0, and a daemon printed the
    line that says it is ready.  With a time limit, or a stop at zero failures,
    success says nothing of the tests.  If another code is announced, then the
    start command of the scenario failed, or the command of one of its tests was
    started and did not do what it had to, or could not be started. *)
Theorem program_result_earned `{Files} p s name sender m ths m1 m' bs L' os : main_inv depth program_lines m ->
  mn_pending m = [] -> flight_tokens (in_flight m) = 0 -> calm_threads ths ->
  let e := Event.ManagerRequest (mkCtrl sender (Ctrl.StartScenario name)) in
  let w := lb_manager (mn_library m) in
  recv m = Some (e, m1) -> event_ok w e -> startable p s name w -> handle_message depth program_lines e m1 = Done m' ->
  live_run (mkLive m' ths) bs L' -> outputs (mn_library (lv_main L')) = outputs (mn_library m') ++ os ->
  let earned := deserved (lb_manager (mn_library m')) os bs in
  exists S' n s', sys_run depth (system_of (mkLive m' ths)) n bs S' /\ implements L' S' /\
    m_heap (lb_manager (mn_library (lv_main L'))) !! p = Some s' /\
    under_way S' = awaited s' /\
    finishes os = match sc_state s' with ScenarioState.ScenarioFinished => [finish_code s'] | _ => [] end /\
    (sd_timeout (sc_description s) = None -> sd_stop_after_failure_count (sc_description s) <> Some 0%Z ->
       200%Z ∈ finishes os -> forall id, id ∈ test_sequence s -> earned id true) /\
    forall code, code ∈ finishes os -> code <> 200%Z ->
      is_fail (sc_exec_start_state s') = true \/ exists id, id ∈ test_sequence s /\ earned id false.
Proof.
  intros Hinv Hp Hfl Hths e w Hrecv Hok Hsb Hhandle Hrun Hout earned.
  destruct (start_handled p s name sender m ths m1 m' Hinv Hp Hfl Hths Hrecv Hok Hsb Hhandle) as (s0 & Hag & Hbeg & Hb).
  destruct (run_result_earned p s0 (mkLive m' ths) bs L' os Hb Hbeg Hrun Hout) as (S' & n & s' & Hsys & Himp & Hs' & Hu & Hf & Hs & Hn).
  rewrite (ag_description _ _ Hag), (agree_test_sequence _ _ Hag) in Hs. rewrite (agree_test_sequence _ _ Hag) in Hn.
  by exists S', n, s'.
Qed.
End live.

(** ** A scenario of one test, in the program *)

Module SampleLive.
Import LibraryTheorems.SampleLibrary SampleMain.

(** The next message is handled. *)
Definition hear (m : Main) : option Main :=
  match recv m with
  | Some (msg, m1) => match handle_message 4 0 msg m1 with Done m' => Some m' | _ => None end
  | None => None
  end.

Definition after_hear (m : Main) : Main := default m (hear m).

Lemma hear_handles m msg : bool_decide (is_Some (hear m)) = true -> fst <$> recv m = Some msg ->
  exists m1, recv m = Some (msg, m1) /\ handle_message 4 0 msg m1 = Done (after_hear m).
Proof.
  unfold after_hear, hear. intros [m' Hm]%bool_decide_eq_true Hr. destruct (recv m) as [[msg' m1]|]; [|done].
  injection Hr as ->. exists m1. by destruct (handle_message 4 0 msg m1) as [m2| |].
Qed.

Lemma hear_step m ths msg os ths' bs ths2 : ths2 = ths ++ ths' -> mn_pending m = [] ->
  bool_decide (is_Some (hear m)) = true -> fst <$> recv m = Some msg ->
  handles (mn_library m) msg -> new_outputs (mn_library m) (mn_library (after_hear m)) = os ->
  spawns (lb_manager (mn_library (after_hear m))) os ths' bs ->
  live_step 4 0 (mkLive m ths) bs (mkLive (after_hear m) ths2).
Proof.
  intros -> Hp Hm Hr Hok <- Hsp. destruct (hear_handles m msg Hm Hr) as (m1 & Hrecv & Hh). by eapply live_handle.
Qed.

(** A message that is sent is forwarded to the bus, and an event is broadcast. *)
Definition forward (m : Main) : Main :=
  match mn_control m with c :: cs => put_on_bus (Event.ManagerRequest c) (m <| mn_control := cs |>) | [] => m end.
Definition spread (m : Main) : Main :=
  match mn_pending m with e :: es => put_on_bus e (m <| mn_pending := es |>) | [] => m end.

Lemma snoc L bs L1 bs1 L2 : live_run 4 0 L bs L1 -> live_step 4 0 L1 bs1 L2 -> live_run 4 0 L (bs ++ bs1) L2.
Proof. apply live_snoc. Qed.

Lemma run_step L bs L1 L2 : live_run 4 0 L bs L1 -> live_step 4 0 L1 [] L2 -> live_run 4 0 L bs L2.
Proof. intros Hrun Hs. rewrite <- (app_nil_r bs). by eapply snoc. Qed.

Lemma run_forward L bs m ths : live_run 4 0 L bs (mkLive m ths) -> mn_control m <> [] -> live_run 4 0 L bs (mkLive (forward m) ths).
Proof.
  intros Hrun Hc. eapply run_step; [exact Hrun|]. unfold forward. destruct (mn_control m) eqn:Heq; [done|]. by apply live_forward.
Qed.

Lemma run_spread L bs m ths : live_run 4 0 L bs (mkLive m ths) -> mn_pending m <> [] -> live_run 4 0 L bs (mkLive (spread m) ths).
Proof.
  intros Hrun Hp. eapply run_step; [exact Hrun|]. unfold spread. destruct (mn_pending m) eqn:Heq; [done|]. by apply live_broadcast.
Qed.

(** A thread acts, and sends nothing or one message. *)
Lemma silent_thread m ths i id x rest : ths !! i = Some (id, x :: rest) -> (forall c, x <> Tell c) -> action_forks x = [] ->
  live_step 4 0 (mkLive m ths) [] (mkLive m (<[i := (id, rest)]> ths)).
Proof.
  intros Hi Hx Hf. pose proof (live_thread 4 0 m ths i id x rest [] Hi (sends_nothing id x Hx)) as Hs.
  rewrite Hf, app_nil_r in Hs. destruct m. unfold set_with in Hs. simpl in Hs. by rewrite app_nil_r in Hs.
Qed.

Lemma telling_thread m ths i id c rest : ths !! i = Some (id, Tell c :: rest) ->
  live_step 4 0 (mkLive m ths) [] (mkLive (m <| mn_control ::= fun sent => sent ++ [mkCtrl id c] |>) (<[i := (id, rest)]> ths)).
Proof.
  intros Hi. pose proof (live_thread 4 0 m ths i id (Tell c) rest [mkCtrl id c] Hi (sends_tell id c)) as Hs.
  simpl in Hs. by rewrite app_nil_r in Hs.
Qed.

(** The library is at rest, with the scenario [s] chosen, and the operator asks to
    start it. *)
Definition keyboard : UnitName := internal "terminal".
Definition request (sender : UnitName) (c : ManagerControlMessageContents) : UnitEvent := Event.ManagerRequest (mkCtrl sender c).
Definition p0 : Main := put_on_bus (request keyboard (Ctrl.StartScenario None)) (SampleMain.m0 <| mn_library := rested |>).
Definition p1 : Main := after_hear p0.
(** What it led to is broadcast and handled; the scenario asks for its test. *)
Definition p2 : Main := forward (spread (spread p1)).
Definition p3 : Main := after_hear p2.
Definition p4 : Main := after_hear p3.
Definition p5 : Main := after_hear p4.
(** The test is started. *)
Definition p6 : Main := forward p5.
Definition p7 : Main := after_hear p6.
Definition p8 : Main := spread p7.
(** Its command ends; the code is sent. *)
Definition p9 : Main := forward (forward (p8 <| mn_control ::= fun sent => sent ++ [mkCtrl a (Ctrl.AdvanceScenario 0)] |>)).
(** The main loop comes to it. *)
Definition p10 : Main := after_hear p9.
Definition p11 : Main := after_hear p10.
Definition p12 : Main := after_hear p11.

(** The command of the test prints nothing and ends with 0. *)
Definition quick : Behaviour := mkBehaviour [] [] 0.
Definition started_threads : list (UnitName * Thread) :=
  [(a, []); (a, []); (a, [FinishOnce 0; Tell (Ctrl.AdvanceScenario 0)])].
Definition last_threads : list (UnitName * Thread) := [(a, []); (a, []); (a, [])].

Definition asked_out : list Out := [Send (mkCtrl s (Ctrl.StartTest a))].
Definition started_out : list Out :=
  [Send (mkCtrl a Ctrl.TestStarted); Spawn a "true" None "/units"; Broadcast (Event.Status (new_active a))].
Definition ended_out : list Out :=
  (fun c => Send (mkCtrl s c)) <$>
    [Ctrl.StopTest a; Ctrl.StopTest a; Ctrl.StopTest s; Ctrl.ScenarioFinished 200 "all tests passed"].

Lemma no_spawns w os : Forall (fun o => owner_of o = None) os -> spawns w os [] [].
Proof. induction 1; by constructor. Qed.

Lemma p6_spawns : spawns (lb_manager (mn_library p7)) started_out started_threads [(a, quick)].
Proof.
  apply spawns_other; [done|].
  assert (exists t, m_tests (lb_manager (mn_library p7)) !! a = Some t /\ (pair a <$> spawned (te_desc t) quick) ++ [] = started_threads)
    as (t & Ht & Hd) by (eexists; split; vm_compute; reflexivity).
  rewrite <- Hd. apply (spawns_test _ a "true" None "/units" t quick _ [] []); [exact Ht|]. apply spawns_other; [done|constructor].
Qed.

Ltac hears msg os ths' := apply (hear_step _ _ msg os ths');
  [reflexivity|vm_compute; reflexivity|vm_compute; reflexivity|vm_compute; reflexivity
  |split_and!; [by split|vm_compute; reflexivity|discriminate]|vm_compute; reflexivity|].
Ltac hears_quietly msg := hears msg (@nil Out) (@nil (UnitName * Thread)); by apply no_spawns.

Definition starting : LogEntry := mkLogEntry s LogInfo "scenario starting" 0 0.

Lemma p2_p3 : live_step 4 0 (mkLive p2 []) [] (mkLive p3 []).
Proof. hears_quietly (Event.Log starting). Qed.
Lemma p3_p4 : live_step 4 0 (mkLive p3 []) [] (mkLive p4 []).
Proof. hears_quietly (Event.Status (new_active s)). Qed.
Lemma p4_p5 : live_step 4 0 (mkLive p4 []) [] (mkLive p5 []).
Proof. hears (request s (Ctrl.AdvanceScenario 0)) asked_out (@nil (UnitName * Thread)). by apply no_spawns; repeat constructor. Qed.
Lemma p6_p7 : live_step 4 0 (mkLive p6 []) [(a, quick)] (mkLive p7 started_threads).
Proof. hears (request s (Ctrl.StartTest a)) started_out started_threads. apply p6_spawns. Qed.
Lemma p9_p10 : live_step 4 0 (mkLive p9 last_threads) [] (mkLive p10 last_threads).
Proof. hears_quietly (Event.Status (new_active a)). Qed.
Lemma p10_p11 : live_step 4 0 (mkLive p10 last_threads) [] (mkLive p11 last_threads).
Proof. hears_quietly (request a Ctrl.TestStarted). Qed.
Lemma p11_p12 : live_step 4 0 (mkLive p11 last_threads) [] (mkLive p12 last_threads).
Proof. hears (request a (Ctrl.AdvanceScenario 0)) ended_out (@nil (UnitName * Thread)). by apply no_spawns; repeat constructor. Qed.

Lemma run_started : live_run 4 0 (mkLive p1 []) [(a, quick)] (mkLive p7 started_threads).
Proof.
  apply (snoc _ [] (mkLive p6 [])); [|exact p6_p7]. apply run_forward; [|by vm_compute].
  eapply run_step; [|exact p4_p5]. eapply run_step; [|exact p3_p4]. eapply run_step; [|exact p2_p3].
  apply run_forward; [|by vm_compute]. apply run_spread; [|by vm_compute]. apply run_spread; [|by vm_compute]. constructor.
Qed.

Lemma run_ended : live_run 4 0 (mkLive p1 []) [(a, quick)] (mkLive p9 last_threads).
Proof.
  apply run_forward; [|by vm_compute]. apply run_forward; [|by vm_compute].
  eapply run_step; [|by apply (telling_thread p8 [(a, []); (a, []); (a, [Tell (Ctrl.AdvanceScenario 0)])] 2 a (Ctrl.AdvanceScenario 0) [])].
  eapply run_step; [|by apply (silent_thread p8 started_threads 2 a (FinishOnce 0) [Tell (Ctrl.AdvanceScenario 0)])].
  apply run_spread; [exact run_started|by vm_compute].
Qed.

Lemma run_passed : live_run 4 0 (mkLive p1 []) [(a, quick)] (mkLive p12 last_threads).
Proof.
  eapply run_step; [|exact p11_p12]. eapply run_step; [|exact p10_p11]. eapply run_step; [|exact p9_p10]. exact run_ended.
Qed.

Lemma p0_inv : main_inv 4 0 p0.
Proof.
  split.
  - apply broadcast_wf, subscribe_wf, bus_new_wf.
  - exact rested_reachable.
  - exists 0%Z. apply rtc_refl.
  - reflexivity.
Qed.

(** The current scenario, when it has the one test [a], and can be started. *)
Lemma startable_one w :
  (p ← m_current_scenario w; sc ← m_heap w !! p;
   Some (is_running sc, sd_timeout (sc_description sc), sd_stop_after_failure_count (sc_description sc), test_sequence sc,
     bool_decide (sc_id sc ∈ m_active w), bool_decide (a ∈ m_active w))) = Some (false, None, None, [a], false, false) ->
  (exists t, m_tests w !! a = Some t /\ is_ok (test_select t (jig_is_loaded w)) = true) ->
  exists p sc, startable p sc None w /\ sd_timeout (sc_description sc) = None /\
    sd_stop_after_failure_count (sc_description sc) = None /\ test_sequence sc = [a].
Proof.
  destruct (m_current_scenario w) as [p|] eqn:Hp; [|done]. simpl. destruct (m_heap w !! p) as [sc|] eqn:Hs; [|done].
  intros [= Hr Ht Hc Hseq Hact%bool_decide_eq_false Ha%bool_decide_eq_false] Hfit. exists p, sc. split_and!; [|done..].
  split; try done; [by left| |]; intros id; rewrite Hseq; by intros ->%list_elem_of_singleton.
Qed.

Lemma p0_startable : exists p sc, startable p sc None (lb_manager (mn_library p0)) /\ sd_timeout (sc_description sc) = None /\
  sd_stop_after_failure_count (sc_description sc) = None /\ test_sequence sc = [a].
Proof.
  apply startable_one; [vm_compute; reflexivity|]. eexists. split; vm_compute; reflexivity.
Qed.

Lemma p12_out : outputs (mn_library p12) = outputs (mn_library p1) ++ asked_out ++ started_out ++ ended_out.
Proof. vm_compute. reflexivity. Qed.

Lemma program_result_earned_witness :
  deserved (lb_manager (mn_library p1)) (asked_out ++ started_out ++ ended_out) [(a, quick)] a true.
Proof.
  destruct p0_startable as (p & sc & Hsb & Ht & Hc & Hseq).
  destruct (hear_handles p0 (request keyboard (Ctrl.StartScenario None))) as (m1 & Hrecv & Hh); [by vm_compute|by vm_compute|].
  destruct (program_result_earned 4 0 ltac:(lia) p sc None keyboard p0 [] m1 p1 [(a, quick)] (mkLive p12 last_threads)
    (asked_out ++ started_out ++ ended_out)) as (S' & n & s' & _ & _ & _ & _ & _ & Hall & _).
  - exact p0_inv.
  - vm_compute. reflexivity.
  - vm_compute. reflexivity.
  - split; reflexivity.
  - exact Hrecv.
  - split; discriminate.
  - exact Hsb.
  - exact Hh.
  - exact run_passed.
  - exact p12_out.
  - apply Hall; rewrite ?Ht, ?Hc; [reflexivity|discriminate| |].
    + apply list_elem_of_here.
    + rewrite Hseq. apply list_elem_of_here.
Defined.

End SampleLive.
