(* ===== verification/Quiet.v ===== *)
(** * A quiet moment

    What happens when nothing comes any more: the timer's thread runs alone, and
    unless its last notification was lost it requests one rescan, when the last
    timer is due and not before, within a bounded number of steps. *)

From S2P Require Import Prelude Str Path Unit Foreign Config Events Broadcaster Env Samples Descriptions.
From S2P Require Import Interface Trigger Logger Jig Test Scenario ScenarioProps ScenarioTheorems Manager ManagerProps ManagerSafety ManagerTheorems.
From S2P Require Import Library LibraryProps LibraryTheorems Quiesce QuiesceProps Main.

(** ** The timer's thread alone *)

(** The worker makes a step, or wakes up. *)
Definition thread_step (t t' : Machine) : Prop := worker_step t t' \/ wake_step t t'.

Definition alone (t t' : Machine) : Prop := thread_step t t' \/ clock_step t t'.

(** The last timer was not replaced and did not fire. *)
Definition armed (t : Machine) : Prop :=
  (0 < qs_counter (mc_caller t))%Z /\ qs_counter (mc_caller t) ∉ snd <$> wk_fired (mc_worker t).

(** The worker has read its requests, or it comes back to read them. *)
Definition alert (t : Machine) : Prop :=
  match mc_pc t with
  | Draining | Falling (Some _) | Waiting (Some _) => True
  | _ => mc_queue t = []
  end.

(** The worker waits without a deadline only when nothing is scheduled. *)
Definition sleeps (t : Machine) : Prop :=
  match mc_pc t with
  | Falling None | Waiting None => wk_schedule (mc_worker t) = []
  | _ => True
  end.

Lemma sleeps_step t t' : step t t' -> sleeps t -> sleeps t'.
Proof.
  unfold sleeps. destruct 1 as [Hs|Hs|Hs|Hs].
  - destruct Hs as [e _|_|_]; simpl; [|done|].
    + unfold on_message. by destruct (restarts e).
    + by destruct (mc_pc t).
  - destruct Hs as [a q Hpc _|Hpc _|i w Hpc _ _|Hpc _|Hpc|d Hpc]; simpl; rewrite ?Hpc; try done.
    + unfold duration_until_next_event. destruct (peek_when _) eqn:Hp; [done|]. intros _. by apply peek_when_None.
    + by destruct d.
  - by destruct Hs.
  - by destruct Hs.
Qed.

Lemma reachable_sleeps now delay t : machine_reachable now delay t -> sleeps t.
Proof.
  intros Hr. pattern t. refine (rtc_ind_r _ _ _ _ t Hr); [done|]. intros t1 t2 _ Hs. by apply sleeps_step.
Qed.

Lemma alert_step t t' : alone t t' -> alert t -> alert t'.
Proof.
  unfold alert. intros [[Hs|Hs]|Hs].
  - destruct Hs as [a q Hpc _|Hpc Hq|i w Hpc _ _|Hpc _|Hpc|d Hpc]; simpl; rewrite ?Hpc; try done.
    + by destruct (duration_until_next_event _ _).
    + by destruct d.
  - by destruct Hs.
  - by destruct Hs.
Qed.

(** The timer [e] is to fire. *)
Record expects (e : ScheduledEvent) (t : Machine) : Prop := {
  ex_inv : inv t;
  ex_few : few t;
  ex_fresh : fresh t;
  ex_idle : qs_pc (mc_caller t) = Idle;
  ex_sent : e ∈ mc_sent t;
  ex_last : qs_counter (mc_caller t) = sv_id e;
  ex_alert : alert t;
  ex_sleeps : sleeps t;
}.

Lemma alone_step t t' : alone t t' -> step t t' /\ mc_caller t' = mc_caller t /\ mc_sent t' = mc_sent t /\
  (mc_now t <= mc_now t')%Z.
Proof.
  intros [[Hs|Hs]|Hs].
  - split; [by apply by_worker|]. by destruct Hs.
  - split; [by apply by_wake|]. by destruct Hs.
  - split; [by apply by_clock|]. destruct Hs. simpl. split_and!; try done. lia.
Qed.

Lemma expects_step e t t' : expects e t -> alone t t' -> expects e t'.
Proof.
  intros [Hi Hf Hfr Hid He Hl Ha Hsl] Halone. pose proof (alone_step _ _ Halone) as (Hstep & Hc & Hs & _).
  assert (few t') as Hf' by (unfold few; by rewrite Hs).
  split; rewrite ?Hc, ?Hs; try done.
  - by eapply step_inv.
  - by eapply step_fresh.
  - by eapply alert_step.
  - by eapply sleeps_step.
Qed.

(** What fires is the last timer, and only once. *)
Definition fires (e : ScheduledEvent) (t t' : Machine) : Prop :=
  sv_id e ∉ snd <$> wk_fired (mc_worker t) /\ (sv_when e <= mc_now t)%Z /\
  wk_fired (mc_worker t') = wk_fired (mc_worker t) ++ [(mc_now t, sv_id e)].

Lemma alone_fires e t t' : expects e t -> alone t t' ->
  wk_fired (mc_worker t') = wk_fired (mc_worker t) \/ fires e t t'.
Proof.
  intros Hex Halone. pose proof (expects_step _ _ _ Hex Halone) as Hex'.
  destruct Halone as [[Hs|Hs]|Hs]; [|left; by destruct Hs|left; by destruct Hs].
  destruct Hs as [a q _ Hq|_ _|i w Hpc Hnow Hfire|_ _|_|d _]; try by left.
  { left. by destruct (drain_timers a q t Hq) as (_ & Hf & _). }
  destruct (fire_event_Some _ _ _ _ Hfire) as (e0 & Hperm & Hpeek & [(_ & _ & Hf)|(Hno & Hig & Hf)]); [by left|].
  right. destruct Hex as [Hi Hfew _ Hid He Hl Ha _]. unfold alert in Ha. rewrite Hpc in Ha.
  assert (e0 ∈ wk_schedule (mc_worker t)) as Hin by (rewrite Hperm; by left).
  assert (e0 = e) as ->.
  { apply (NoDup_fmap_inj sv_id (mc_sent t)); [apply (iv_ids _ Hi)| |done|].
    - apply (iv_sent _ Hi). unfold pending. apply elem_of_app. by right.
    - destruct (iv_schedule _ Hi e0 Hin) as [?|[Hq|Hlast]]; [done|rewrite Ha in Hq; by apply not_elem_of_nil in Hq|].
      unfold latest in Hlast. rewrite Hid in Hlast. congruence. }
  split_and!; [| |done].
  - pose proof (iv_nodup _ Hi) as Hnd. unfold timers in Hnd. apply NoDup_app in Hnd as (_ & Hdis & _). apply Hdis.
    apply list_elem_of_fmap_2. unfold pending. apply elem_of_app. by right.
  - unfold has_event_now in Hnow. rewrite Hpeek in Hnow. by apply Z.leb_le.
Qed.

Definition unfired (e : ScheduledEvent) (t : Machine) : Prop := sv_id e ∉ snd <$> wk_fired (mc_worker t).

Lemma expects_pending e t : expects e t -> unfired e t -> e ∈ pending t.
Proof.
  intros [Hi _ Hfr Hid He Hl _ _] Hno.
  destruct (fr_latest _ Hfr) as (Hin & _).
  { by rewrite Hid. }
  { rewrite Hl. by apply (iv_known _ Hi). }
  unfold timers in Hin. rewrite Hl in Hin. apply elem_of_app in Hin as [(e' & Heq & Hin)%list_elem_of_fmap|?]; [|done].
  replace e with e'; [done|]. apply (NoDup_fmap_inj sv_id (mc_sent t)); [apply (iv_ids _ Hi)|by apply (iv_sent _ Hi)|done|done].
Qed.

(** Until it fires the worker goes on, or wakes up at a deadline. *)
Lemma expects_progress e t : expects e t -> unfired e t ->
  (exists t', worker_step t t') \/ exists deadline, mc_pc t = Waiting (Some deadline).
Proof.
  intros Hex Hno. destruct (worker_progress t) as [[[deadline|] Hw]|?]; [right; by exists deadline| |by left]. exfalso.
  pose proof (expects_pending e t Hex Hno) as Hin. destruct Hex as [_ _ _ _ _ _ Ha Hsl].
  unfold alert, sleeps in *. rewrite Hw in Ha, Hsl. unfold pending in Hin. rewrite Ha, Hsl in Hin.
  by apply not_elem_of_nil in Hin.
Qed.

(** How many steps the thread makes, at most, before a timer that is due fires. *)
Definition steps_left (t : Machine) : nat :=
  2 * length (mc_queue t) + length (wk_schedule (mc_worker t)) +
  match mc_pc t with Measuring => 5 | Falling _ => 4 | Waiting _ => 3 | Draining => 2 | Firing => 1 end.

Lemma steps_left_decreases e t t' : expects e t -> unfired e t -> (sv_when e <= mc_now t)%Z -> thread_step t t' -> steps_left t' < steps_left t.
Proof.
  intros Hex Hno Hdue [Hs|Hs]; unfold steps_left.
  - destruct Hs as [a q Hpc Hq|Hpc Hq|i w Hpc Hnow Hfire|Hpc Hnow|Hpc|d Hpc]; simpl; rewrite ?Hpc; try lia.
    + rewrite Hq. simpl. destruct a as [e'|id]; simpl; [lia|]. destruct (existsb _ _); simpl; lia.
    + destruct (fire_event_Some _ _ _ _ Hfire) as (e' & Hperm & _). rewrite Hperm. simpl. lia.
    + exfalso. pose proof (expects_pending e t Hex Hno) as Hin. destruct Hex as [_ _ _ _ _ _ Ha _].
      unfold alert in Ha. rewrite Hpc in Ha. unfold pending in Hin. rewrite Ha in Hin. simpl in Hin.
      unfold has_event_now in Hnow. destruct (peek_when (wk_schedule (mc_worker t))) as [w|] eqn:Hp.
      * destruct (peek_when_Some _ _ Hp) as [_ Hmin]. specialize (Hmin e Hin). apply Z.leb_gt in Hnow. lia.
      * apply peek_when_None in Hp. rewrite Hp in Hin. by apply not_elem_of_nil in Hin.
  - destruct Hs as [deadline Hpc _|deadline Hpc]; simpl; rewrite Hpc; lia.
Qed.

(** The timer of the last restart is the last one that was sent. *)
Definition last_sent (t : Machine) : Prop :=
  forall e, last (mc_sent t) = Some e -> sv_id e = qs_counter (mc_caller t).

Lemma reachable_last_sent now delay t : machine_reachable now delay t -> last_sent t.
Proof.
  intros Hr. pattern t. refine (rtc_ind_r _ _ _ _ t Hr); [done|]. clear t Hr. unfold last_sent. intros t t' _ Hs IH.
  destruct Hs as [Hs|Hs|Hs|Hs]; destruct Hs; try exact IH.
  - unfold on_message. by destruct (restarts e).
  - simpl. intros e. rewrite last_snoc. by intros [= <-].
Qed.

(** A timer is due when the delay has passed. *)
Lemma sent_due now delay t e : machine_reachable now delay t -> e ∈ mc_sent t -> (sv_when e <= mc_now t + delay)%Z.
Proof.
  intros Hr. pattern t. refine (rtc_ind_r _ _ _ _ t Hr); [by intros ?%not_elem_of_nil|].
  intros t1 t2 Hr1 Hs IH. destruct (steps_sent _ _ Hr1) as [_ Hdelay].
  destruct Hs as [Hs|Hs|Hs|Hs]; destruct Hs; try done.
  - unfold on_message. by destruct (restarts e0).
  - simpl. intros [Hin| ->%list_elem_of_singleton]%elem_of_app; [by apply IH|]. simpl. simpl in Hdelay. lia.
  - simpl. intros Hin%IH. lia.
Qed.

Section quiet.
Context `{Libraries} `{DependyLib} `{Env} `{DebugLog}.
Context (depth program_lines : nat).
Implicit Types m : Main.

(** ** The program in a quiet moment *)

(** Only the timer's thread and the clock move. *)
Definition moves (s : Machine -> Machine -> Prop) m m' : Prop :=
  exists t, s (mn_timer m) t /\ m' = put_all (newly_fired (mn_timer m) t) (m <| mn_timer := t |>).

(** A quiet run, with the number of steps of the thread. *)
Inductive quiet_run m : nat -> Main -> Prop :=
  | quiet_start : quiet_run m 0 m
  | quiet_thread n m1 m2 : quiet_run m n m1 -> moves thread_step m1 m2 -> quiet_run m (S n) m2
  | quiet_clock n m1 m2 : quiet_run m n m1 -> moves clock_step m1 m2 -> quiet_run m n m2.

Lemma moves_main_step `{Files} m m' : moves thread_step m m' \/ moves clock_step m m' ->
  main_step depth program_lines m None (newly_fired (mn_timer m) (mn_timer m')) m'.
Proof.
  intros [(t & Hs & ->)|(t & Hs & ->)].
  all: destruct (put_all_same (newly_fired (mn_timer m) t) (m <| mn_timer := t |>)) as (_ & -> & _).
  - apply main_timer. destruct Hs; tauto.
  - apply main_timer. tauto.
Qed.

(** Nothing but the timer and the inbox changes. *)
Definition undisturbed m m' : Prop :=
  mn_library m' = mn_library m /\ mn_pending m' = mn_pending m /\ mn_control m' = mn_control m /\
  mn_loops m' = mn_loops m /\ mn_chan m' = mn_chan m /\ mn_debug m' = mn_debug m.

Lemma put_all_undisturbed evts m t : undisturbed m (put_all evts (m <| mn_timer := t |>)).
Proof.
  revert t. enough (forall m0, undisturbed m m0 -> undisturbed m (put_all evts m0)) as Hall by (intros t; by apply Hall).
  induction evts as [|e evts IH]; intros m0 Hm0; [done|]. by apply IH.
Qed.

(** The states of a quiet run: the rescan is to come, or it is there. *)
Record quiet_state (e : ScheduledEvent) m0 m : Prop := {
  qq_expects : expects e (mn_timer m);
  qq_subscribed : subscribed m;
  qq_undisturbed : undisturbed m0 m;
  qq_inbox : inbox m = [] /\ unfired e (mn_timer m) \/
    inbox m = [Event.RescanRequest] /\ ~ unfired e (mn_timer m) /\ (sv_when e <= mc_now (mn_timer m))%Z;
}.

Lemma quiet_state_step e m0 m t : quiet_state e m0 m -> alone (mn_timer m) t ->
  quiet_state e m0 (put_all (newly_fired (mn_timer m) t) (m <| mn_timer := t |>)).
Proof.
  intros [Hex Hsub Hun Hin] Hs. set (evts := newly_fired (mn_timer m) t). set (m' := put_all evts _).
  destruct (put_all_same evts (m <| mn_timer := t |>)) as (_ & Ht & _ & Hc & _).
  pose proof (put_all_undisturbed evts m t) as Hun'. fold m' in Ht, Hc, Hun'.
  pose proof (alone_step _ _ Hs) as (_ & _ & _ & Hnow).
  assert (Event.Shutdown ∉ evts) as Hns by (unfold evts, newly_fired; by intros (? & [=] & _)%list_elem_of_fmap).
  destruct (broadcast_all_listens evts (mn_bus m) (mn_chan m) Hns Hsub) as [Hsub' Hq].
  assert (subscribed m' /\ inbox m' = inbox m ++ evts) as [Hsub1 Hq1].
  { destruct (put_all_bus evts (m <| mn_timer := t |>)) as [Hb _]. fold m' in Hb.
    unfold subscribed, inbox. rewrite Hb, Hc. done. }
  split; [rewrite Ht; by eapply expects_step|done| |].
  { destruct Hun as (? & ? & ? & ? & ? & ?), Hun' as (? & ? & ? & ? & ? & ?). unfold undisturbed. split_and!; by etransitivity. }
  rewrite Hq1, Ht. simpl. unfold evts, newly_fired, unfired in *.
  destruct (alone_fires e _ t Hex Hs) as [Hf|(Hno & Hdue & Hf)]; rewrite Hf.
  - rewrite drop_all. simpl. rewrite app_nil_r. destruct Hin as [?|(? & ? & ?)]; [by left|right]. split_and!; [done|done|lia].
  - rewrite drop_app_length. destruct Hin as [[-> _]|(_ & Hyes & _)]; [|done]. right. simpl. split_and!; [done| |lia].
    rewrite fmap_app, elem_of_app. simpl. rewrite list_elem_of_singleton. tauto.
Qed.

Lemma quiet_run_state e m0 m n m' : quiet_state e m0 m -> quiet_run m n m' ->
  quiet_state e m0 m' /\ (mc_now (mn_timer m) <= mc_now (mn_timer m'))%Z /\
  ((sv_when e <= mc_now (mn_timer m))%Z -> inbox m' = [] -> n + steps_left (mn_timer m') <= steps_left (mn_timer m)).
Proof.
  intros Hm. induction 1 as [|n m1 m2 _ IH (t & Hs & ->)|n m1 m2 _ IH (t & Hs & ->)]; [split_and!; [done|lia|lia]|..].
  all: destruct IH as (Hq & Hnow & Hleft).
  all: destruct (put_all_same (newly_fired (mn_timer m1) t) (m1 <| mn_timer := t |>)) as (_ & Ht & _).
  all: assert (alone (mn_timer m1) t) as Ha by (unfold alone; tauto).
  all: pose proof (quiet_state_step _ _ _ _ Hq Ha) as Hq2; set (m2 := put_all _ _) in *.
  all: pose proof (alone_step _ _ Ha) as (_ & _ & _ & Hnow2); simpl in Ht; rewrite Ht; split_and!; [done|lia|].
  all: intros Hdue Hin.
  all: assert (unfired e (mn_timer m2)) as Hno2 by (destruct (qq_inbox _ _ _ Hq2) as [[_ ?]|[? _]]; [done|congruence]).
  all: assert (unfired e (mn_timer m1)) as Hno1
    by (rewrite Ht in Hno2; unfold unfired in *; destruct (alone_fires e _ t (qq_expects _ _ _ Hq) Ha) as [Hf|(? & _)];
        [by rewrite <- Hf|done]).
  all: assert (inbox m1 = []) as Hin1 by (destruct (qq_inbox _ _ _ Hq) as [[? _]|(_ & ? & _)]; done).
  all: specialize (Hleft Hdue Hin1).
  - pose proof (steps_left_decreases e _ t (qq_expects _ _ _ Hq) Hno1 ltac:(lia) Hs). lia.
  - destruct Hs. simpl. exact Hleft.
Qed.

(** In a state of the program the last timer is to fire. *)
Lemma main_expects `{!EnvLaws} `{!DependyLaws} (depth_enough : 4 <= depth) m :
  main_reachable depth program_lines m -> few (mn_timer m) -> alert (mn_timer m) -> armed (mn_timer m) ->
  exists e, last (mc_sent (mn_timer m)) = Some e /\ expects e (mn_timer m) /\ unfired e (mn_timer m) /\
    (sv_when e <= mc_now (mn_timer m) + quiesce_delay)%Z.
Proof.
  intros Hr Hfew Hal [Hpos Hno]. destruct (main_reachable_inv depth program_lines m Hr) as [_ _ [now Ht] Hidle].
  pose proof (machine_reachable_inv _ _ _ Ht Hfew) as Hinv. pose proof (reachable_fresh _ _ _ Ht Hfew) as Hfr.
  destruct (last (mc_sent (mn_timer m))) as [e|] eqn:Hlast.
  2: { apply last_None in Hlast. rewrite (iv_counter _ Hinv), Hlast in Hpos. simpl in Hpos. lia. }
  pose proof (reachable_last_sent _ _ _ Ht e Hlast) as Heq. apply last_Some_elem_of in Hlast as Hin.
  exists e. split_and!; [done| | |].
  - split; try done. by eapply reachable_sleeps.
  - unfold unfired. by rewrite Heq.
  - by eapply sent_due.
Qed.

(** The rescan can come: time passes until the timer is due, and the thread
    makes its steps. *)
Lemma quiet_run_thread m n m1 t : quiet_run m n m1 -> thread_step (mn_timer m1) t -> exists m2,
  quiet_run m (S n) m2 /\ mn_timer m2 = t.
Proof.
  intros Hrun Hs. set (m2 := put_all (newly_fired (mn_timer m1) t) (m1 <| mn_timer := t |>)).
  exists m2. split; [by eapply quiet_thread; [|exists t]|].
  exact (proj1 (proj2 (put_all_same (newly_fired (mn_timer m1) t) (m1 <| mn_timer := t |>)))).
Qed.

Lemma quiet_run_clock m n m1 (d : Z) : (0 <= d)%Z -> quiet_run m n m1 -> exists m2,
  quiet_run m n m2 /\ mn_timer m2 = mn_timer m1 <| mc_now ::= Z.add d |>.
Proof.
  intros Hd Hrun. set (t := mn_timer m1 <| mc_now ::= Z.add d |>).
  exists (put_all (newly_fired (mn_timer m1) t) (m1 <| mn_timer := t |>)).
  split; [eapply quiet_clock; [done|exists t; split; [by constructor|done]]|].
  exact (proj1 (proj2 (put_all_same (newly_fired (mn_timer m1) t) (m1 <| mn_timer := t |>)))).
Qed.

Lemma quiet_run_fires e m0 m : quiet_state e m0 m -> forall n m1, quiet_run m n m1 ->
  (sv_when e <= mc_now (mn_timer m1))%Z -> exists n2 m2, quiet_run m n2 m2 /\ inbox m2 = [Event.RescanRequest].
Proof.
  intros Hm n m1. remember (steps_left (mn_timer m1)) as k eqn:Hk. revert n m1 Hk.
  induction (lt_wf k) as [k _ IH]. intros n m1 -> Hrun Hdue.
  destruct (quiet_run_state e m0 m n m1 Hm Hrun) as (Hq & _ & _).
  destruct (qq_inbox _ _ _ Hq) as [[_ Hno]|[Hin _]]; [|by exists n, m1].
  pose proof (qq_expects _ _ _ Hq) as Hex.
  assert (exists n2 m2, quiet_run m n2 m2 /\ steps_left (mn_timer m2) < steps_left (mn_timer m1) /\
    (sv_when e <= mc_now (mn_timer m2))%Z) as (n2 & m2 & Hrun2 & Hlt & Hdue2); [|by eapply (IH _ Hlt)].
  destruct (expects_progress e _ Hex Hno) as [[t Hs]|[deadline Hpc]].
  - destruct (quiet_run_thread m n m1 t Hrun (or_introl Hs)) as (m2 & Hrun2 & Ht). exists (S n), m2. split; [done|].
    rewrite Ht. split; [apply (steps_left_decreases e); try done; by left|].
    destruct (alone_step _ t (or_introl (or_introl Hs))) as (_ & _ & _ & Hnow). lia.
  - destruct (quiet_run_clock m n m1 (Z.max 0 (deadline - mc_now (mn_timer m1))) ltac:(lia) Hrun) as (m2 & Hrun2 & Ht).
    destruct (quiet_run_thread m n m2 (mn_timer m2 <| mc_pc := Draining |>) Hrun2) as (m3 & Hrun3 & Ht3).
    { right. apply (step_timeout _ deadline); rewrite Ht; simpl; [done|lia]. }
    exists (S n), m3. split; [done|]. rewrite Ht3, Ht. unfold steps_left. simpl. rewrite Hpc. split; lia.
Qed.

(** ** The rescan comes *)

(** In every run in which only the timer's thread and the clock move, all that
    happens is that one rescan is requested, when it is due and not before; until
    then the thread has a step to make or wakes up at a deadline; its steps are
    bounded from the time the rescan is due; and there is a run with the rescan. *)
Definition rescan_comes m (due : Z) : Prop :=
  (forall n m1, quiet_run m n m1 -> undisturbed m m1 /\
    (inbox m1 = [Event.RescanRequest] /\ (due <= mc_now (mn_timer m1))%Z \/
     inbox m1 = [] /\ ((exists t, worker_step (mn_timer m1) t) \/
       exists deadline, mc_pc (mn_timer m1) = Waiting (Some deadline))) /\
    forall n2 m2, (due <= mc_now (mn_timer m1))%Z -> quiet_run m1 n2 m2 -> inbox m2 = [] ->
      n2 <= steps_left (mn_timer m1)) /\
  exists n m1, quiet_run m n m1 /\ inbox m1 = [Event.RescanRequest].

Lemma quiet_state_comes e m : quiet_state e m m -> rescan_comes m (sv_when e).
Proof.
  intros Hq. split.
  - intros n m1 Hrun1. destruct (quiet_run_state e m m n m1 Hq Hrun1) as (Hq1 & _ & _). split_and!.
    + apply Hq1.
    + destruct (qq_inbox _ _ _ Hq1) as [[Hin1 Hno1]|(Hin1 & _ & Hdue)]; [right|left; done]. split; [done|].
      apply (expects_progress e); [apply Hq1|done].
    + intros n2 m2 Hdue Hrun2 Hin2. destruct (quiet_run_state e m m1 n2 m2 Hq1 Hrun2) as (_ & _ & Hle).
      specialize (Hle Hdue Hin2). lia.
  - destruct (quiet_run_clock m 0 m (Z.max 0 (sv_when e - mc_now (mn_timer m))) ltac:(lia) (quiet_start m))
      as (m1 & Hrun1 & Ht). eapply (quiet_run_fires e m m Hq 0 m1 Hrun1). rewrite Ht. simpl. lia.
Qed.

Context `{!EnvLaws} `{!DependyLaws} (depth_enough : 4 <= depth).

(** The timer that is to fire. *)
Lemma quiet_moment m : main_reachable depth program_lines m -> few (mn_timer m) -> subscribed m ->
  inbox m = [] -> armed (mn_timer m) -> alert (mn_timer m) ->
  exists e, last (mc_sent (mn_timer m)) = Some e /\ (sv_when e <= mc_now (mn_timer m) + quiesce_delay)%Z /\
    quiet_state e m m.
Proof.
  intros Hr Hfew Hsub Hin Harm Hal. destruct (main_expects depth_enough m Hr Hfew Hal Harm) as (e & Hlast & Hex & Hno & Hd).
  exists e. split_and!; [done|done|]. split; [done|done|done|by left].
Qed.

(** (C10) A quiet moment brings one rescan: when everything is handled, the last
    timer has not fired, and no notification is lost - the timer's thread has
    read its requests or comes back to read them - then in every run in which
    only this thread and the clock move, nothing but one request for a rescan
    appears.  It appears when the last timer that was sent is due, the delay
    after the restart that sent it, and not before.  Until then the thread has a
    step to make or wakes up at a deadline; from the time the timer is due its
    steps are bounded; and there is such a run with the request. *)
Theorem quiet_moment_rescans m : main_reachable depth program_lines m -> few (mn_timer m) -> subscribed m ->
  inbox m = [] -> armed (mn_timer m) -> alert (mn_timer m) ->
  exists e, last (mc_sent (mn_timer m)) = Some e /\ (sv_when e <= mc_now (mn_timer m) + quiesce_delay)%Z /\
    rescan_comes m (sv_when e).
Proof.
  intros Hr Hfew Hsub Hin Harm Hal. destruct (quiet_moment m Hr Hfew Hsub Hin Harm Hal) as (e & Hlast & Hd & Hq).
  exists e. split_and!; [done|done|by apply quiet_state_comes].
Qed.
End quiet.

(** ** A test was read, and nothing else comes *)

Module SampleQuiet.
Import LibraryTheorems.SampleLibrary Main.SampleMain.

Definition m2 : Main :=
  match recv m1 with
  | Some (msg, m) => match handle_message 4 0 msg m with Done m' => m' | _ => m1 end
  | None => m1
  end.

Lemma m2_reachable : main_reachable 4 0 m2.
Proof.
  destruct (recv m1) as [[msg m]|] eqn:Hrecv; [|vm_compute in Hrecv; discriminate].
  assert (fst <$> recv m1 = Some (found a "/units/a.test")) as Hmsg by (vm_compute; reflexivity).
  rewrite Hrecv in Hmsg. injection Hmsg as ->.
  destruct (handle_message_run 4 0 ltac:(lia) m1 (found a "/units/a.test") m m1_reachable) as (m' & Hrun & Hr & _).
  - reflexivity.
  - exact Hrecv.
  - split; [vm_compute; reflexivity|exact readable_a].
  - by intros _ n text.
  - unfold m2. by rewrite Hrecv, Hrun.
Qed.

Lemma quiet_moment_rescans_witness : exists n m3, quiet_run m2 n m3 /\ inbox m3 = [Event.RescanRequest].
Proof.
  destruct (quiet_moment_rescans 4 0 ltac:(lia) m2) as (e & _ & _ & _ & Hrun).
  - exact m2_reachable.
  - apply SampleQuiesce.few_by_length. vm_compute. reflexivity.
  - unfold subscribed. split_and!.
    + exact (mn_bus_wf 4 0 m2 (main_reachable_inv 4 0 m2 m2_reachable)).
    + apply (bool_decide_eq_true_1 (mn_chan m2 ∈ bus_senders (mn_bus m2))). vm_compute. reflexivity.
    + vm_compute. reflexivity.
  - vm_compute. reflexivity.
  - split; [apply Z.ltb_lt; vm_compute; reflexivity|].
    apply (bool_decide_eq_true_1 (qs_counter (mc_caller (mn_timer m2)) ∉ snd <$> wk_fired (mc_worker (mn_timer m2)))).
    vm_compute. reflexivity.
  - vm_compute. exact I.
  - exact Hrun.
Defined.

End SampleQuiet.
