(* ===== verification/Program.v ===== *)
(** * The whole program ([main] of [src/src/main.rs])

    What [main] does before its loop, and what comes of it: the unit files of
    the configuration directories are announced, requested, read, and loaded by
    the first rescan, while all threads run. *)

From S2P Require Import Prelude Str Path Unit Foreign Config Events Broadcaster Env Samples Descriptions.
From S2P Require Import Interface Trigger Logger Jig Test Scenario ScenarioProps ScenarioTheorems Manager ManagerProps ManagerSafety ManagerTheorems.
From S2P Require Import ManagerFrames Reload Library LibraryProps LibraryLoads LibraryTheorems LibraryCurrent LibraryFiles.
From S2P Require Import Quiesce QuiesceProps Loader Terminal Main Quiet.

(** ** Starting *)

(** What the command line says, as [clap] parses it. *)
Record Args := mkArgs {
  ar_config_dirs : list string;
  ar_plain : bool;
  ar_quiet : bool;
  ar_debug_log : option string;
  ar_keyboard : bool;
}.

Definition output_type (args : Args) : option TerminalOutputType :=
  if ar_plain args then Some Plain else if ar_quiet args then Some NoOutput else None.

(** What the handler of the interrupt signal broadcasts. *)
Definition ctrl_c_event : UnitEvent := Event.Shutdown.

(** What the system says: [Watcher::new], [ctrlc::set_handler], [read_dir],
    [Watcher::watch] and [File::create]. *)
Class Disk := {
  watcher_new : result ForeignError unit;
  set_handler : result ForeignError unit;
  read_dir : string -> result ForeignError (list (result ForeignError string));
  watch_dir : string -> result ForeignError unit;
  create_file : string -> result ForeignError unit;
}.

Section program.
Context `{Libraries} `{DependyLib} `{Env} `{DebugLog} `{Disk}.
Context (depth program_lines : nat).

(** [UnitWatcher::new], but for the thread it starts. *)
Definition unit_watcher_new : outcome unit :=
  match watcher_new with Ok _ => Done tt | Err e => Panic "Unable to create file watcher" end.

(** The handler of the interrupt signal is installed. *)
Definition install_handler : outcome unit :=
  match set_handler with Ok _ => Done tt | Err e => Panic "Error setting Ctrl-C handler" end.

(** The events of the loop over the configuration directories. *)
Fixpoint add_config_dirs (dirs : list string) : outcome (list UnitEvent) :=
  match dirs with
  | [] => Done []
  | config_dir :: dirs =>
    let '(evts, r) := add_path (read_dir config_dir) (watch_dir config_dir) in
    r ← r;
    match r with
    | Ok _ => rest ← add_config_dirs dirs; Done (evts ++ rest)
    | Err e => Panic ("Unable to add config directory " +:+ config_dir)
    end
  end.

Definition open_debug_log (o : option string) : outcome bool :=
  match o with
  | None => Done false
  | Some path => match create_file path with Ok _ => Done true | Err e => Panic "Couldn't create logfile" end
  end.

(** The main thread, the terminal's thread with its subscription, and whether
    the keyboard's thread runs. *)
Record Program := mkProgram {
  pg_main : Main;
  pg_terminal : Terminal;
  pg_terminal_chan : nat;
  pg_keyboard : bool;
}.

(** The broadcasts of the main thread with those of other threads in between:
    [others i] come before the main thread's broadcast number [i], or after its
    last one. *)
Fixpoint interleave (others : nat -> list UnitEvent) (i : nat) (own : list UnitEvent) : list UnitEvent :=
  match own with
  | [] => others i
  | e :: own => others i ++ e :: interleave others (S i) own
  end.

(** [main] up to its loop, while the handler of signals, the watcher's thread and
    the keyboard's may broadcast too: [early] comes before the terminal
    subscribes, [others] with the broadcasts of the main thread.  [now] is the
    clock of the timer, [time] that of the log entry. *)
Definition start_up (args : Args) (early : list UnitEvent) (others : nat -> list UnitEvent)
    (io : IO) (now : Z) (time : option (Z * Z)) (is_term : bool) : outcome Program :=
  let m := main_new io now bus_new in
  _ ← unit_watcher_new;
  _ ← install_handler;
  let '(terminal_chan, b) := subscribe (broadcast_all early (mn_bus m)) in
  evts ← add_config_dirs (ar_config_dirs args);
  let b := bus_log time "main" "Exclave initializing" (broadcast_all (interleave others 0 evts) b) in
  debug ← open_debug_log (ar_debug_log args);
  let b := broadcast_all (others (S (length evts))) b in
  Done (mkProgram (m <| mn_bus := b |> <| mn_debug := debug |>)
          (terminal_new (output_type args) is_term) terminal_chan (ar_keyboard args)).

(** ** What is announced *)

(** The files that a directory lists, up to the first that can not be read. *)
Definition listed (dir : string) : list string :=
  match read_dir dir with Ok entries => readable_entries entries | Err _ => [] end.

Definition dir_ok (dir : string) : Prop :=
  (exists entries, read_dir dir = Ok entries /\ Forall (fun r => is_ok r = true) entries) /\ is_ok (watch_dir dir) = true.

Lemma add_entries_ok entries : is_ok (add_entries entries).2 = true <-> Forall (fun r => is_ok r = true) entries.
Proof.
  induction entries as [|[path|e] entries IH]; simpl; [done| |].
  - destruct (add_entries entries) as [evts r]. rewrite Forall_cons. simpl in *. tauto.
  - split; [done|]. by intros [? _]%Forall_cons.
Qed.

Lemma add_path_ok dir : dir_ok dir <-> (add_path (read_dir dir) (watch_dir dir)).2 = Done (Ok tt).
Proof.
  unfold dir_ok, add_path. destruct (read_dir dir) as [entries|e]; [|split; [by intros [(? & ? & _) _]|done]].
  pose proof (add_entries_ok entries) as Hok. destruct (add_entries entries) as [evts [[]|e]]; simpl in *.
  - destruct (watch_dir dir) as [[]|e]; simpl; split; try done.
    + intros _. split; [exists entries; split; [done|tauto]|done].
    + by intros [_ ?].
  - split; [|done]. intros [(? & [= <-] & Hall) _]. by apply Hok in Hall.
Qed.

(** ... and the events for them. *)
Definition announced_files (dirs : list string) : list UnitEvent :=
  (dirs ≫= listed) ≫= fun path => status_events (new_added path).

Lemma add_entries_events entries :
  (add_entries entries).1 = readable_entries entries ≫= fun path => status_events (new_added path).
Proof.
  induction entries as [|[path|e] entries IH]; simpl; [done| |done].
  destruct (add_entries entries) as [evts r]. simpl in *. by rewrite IH.
Qed.

Lemma add_config_dirs_Done dirs evts : add_config_dirs dirs = Done evts ->
  Forall dir_ok dirs /\ evts = announced_files dirs.
Proof.
  revert evts. induction dirs as [|dir dirs IH]; intros evts; simpl; [by intros [= <-]|].
  pose proof (add_path_ok dir) as Hok.
  assert ((add_path (read_dir dir) (watch_dir dir)).1 = listed dir ≫= fun path => status_events (new_added path)) as Hevts.
  { unfold listed. destruct (read_dir dir) as [entries|e]; simpl; [|done]. rewrite <- add_entries_events.
    destruct (add_entries entries) as [evts1 []]; [by destruct (watch_dir dir)|done]. }
  destruct (add_path _ _) as [evts1 [[[]|e]|msg|]]; simpl in *; [|done..].
  destruct (add_config_dirs dirs) as [rest|msg|]; simpl; [|done..]. intros [= <-].
  destruct (IH rest eq_refl) as [Hdirs Hrest]. split; [constructor; [by apply Hok|done]|].
  rewrite Hrest, Hevts. unfold announced_files. simpl. symmetry. apply bind_app.
Qed.

(** They lead to one request each. *)
Lemma announced_requests dirs :
  requests (announced_files dirs) = (dirs ≫= listed) ≫= request_for UnitStatus.LoadStarted.
Proof.
  unfold announced_files. induction (dirs ≫= listed) as [|path paths IH]; [done|].
  rewrite !bind_cons, requests_app, IH. f_equal. by apply requests_status.
Qed.

Lemma add_config_dirs_ok dirs : Forall dir_ok dirs -> exists evts, add_config_dirs dirs = Done evts.
Proof.
  induction 1 as [|dir dirs Hdir _ [evts IH]]; [by eexists|]. simpl. apply add_path_ok in Hdir.
  destruct (add_path _ _) as [evts1 r]. simpl in Hdir. subst r. simpl. rewrite IH. by eexists.
Qed.

(** ** Runs *)

(** A run of the loop: the messages it handled, each with what the files held,
    and the events that were broadcast. *)
Inductive main_run m : list (Files * UnitEvent) -> list UnitEvent -> Main -> Prop :=
  | main_run_nil : main_run m [] [] m
  | main_run_snoc (files : Files) es bs m1 o evts m2 : main_run m es bs m1 ->
      main_step depth program_lines m1 o evts m2 ->
      (forall msg, o = Some msg -> message_ok program_lines (mn_library m1) msg) ->
      main_run m (es ++ (pair files <$> option_list o)) (bs ++ evts) m2.

Lemma main_run_reachable m es bs m' : main_reachable depth program_lines m -> main_run m es bs m' ->
  main_reachable depth program_lines m'.
Proof. intros Hr. induction 1; [done|]. by eapply main_next. Qed.

(** The library sees the messages, and nothing else changes it. *)
Lemma main_step_library `{Files} m o evts m' : main_step depth program_lines m o evts m' ->
  match o with
  | Some msg => library_process_message depth program_lines msg (mn_library m) = Done (tt, mn_library m')
  | None => mn_library m' = mn_library m
  end.
Proof.
  destruct 1 as [msg m1 m' _ Hrecv Hhandle|e es _|c cs _|c|e|t _]; try done.
  - apply recv_Some in Hrecv as (b & _ & ->). by apply handle_message_Done in Hhandle as (l' & Hrun & <- & _).
  - exact (proj1 (put_all_same _ (m <| mn_timer := t |>))).
Qed.

Lemma main_run_library m es bs m' : main_run m es bs m' ->
  lib_run depth program_lines (mn_library m) es (mn_library m').
Proof.
  induction 1 as [|files es bs m1 o evts m2 _ IH Hstep Hok]; [constructor|].
  apply main_step_library in Hstep. destruct o as [msg|]; simpl.
  - eapply lib_run_snoc; [exact IH|by apply Hok|exact Hstep].
  - by rewrite app_nil_r, Hstep.
Qed.

(** ** Nothing is lost on the way *)

Lemma inbox_step `{Files} m o evts m' : main_step depth program_lines m o evts m' -> Event.Shutdown ∉ evts ->
  subscribed m -> subscribed m' /\ option_list o ++ inbox m' = inbox m ++ evts.
Proof.
  assert (forall e m0, Event.Shutdown ∉ [e] -> subscribed m0 ->
    subscribed (put_on_bus e m0) /\ inbox (put_on_bus e m0) = inbox m0 ++ [e]) as Hput.
  { intros e m0 He Hs. apply not_elem_of_cons in He as [He _]. by apply broadcast_listens. }
  destruct 1 as [msg m1 m' _ Hrecv Hhandle|e es _|c cs _|c|e|t _]; intros Hns Hs; cbn [option_list app].
  - apply recv_Some in Hrecv as (b & Hb & ->).
    apply handle_message_Done in Hhandle as (l' & _ & _ & Hbus & Hchan & _). simpl in Hbus, Hchan.
    pose proof (chan_recv_open _ _ _ _ (mn_chan m) Hb) as Hopen. apply chan_recv_Some in Hb as (Hq & Hse & Hw).
    destruct Hs as (Hwf & Hin & Ho). unfold subscribed, inbox, listens. rewrite Hbus, Hchan, Hse, Hopen, app_nil_r, Hq.
    split_and!; [by apply Hw|done|done|done].
  - exact (Hput e (m <| mn_pending := es |>) Hns Hs).
  - exact (Hput _ (m <| mn_control := cs |>) Hns Hs).
  - by rewrite app_nil_r.
  - by apply Hput.
  - unfold subscribed, inbox. set (fired := newly_fired _ _) in *.
    destruct (put_all_same fired (m <| mn_timer := t |>)) as (_ & _ & _ & -> & _).
    destruct (put_all_bus fired (m <| mn_timer := t |>)) as [-> _]. by apply broadcast_all_listens.
Qed.

Lemma main_run_inbox m es bs m' : main_run m es bs m' -> Event.Shutdown ∉ bs -> subscribed m ->
  subscribed m' /\ es.*2 ++ inbox m' = inbox m ++ bs.
Proof.
  induction 1 as [|files es bs m1 o evts m2 _ IH Hstep _]; intros Hns Hs; [by rewrite app_nil_r|].
  apply not_elem_of_app in Hns as [Hns1 Hns2]. destruct (IH Hns1 Hs) as [Hs1 Hq].
  destruct (inbox_step _ _ _ _ Hstep Hns2 Hs1) as [Hs2 Hq2]. split; [done|].
  rewrite fmap_app, <- list_fmap_compose. replace ((snd ∘ pair files) <$> option_list o) with (option_list o) by (by destruct o).
  by rewrite <- app_assoc, Hq2, !app_assoc, Hq.
Qed.

(** The requests for what was handled are broadcast, in order. *)
Lemma pending_step `{Files} m o evts m' xs bs : main_step depth program_lines m o evts m' ->
  xs `sublist_of` bs ++ mn_pending m -> xs ++ requests (option_list o) `sublist_of` (bs ++ evts) ++ mn_pending m'.
Proof.
  assert (forall evts l, xs `sublist_of` bs ++ l -> xs ++ [] `sublist_of` (bs ++ evts) ++ l) as Hmore.
  { intros evts0 l Hxs. rewrite app_nil_r, <- app_assoc. etransitivity; [exact Hxs|].
    apply sublist_app; [done|]. by apply sublist_inserts_l. }
  destruct 1 as [msg m1 m' Hp Hrecv Hhandle|e es Hp|c cs _|c|e|t _]; intros Hxs; cbn [option_list].
  - rewrite Hp, app_nil_r in Hxs. apply handle_message_pending in Hhandle as [l ->]. unfold requests. simpl.
    rewrite !app_nil_r. apply sublist_app; [done|]. by apply sublist_inserts_r.
  - rewrite Hp in Hxs. rewrite app_nil_r, <- app_assoc. exact Hxs.
  - by apply Hmore.
  - by apply Hmore.
  - by apply Hmore.
  - destruct (put_all_bus (newly_fired (mn_timer m) t) (m <| mn_timer := t |>)) as [_ ->]. by apply Hmore.
Qed.

Lemma main_run_requests m es bs m' : main_run m es bs m' -> mn_pending m = [] ->
  requests es.*2 `sublist_of` bs ++ mn_pending m'.
Proof.
  intros Hrun Hp. induction Hrun as [|files es bs m1 o evts m2 _ IH Hstep _]; [by rewrite Hp|].
  rewrite fmap_app, <- list_fmap_compose, requests_app.
  replace ((snd ∘ pair files) <$> option_list o) with (option_list o) by (by destruct o).
  by eapply pending_step.
Qed.

(** ** The start *)

Definition is_status (e : UnitEvent) : Prop := match e with Event.Status _ => True | _ => False end.

Lemma announced_status dirs : Forall is_status (announced_files dirs).
Proof.
  assert (forall o, Forall is_status (status_events o)) as Hall by (intros [u|]; repeat constructor).
  apply Forall_bind, Forall_true. intros path. apply Hall.
Qed.

Lemma status_no_shutdown evts : Forall is_status evts -> Event.Shutdown ∉ evts.
Proof. intros Hall Hin. rewrite Forall_forall in Hall. by apply Hall in Hin. Qed.

Definition initializing (time : option (Z * Z)) : UnitEvent :=
  Event.Log (new_info time (internal "main") "Exclave initializing").

Lemma put_all_eq evts m : put_all evts m = m <| mn_bus := broadcast_all evts (mn_bus m) |>.
Proof.
  revert m. induction evts as [|e evts IH]; intros m; [by destruct m|].
  change (put_all (e :: evts) m) with (put_all evts (put_on_bus e m)). rewrite IH. done.
Qed.

Lemma outside_reachable `{Files} evts m : main_reachable depth program_lines m ->
  main_reachable depth program_lines (put_all evts m).
Proof.
  revert m. induction evts as [|e evts IH]; intros m Hr; [done|]. apply IH.
  by apply (main_next depth program_lines _ m None [e]); [|constructor|].
Qed.

Lemma interleave_snoc others i own e :
  interleave others i (own ++ [e]) = interleave others i own ++ e :: others (i + S (length own)).
Proof.
  revert i. induction own as [|e' own IH]; intros i; simpl.
  - do 3 f_equal. lia.
  - rewrite IH, <- app_assoc. simpl. do 5 f_equal. lia.
Qed.

Lemma interleave_own others i own e : e ∈ own -> e ∈ interleave others i own.
Proof.
  revert i. induction own as [|e' own IH]; intros i; [by intros ?%not_elem_of_nil|]. simpl.
  intros [->|Hin]%elem_of_cons; apply elem_of_app; right; [by left|right; by apply IH].
Qed.

Lemma interleave_elem others i own e : e ∈ interleave others i own -> e ∈ own \/ exists n, e ∈ others n.
Proof.
  revert i. induction own as [|e' own IH]; intros i; simpl; [intros Hin; right; by exists i|].
  intros [Hin|[->|Hin]%elem_of_cons]%elem_of_app; [right; by exists i|left; by left|].
  destruct (IH _ Hin) as [?|?]; [left; by right|by right].
Qed.

(** What the main thread and the terminal have in their queues when the loop
    begins, unless a shutdown was broadcast. *)
Definition first_events (args : Args) (others : nat -> list UnitEvent) (time : option (Z * Z)) : list UnitEvent :=
  interleave others 0 (announced_files (ar_config_dirs args) ++ [initializing time]).

Definition no_shutdown (early : list UnitEvent) (others : nat -> list UnitEvent) : Prop :=
  Event.Shutdown ∉ early /\ forall i, Event.Shutdown ∉ others i.

Lemma first_events_no_shutdown args early others time : no_shutdown early others ->
  Event.Shutdown ∉ first_events args others time.
Proof.
  intros [_ Hns] [[Hin|Hin%list_elem_of_singleton]%elem_of_app|[n Hin]]%interleave_elem; [|done|by apply (Hns n)].
  by apply (status_no_shutdown _ (announced_status _)) in Hin.
Qed.

(** The state that the start makes. *)
Lemma start_up_state `{Files} args early others io now time is_term p :
  start_up args early others io now time is_term = Done p ->
  exists debug, let '(c, b) := subscribe (broadcast_all early (subscribe bus_new).2) in
    p = mkProgram (main_new io now bus_new <| mn_bus := broadcast_all (first_events args others time) b |> <| mn_debug := debug |>)
          (terminal_new (output_type args) is_term) c (ar_keyboard args) /\
    is_ok watcher_new = true /\ is_ok set_handler = true /\ Forall dir_ok (ar_config_dirs args) /\
    (forall path, ar_debug_log args = Some path -> is_ok (create_file path) = true).
Proof.
  unfold start_up, unit_watcher_new, install_handler. destruct watcher_new as [?|?]; [|done]. destruct set_handler as [?|?]; [|done].
  cbn [mbind outcome_bind main_new mn_bus subscribe].
  destruct (add_config_dirs (ar_config_dirs args)) as [evts| |] eqn:Hevts; [|done..]. cbn [mbind outcome_bind].
  apply add_config_dirs_Done in Hevts as [Hdirs ->].
  destruct (open_debug_log _) as [debug| |] eqn:Hlog; [|done..]. intros [= <-]. exists debug.
  split_and!; [|done|done|done|].
  - do 3 f_equal. unfold first_events. rewrite interleave_snoc. unfold broadcast_all.
    rewrite fold_left_app. reflexivity.
  - intros path Hpath. rewrite Hpath in Hlog. simpl in Hlog. by destruct (create_file path).
Qed.

(** What both have in their queues when the loop begins. *)
Lemma start_up_reachable `{Files} args early others io now time is_term p :
  start_up args early others io now time is_term = Done p -> main_reachable depth program_lines (pg_main p).
Proof.
  intros (debug & -> & _)%start_up_state. simpl.
  pose proof (outside_reachable early _ (main_start depth program_lines io now bus_new bus_new_wf)) as Hr.
  apply main_subscribed, (outside_reachable (first_events args others time)) in Hr. rewrite !put_all_eq in Hr.
  destruct debug; [by apply main_debug in Hr|exact Hr].
Qed.

Lemma start_up_Done `{Files} args early others io now time is_term p :
  start_up args early others io now time is_term = Done p -> no_shutdown early others ->
    subscribed (pg_main p) /\ inbox (pg_main p) = early ++ first_events args others time /\
    queue_of (mn_bus (pg_main p)) (pg_terminal_chan p) = first_events args others time /\
    mn_pending (pg_main p) = [] /\ mn_library (pg_main p) = library_new io.
Proof.
  intros (debug & -> & _)%start_up_state Hns. simpl.
  destruct (subscribe_listens bus_new bus_new_wf) as [Hl0 Hq0].
  destruct (broadcast_all_listens early _ _ (proj1 Hns) Hl0) as [Hl1 Hq1]. rewrite Hq0 in Hq1.
  destruct (subscribe_other _ _ Hl1) as [Hl2 Hq2]. rewrite Hq1 in Hq2.
  destruct (subscribe_listens _ (proj1 Hl1)) as [Hl3 Hq3].
  pose proof (first_events_no_shutdown args early others time Hns) as Hno.
  destruct (broadcast_all_listens _ _ _ Hno Hl2) as [Hl4 Hq4]. rewrite Hq2 in Hq4.
  destruct (broadcast_all_listens _ _ _ Hno Hl3) as [_ Hq5]. rewrite Hq3 in Hq5.
  split_and!; [exact Hl4|exact Hq4|exact Hq5|done|done].
Qed.

(** ** Guarantees *)

(** (C22) The program starts when, and only when, the file watcher can be made,
    the handler of the interrupt signal can be set, every configuration directory
    can be listed and watched and the debug log can be made, whatever other
    threads broadcast meanwhile.  The loop is then in a state of a run.  Unless a
    shutdown was among those broadcasts, the terminal finds the files of the
    directories that are named like units, in the order they are listed, then a
    log entry, with the broadcasts of the other threads in between, and the main
    loop finds the same after what was broadcast before the terminal subscribed.
    What the start announces leads to one request to load each unit file, in
    this order. *)
Theorem start_up_announces `{Files} args early others io now time is_term :
  ((exists p, start_up args early others io now time is_term = Done p) <->
     is_ok watcher_new = true /\ is_ok set_handler = true /\ Forall dir_ok (ar_config_dirs args) /\
     (forall path, ar_debug_log args = Some path -> is_ok (create_file path) = true)) /\
  requests (announced_files (ar_config_dirs args)) = (ar_config_dirs args ≫= listed) ≫= request_for UnitStatus.LoadStarted /\
  forall p, start_up args early others io now time is_term = Done p ->
    main_reachable depth program_lines (pg_main p) /\
    (no_shutdown early others ->
      queue_of (mn_bus (pg_main p)) (pg_terminal_chan p) =
        interleave others 0 (announced_files (ar_config_dirs args) ++ [initializing time]) /\
      inbox (pg_main p) = early ++ queue_of (mn_bus (pg_main p)) (pg_terminal_chan p)).
Proof.
  split_and!.
  - split.
    + by intros [p (debug & _ & Hall)%start_up_state].
    + intros (Hw & Hh & [evts Hevts]%add_config_dirs_ok & Hlog). unfold start_up, unit_watcher_new, install_handler.
      destruct watcher_new; [|done]. destruct set_handler; [|done].
      cbn [mbind outcome_bind subscribe main_new mn_bus]. rewrite Hevts.
      simpl. unfold open_debug_log. destruct (ar_debug_log args) as [path|]; [|by eexists].
      specialize (Hlog path eq_refl). destruct (create_file path); [by eexists|done].
  - apply announced_requests.
  - intros p Hp. split; [by eapply start_up_reachable|]. intros Hns.
    destruct (start_up_Done _ _ _ _ _ _ _ _ Hp Hns) as (_ & -> & -> & _). done.
Qed.

Context `{!EnvLaws} `{!DependyLaws} (depth_enough : 4 <= depth).

(** A request that was handled is a wish. *)
Lemma last_wish_Some es (files : Files) e name w id : (files, e) ∈ es -> wish_of e = Some (name, w) -> name = id ->
  is_Some (last_wish es id).
Proof.
  intros Hin Hw <-. unfold last_wish. induction es as [|p es IH] using rev_ind; [by apply not_elem_of_nil in Hin|].
  rewrite foldl_app. simpl. unfold next_wish at 1. apply elem_of_app in Hin as [Hin|Hin%list_elem_of_singleton].
  - specialize (IH Hin). destruct (wish_of p.2) as [[n w']|]; [|done]. by case_bool_decide.
  - subst p. simpl. rewrite Hw, bool_decide_eq_true_2; [by eexists|done].
Qed.

Lemma load_wish `{Files} name path : un_kind name <> UnitKind.Internal ->
  exists w, wish_of (Event.Status (mkStatusEvent name (UnitStatus.LoadStarted path))) = Some (name, w).
Proof. intros Hk. simpl. destruct (un_kind name); try done; by eexists. Qed.

(** Messages that are handled up to a point, when nothing else is left but the
    next rescan: the requests of the first ones are among them. *)
Lemma requests_handled m es bs m1 e e' : main_run m es bs m1 -> Event.Shutdown ∉ bs -> subscribed m ->
  mn_pending m = [] -> mn_pending m1 = [] -> inbox m1 = [Event.RescanRequest] ->
  e ∈ inbox m -> is_status e -> e' ∈ loader_process_message e -> is_status e' -> e' ∈ es.*2.
Proof.
  intros Hrun Hns Hs Hp Hp1 Hq He Hst He' Hst'. destruct (main_run_inbox _ _ _ _ Hrun Hns Hs) as [_ Hall].
  pose proof (main_run_requests _ _ _ _ Hrun Hp) as Hreq. rewrite Hp1, app_nil_r in Hreq. rewrite Hq in Hall.
  assert (forall x, is_status x -> x ∈ inbox m ++ bs -> x ∈ es.*2) as Hin.
  { intros x Hx. rewrite <- Hall. intros [Hx'|Hx']%elem_of_app; [done|]. by apply list_elem_of_singleton in Hx' as ->. }
  apply Hin; [done|]. apply elem_of_app. right. eapply elem_of_sublist; [|exact Hreq].
  unfold requests. apply list_elem_of_bind. exists e. split; [done|]. apply Hin; [done|]. apply elem_of_app. by left.
Qed.

Lemma elem_of_snds (es : list (Files * UnitEvent)) e : e ∈ es.*2 -> exists files, (files, e) ∈ es.
Proof. intros ([files e'] & -> & Hin)%list_elem_of_fmap. by exists files. Qed.

(** At the start no unit is known; only what has a status is loaded again. *)
Lemma new_knows_nothing io id : known (library_new io) id = (None, None, None).
Proof. unfold known, described_as, loaded_as, scenario_named. simpl. by destruct (un_kind id). Qed.

Lemma to_reload_status l id : lib_inv program_lines l -> to_reload l id -> is_Some (lb_status l !! id).
Proof.
  intros Hinv Hid. pose proof (mark_test_dependents_inv _ _ (mark_jig_dependents_inv _ _ Hinv)) as Hinv2.
  apply (li_dirty _ _ Hinv2) in Hid as [_ Hd]. by apply elem_of_dom in Hd.
Qed.

(** The first rescan grants what was last asked. *)
Lemma first_rescan `{Files} args early others io now time is_term p es bs m1 :
  start_up args early others io now time is_term = Done p -> no_shutdown early others ->
  main_run (pg_main p) es bs m1 -> no_rescan es ->
  mn_pending m1 = [] -> inbox m1 = [Event.RescanRequest] -> small (mn_library m1) -> log_ok m1 ->
  exists m1' m2, recv m1 = Some (Event.RescanRequest, m1') /\
    handle_message depth program_lines Event.RescanRequest m1' = Done m2 /\ main_reachable depth program_lines m2 /\
    forall id, un_kind id <> UnitKind.Internal ->
      LibraryFiles.follows (last_wish (heard es) id) (library_new io) (mn_library m1) id /\
      granted (last_wish (heard es) id) (mn_library m1) (mn_library m2) id.
Proof.
  intros Hstart Hns0 Hrun Hno Hp1 Hq Hsmall Hlog. pose proof (start_up_reachable _ _ _ _ _ _ _ _ Hstart) as Hr0.
  apply start_up_Done in Hstart as (_ & _ & _ & _ & Hl0); [|done].
  pose proof (main_run_reachable _ _ _ _ Hr0 Hrun) as Hr1.
  assert (exists m1', recv m1 = Some (Event.RescanRequest, m1')) as [m1' Hrecv].
  { unfold recv, chan_recv. unfold inbox, queue_of in Hq. destruct (bus_chans _ !! _) as [[o q]|]; [|done].
    simpl in Hq. subst q. by eexists. }
  destruct (handle_message_run depth program_lines depth_enough m1 Event.RescanRequest m1' Hr1 Hp1 Hrecv Hsmall Hlog)
    as (m2 & Hhandle & Hr2 & Hmsg & _).
  pose proof (main_reachable_inv depth program_lines m1 Hr1) as [_ Hl1 _ _].
  destruct (rescan_message depth program_lines depth_enough _ _ Hl1 Hmsg) as [_ Hg].
  pose proof (main_run_library _ _ _ _ Hrun) as Hlib. rewrite Hl0 in Hlib.
  exists m1', m2. split_and!; [done|done|done|]. intros id Hk.
  pose proof (lib_run_follows depth program_lines depth_enough _ es _ id Hlib Hno Hk) as Hf.
  split; [done|]. by eapply Hg.
Qed.

(** Each file of the configuration directories was asked for. *)
Lemma configured_wish `{Files} args early others io now time is_term p es bs m1 dir path name :
  start_up args early others io now time is_term = Done p -> no_shutdown early others ->
  main_run (pg_main p) es bs m1 -> Event.Shutdown ∉ bs -> mn_pending m1 = [] -> inbox m1 = [Event.RescanRequest] ->
  dir ∈ ar_config_dirs args -> path ∈ listed dir -> from_path path = Ok name ->
  un_kind name <> UnitKind.Internal /\ exists w, last_wish (heard es) name = Some w.
Proof.
  intros Hstart Hns0 Hrun Hns Hp1 Hq Hdir Hpath Hname.
  destruct (start_up_Done _ _ _ _ _ _ _ _ Hstart Hns0) as (Hs & Hq0 & _ & Hp0 & _).
  pose proof (from_path_valid path name Hname) as (_ & _ & Hk). split; [done|].
  set (e' := Event.Status (mkStatusEvent name (UnitStatus.LoadStarted path))).
  assert (exists e, e ∈ announced_files (ar_config_dirs args) /\ e' ∈ loader_process_message e) as (e & He & He').
  { assert (e' ∈ requests (announced_files (ar_config_dirs args))) as Hin;
      [|apply list_elem_of_bind in Hin as (e & ? & ?); by exists e].
    rewrite announced_requests. apply list_elem_of_bind. exists path. split; [unfold request_for; rewrite Hname; by left|].
    apply list_elem_of_bind. by exists dir. }
  assert (e' ∈ es.*2) as (files & Hin)%elem_of_snds.
  { eapply (requests_handled (pg_main p)); try done; [|by destruct e; try done; apply not_elem_of_nil in He'].
    rewrite Hq0. apply elem_of_app. right. apply interleave_own, elem_of_app. by left. }
  destruct (@load_wish files name path Hk) as [w' Hw'].
  assert ((files, e') ∈ heard es) as Hheard by (by apply list_elem_of_filter).
  exact (last_wish_Some (heard es) files _ name w' name Hheard Hw' eq_refl).
Qed.

(** (C8) Every unit that is there at the start is taken up: let the program run
    from a start without a shutdown, in any interleaving of its threads and with
    anything else broadcast but a shutdown, as long as each message that is
    handled keeps to the conditions of a run ([message_ok]: the interfaces speak
    text, the programs of jigs end, the scenarios have no time limit, a requester
    is loaded, and a scenario is inactive when its end comes), up to the first
    rescan, which the main loop finds when it has nothing else left to do.  If
    the books are small enough and the debug log can be written, the rescan is
    handled.  Each file of the configuration directories that is named like a
    unit was asked for, and the rescan grants what was last asked, the updates of
    tests, which the code does not act on, left aside: the unit is loaded with the
    description its file had, or noted as failed, or - if its file could not be
    read or was removed meanwhile - unknown.  Units that no one spoke of are
    unknown too. *)
Theorem configured_units_settled `{Files} args early others io now time is_term p es bs m1 :
  start_up args early others io now time is_term = Done p -> no_shutdown early others -> main_run (pg_main p) es bs m1 ->
  Event.Shutdown ∉ bs -> no_rescan es -> mn_pending m1 = [] -> inbox m1 = [Event.RescanRequest] ->
  small (mn_library m1) -> log_ok m1 ->
  exists m1' m2, recv m1 = Some (Event.RescanRequest, m1') /\
    handle_message depth program_lines Event.RescanRequest m1' = Done m2 /\ main_reachable depth program_lines m2 /\
    (forall dir path name, dir ∈ ar_config_dirs args -> path ∈ listed dir -> from_path path = Ok name ->
       exists w, last_wish (heard es) name = Some w /\ granted (Some w) (mn_library m1) (mn_library m2) name) /\
    (forall id, un_kind id <> UnitKind.Internal -> last_wish (heard es) id = None ->
       known (mn_library m2) id = (None, None, None)).
Proof.
  intros Hstart Hns0 Hrun Hns Hno Hp1 Hq Hsmall Hlog.
  destruct (first_rescan _ _ _ _ _ _ _ _ _ _ _ Hstart Hns0 Hrun Hno Hp1 Hq Hsmall Hlog) as (m1' & m2 & Hrecv & Hhandle & Hr2 & Hg).
  exists m1', m2. split_and!; [done|done|done| |].
  - intros dir path name Hdir Hpath Hname.
    destruct (configured_wish _ _ _ _ _ _ _ _ _ _ _ _ _ _ Hstart Hns0 Hrun Hns Hp1 Hq Hdir Hpath Hname) as [Hk [w Hw]].
    exists w. split; [done|]. rewrite <- Hw. by apply Hg.
  - intros id Hk Hnone. destruct (Hg id Hk) as [Hf Hgr]. rewrite Hnone in Hf, Hgr. destruct Hf as [Hf _].
    rewrite new_knows_nothing in Hf. rewrite <- Hf. apply Hgr. intros Hid.
    pose proof (main_run_reachable _ _ _ _ (start_up_reachable _ _ _ _ _ _ _ _ Hstart) Hrun) as Hr1.
    pose proof (lib_reachable_inv depth program_lines depth_enough _ (mn_lib _ _ _ (main_reachable_inv _ _ _ Hr1))) as Hinv.
    apply to_reload_status in Hid as [st Hst]; [|done]. unfold known in Hf. congruence.
Qed.

(** ** The timer at the start *)

Lemma fired_prefix t t' : worker_step t t' \/ wake_step t t' \/ clock_step t t' ->
  wk_fired (mc_worker t) `prefix_of` wk_fired (mc_worker t').
Proof.
  intros [Hs|[Hs|Hs]]; [|by destruct Hs..]. destruct Hs as [a q _ Hq| |i w _ _ Hfire| | |]; try done.
  - destruct (drain_timers a q t Hq) as (_ & Hf & _). by rewrite Hf.
  - destruct (fire_event_Some _ _ _ _ Hfire) as (e & _ & _ & [(_ & _ & Hf)|(_ & _ & Hf)]); simpl; rewrite Hf; [done|by eexists].
Qed.

(** No timer fires while no rescan is requested, and the timer is restarted by
    what is handled. *)
Lemma timer_step `{Files} m o evts m' : main_step depth program_lines m o evts m' ->
  mc_sent (mn_timer m) `prefix_of` mc_sent (mn_timer m') /\
  (forall msg, o = Some msg -> restarts msg = true -> mc_sent (mn_timer m') <> []) /\
  (Event.RescanRequest ∉ evts -> wk_fired (mc_worker (mn_timer m')) = wk_fired (mc_worker (mn_timer m))).
Proof.
  destruct 1 as [msg m1 m' _ Hrecv Hhandle|e es _|c cs _|c|e|t Hs]; try done.
  - apply recv_Some in Hrecv as (b & _ & ->). apply handle_message_Done in Hhandle as (_ & _ & _ & _ & _ & _ & ->).
    simpl. unfold quiesce_process_message, on_message. destruct (restarts msg) eqn:Hre; simpl.
    + split_and!; [by eexists|intros _ _ _; by destruct (mc_sent (mn_timer m))|done].
    + split_and!; [done|intros ? [= <-]; by rewrite Hre|done].
  - destruct (put_all_same (newly_fired (mn_timer m) t) (m <| mn_timer := t |>)) as (_ & -> & _). simpl.
    split_and!; [|done|].
    + apply step_sent. destruct Hs as [?|[?|?]]; [by apply by_worker|by apply by_wake|by apply by_clock].
    + intros Hno. destruct (fired_prefix _ _ Hs) as [fired Hf]. unfold newly_fired in Hno. rewrite Hf, drop_app_length in Hno.
      rewrite Hf. destruct fired as [|f fired]; [by rewrite app_nil_r|]. exfalso. apply Hno. by left.
Qed.

Lemma main_run_timer m es bs m' : main_run m es bs m' ->
  mc_sent (mn_timer m) `prefix_of` mc_sent (mn_timer m') /\
  (forall msg, msg ∈ es.*2 -> restarts msg = true -> mc_sent (mn_timer m') <> []) /\
  (Event.RescanRequest ∉ bs -> wk_fired (mc_worker (mn_timer m')) = wk_fired (mc_worker (mn_timer m))).
Proof.
  induction 1 as [|files es bs m1 o evts m2 _ (IHs & IHr & IHf) Hstep _].
  { split_and!; [done|by intros msg ?%not_elem_of_nil|done]. }
  destruct (timer_step _ _ _ _ Hstep) as (Hs & Hr & Hf). split_and!; [by etransitivity| |].
  - intros msg Hin Hre. rewrite fmap_app in Hin. apply elem_of_app in Hin as [Hin|Hin].
    + specialize (IHr msg Hin Hre). destruct Hs as [k Hs]. intros Hnil. rewrite Hs in Hnil. by apply app_nil in Hnil as [? _].
    + destruct o as [msg'|]; [|by apply not_elem_of_nil in Hin]. simpl in Hin. apply list_elem_of_singleton in Hin as ->. by apply (Hr msg').
  - intros Hno. apply not_elem_of_app in Hno as [Hno1 Hno2]. rewrite Hf, IHf; done.
Qed.

Lemma quiet_run_main_run `{Files} m0 es bs m n m' : main_run m0 es bs m -> Event.Shutdown ∉ bs -> quiet_run m n m' ->
  exists bs', main_run m0 es bs' m' /\ Event.Shutdown ∉ bs'.
Proof.
  intros Hrun Hns. assert (forall m1 m2, moves thread_step m1 m2 \/ moves clock_step m1 m2 ->
    (exists bs', main_run m0 es bs' m1 /\ Event.Shutdown ∉ bs') -> exists bs', main_run m0 es bs' m2 /\ Event.Shutdown ∉ bs') as Hstep.
  { intros m1 m2 Hm (bs' & Hrun1 & Hns1). apply (moves_main_step depth program_lines) in Hm.
    eexists. split; [|apply not_elem_of_app; split; [exact Hns1|]].
    - pose proof (main_run_snoc m0 _ es bs' m1 None _ m2 Hrun1 Hm ltac:(done)) as Hr. simpl in Hr. by rewrite app_nil_r in Hr.
    - unfold newly_fired. by intros (? & [=] & _)%list_elem_of_fmap. }
  induction 1 as [|n m1 m2 _ IH Hm|n m1 m2 _ IH Hm]; [by exists bs|apply (Hstep m1); tauto..].
Qed.

(** At the start the timer is armed, once the first messages are handled. *)
Lemma started_armed `{Files} args early others io now time is_term p es bs m1 :
  start_up args early others io now time is_term = Done p -> no_shutdown early others ->
  main_run (pg_main p) es bs m1 -> Event.Shutdown ∉ bs -> no_rescan es ->
  inbox m1 = [] -> few (mn_timer m1) -> subscribed m1 /\ armed (mn_timer m1).
Proof.
  intros Hstart Hns0 Hrun Hns Hno Hin Hfew. pose proof (start_up_reachable _ _ _ _ _ _ _ _ Hstart) as Hr0.
  destruct (start_up_Done _ _ _ _ _ _ _ _ Hstart Hns0) as (Hs & Hq0 & _).
  destruct (main_run_inbox _ _ _ _ Hrun Hns Hs) as [Hs1 Hall]. split; [done|]. rewrite Hin, app_nil_r, Hq0 in Hall.
  destruct (main_run_timer _ _ _ _ Hrun) as (_ & Hsent & Hfired).
  pose proof (main_run_reachable _ _ _ _ Hr0 Hrun) as Hr1.
  destruct (main_reachable_inv depth program_lines m1 Hr1) as [_ _ [now1 Ht] _].
  pose proof (machine_reachable_inv _ _ _ Ht Hfew) as Hinv. split.
  - rewrite (iv_counter _ Hinv). specialize (Hsent (initializing time)). destruct (mc_sent (mn_timer m1)); simpl; [|lia].
    exfalso. apply Hsent; [|done|done]. rewrite Hall. apply elem_of_app. left. apply elem_of_app. right.
    apply interleave_own, elem_of_app. right. by left.
  - rewrite Hfired; [|intros Hb; apply Hno; rewrite Hall; apply elem_of_app; by right].
    apply start_up_state in Hstart as (debug & -> & _). simpl. apply not_elem_of_nil.
Qed.

(** (C9) The program takes up its unit files by itself: let it run from a start
    without a shutdown to a moment when everything is handled and no rescan was
    requested yet, each message that was handled having kept to the conditions of
    a run ([message_ok], as for the units that are settled), the books being small
    enough and the debug log one that can be written.  If then nothing more comes
    and the timer's last notification is not lost, the rescan comes as
    [rescan_comes] says: one request, when the last timer is due, which is within
    the delay, and not before, the thread never being stuck and its steps bounded
    once the timer is due.  In every such run the main loop, when it finds the
    request, handles it, and each file of the configuration directories that is
    named like a unit was asked for and is granted what was last asked, the
    updates of tests, which the code does not act on, left aside. *)
Theorem configured_units_come_up `{Files} args early others io now time is_term p es bs m1 :
  start_up args early others io now time is_term = Done p -> no_shutdown early others -> main_run (pg_main p) es bs m1 ->
  Event.Shutdown ∉ bs -> no_rescan es -> mn_pending m1 = [] -> inbox m1 = [] ->
  few (mn_timer m1) -> alert (mn_timer m1) -> small (mn_library m1) -> log_ok m1 ->
  (exists e, last (mc_sent (mn_timer m1)) = Some e /\ (sv_when e <= mc_now (mn_timer m1) + quiesce_delay)%Z /\
     rescan_comes m1 (sv_when e)) /\
  forall n m2, quiet_run m1 n m2 -> inbox m2 <> [] ->
    exists m2' m3, recv m2 = Some (Event.RescanRequest, m2') /\
      handle_message depth program_lines Event.RescanRequest m2' = Done m3 /\
      forall dir path name, dir ∈ ar_config_dirs args -> path ∈ listed dir -> from_path path = Ok name ->
        exists w, last_wish (heard es) name = Some w /\ granted (Some w) (mn_library m1) (mn_library m3) name.
Proof.
  intros Hstart Hns0 Hrun Hns Hno Hp1 Hin Hfew Hal Hsmall Hlog.
  destruct (started_armed _ _ _ _ _ _ _ _ _ _ _ Hstart Hns0 Hrun Hns Hno Hin Hfew) as [Hsub Harm].
  pose proof (start_up_reachable _ _ _ _ _ _ _ _ Hstart) as Hr0.
  destruct (quiet_moment depth program_lines depth_enough m1 (main_run_reachable _ _ _ _ Hr0 Hrun) Hfew Hsub Hin Harm Hal)
    as (e & Hlast & Hdue & Hst).
  split; [exists e; split_and!; [done|done|by apply quiet_state_comes]|]. intros n m2 Hq Hne.
  destruct (quiet_run_state e m1 m1 n m2 Hst Hq) as ([_ _ (Hlib & Hp2 & _ & _ & _ & Hdebug) Hin2] & _).
  assert (inbox m2 = [Event.RescanRequest]) as Hin2' by (by destruct Hin2 as [[? _]|[? _]]).
  destruct (quiet_run_main_run _ _ _ _ _ _ Hrun Hns Hq) as (bs2 & Hrun2 & Hns2).
  rewrite <- Hlib in Hsmall. rewrite <- Hp2 in Hp1.
  assert (log_ok m2) as Hlog2 by (unfold log_ok; by rewrite Hdebug).
  destruct (first_rescan _ _ _ _ _ _ _ _ _ _ _ Hstart Hns0 Hrun2 Hno Hp1 Hin2' Hsmall Hlog2) as (m2' & m3 & Hrecv & Hhandle & _ & Hg).
  exists m2', m3. rewrite <- Hlib. split_and!; [done|done|]. intros dir path name Hdir Hpath Hname.
  destruct (configured_wish _ _ _ _ _ _ _ _ _ _ _ _ _ _ Hstart Hns0 Hrun2 Hns2 Hp1 Hin2' Hdir Hpath Hname) as [Hk [w Hw]].
  exists w. split; [done|]. rewrite <- Hw. by apply Hg.
Qed.

End program.

(** ** A run of the program *)

Module SampleProgram.
Import LibraryTheorems.SampleLibrary Main.SampleMain.

(** One directory with a test and a file that is no unit's. *)
#[export] Instance disk : Disk := {|
  watcher_new := Ok tt;
  set_handler := Ok tt;
  read_dir _ := Ok [Ok "/units/a.test"; Ok "/units/README"];
  watch_dir _ := Ok tt;
  create_file _ := Ok tt;
|}.

Definition args : Args := mkArgs ["/units"] false true None false.
Definition io0 : IO := mkIO config_new 0 [].

(** Someone presses the enter key after the first file was announced. *)
Definition pressed : UnitEvent := Event.ManagerRequest (mkCtrl (internal "terminal") (Ctrl.StartScenario None)).
Definition others (i : nat) : list UnitEvent := match i with 1 => [pressed] | _ => [] end.

Lemma none_shut : no_shutdown [] others.
Proof.
  split; [apply not_elem_of_nil|]. intros [|[|i]]; simpl; [apply not_elem_of_nil| |apply not_elem_of_nil].
  apply not_elem_of_cons. split; [discriminate|apply not_elem_of_nil].
Qed.

Definition p0 : Program :=
  match start_up args [] others io0 0 None true with
  | Done p => p
  | _ => mkProgram (main_new io0 0 bus_new) (terminal_new None true) 0 false
  end.

Lemma p0_started : start_up args [] others io0 0 None true = Done p0.
Proof. unfold p0. destruct (start_up args [] others io0 0 None true) eqn:Hp; [done|vm_compute in Hp; discriminate..]. Qed.

Lemma start_up_announces_witness :
  inbox (pg_main p0) = [Event.Status (mkStatusEvent a (UnitStatus.Added "/units/a.test")); pressed; initializing None] /\
  main_reachable 4 0 (pg_main p0).
Proof.
  destruct (start_up_announces 4 0 args [] others io0 0 None true) as (_ & _ & Hall).
  destruct (Hall p0 p0_started) as (Hr & Hq). split; [|exact Hr].
  destruct (Hq none_shut) as [Hterminal Hmain]. rewrite Hmain, Hterminal. vm_compute. reflexivity.
Defined.

Definition handled (m : Main) : Main :=
  match recv m with
  | Some (msg, m1) => match handle_message 4 0 msg m1 with Done m' => m' | _ => m end
  | None => m
  end.

Definition flushed (m : Main) : Main :=
  match mn_pending m with e :: es => put_on_bus e (m <| mn_pending := es |>) | [] => m end.

Lemma handled_run m0 es bs m msg : main_reachable 4 0 m0 -> main_run 4 0 m0 es bs m -> mn_pending m = [] ->
  fst <$> recv m = Some msg -> message_ok 0 (mn_library m) msg -> main_run 4 0 m0 (es ++ [(files, msg)]) (bs ++ []) (handled m).
Proof.
  intros Hr Hrun Hp Hrecv Hok. destruct (recv m) as [[msg' m1]|] eqn:Hrecv1; [|done]. injection Hrecv as ->.
  destruct (handle_message_run 4 0 ltac:(lia) m msg m1) as (m' & Hhandle & _);
    [by eapply main_run_reachable|done|done|done|by intros _ n text|].
  unfold handled. rewrite Hrecv1, Hhandle.
  apply (main_run_snoc 4 0 m0 files es bs m (Some msg) [] m' Hrun); [by eapply main_handle|by intros ? [= <-]].
Qed.

Lemma flushed_run m0 es bs m e : main_run 4 0 m0 es bs m -> head (mn_pending m) = Some e ->
  main_run 4 0 m0 (es ++ []) (bs ++ [e]) (flushed m).
Proof.
  intros Hrun He. unfold flushed. destruct (mn_pending m) as [|e' rest] eqn:Hp; [done|]. injection He as ->.
  by apply (main_run_snoc 4 0 m0 files es bs m None [e]); [|by constructor|].
Qed.

Definition added : UnitEvent := Event.Status (mkStatusEvent a (UnitStatus.Added "/units/a.test")).
Definition counted : UnitEvent := Event.Category (mkCategoryEvent UnitKind.Test "Number of units on disk: 1").

Definition refused : UnitEvent := Event.Log (mkLogEntry (internal "terminal") LogError
  "unable to start scenario: no scenario selected and no scenario specified" 0 0).

(** The file is announced, requested and read, and the key is of no use; then the
    rescan is requested. *)
Definition m3 : Main :=
  handled (handled (flushed (handled (handled (flushed (handled (flushed (handled (pg_main p0))))))))).
Definition m4 : Main := put_on_bus Event.RescanRequest m3.

Definition sample_history : list (Files * UnitEvent) :=
  [(files, added); (files, pressed); (files, initializing None); (files, found a "/units/a.test"); (files, refused);
   (files, counted)].

Definition sample_broadcasts : list UnitEvent := [found a "/units/a.test"; refused; counted].

Lemma p0_reachable : main_reachable 4 0 (pg_main p0).
Proof. exact (start_up_reachable 4 0 args [] others io0 0 None true p0 p0_started). Qed.

Ltac computed := vm_compute; reflexivity.

Lemma m3_run : main_run 4 0 (pg_main p0) sample_history sample_broadcasts m3.
Proof.
  pose proof p0_reachable as Hr. pose proof (main_run_nil 4 0 (pg_main p0)) as R.
  apply (handled_run _ _ _ _ added Hr) in R; [|computed|computed|done].
  apply (flushed_run _ _ _ _ (found a "/units/a.test")) in R; [|computed].
  apply (handled_run _ _ _ _ pressed Hr) in R; [|computed|computed|by split].
  apply (flushed_run _ _ _ _ refused) in R; [|computed].
  apply (handled_run _ _ _ _ (initializing None) Hr) in R; [|computed|computed|done].
  apply (handled_run _ _ _ _ (found a "/units/a.test") Hr) in R; [|computed|computed|split; [computed|apply readable_a]].
  apply (flushed_run _ _ _ _ counted) in R; [|computed].
  apply (handled_run _ _ _ _ refused Hr) in R; [|computed|computed|done].
  apply (handled_run _ _ _ _ counted Hr) in R; [|computed|computed|done].
  exact R.
Qed.

Lemma m4_run : main_run 4 0 (pg_main p0) sample_history (sample_broadcasts ++ [Event.RescanRequest]) m4.
Proof.
  exact (main_run_snoc 4 0 (pg_main p0) files _ _ m3 None [Event.RescanRequest] m4 m3_run
    (main_outside 4 0 m3 Event.RescanRequest) ltac:(discriminate)).
Qed.

Lemma configured_units_settled_witness : exists m5,
  main_reachable 4 0 m5 /\ exists w, last_wish (heard sample_history) a = Some w /\ granted (Some w) (mn_library m4) (mn_library m5) a.
Proof.
  destruct (configured_units_settled 4 0 ltac:(lia) args [] others io0 0 None true p0 sample_history
    (sample_broadcasts ++ [Event.RescanRequest]) m4 p0_started none_shut m4_run) as (m1' & m5 & _ & _ & Hr & Hall & _).
  - repeat (apply not_elem_of_cons; split; [discriminate|]). apply not_elem_of_nil.
  - repeat (apply not_elem_of_cons; split; [discriminate|]). apply not_elem_of_nil.
  - computed.
  - computed.
  - apply small_by_size. computed.
  - intros _ n text. reflexivity.
  - refine (ex_intro _ m5 (conj Hr (Hall "/units" "/units/a.test" a _ _ _))).
    + apply list_elem_of_here.
    + apply list_elem_of_here.
    + computed.
Defined.

Lemma configured_units_come_up_witness : exists n m5 m5' m6, quiet_run m3 n m5 /\
  recv m5 = Some (Event.RescanRequest, m5') /\ handle_message 4 0 Event.RescanRequest m5' = Done m6 /\
  exists w, last_wish (heard sample_history) a = Some w /\ granted (Some w) (mn_library m3) (mn_library m6) a.
Proof.
  destruct (configured_units_come_up 4 0 ltac:(lia) args [] others io0 0 None true p0 sample_history
    sample_broadcasts m3 p0_started none_shut m3_run) as [(e & _ & _ & _ & n & m5 & Hrun & Hin) Hall].
  - repeat (apply not_elem_of_cons; split; [discriminate|]). apply not_elem_of_nil.
  - repeat (apply not_elem_of_cons; split; [discriminate|]). apply not_elem_of_nil.
  - computed.
  - computed.
  - apply SampleQuiesce.few_by_length. computed.
  - vm_compute. exact I.
  - apply small_by_size. computed.
  - intros _ k text. reflexivity.
  - destruct (Hall n m5 Hrun) as (m5' & m6 & Hrecv & Hhandle & Hg); [rewrite Hin; discriminate|].
    exists n, m5, m5', m6. split_and!; [exact Hrun|exact Hrecv|exact Hhandle|].
    apply (Hg "/units" "/units/a.test"); [apply list_elem_of_here|apply list_elem_of_here|computed].
Defined.

End SampleProgram.
