(* ===== verification/UnitTests.v ===== *)
(** * The unit tests of the repository ([src/src/test.rs])

    The harness of the unit tests and the tests themselves, run on the model.
    They pass when the threads that log the output of a command come before the
    thread that waits for its end; when such a thread is slow, those that look
    for logged lines fail, although the program does what it should. *)

From S2P Require Import Prelude Str Path Unit Foreign Config Events Broadcaster Env Samples Descriptions.
From S2P Require Import Interface Trigger Logger Jig Test Scenario Manager System Library Main.

(** ** The harness *)

Section exclave.
Context `{Libraries} `{DependyLib} `{Env} `{Files}.

(** What a command does when it is run, and which threads of a unit's command
    are slow. *)
Context (shell : string -> Behaviour) (slow : UnitName -> nat -> bool).

(** [ex_slow] are the threads that will act when nothing else can. *)
Record Exclave := mkExclave {
  ex_bus : Bus;
  ex_receiver : nat;
  ex_library : Library;
  ex_slow : list (UnitName * Thread);
}.

#[export] Instance eta_Exclave : Eta Exclave := mkEta _ (fun r =>
  mkExclave (ex_bus r) (ex_receiver r) (ex_library r) (ex_slow r)).

(** [Exclave::new(None)] *)
Definition exclave_new : Exclave :=
  let '(receiver, broadcaster) := subscribe bus_new in
  mkExclave broadcaster receiver (library_new (mkIO config_new 0 [])) [].

Definition ex_manager {A} (op : MM A) (ex : Exclave) : outcome (A * Exclave) :=
  r ← on_manager op (ex_library ex); Done (r.1, ex <| ex_library := r.2 |>).

(** [from_string(...).unwrap()], and [load_...(&desc).unwrap()]. *)
Definition unwrap_ok {E A} (r : result E A) : outcome A :=
  match r with Ok a => Done a | Err _ => Panic "called `Result::unwrap()` on an `Err` value" end.

Definition add {D} (load : D -> MM (result UnitIncompatibleReason UnitName)) (desc : result UnitDescriptionError D)
    (ex : Exclave) : outcome Exclave :=
  d ← unwrap_ok desc; r ← ex_manager (load d) ex; _ ← unwrap_ok r.1; Done r.2.

Definition add_unit (name : UnitName) (unit_text : string) (ex : Exclave) : outcome Exclave :=
  let path := "test/config" in
  match un_kind name with
  | UnitKind.Test => add (load_test 4) (test_from_string unit_text name path) ex
  | UnitKind.Jig => add (load_jig 4 0) (jig_from_string unit_text name path) ex
  | UnitKind.Scenario => add (load_scenario 4) (scenario_from_string unit_text name path) ex
  | _ => Panic "not implemented"
  end.

Definition put_event (e : UnitEvent) (ex : Exclave) : Exclave := ex <| ex_bus ::= broadcast e |>.

Definition ex_rescan (ex : Exclave) : Exclave := put_event Event.RescanRequest ex.

Definition start_scenario (name : UnitName) (ex : Exclave) : Exclave :=
  put_event (Event.ManagerRequest (mkCtrl name (Ctrl.StartScenario (Some name)))) ex.

(** Threads run one after the other, those that they fork last. *)
Fixpoint run_threads (fuel : nat) (r : Running) : Running :=
  match fuel with
  | 0 => r
  | S fuel => match ru_threads r with
              | [] => r
              | th :: ths => run_threads fuel (foldl (flip do_action) (r <| ru_threads := ths |>) th)
              end
  end.

Definition told_by (id : UnitName) (ths : list Thread) : list UnitEvent :=
  (fun c => Event.ManagerRequest (mkCtrl id c)) <$> ru_sent (run_threads 100 (mkRunning None "" [] ths)).

Definition put_events (es : list UnitEvent) (ex : Exclave) : Exclave := foldl (flip put_event) ex es.

Definition threads_of (ex : Exclave) (id : UnitName) (cmd : string) : list Thread :=
  match m_tests (lb_manager (ex_library ex)) !! id with
  | Some t => spawned (te_desc t) (shell cmd)
  | None => support_threads "" cmd (shell cmd)
  end.

(** What the library puts out goes to the bus, and the threads of a command that
    it starts act. *)
Definition put_out (ex : Exclave) (o : Out) : Exclave :=
  match o with
  | Send m => put_event (Event.ManagerRequest m) ex
  | Broadcast e => put_event e ex
  | Spawn id cmd _ _ =>
    let ths := imap pair (threads_of ex id cmd) in
    let '(late, now) := (filter (fun t => slow id t.1) ths, filter (fun t => ~ slow id t.1) ths) in
    put_events (told_by id now.*2) (ex <| ex_slow ::= fun l => l ++ (pair id <$> late.*2) |>)
  | _ => ex
  end.

(** When no message is there the slow threads act. *)
Definition unblock (ex : Exclave) : Exclave :=
  match queue_of (ex_bus ex) (ex_receiver ex) with
  | [] => foldl (fun ex t => put_events (told_by t.1 [t.2]) ex) (ex <| ex_slow := [] |>) (ex_slow ex)
  | _ => ex
  end.

(** [run_once]; nothing, when it would wait for ever. *)
Definition run_once (ex : Exclave) : outcome (option (UnitEvent * Exclave)) :=
  let ex := unblock ex in
  match chan_recv (ex_receiver ex) (ex_bus ex) with
  | Some (msg, b) =>
    r ← library_process_message 4 0 msg (ex_library ex);
    Done (Some (msg, foldl put_out (ex <| ex_bus := b |> <| ex_library := r.2 |>) (new_outputs (ex_library ex) r.2)))
  | None => Done None
  end.

(** How a test ends: it returns, an assertion fails, the program panics, or it
    waits for ever. *)
Inductive Verdict := Passed | Failed | Panicked (msg : string) | Waits.

(** The loops of the tests: each looks at every message that was handled, with
    what it has seen. *)
Fixpoint watch {A} (fuel : nat) (look : A -> UnitEvent -> A + Verdict) (seen : A) (ex : Exclave) : Verdict :=
  match fuel with
  | 0 => Waits
  | S fuel =>
    match run_once ex with
    | Done (Some (msg, ex)) => match look seen msg with inl seen => watch fuel look seen ex | inr v => v end
    | Done None => Waits
    | Panic msg => Panicked msg
    | OutOfFuel => Waits
    end
  end.

Definition wait_for_deactivate (fuel : nat) (name : UnitName) : Exclave -> Verdict :=
  watch fuel (fun _ msg =>
    match msg with
    | Event.ManagerRequest (mkCtrl sender_name (Ctrl.ScenarioFinished _ _)) =>
      inr (if bool_decide (sender_name = name) then Passed else Failed)
    | _ => inl tt
    end) tt.

(** A scenario was deactivated before the lines were found. *)
Definition too_late (msg : UnitEvent) : bool :=
  match msg with
  | Event.Status (mkStatusEvent n (UnitStatus.DeactivatedSuccessfully _)) => bool_decide (un_kind n = UnitKind.Scenario)
  | _ => false
  end.

Definition logged (msg : UnitEvent) (name : UnitName) (line : string) : bool :=
  match msg with
  | Event.ManagerRequest (mkCtrl sender_name (Ctrl.Log text)) => bool_decide (sender_name = name /\ text = line)
  | _ => false
  end.

(** The loop of the tests of [ExecStop]. *)
Definition look_for (name : UnitName) (line : string) (_ : unit) (msg : UnitEvent) : unit + Verdict :=
  if logged msg name line then inr Passed else if too_late msg then inr Failed else inl tt.

Definition verdict (setup : outcome Exclave) (look : Exclave -> Verdict) : Verdict :=
  match setup with Done ex => look ex | Panic msg => Panicked msg | OutOfFuel => Waits end.
End exclave.

(** ** The tests *)

Module Suite.

#[export] Instance libs : Libraries := sample_libraries.
#[export] Existing Instance sample_dependy.
#[export] Existing Instance sample_env.
#[export] Instance files : Files := files_with [].

Definition line (s : string) : string := s +:+ str1 c_lf.

Definition GENERIC_JIG : string :=
  line "" +:+ line "[Jig]" +:+ line "Name=Generic Jig" +:+ line "Description=Generic, all-purpose jig".

Definition THREE_TEST_SCENARIO : string :=
  line "" +:+ line "[Scenario]" +:+ line "Name=Simple Scenario" +:+ line "Description=Just run three tests" +:+
  line "Tests=test1, test2, test3" +:+ line "Timeout=200".

(** The command, for Unix; the delay as it is printed. *)
Definition oneliner_write_sleep_write_exit (start : string) (delay : option string) (stop : string) (ret : option Z) : string :=
  let retcode := default 0%Z ret in
  match delay with
  | Some d => "/bin/sh -c " +:+ str1 c_quote +:+ "echo '" +:+ start +:+ "'; sleep " +:+ d +:+ "; echo '" +:+ stop +:+
      "'; exit " +:+ pretty retcode +:+ str1 c_quote
  | None => "/bin/sh -c " +:+ str1 c_quote +:+ "echo '" +:+ start +:+ "'; echo '" +:+ stop +:+
      "'; exit " +:+ pretty retcode +:+ str1 c_quote
  end.

Definition make_sleep_test (start : string) (delay : option string) (stop : string) (ret : option Z) : string :=
  line "[Test]" +:+ line "Name=Sleep and exit" +:+ line "Description=Write something, sleep for a bit, then exit" +:+
  line ("ExecStart=" +:+ oneliner_write_sleep_write_exit start delay stop ret).

(** What such a command does, among those of a test. *)
Definition shell (cmds : list (string * option string * string * option Z)) (cmd : string) : Behaviour :=
  match List.find (fun '(start, delay, stop, ret) => String.eqb cmd (oneliner_write_sleep_write_exit start delay stop ret)) cmds with
  | Some (start, _, stop, ret) => mkBehaviour [Ok start; Ok stop] [] (default 0%Z ret)
  | None => mkBehaviour [] [] 127
  end.

Definition jig_name (n : string) : UnitName := mkName n UnitKind.Jig.
Definition scenario_name (n : string) : UnitName := mkName n UnitKind.Scenario.
Definition test_name (n : string) : UnitName := mkName n UnitKind.Test.

(** The threads of a command are its log of the output, that of the errors, and
    the one that waits for its end. *)
Definition punctual (id : UnitName) (i : nat) : bool := false.
Definition slow_errors (id : UnitName) (i : nat) : bool := bool_decide (i = 1).
Definition slow_waiter (id : UnitName) (i : nat) : bool := bool_decide (i = 2).
Definition slow_log (id : UnitName) (i : nat) : bool := bool_decide (i = 0).

Definition load_dependency : bool :=
  match add_unit (jig_name "generic") GENERIC_JIG exclave_new with
  | Done ex => jig_is_loaded (lb_manager (ex_library (ex_rescan ex))) (jig_name "generic")
  | _ => false
  end.

Definition three_name : UnitName := scenario_name "three".

Definition add_test (n : string) : Exclave -> outcome Exclave :=
  add_unit (test_name ("test" +:+ n)) (make_sleep_test ("test" +:+ n +:+ "-start") None ("test" +:+ n +:+ "-end") None).

Definition three_tests : outcome Exclave :=
  ex ← add_test "1" exclave_new; ex ← add_test "2" ex; ex ← add_test "3" ex;
  ex ← add_unit three_name THREE_TEST_SCENARIO ex; Done (start_scenario three_name (ex_rescan ex)).

Definition basic_scenario (slow : UnitName -> nat -> bool) : Verdict :=
  let test n := ("test" +:+ n +:+ "-start", None, "test" +:+ n +:+ "-end", None) in
  verdict three_tests (wait_for_deactivate (shell [test "1"; test "2"; test "3"]) slow 100 three_name).

Definition exec_scenario (tests : string) (directives : list (string * string)) : string :=
  line "[Scenario]" +:+ line "Name=Exec Stop Test" +:+ line "Description=Run something on stop" +:+
  line ("Tests=" +:+ tests) +:+ String.concat "" ((fun d => line (d.1 +:+ "=" +:+ d.2)) <$> directives).

(** A scenario of [simpletest] with commands at its end. *)
Definition exec_stop_test (slow : UnitName -> nat -> bool) (name : string) (ret : option Z)
    (directives : list (string * string)) (ending : string) : Verdict :=
  let exec_stop := scenario_name name in
  let command which := ("cmd-starting" +:+ which, Some "1", "cmd-ending" +:+ which, @None Z) in
  let text which := oneliner_write_sleep_write_exit ("cmd-starting" +:+ which) (Some "1") ("cmd-ending" +:+ which) None in
  verdict (
    ex ← add_unit (test_name "simpletest") (make_sleep_test "begin" None "end" ret) exclave_new;
    ex ← add_unit exec_stop (exec_scenario "simpletest" ((fun d => (d.1, text d.2)) <$> directives)) ex;
    Done (start_scenario exec_stop (ex_rescan ex)))
    (watch (shell [("begin", None, "end", ret); command ""; command "-success"; command "-failure"]) slow 100
      (look_for exec_stop ("cmd-ending" +:+ ending)) tt).

Definition scenario_execstop slow : Verdict := exec_stop_test slow "execstop" None [("ExecStop", "")] "".
Definition scenario_execstopsuccess slow : Verdict :=
  exec_stop_test slow "execstopsuccess" None [("ExecStopSuccess", "-success"); ("ExecStopFailure", "-failure")] "-success".
Definition scenario_execstopfailure slow : Verdict :=
  exec_stop_test slow "execstopfailure" (Some 1%Z) [("ExecStopSuccess", "-success"); ("ExecStopFailure", "-failure")] "-failure".

(** [Requires=]: the last line of the test that is required is logged before the
    first of the other. *)
Definition test_requires (slow : UnitName -> nat -> bool) : Verdict :=
  let scenario := scenario_name "scenario" in
  let master_name := test_name "master" in
  let dependent_name := test_name "dependent" in
  verdict (
    ex ← add_unit dependent_name (make_sleep_test "begin-dependent" None "end-dependent" None) exclave_new;
    ex ← add_unit master_name (make_sleep_test "begin-master" None "end-master" None +:+ str1 c_lf +:+ "Requires=dependent") ex;
    ex ← add_unit scenario (exec_scenario "master" []) ex;
    Done (start_scenario scenario (ex_rescan ex)))
    (watch (shell [("begin-dependent", None, "end-dependent", None); ("begin-master", None, "end-master", None)]) slow 100
      (fun (dependent_seen : bool) msg =>
        if logged msg dependent_name "end-dependent" then if dependent_seen then inr Failed else inl true
        else if logged msg master_name "begin-master" then inr (if dependent_seen then Passed else Failed)
        else if too_late msg then inr Failed else @inl bool Verdict dependent_seen) false).

Definition suite (slow : UnitName -> nat -> bool) : list Verdict :=
  [basic_scenario slow; scenario_execstop slow; scenario_execstopsuccess slow; scenario_execstopfailure slow; test_requires slow].

Lemma load_dependency_passes : load_dependency = true.
Proof. vm_compute. reflexivity. Qed.

(** All pass when the output of a command is logged before its end is noticed. *)
Lemma suite_passes slow : slow ∈ [punctual; slow_errors; slow_waiter] -> suite slow = replicate 5 Passed.
Proof. intros Hs. repeat (apply elem_of_cons in Hs as [->|Hs]; [vm_compute; reflexivity|]). by apply not_elem_of_nil in Hs. Qed.

(** A scenario goes on when a command has ended, not when its output is logged:
    the tests that wait for a line fail when its thread is slow. *)
Lemma slow_log_fails : suite slow_log = Passed :: replicate 4 Failed.
Proof. vm_compute. reflexivity. Qed.

End Suite.
