(* ===== verification/Stale.v ===== *)
(** * A result that comes late

    The manager gives a result to the current scenario, whichever that is.  When
    the file of a running scenario is edited, the rescan stops its test and loads
    the scenario anew; the end of the test's command is then the result that
    starts the new scenario, which nobody asked for. *)

From S2P Require Import Prelude Str Path Unit Foreign Config Events Env Samples Descriptions Interface Trigger Logger Jig Test Scenario ScenarioProps ScenarioTheorems Manager ManagerProps ManagerSafety ManagerFrames ManagerTheorems.
From S2P Require Import Library LibraryProps LibraryIdle LibraryTheorems Quiesce Loader Main.

Section stale.
Context `{Libraries} `{DependyLib} `{Env} `{!EnvLaws} `{!DependyLaws}.
Implicit Types w : Manager.

(** An idle scenario with a start command runs it. *)
Lemma advance_idle_command (sw : ScW) u code cmd : sc_state (w_sc sw) = ScenarioState.Idle ->
  sd_exec_start (sc_description (w_sc sw)) = Some cmd ->
  advance u code sw = run_support_cmd cmd (sd_exec_start_timeout (sc_description (w_sc sw))) "execstart"
    (sw <| w_sc ::= set_with sc_state (fun _ => ScenarioState.PreStart) |>).
Proof.
  destruct sw as [s cfg tick out]. simpl. intros Hidle Hcmd.
  unfold advance, sc_get, gets, mbind, M_bind. simpl. rewrite Hidle. simpl.
  assert (exists n, next_fuel s = S n) as [n ->] by (unfold next_fuel; exists (size (sc_tests s) + 4); lia).
  simpl. unfold sc_get, gets, mbind, M_bind, liftO, sc_modify, modify, mret, M_ret, unwrap, id. simpl. rewrite Hcmd. simpl.
  unfold enter_state, sc_get, gets, mbind, M_bind, unwrap. simpl. by rewrite Hcmd.
Qed.

(** What [run_support_cmd] puts under way. *)
Lemma support_cmd_started (sw : ScW) cmd timeout name : exists sw' os,
  run_support_cmd cmd timeout name sw = Done (tt, sw') /\ w_out sw' = w_out sw ++ os /\
  sc_state (w_sc sw') = sc_state (w_sc sw) /\ started os = [] /\
  if is_ok (env_start (w_tick sw) cmd timeout (Some (sc_support_wd (w_sc sw))))
  then Spawn (sc_id (w_sc sw)) cmd timeout (sc_support_wd (w_sc sw)) ∈ os
  else Send (mkCtrl (sc_id (w_sc sw)) (Ctrl.AdvanceScenario 1)) ∈ os.
Proof.
  unfold run_support_cmd, sc_get, gets, send, modify, mbind, M_bind. simpl.
  destruct (env_start (w_tick sw) cmd timeout _) as [[]|e]; simpl; (eexists _, _; split; [reflexivity|]); simpl;
    rewrite <- ?app_assoc; (split; [reflexivity|]); (split_and!; [done|done|]); set_solver.
Qed.

(** An idle scenario without one goes to its first test, if its time is not
    limited. *)
Lemma next_first_test s new s' os : next ScenarioState.Idle s new s' os ->
  sd_exec_start (sc_description s) = None -> sd_timeout (sc_description s) = None ->
  is_fail (sc_exec_start_state s) = false -> state_at s 0 = Some TestState.Pending -> new = ScenarioState.Running 0.
Proof.
  intros Hn Hcmd Ht He Hp.
  assert (forall b s1 os1, okay_spec s ScenarioState.PreStart b s1 os1 -> b = false /\ s1 = s) as Hpre.
  { intros b s1 os1 Hok. inversion Hok as [Hacc| |]; subst; [|done..]. destruct Hacc as [cmd Hacc]. congruence. }
  assert (forall b s1 os1, okay_spec s (ScenarioState.Running 0) b s1 os1 -> b = true) as Hrun.
  { intros b s1 os1 Hok. inversion Hok as [|[?|[?|?]]|i t j x Heq _ _ Hj]; subst; try congruence. injection Heq as <-. lia. }
  inversion Hn as [cur s0 mid s1 os1 Hc Hok|cur s0 mid s1 os1 new0 s2 os2 Hc Hok Hn2]; subst;
    injection Hc as <-; apply Hpre in Hok as [? ->]; [done|].
  inversion Hn2 as [cur s0 mid s1 os3 Hc Hok|cur s0 mid s1 os3 new0 s2 os4 Hc Hok Hn3]; subst;
    injection Hc as <-; [done|]. by apply Hrun in Hok.
Qed.

Lemma advanced_first_test s s' os : advanced s s' os -> sc_wf s -> sc_state s = ScenarioState.Idle ->
  sd_exec_start (sc_description s) = None -> sd_timeout (sc_description s) = None ->
  sc_state s' = ScenarioState.Running 0.
Proof.
  intros Hadv Hwf Hidle Hcmd Ht. destruct Hadv as [s1 new s2 s3 os1 os2 os3 Hr Hsil Hn Hent].
  destruct (recorded_pre _ _ Hr Hwf) as (Hf & Hd & Hin). destruct Hr as [Ha Hs1 _ Hst Hex].
  destruct (next_inv _ _ _ _ _ Hn Hs1 Hd Hf Hin) as (_ & _ & _ & Hst2 & _).
  rewrite Hidle in Hn, Hd, Hex. assert (new = ScenarioState.Running 0) as ->; [|by destruct Hent].
  apply (next_first_test _ _ _ _ Hn); rewrite ?(ag_description _ _ Ha); [done|done| |].
  - rewrite Hex by done. rewrite (wf_exec _ Hwf); [done|by left].
  - apply (dy_pending _ _ Hd). simpl. rewrite test_sequence_length.
    pose proof (st_nonempty _ Hs1). destruct (sc_test_sequence s1); simpl; [done|lia].
Qed.

(** (C35) A late result starts a scenario that nobody asked for: the current
    scenario is idle and not active, and a result arrives, of any unit and with
    any code.  If the scenario has a start command, it is now in the state before
    its tests, and the command was started or, where it could not be, its failure
    is under way as the next result.  If it has none and its time is not limited,
    it is at its first test, and this test, and no other, is asked for.  The
    scenario still counts as inactive. *)
Theorem late_result_starts_scenario depth w p s sender code : mgr_inv w -> m_current_scenario w = Some p ->
  m_heap w !! p = Some s -> sc_state s = ScenarioState.Idle -> sc_id s ∉ m_active w ->
  exists w' s' os, process_message depth (Event.ManagerRequest (mkCtrl sender (Ctrl.AdvanceScenario code))) w = Done (tt, w') /\
    m_current_scenario w' = Some p /\ m_heap w' !! p = Some s' /\ sc_id s ∉ m_active w' /\
    io_out (m_io w') = io_out (m_io w) ++ os /\
    match sd_exec_start (sc_description s) with
    | Some cmd =>
      let timeout := sd_exec_start_timeout (sc_description s) in
      sc_state s' = ScenarioState.PreStart /\ started os = [] /\
      if is_ok (env_start (io_tick (m_io w)) cmd timeout (Some (sc_support_wd s)))
      then Spawn (sc_id s) cmd timeout (sc_support_wd s) ∈ os
      else Send (mkCtrl (sc_id s) (Ctrl.AdvanceScenario 1)) ∈ os
    | None =>
      sd_timeout (sc_description s) = None ->
      sc_state s' = ScenarioState.Running 0 /\
      exists first, test_sequence s !! 0 = Some first /\ started os = [first]
    end.
Proof.
  intros Hinv Hp Hs Hidle Hact. destruct (mi_ok w Hinv p s Hs) as [Hwf _].
  destruct (sd_exec_start (sc_description s)) as [cmd|] eqn:Hcmd.
  - pose proof (advance_idle_command (scw s (m_io w)) sender code cmd Hidle Hcmd) as Hadv.
    match type of Hadv with _ = run_support_cmd _ ?t ?n ?sw =>
      destruct (support_cmd_started sw cmd t n) as (sw' & os & Hrun & Hout & Hst & Hnone & Hunder) end.
    rewrite Hrun in Hadv. pose proof (advance_request_done depth sender code w p s sw' Hinv Hp Hs Hadv) as Hmsg.
    eexists _, (w_sc sw'), os. split; [exact Hmsg|]. split_and!; try done. apply lookup_insert_eq.
  - destruct (advance_request_step depth sender code w p s Hinv Hp Hs) as (s' & tick & os & Ha & Hrun & _).
    destruct (advanced_outputs _ _ _ Ha Hwf) as (_ & Hst & _). destruct (advanced_inv _ _ _ Ha Hwf) as (Hag & _).
    eexists _, s', os. split; [exact Hrun|]. split_and!; try done; [apply lookup_insert_eq|]. intros Ht.
    pose proof (advanced_first_test _ _ _ Ha Hwf Hidle Hcmd Ht) as Hrun0. split; [done|].
    rewrite Hst, Hrun0, (ag_sequence _ _ Hag). unfold test_sequence. rewrite list_lookup_fmap.
    pose proof (st_nonempty _ (wf_static _ Hwf)). destruct (sc_test_sequence s) as [|t ts]; [done|]. by exists (rc_id t).
Qed.
End stale.

(** ** The file of a running scenario is edited *)

Module SampleStale.
Import LibraryTheorems.SampleLibrary SampleMain.

Definition request (sender : UnitName) (c : ManagerControlMessageContents) : UnitEvent := Event.ManagerRequest (mkCtrl sender c).

(** The operator starts the scenario, and its test runs. *)
Definition e0 : Library := after (request s (Ctrl.StartScenario None)) rested.
Definition e1 : Library := after (request s (Ctrl.AdvanceScenario 0)) e0.
Definition e2 : Library := after (request s (Ctrl.StartTest a)) e1.
(** The file changes, and a rescan follows, which stops the test. *)
Definition e3 : Library := after (Event.Status (mkStatusEvent s (UnitStatus.UpdateStarted "/units/s.scenario"))) e2.
Definition e4 : Library := after Event.RescanRequest e3.

Lemma e4_reachable : lib_reachable 4 0 e4.
Proof.
  assert (lib_reachable 4 0 e2) as He2.
  { repeat (apply after_reachable; [|by split]). exact rested_reachable. }
  apply after_reachable; [apply after_reachable; [exact He2|]|].
  - split; [by vm_compute|exact readable_s].
  - apply small_by_size. by vm_compute.
Qed.

Lemma e4_stops : Terminate a None ∈ new_outputs e3 e4.
Proof. apply (list_elem_of_lookup_2 _ 3). vm_compute. reflexivity. Qed.

(** The scenario of the new file is current, idle and not active. *)
Lemma idle_current w : (p ← m_current_scenario w; sc ← m_heap w !! p;
    Some (sc_state sc, sc_id sc, bool_decide (sc_id sc ∈ m_active w))) = Some (ScenarioState.Idle, s, false) ->
  exists p sc, m_current_scenario w = Some p /\ m_heap w !! p = Some sc /\ sc_state sc = ScenarioState.Idle /\
    sc_id sc = s /\ sc_id sc ∉ m_active w.
Proof.
  destruct (m_current_scenario w) as [p|] eqn:Hp; [|done]. simpl. destruct (m_heap w !! p) as [sc|] eqn:Hs; [|done].
  intros [= Hi Hid Ha%bool_decide_eq_false]. by exists p, sc.
Qed.

(** It has no start command and no time limit. *)
Lemma current_parts w p sc : (p ← m_current_scenario w; sc ← m_heap w !! p;
    Some (sd_exec_start (sc_description sc), sd_timeout (sc_description sc), test_sequence sc)) = Some (None, None, [a]) ->
  m_current_scenario w = Some p -> m_heap w !! p = Some sc ->
  sd_exec_start (sc_description sc) = None /\ sd_timeout (sc_description sc) = None /\ test_sequence sc = [a].
Proof. intros Hall Hp Hs. rewrite Hp in Hall. simpl in Hall. rewrite Hs in Hall. by injection Hall. Qed.

(** The end of the test that was stopped starts it. *)
Lemma late_result_starts_scenario_witness : exists w' p sc' os,
  process_message 4 (request a (Ctrl.AdvanceScenario 0)) (lb_manager e4) = Done (tt, w') /\
  m_heap w' !! p = Some sc' /\ sc_state sc' = ScenarioState.Running 0 /\ s ∉ m_active w' /\
  io_out (m_io w') = io_out (m_io (lb_manager e4)) ++ os /\ started os = [a].
Proof.
  destruct (idle_current (lb_manager e4)) as (p & sc & Hp & Hs & Hi & Hid & Ha); [vm_compute; reflexivity|].
  destruct (current_parts (lb_manager e4) p sc) as (Hcmd & Ht & Hseq); [vm_compute; reflexivity|exact Hp|exact Hs|].
  destruct (late_result_starts_scenario 4 (lb_manager e4) p sc a 0) as (w' & sc' & os & Hrun & _ & Hs' & Hno & Hout & Hall).
  - exact (li_manager 0 _ (lib_reachable_inv 4 0 ltac:(lia) _ e4_reachable)).
  - exact Hp.
  - exact Hs.
  - exact Hi.
  - exact Ha.
  - rewrite Hcmd in Hall. destruct (Hall Ht) as (Hst & first & Hfirst & Hone). rewrite Hseq in Hfirst.
    injection Hfirst as <-. rewrite Hid in Hno.
    exact (ex_intro _ w' (ex_intro _ p (ex_intro _ sc' (ex_intro _ os (conj Hrun (conj Hs' (conj Hst (conj Hno (conj Hout Hone))))))))).
Defined.

End SampleStale.
